(** * beads (Python port): the storage and synchronisation core

    A shallow embedding of the issue tracker's core:
    - [models.py]: the [Issue] dataclass, its canonical content hash and
      its validation;
    - [id_gen.py]: hierarchical identifiers and the depth check;
    - [storage/schema.py], [storage/sqlite_store.py]: the SQLite store, as
      tables of typed rows with the schema's CHECK and FOREIGN KEY
      constraints written out;
    - [importer.py], [export.py]: the JSONL importer and exporter.
    - [utils.py], [commands/create.py]: the id helpers, and the id
      [create] gives a new issue.

    Conventions.
    - A Python [str] is the [string] of its UTF-8 bytes, so
      [s.encode("utf-8")] is the identity; [py_len] counts code points.
    - A call that may raise returns a [PyResult]; store operations run in
      the monad [DB], which keeps the store reached when an exception
      propagates (sqlite3 does not roll back on its own).
    - [hashlib.sha256] is the FIPS 180-4 function, written out over [Z]
      with 32-bit wrap-around. *)

From Stdlib Require Import ZArith List String Ascii Lia Bool.
From Stdlib Require Import DecimalString.
From Stdlib Require Floats.SpecFloat.
From Stdlib Require DecimalPos DecimalZ.
From stdpp Require Import base tactics option list strings gmap.
Import ListNotations.

Open Scope string_scope.
Open Scope Z_scope.

(* ================================================================== *)
(** * Python exceptions and results *)
(* ================================================================== *)

(** The exception classes the modelled code raises or lets through. *)
Inductive PyExn : Type :=
  | ValueError (msg : string)
  | AttributeError (msg : string)
  | TypeError (msg : string)
  | IntegrityError (msg : string)
  | OverflowError (msg : string)
  | JSONError (msg : string)
  | OSError (msg : string)
  | SystemExit (code : Z) (stderr : string).

Inductive PyResult (A : Type) : Type :=
  | Ok (a : A)
  | Raise (e : PyExn).
Arguments Ok {A} a.
Arguments Raise {A} e.

Definition is_ok {A} (r : PyResult A) : bool :=
  match r with Ok _ => true | Raise _ => false end.

#[export] Instance PyResult_ret : MRet PyResult := fun A a => Ok a.
#[export] Instance PyResult_bind : MBind PyResult := fun A B f m =>
  match m with Ok a => f a | Raise e => Raise e end.
#[export] Instance PyResult_fmap : FMap PyResult := fun A B f m =>
  match m with Ok a => Ok (f a) | Raise e => Raise e end.

(* ================================================================== *)
(** * Strings *)
(* ================================================================== *)

Module Str.

(** [str(n)] for an [int]. *)
Definition of_Z (n : Z) : string := NilZero.string_of_int (Z.to_int n).

Definition digit_char (d : Z) : ascii := ascii_of_N (Z.to_N (48 + d)).

(** The [k] low decimal digits of [n], most significant first (zero padded). *)
Fixpoint pad_digits (k : nat) (n : Z) : string :=
  match k with
  | O => EmptyString
  | S k' => pad_digits k' (n / 10) +:+ String (digit_char (n mod 10)) EmptyString
  end.

Definition byte_of (a : ascii) : Z := Z.of_N (N_of_ascii a).

Definition bytes (s : string) : list Z := map byte_of (list_ascii_of_string s).

(** [len(s)]: code points, i.e. the bytes that are no UTF-8 continuation
    byte (10xxxxxx). *)
Definition is_continuation (a : ascii) : bool :=
  Z.eqb (Z.land (byte_of a) 192) 128.

Fixpoint py_len (s : string) : Z :=
  match s with
  | EmptyString => 0
  | String a s' => (if is_continuation a then 0 else 1) + py_len s'
  end.

(** SQLite's [length(X)] on TEXT: the code points before the first NUL. *)
Fixpoint sql_length (s : string) : Z :=
  match s with
  | EmptyString => 0
  | String a s' =>
      if Ascii.eqb a zero then 0
      else (if is_continuation a then 0 else 1) + sql_length s'
  end.

(** [needle in s]. *)
Fixpoint contains (needle s : string) : bool :=
  String.prefix needle s ||
  match s with
  | EmptyString => false
  | String _ s' => contains needle s'
  end.

(** [s.count(c)] for a one-character [c]. *)
Fixpoint count_char (c : ascii) (s : string) : Z :=
  match s with
  | EmptyString => 0
  | String a s' => (if Ascii.eqb a c then 1 else 0) + count_char c s'
  end.

(** [s.split(c)] for a one-character separator. *)
Fixpoint split (c : ascii) (s : string) : list string :=
  match s with
  | EmptyString => [EmptyString]
  | String a s' =>
      if Ascii.eqb a c then EmptyString :: split c s'
      else match split c s' with
           | [] => [String a EmptyString]
           | p :: ps => String a p :: ps
           end
  end.

Definition is_ascii_digit (a : ascii) : bool :=
  (48 <=? byte_of a) && (byte_of a <=? 57).

Fixpoint all_chars (p : ascii -> bool) (s : string) : bool :=
  match s with
  | EmptyString => true
  | String a s' => p a && all_chars p s'
  end.

(** [s.isdigit()], on ASCII: non-empty and decimal digits only. *)
Definition isdigit (s : string) : bool :=
  match s with
  | EmptyString => false
  | _ => all_chars is_ascii_digit s
  end.

(** [s[:n]]. *)
Fixpoint take (n : nat) (s : string) : string :=
  match n, s with
  | S n', String a s' => String a (take n' s')
  | _, _ => EmptyString
  end.

(** Truthiness of a [str]. *)
Definition nonempty (s : string) : bool :=
  match s with EmptyString => false | _ => true end.

End Str.

(** [x or d] where [x] is a [str]. *)
Definition str_or (s d : string) : string := if Str.nonempty s then s else d.

(* ================================================================== *)
(** * hashlib.sha256 *)
(* ================================================================== *)

Module SHA256.

Definition w32 (x : Z) : Z := x mod 4294967296.
Definition add32 (x y : Z) : Z := w32 (x + y).
Definition rotr (n x : Z) : Z :=
  Z.lor (Z.shiftr x n) (w32 (Z.shiftl x (32 - n))).
Definition not32 (x : Z) : Z := Z.lxor x 4294967295.

Definition Ch (x y z : Z) : Z := Z.lxor (Z.land x y) (Z.land (not32 x) z).
Definition Maj (x y z : Z) : Z :=
  Z.lxor (Z.lxor (Z.land x y) (Z.land x z)) (Z.land y z).
Definition Sigma0 (x : Z) : Z := Z.lxor (Z.lxor (rotr 2 x) (rotr 13 x)) (rotr 22 x).
Definition Sigma1 (x : Z) : Z := Z.lxor (Z.lxor (rotr 6 x) (rotr 11 x)) (rotr 25 x).
Definition sigma0 (x : Z) : Z := Z.lxor (Z.lxor (rotr 7 x) (rotr 18 x)) (Z.shiftr x 3).
Definition sigma1 (x : Z) : Z := Z.lxor (Z.lxor (rotr 17 x) (rotr 19 x)) (Z.shiftr x 10).

(** The first [n] primes from 2 on, found among the numbers below [bound]. *)
Definition is_prime (n : Z) : bool :=
  forallb (fun d => negb (n mod Z.of_nat d =? 0)) (seq 2 (Z.to_nat n - 2)).

Definition primes (n bound : nat) : list Z :=
  firstn n (List.filter is_prime (map Z.of_nat (seq 2 bound))).

(** The integer cube root of a number below [2^108], bit by bit. *)
Definition icbrt (n : Z) : Z :=
  fold_left (fun r b => let c := r + 2 ^ Z.of_nat b in if c * c * c <=? n then c else r)
            (rev (seq 0 36)) 0.

(** The round constants: the first 32 bits of the fractional parts of the
    cube roots of the first 64 primes. *)
Definition K : list Z :=
  Eval vm_compute in map (fun p => w32 (icbrt (p * 2 ^ 96))) (primes 64 320).

(** The eight working variables / the chaining value. *)
Record state := State {
  ha : Z; hb : Z; hc : Z; hd : Z; he : Z; hf : Z; hg : Z; hh : Z }.

(** The initial value: the first 32 bits of the fractional parts of the
    square roots of the first 8 primes. *)
Definition H0 : state :=
  Eval vm_compute in
    match map (fun p => w32 (Z.sqrt (p * 2 ^ 64))) (primes 8 20) with
    | [a; b; c; d; e; f; g; h] => State a b c d e f g h
    | _ => State 0 0 0 0 0 0 0 0
    end.

(** Message padding: 0x80, zeros up to 56 mod 64, the bit length on 64 bits. *)
Definition be_bytes (n : nat) (x : Z) : list Z :=
  map (fun i => (Z.shiftr x (8 * Z.of_nat i)) mod 256) (rev (seq 0 n)).

Definition pad (msg : list Z) : list Z :=
  let l := Z.of_nat (length msg) in
  let zeros := Z.to_nat ((55 - l) mod 64) in
  msg ++ [128] ++ repeat 0 zeros ++ be_bytes 8 (8 * l).

Fixpoint words_of (n : nat) (bs : list Z) : list Z :=
  match n, bs with
  | S n', b0 :: b1 :: b2 :: b3 :: bs' =>
      (b0 * 16777216 + b1 * 65536 + b2 * 256 + b3) :: words_of n' bs'
  | _, _ => []
  end.

(** The message schedule, newest word first: [extend n ws] adds [n] words
    to the reversed window [ws]. *)
Fixpoint extend (n : nat) (ws : list Z) : list Z :=
  match n with
  | O => ws
  | S n' =>
      let w2 := nth 1 ws 0 in
      let w7 := nth 6 ws 0 in
      let w15 := nth 14 ws 0 in
      let w16 := nth 15 ws 0 in
      extend n' (add32 (add32 (sigma1 w2) w7) (add32 (sigma0 w15) w16) :: ws)
  end.

Definition schedule (block : list Z) : list Z :=
  rev (extend 48 (rev (words_of 16 block))).

Definition round (s : state) (kw : Z * Z) : state :=
  let '(k, w) := kw in
  let t1 := add32 (add32 (add32 (hh s) (Sigma1 (he s))) (add32 (Ch (he s) (hf s) (hg s)) k)) w in
  let t2 := add32 (Sigma0 (ha s)) (Maj (ha s) (hb s) (hc s)) in
  State (add32 t1 t2) (ha s) (hb s) (hc s) (add32 (hd s) t1) (he s) (hf s) (hg s).

Definition compress (s : state) (block : list Z) : state :=
  let r := fold_left round (combine K (schedule block)) s in
  State (add32 (ha s) (ha r)) (add32 (hb s) (hb r)) (add32 (hc s) (hc r))
        (add32 (hd s) (hd r)) (add32 (he s) (he r)) (add32 (hf s) (hf r))
        (add32 (hg s) (hg r)) (add32 (hh s) (hh r)).

Fixpoint blocks (n : nat) (bs : list Z) (s : state) : state :=
  match n with
  | O => s
  | S n' => blocks n' (skipn 64 bs) (compress s (firstn 64 bs))
  end.

(** [hashlib.sha256(msg).digest()]: 32 bytes. *)
Definition digest (msg : list Z) : list Z :=
  let p := pad msg in
  let s := blocks (Nat.div (length p) 64) p H0 in
  concat (map (be_bytes 4)
    [ha s; hb s; hc s; hd s; he s; hf s; hg s; hh s]).

Definition hex_char (d : Z) : ascii :=
  if d <? 10 then ascii_of_N (Z.to_N (48 + d)) else ascii_of_N (Z.to_N (87 + d)).

Fixpoint hex (bs : list Z) : string :=
  match bs with
  | [] => EmptyString
  | b :: bs' => String (hex_char (b / 16)) (String (hex_char (b mod 16)) (hex bs'))
  end.

(** [hashlib.sha256(msg).hexdigest()]. *)
Definition hexdigest (msg : string) : string := hex (digest (Str.bytes msg)).

Definition is_lower_hex (a : ascii) : bool :=
  let b := Str.byte_of a in
  ((48 <=? b) && (b <=? 57)) || ((97 <=? b) && (b <=? 102)).

End SHA256.


(* ================================================================== *)
(** * datetime and float values *)
(* ================================================================== *)

Module Str2.

(** [s.endswith(suffix)]. *)
Definition endswith (s suffix : string) : bool :=
  let n := String.length s in
  let k := String.length suffix in
  Nat.leb k n && String.eqb (String.substring (n - k) k s) suffix.

(** [s[:-k]]. *)
Definition drop_last (k : nat) (s : string) : string :=
  String.substring 0 (String.length s - k) s.

End Str2.

(** [datetime.datetime]: the calendar fields and the UTC offset of an
    aware value, in minutes ([None] for a naive one). *)
Module Datetime.

Record t := mk {
  year : Z; month : Z; day : Z;
  hour : Z; minute : Z; second : Z; microsecond : Z;
  tzinfo : option Z }.

Definition offset_text (off : Z) : string :=
  (if off <? 0 then "-" else "+")
  +:+ Str.pad_digits 2 (Z.abs off / 60) +:+ ":" +:+ Str.pad_digits 2 (Z.abs off mod 60).

(** [d.isoformat()]. *)
Definition isoformat (d : t) : string :=
  Str.pad_digits 4 (year d) +:+ "-" +:+ Str.pad_digits 2 (month d) +:+ "-"
  +:+ Str.pad_digits 2 (day d) +:+ "T" +:+ Str.pad_digits 2 (hour d) +:+ ":"
  +:+ Str.pad_digits 2 (minute d) +:+ ":" +:+ Str.pad_digits 2 (second d)
  +:+ (if microsecond d =? 0 then "" else "." +:+ Str.pad_digits 6 (microsecond d))
  +:+ match tzinfo d with None => "" | Some off => offset_text off end.

(** [d.replace(tzinfo=timezone.utc)]. *)
Definition replace_tzinfo_utc (d : t) : t :=
  mk (year d) (month d) (day d) (hour d) (minute d) (second d) (microsecond d) (Some 0).

Definition is_leap (y : Z) : bool :=
  (y mod 4 =? 0) && (negb (y mod 100 =? 0) || (y mod 400 =? 0)).

Definition days_before_month (y m : Z) : Z :=
  nth (Z.to_nat (m - 1)) [0; 31; 59; 90; 120; 151; 181; 212; 243; 273; 304; 334] 0
  + (if (2 <? m) && is_leap y then 1 else 0).

(** [d.toordinal()]: the proleptic Gregorian day number. *)
Definition toordinal (d : t) : Z :=
  let y := year d - 1 in
  y * 365 + y / 4 - y / 100 + y / 400 + days_before_month (year d) (month d) + day d.

(** Microseconds of the wall-clock reading. *)
Definition wall_micros (d : t) : Z :=
  (((toordinal d * 24 + hour d) * 60 + minute d) * 60 + second d) * 1000000
  + microsecond d.

(** [a <= b]: naive values compare by their fields, aware ones by their
    instant; a naive and an aware one do not compare. *)
Definition le (a b : t) : PyResult bool :=
  match tzinfo a, tzinfo b with
  | None, None => Ok (wall_micros a <=? wall_micros b)
  | Some oa, Some ob =>
      Ok (wall_micros a - oa * 60000000 <=? wall_micros b - ob * 60000000)
  | _, _ => Raise (TypeError "can't compare offset-naive and offset-aware datetimes")
  end.

End Datetime.

(** [models.format_timestamp] on a value that is not [None]. *)
Definition format_datetime (dt : Datetime.t) : string :=
  let dt := match Datetime.tzinfo dt with
            | None => Datetime.replace_tzinfo_utc dt
            | Some _ => dt
            end in
  let s := Datetime.isoformat dt in
  if Str2.endswith s "+00:00" then Str2.drop_last 6 s +:+ "Z" else s.

(** [models.format_timestamp]. *)
Definition format_timestamp (dt : option Datetime.t) : option string :=
  match dt with
  | None => None
  | Some d => Some (format_datetime d)
  end.

(** A DATETIME column holds the text [format_timestamp] wrote, and every
    read passes it to [parse_timestamp]; [datetime.fromisoformat] inverts
    [isoformat], so the column is modelled by the datetime its text
    denotes: the written value, made aware in UTC when it was naive.
    Where SQL compares or orders the column, the model compares the
    text ([format_datetime]). *)
Definition stored_datetime (dt : Datetime.t) : Datetime.t :=
  match Datetime.tzinfo dt with
  | None => Datetime.replace_tzinfo_utc dt
  | Some _ => dt
  end.

(** A Python [float]: a binary floating-point number, a signed zero, an
    infinity or a NaN. *)
Module PyFloat.

Definition t := SpecFloat.spec_float.

(** [num / den] rounded to the nearest integer, ties to even. *)
Definition round_half_even (num den : Z) : Z :=
  let q := num / den in
  let r := num mod den in
  if 2 * r <? den then q
  else if den <? 2 * r then q + 1
  else if Z.even q then q else q + 1.

(** [|f| * 10^6], correctly rounded, for a finite non-zero [f = m * 2^e]. *)
Definition scaled (m e : Z) : Z :=
  if 0 <=? e then m * 2 ^ e * 1000000
  else round_half_even (m * 1000000) (2 ^ (- e)).

(** [f"{f:f}"]. *)
Definition format_f (f : t) : string :=
  match f with
  | SpecFloat.S754_nan => "nan"
  | SpecFloat.S754_infinity s => if s then "-inf" else "inf"
  | SpecFloat.S754_zero s => (if s then "-" else "") +:+ "0.000000"
  | SpecFloat.S754_finite s m e =>
      let n := scaled (Z.pos m) e in
      (if s then "-" else "") +:+ Str.of_Z (n / 1000000) +:+ "."
      +:+ Str.pad_digits 6 (n mod 1000000)
  end.

(** What a REAL column gives back: SQLite stores a NaN as NULL. *)
Definition sql_real (f : option t) : option t :=
  match f with
  | Some SpecFloat.S754_nan => None
  | _ => f
  end.

End PyFloat.

(* ================================================================== *)
(** * models.py *)
(* ================================================================== *)

Module Status.
Definition OPEN := "open".
Definition IN_PROGRESS := "in_progress".
Definition BLOCKED := "blocked".
Definition DEFERRED := "deferred".
Definition CLOSED := "closed".
Definition TOMBSTONE := "tombstone".
Definition PINNED := "pinned".
Definition HOOKED := "hooked".
Definition _VALID : list string :=
  [OPEN; IN_PROGRESS; BLOCKED; DEFERRED; CLOSED; TOMBSTONE; PINNED; HOOKED].
Definition is_valid (s : string) : bool := bool_decide (s ∈ _VALID).
End Status.

Module IssueType.
Definition BUG := "bug".
Definition FEATURE := "feature".
Definition TASK := "task".
Definition EPIC := "epic".
Definition CHORE := "chore".
Definition EVENT := "event".
Definition _CORE : list string := [BUG; FEATURE; TASK; EPIC; CHORE].
Definition is_valid (s : string) : bool := bool_decide (s ∈ _CORE).
End IssueType.

Module DepType.
Definition BLOCKS := "blocks".
Definition PARENT_CHILD := "parent-child".
Definition CONDITIONAL_BLOCKS := "conditional-blocks".
Definition WAITS_FOR := "waits-for".
Definition RELATED := "related".
Definition _BLOCKING : list string :=
  [BLOCKS; PARENT_CHILD; CONDITIONAL_BLOCKS; WAITS_FOR].
Definition affects_ready_work (dep_type : string) : bool :=
  bool_decide (dep_type ∈ _BLOCKING).
End DepType.

Module EventType.
Definition CREATED := "created".
Definition UPDATED := "updated".
Definition STATUS_CHANGED := "status_changed".
Definition COMMENTED := "commented".
Definition CLOSED := "closed".
Definition REOPENED := "reopened".
Definition DEPENDENCY_ADDED := "dependency_added".
Definition DEPENDENCY_REMOVED := "dependency_removed".
Definition LABEL_ADDED := "label_added".
Definition LABEL_REMOVED := "label_removed".
End EventType.

Module Dependency.
Record t := mk {
  issue_id : string;
  depends_on_id : string;
  type : string;
  created_at : Datetime.t;
  created_by : string;
  metadata : string;
  thread_id : string }.
End Dependency.

Module Comment.
Record t := mk {
  id : Z;
  issue_id : string;
  author : string;
  text : string;
  created_at : Datetime.t }.
End Comment.

Module Event.
Record t := mk {
  id : Z;
  issue_id : string;
  event_type : string;
  actor : string;
  old_value : option string;
  new_value : option string;
  comment : option string;
  created_at : Datetime.t }.
End Event.

(** A [dict] with string values, as the JSON object it was read from:
    the entity references of the HOP fields. *)
Definition pydict := list (string * string).

(** [d.get(key, "")]. *)
Fixpoint dict_get (d : pydict) (key : string) : string :=
  match d with
  | [] => ""
  | (k, v) :: d' => if String.eqb k key then v else dict_get d' key
  end.

(** One entry of [bonded_from], read with [br.get(key, "")]. *)
Module BondRef.
Record t := mk { source_id : string; bond_type : string; bond_point : string }.
End BondRef.

(** The ["timestamp"] of a validation: a [str], or a [datetime]. *)
Inductive ts_value : Type :=
  | TsStr (s : string)
  | TsDatetime (d : Datetime.t).

(** One entry of [validations], read with [v.get(key)]. *)
Module Validation.
Record t := mk {
  validator : option pydict;
  outcome : string;
  timestamp : ts_value;
  score : option PyFloat.t }.
End Validation.

(** The sha256 object of [compute_content_hash]: the bytes fed so far. *)
Module Hasher.
Definition t := string.
Definition new : t := "".
Definition update (h : t) (data : string) : t := h +:+ data.
Definition hexdigest (h : t) : string := SHA256.hexdigest h.
End Hasher.

Definition NUL : string := String Ascii.zero EmptyString.

Module Issue.

(** The dataclass, field by field. [assignee] is annotated [str], and the
    store's [update_issue] assigns it the patch value, which the importer
    and the update command set to [None] for an empty assignee: the field
    holds [Some s] or [None]. *)
Record t := mk {
  id : string;
  content_hash : string;
  title : string;
  description : string;
  design : string;
  acceptance_criteria : string;
  notes : string;
  spec_id : string;
  status : string;
  priority : Z;
  issue_type : string;
  assignee : option string;
  owner : string;
  estimated_minutes : option Z;
  created_at : Datetime.t;
  created_by : string;
  updated_at : Datetime.t;
  closed_at : option Datetime.t;
  close_reason : string;
  closed_by_session : string;
  due_at : option Datetime.t;
  defer_until : option Datetime.t;
  external_ref : option string;
  source_system : string;
  metadata : string;
  compaction_level : Z;
  compacted_at : option Datetime.t;
  compacted_at_commit : option string;
  original_size : Z;
  labels : list string;
  dependencies : list Dependency.t;
  comments : list Comment.t;
  deleted_at : option Datetime.t;
  deleted_by : string;
  delete_reason : string;
  original_type : string;
  sender : string;
  ephemeral : bool;
  wisp_type : string;
  pinned : bool;
  is_template : bool;
  bonded_from : list BondRef.t;
  creator : option pydict;
  validations : list Validation.t;
  quality_score : option PyFloat.t;
  crystallizes : bool;
  await_type : string;
  await_id : string;
  timeout : Z;
  waiters : list string;
  holder : string;
  hook_bead : string;
  role_bead : string;
  agent_state : string;
  role_type : string;
  rig : string;
  last_activity : option Datetime.t;
  mol_type : string;
  work_type : string;
  event_kind : string;
  actor : string;
  target : string;
  payload : string }.

(** ** The writers of [compute_content_hash] *)

Definition write_str (s : string) (h : Hasher.t) : Hasher.t :=
  Hasher.update (Hasher.update h s) NUL.

(** [write_str] on an attribute that may hold [None]: [None.encode]
    raises. *)
Definition write_str_attr (s : option string) (h : Hasher.t) : PyResult Hasher.t :=
  match s with
  | Some s => Ok (write_str s h)
  | None => Raise (AttributeError "'NoneType' object has no attribute 'encode'")
  end.

Definition write_int (n : Z) (h : Hasher.t) : Hasher.t :=
  Hasher.update (Hasher.update h (Str.of_Z n)) NUL.

Definition write_str_optional (s : option string) (h : Hasher.t) : Hasher.t :=
  let h := match s with Some s => Hasher.update h s | None => h end in
  Hasher.update h NUL.

Definition write_flag (b : bool) (label : string) (h : Hasher.t) : Hasher.t :=
  let h := if b then Hasher.update h label else h in
  Hasher.update h NUL.

Definition write_float_optional (f : option PyFloat.t) (h : Hasher.t) : Hasher.t :=
  let h := match f with Some f => Hasher.update h (PyFloat.format_f f) | None => h end in
  Hasher.update h NUL.

Definition write_duration (d : Z) (h : Hasher.t) : Hasher.t :=
  Hasher.update (Hasher.update h (Str.of_Z d)) NUL.

Definition write_entity_ref (e : option pydict) (h : Hasher.t) : Hasher.t :=
  match e with
  | Some e =>
      let h := write_str (dict_get e "name") h in
      let h := write_str (dict_get e "platform") h in
      let h := write_str (dict_get e "org") h in
      write_str (dict_get e "id") h
  | None => h
  end.

(** The text written for a validation's timestamp. *)
Definition validation_ts (ts : ts_value) : string :=
  match ts with
  | TsStr s => s
  | TsDatetime d =>
      let ts := Datetime.isoformat d in
      if Str2.endswith ts "+00:00" then Str2.drop_last 6 ts +:+ "Z" else ts
  end.

Definition write_bond (h : Hasher.t) (br : BondRef.t) : Hasher.t :=
  let h := write_str (BondRef.source_id br) h in
  let h := write_str (BondRef.bond_type br) h in
  write_str (BondRef.bond_point br) h.

Definition write_validation (h : Hasher.t) (v : Validation.t) : Hasher.t :=
  let h := write_entity_ref (Validation.validator v) h in
  let h := write_str (Validation.outcome v) h in
  let h := write_str (validation_ts (Validation.timestamp v)) h in
  write_float_optional (Validation.score v) h.

(** The hasher after every field was written, in the order of the source. *)
Definition hash_fields (self : t) : PyResult Hasher.t :=
  let h := Hasher.new in
  let h := write_str (title self) h in
  let h := write_str (description self) h in
  let h := write_str (design self) h in
  let h := write_str (acceptance_criteria self) h in
  let h := write_str (notes self) h in
  let h := write_str (spec_id self) h in
  let h := write_str (status self) h in
  let h := write_int (priority self) h in
  let h := write_str (issue_type self) h in
  h ← write_str_attr (assignee self) h;
  let h := write_str (owner self) h in
  let h := write_str (created_by self) h in
  let h := write_str_optional (external_ref self) h in
  let h := write_str (source_system self) h in
  let h := write_flag (pinned self) "pinned" h in
  let h := write_str (metadata self) h in
  let h := write_flag (is_template self) "template" h in
  let h := fold_left write_bond (bonded_from self) h in
  let h := write_entity_ref (creator self) h in
  let h := fold_left write_validation (validations self) h in
  let h := write_float_optional (quality_score self) h in
  let h := write_flag (crystallizes self) "crystallizes" h in
  let h := write_str (await_type self) h in
  let h := write_str (await_id self) h in
  let h := write_duration (timeout self) h in
  let h := fold_left (fun h waiter => write_str waiter h) (waiters self) h in
  let h := write_str (holder self) h in
  let h := write_str (hook_bead self) h in
  let h := write_str (role_bead self) h in
  let h := write_str (agent_state self) h in
  let h := write_str (role_type self) h in
  let h := write_str (rig self) h in
  let h := write_str (mol_type self) h in
  let h := write_str (work_type self) h in
  let h := write_str (event_kind self) h in
  let h := write_str (actor self) h in
  let h := write_str (target self) h in
  let h := write_str (payload self) h in
  mret h.

(** [Issue.compute_content_hash]. *)
Definition compute_content_hash (self : t) : PyResult string :=
  h ← hash_fields self;
  mret (Hasher.hexdigest h).

(** [Issue.is_tombstone]. *)
Definition is_tombstone (self : t) : bool := String.eqb (status self) Status.TOMBSTONE.

(** [Issue.validate]: the error message, or [None] for a valid issue.
    [json_loads_ok s] says whether [json.loads(s)] returns. *)
Definition validate (json_loads_ok : string -> bool) (self : t) : option string :=
  if negb (Str.nonempty (title self)) then
    Some "title is required"
  else if 500 <? Str.py_len (title self) then
    Some ("title must be 500 characters or less (got "
          +:+ Str.of_Z (Str.py_len (title self)) +:+ ")")
  else if (priority self <? 0) || (4 <? priority self) then
    Some ("priority must be between 0 and 4 (got " +:+ Str.of_Z (priority self) +:+ ")")
  else if Str.nonempty (status self) && negb (Status.is_valid (status self)) then
    Some ("invalid status: " +:+ status self)
  else if Str.nonempty (issue_type self) && negb (IssueType.is_valid (issue_type self)) then
    Some ("invalid issue type: " +:+ issue_type self)
  else if match estimated_minutes self with Some m => m <? 0 | None => false end then
    Some "estimated_minutes cannot be negative"
  else if String.eqb (status self) Status.CLOSED && negb (bool_decide (is_Some (closed_at self))) then
    Some "closed issues must have closed_at timestamp"
  else if negb (bool_decide (status self ∈ [Status.CLOSED; Status.TOMBSTONE]))
          && bool_decide (is_Some (closed_at self)) then
    Some "non-closed issues cannot have closed_at timestamp"
  else if String.eqb (status self) Status.TOMBSTONE && negb (bool_decide (is_Some (deleted_at self))) then
    Some "tombstone issues must have deleted_at timestamp"
  else if negb (String.eqb (status self) Status.TOMBSTONE) && bool_decide (is_Some (deleted_at self)) then
    Some "non-tombstone issues cannot have deleted_at timestamp"
  else if Str.nonempty (metadata self) && negb (String.eqb (metadata self) "{}")
          && negb (json_loads_ok (metadata self)) then
    Some "metadata must be valid JSON"
  else None.

(** The attributes the store and the importer assign on an existing
    object: [content_hash], [ephemeral], and the three relations. *)
Definition assign (h : string) (eph : bool) (ls : list string)
    (ds : list Dependency.t) (cs : list Comment.t) (i : t) : t :=
  {| id := id i;
     content_hash := h;
     title := title i;
     description := description i;
     design := design i;
     acceptance_criteria := acceptance_criteria i;
     notes := notes i;
     spec_id := spec_id i;
     status := status i;
     priority := priority i;
     issue_type := issue_type i;
     assignee := assignee i;
     owner := owner i;
     estimated_minutes := estimated_minutes i;
     created_at := created_at i;
     created_by := created_by i;
     updated_at := updated_at i;
     closed_at := closed_at i;
     close_reason := close_reason i;
     closed_by_session := closed_by_session i;
     due_at := due_at i;
     defer_until := defer_until i;
     external_ref := external_ref i;
     source_system := source_system i;
     metadata := metadata i;
     compaction_level := compaction_level i;
     compacted_at := compacted_at i;
     compacted_at_commit := compacted_at_commit i;
     original_size := original_size i;
     labels := ls;
     dependencies := ds;
     comments := cs;
     deleted_at := deleted_at i;
     deleted_by := deleted_by i;
     delete_reason := delete_reason i;
     original_type := original_type i;
     sender := sender i;
     ephemeral := eph;
     wisp_type := wisp_type i;
     pinned := pinned i;
     is_template := is_template i;
     bonded_from := bonded_from i;
     creator := creator i;
     validations := validations i;
     quality_score := quality_score i;
     crystallizes := crystallizes i;
     await_type := await_type i;
     await_id := await_id i;
     timeout := timeout i;
     waiters := waiters i;
     holder := holder i;
     hook_bead := hook_bead i;
     role_bead := role_bead i;
     agent_state := agent_state i;
     role_type := role_type i;
     rig := rig i;
     last_activity := last_activity i;
     mol_type := mol_type i;
     work_type := work_type i;
     event_kind := event_kind i;
     actor := actor i;
     target := target i;
     payload := payload i |}.

(** [self.content_hash = h]. *)
Definition set_content_hash (h : string) (i : t) : t :=
  assign h (ephemeral i) (labels i) (dependencies i) (comments i) i.

(** [self.ephemeral = b]. *)
Definition set_ephemeral (b : bool) (i : t) : t :=
  assign (content_hash i) b (labels i) (dependencies i) (comments i) i.

(** [Issue()]: the defaults of the dataclass; [now] is what [now_utc()]
    returns. *)
Definition new (now : Datetime.t) : t :=
  {| id := "";
     content_hash := "";
     title := "";
     description := "";
     design := "";
     acceptance_criteria := "";
     notes := "";
     spec_id := "";
     status := Status.OPEN;
     priority := 2;
     issue_type := IssueType.TASK;
     assignee := Some "";
     owner := "";
     estimated_minutes := None;
     created_at := now;
     created_by := "";
     updated_at := now;
     closed_at := None;
     close_reason := "";
     closed_by_session := "";
     due_at := None;
     defer_until := None;
     external_ref := None;
     source_system := "";
     metadata := "";
     compaction_level := 0;
     compacted_at := None;
     compacted_at_commit := None;
     original_size := 0;
     labels := [];
     dependencies := [];
     comments := [];
     deleted_at := None;
     deleted_by := "";
     delete_reason := "";
     original_type := "";
     sender := "";
     ephemeral := false;
     wisp_type := "";
     pinned := false;
     is_template := false;
     bonded_from := [];
     creator := None;
     validations := [];
     quality_score := None;
     crystallizes := false;
     await_type := "";
     await_id := "";
     timeout := 0;
     waiters := [];
     holder := "";
     hook_bead := "";
     role_bead := "";
     agent_state := "";
     role_type := "";
     rig := "";
     last_activity := None;
     mol_type := "";
     work_type := "";
     event_kind := "";
     actor := "";
     target := "";
     payload := "" |}.

End Issue.

(* ================================================================== *)
(** * More of Python's [str] *)
(* ================================================================== *)

Module PyStr.

(** The first [n] code points of [s]: the bytes before the code point
    of index [n]. *)
Fixpoint take_points (n : nat) (s : string) : string :=
  match s with
  | EmptyString => EmptyString
  | String a s' =>
      if Str.is_continuation a then String a (take_points n s')
      else match n with
           | O => EmptyString
           | S n' => String a (take_points n' s')
           end
  end.

(** [s[:k]] for an [int] [k]; a negative [k] counts from the end. *)
Definition slice_to (k : Z) (s : string) : string :=
  if k <? 0 then take_points (Z.to_nat (Str.py_len s + k)) s
  else take_points (Z.to_nat k) s.

(** [c * n] for a one-character [c]. *)
Definition times (c : ascii) (n : Z) : string :=
  string_of_list_ascii (repeat c (Z.to_nat n)).

End PyStr.

(** [range(a, b)]. *)
Fixpoint range_from (a : Z) (k : nat) : list Z :=
  match k with
  | O => []
  | S k' => a :: range_from (a + 1) k'
  end.

Definition py_range (a b : Z) : list Z := range_from a (Z.to_nat (b - a)).


(* ================================================================== *)
(** * id_gen.py *)
(* ================================================================== *)

Module id_gen.

(** [generate_child_id]. *)
Definition generate_child_id (parent_id : string) (child_number : Z) : string :=
  parent_id +:+ "." +:+ Str.of_Z child_number.

(** The loop of [parse_hierarchical_id] over [parts[1:]]: the number of
    segments, or [None] when one is not all digits (the early return). *)
Fixpoint count_segments (parts : list string) (depth : Z) : option Z :=
  match parts with
  | [] => Some depth
  | p :: parts' =>
      if Str.isdigit p then count_segments parts' (depth + 1) else None
  end.

(** [s[:s.index(c)]]. *)
Fixpoint before_first (c : ascii) (s : string) : string :=
  match s with
  | EmptyString => EmptyString
  | String a s' => if Ascii.eqb a c then EmptyString else String a (before_first c s')
  end.

(** [s[:s.rindex(c)]], for an [s] that holds [c]. *)
Fixpoint before_last (c : ascii) (s : string) : string :=
  match s with
  | EmptyString => EmptyString
  | String a s' =>
      if (0 <? Str.count_char c s') then String a (before_last c s')
      else EmptyString
  end.

(** [parse_hierarchical_id]: (root_id, parent_id, depth). *)
Definition parse_hierarchical_id (issue_id : string) : string * string * Z :=
  let parts := Str.split "." issue_id in
  match count_segments (tl parts) 0 with
  | None => (issue_id, "", 0)
  | Some depth =>
      if depth =? 0 then (issue_id, "", 0)
      else (before_first "." issue_id, before_last "." issue_id, depth)
  end.

Definition MAX_HIERARCHY_DEPTH : Z := 3.

(** [check_hierarchy_depth]: the error message, or [None]. *)
Definition check_hierarchy_depth (parent_id : string) (max_depth : Z) : option string :=
  let max_depth := if max_depth <? 1 then MAX_HIERARCHY_DEPTH else max_depth in
  let depth := Str.count_char "." parent_id in
  if max_depth <=? depth then
    Some ("maximum hierarchy depth (" +:+ Str.of_Z max_depth
          +:+ ") exceeded for parent " +:+ parent_id)
  else None.

(** ** Hash ids *)

(** [generate_hash_id]; the prefix takes no part in the hash. *)
Definition generate_hash_id (prefix title description : string) (created : Datetime.t)
    (workspace_id : string) : string :=
  let ts := Datetime.isoformat created in
  let ts := if Str2.endswith ts "+00:00" then Str2.drop_last 6 ts +:+ "Z" else ts in
  SHA256.hexdigest (title +:+ description +:+ ts +:+ workspace_id).

(** [make_issue_id]. *)
Definition make_issue_id (prefix full_hash : string) (length : Z) : string :=
  prefix +:+ "-" +:+ PyStr.slice_to length full_hash.

Definition BASE36_ALPHABET : string := "0123456789abcdefghijklmnopqrstuvwxyz".

(** [int.from_bytes(data, byteorder="big")]. *)
Definition from_bytes (data : list Z) : Z :=
  fold_left (fun n b => n * 256 + b) data 0.

(** [BASE36_ALPHABET[remainder]]. *)
Definition base36_char (remainder : Z) : ascii :=
  default "0"%char (String.get (Z.to_nat remainder) BASE36_ALPHABET).

(** [while num > 0: num, remainder = divmod(num, 36); chars.append(...)],
    for at most [fuel] turns: what is left of [num], and [chars]. *)
Fixpoint base36_loop (fuel : nat) (num : Z) (chars : list ascii) : Z * list ascii :=
  match fuel with
  | O => (num, chars)
  | S fuel' =>
      if 0 <? num
      then base36_loop fuel' (num / 36) (chars ++ [base36_char (num mod 36)])
      else (num, chars)
  end.

(** [encode_base36]. A number of [n] bytes has at most [2 * n] digits in
    base 36, so the loop has ended by then. *)
Definition encode_base36 (data : list Z) (length : Z) : string :=
  let num := from_bytes data in
  if num =? 0 then PyStr.times "0" length
  else
    let chars := (base36_loop (2 * List.length data) num []).2 in
    let result := string_of_list_ascii (rev chars) in
    let len := Z.of_nat (String.length result) in
    let result := if len <? length then PyStr.times "0" (length - len) +:+ result
                  else result in
    let len := Z.of_nat (String.length result) in
    if length <? len
    then string_of_list_ascii (skipn (Z.to_nat (len - length)) (list_ascii_of_string result))
    else result.

End id_gen.

(* ================================================================== *)
(** * storage/schema.py: the tables *)
(* ================================================================== *)

(** A row of [issues], column by column. A column without NOT NULL holds
    an [option]; the JSON columns hold the value whose [json.dumps] text
    they store ([creator_json]: [None] for the empty text). *)
Module IssueRow.

Record t := mk {
  id : string;
  content_hash : option string;
  title : string;
  description : string;
  design : string;
  acceptance_criteria : string;
  notes : string;
  status : string;
  priority : Z;
  issue_type : string;
  assignee : option string;
  estimated_minutes : option Z;
  created_at : Datetime.t;
  created_by : option string;
  owner : option string;
  updated_at : Datetime.t;
  closed_at : option Datetime.t;
  closed_by_session : option string;
  close_reason : option string;
  external_ref : option string;
  spec_id : option string;
  compaction_level : option Z;
  compacted_at : option Datetime.t;
  compacted_at_commit : option string;
  original_size : option Z;
  deleted_at : option Datetime.t;
  deleted_by : option string;
  delete_reason : option string;
  original_type : option string;
  sender : option string;
  ephemeral : option Z;
  wisp_type : option string;
  pinned : option Z;
  is_template : option Z;
  crystallizes : option Z;
  mol_type : option string;
  work_type : option string;
  quality_score : option PyFloat.t;
  source_system : option string;
  metadata : string;
  event_kind : option string;
  actor : option string;
  target : option string;
  payload : option string;
  due_at : option Datetime.t;
  defer_until : option Datetime.t;
  hook_bead : option string;
  role_bead : option string;
  agent_state : option string;
  last_activity : option Datetime.t;
  role_type : option string;
  rig : option string;
  bonded_from : option (list BondRef.t);
  creator_json : option pydict;
  validations_json : option (list Validation.t);
  await_type : option string;
  await_id : option string;
  timeout : option Z;
  waiters_json : option (list string);
  holder : option string }.

End IssueRow.

Module Schema.

(** The table-level CHECK of [issues]. *)
Definition check_closed (status : string) (closed_at : option Datetime.t) : bool :=
  (String.eqb status "closed" && bool_decide (is_Some closed_at))
  || String.eqb status "tombstone"
  || (negb (bool_decide (status ∈ ["closed"; "tombstone"]))
      && negb (bool_decide (is_Some closed_at))).

(** Every CHECK of [issues] on one row. *)
Definition check_issue_row (r : IssueRow.t) : bool :=
  (Str.sql_length (IssueRow.title r) <=? 500)
  && ((0 <=? IssueRow.priority r) && (IssueRow.priority r <=? 4))
  && check_closed (IssueRow.status r) (IssueRow.closed_at r).

End Schema.

(** The database: each table as the list of its rows, oldest first. The
    rows of [dependencies], [comments] and [events] are the dataclass
    records of [models.py] read back from them. *)
Module Store.

Record t := mk {
  issues : list IssueRow.t;
  dependencies : list Dependency.t;
  labels : list (string * string);
  comments : list Comment.t;
  events : list Event.t;
  dirty_issues : list (string * Datetime.t);
  export_hashes : list (string * string);
  child_counters : list (string * Z);
  config : list (string * string);
  metadata : list (string * string);
  comment_seq : Z;
  event_seq : Z }.

(** A database the schema script has just created. *)
Definition empty : t :=
  mk [] [] [] [] [] [] [] [] [] [("schema_version", "1")] 0 0.

Definition set_issues (v : list IssueRow.t) (s : t) : t :=
  mk v (dependencies s) (labels s) (comments s) (events s) (dirty_issues s)
     (export_hashes s) (child_counters s) (config s) (metadata s)
     (comment_seq s) (event_seq s).

Definition set_dependencies (v : list Dependency.t) (s : t) : t :=
  mk (issues s) v (labels s) (comments s) (events s) (dirty_issues s)
     (export_hashes s) (child_counters s) (config s) (metadata s)
     (comment_seq s) (event_seq s).

Definition set_labels (v : list (string * string)) (s : t) : t :=
  mk (issues s) (dependencies s) v (comments s) (events s) (dirty_issues s)
     (export_hashes s) (child_counters s) (config s) (metadata s)
     (comment_seq s) (event_seq s).

Definition add_comment_row (c : Comment.t) (s : t) : t :=
  mk (issues s) (dependencies s) (labels s) (comments s ++ [c]) (events s)
     (dirty_issues s) (export_hashes s) (child_counters s) (config s)
     (metadata s) (Comment.id c) (event_seq s).

Definition add_event_row (e : Event.t) (s : t) : t :=
  mk (issues s) (dependencies s) (labels s) (comments s) (events s ++ [e])
     (dirty_issues s) (export_hashes s) (child_counters s) (config s)
     (metadata s) (comment_seq s) (Event.id e).

Definition set_dirty_issues (v : list (string * Datetime.t)) (s : t) : t :=
  mk (issues s) (dependencies s) (labels s) (comments s) (events s) v
     (export_hashes s) (child_counters s) (config s) (metadata s)
     (comment_seq s) (event_seq s).

Definition set_child_counters (v : list (string * Z)) (s : t) : t :=
  mk (issues s) (dependencies s) (labels s) (comments s) (events s)
     (dirty_issues s) (export_hashes s) v (config s) (metadata s)
     (comment_seq s) (event_seq s).

Definition issue_ids (s : t) : list string := map IssueRow.id (issues s).

(** Does the parent row of a foreign key exist? *)
Definition has_issue (s : t) (issue_id : string) : bool :=
  bool_decide (issue_id ∈ issue_ids s).

(** [SELECT * FROM issues WHERE id = ?], [fetchone()]. *)
Definition find_issue (s : t) (issue_id : string) : option IssueRow.t :=
  find (fun r => String.eqb (IssueRow.id r) issue_id) (issues s).

(** The rows whose key column is not [issue_id]. *)
Definition drop_key {A} (key : A -> string) (issue_id : string) (l : list A) : list A :=
  filter (fun x => key x ≠ issue_id) l.

(** [DELETE FROM issues WHERE id = ?] with every ON DELETE CASCADE. *)
Definition delete_cascade (issue_id : string) (s : t) : t :=
  mk (drop_key IssueRow.id issue_id (issues s))
     (filter (fun d => Dependency.issue_id d ≠ issue_id
                       ∧ Dependency.depends_on_id d ≠ issue_id) (dependencies s))
     (drop_key fst issue_id (labels s))
     (drop_key Comment.issue_id issue_id (comments s))
     (drop_key Event.issue_id issue_id (events s))
     (drop_key fst issue_id (dirty_issues s))
     (drop_key fst issue_id (export_hashes s))
     (drop_key fst issue_id (child_counters s))
     (config s) (metadata s) (comment_seq s) (event_seq s).

End Store.

(** ORDER BY: a stable insertion sort, so rows with equal keys keep the
    order of the table. *)
Module OrderBy.

Fixpoint insert {A} (le : A -> A -> bool) (x : A) (l : list A) : list A :=
  match l with
  | [] => [x]
  | y :: l' => if le x y then x :: l else y :: insert le x l'
  end.

Definition sort {A} (le : A -> A -> bool) (l : list A) : list A :=
  foldr (insert le) [] l.

End OrderBy.

(* ================================================================== *)
(** * Store operations: state and exceptions *)
(* ================================================================== *)

(** A store operation: the result or the exception, and the store it
    leaves (writes made before an exception stay). *)
Definition DB (A : Type) : Type := Store.t -> PyResult A * Store.t.

#[export] Instance DB_ret : MRet DB := fun A a s => (Ok a, s).
#[export] Instance DB_bind : MBind DB := fun A B f m s =>
  match m s with
  | (Ok a, s') => f a s'
  | (Raise e, s') => (Raise e, s')
  end.

Definition db_raise {A} (e : PyExn) : DB A := fun s => (Raise e, s).
Definition db_get : DB Store.t := fun s => (Ok s, s).
Definition db_modify (f : Store.t -> Store.t) : DB unit := fun s => (Ok tt, f s).
Definition db_lift {A} (r : PyResult A) : DB A := fun s => (r, s).

(** [for x in l: body(x)]. *)
Fixpoint db_for {A} (l : list A) (body : A -> DB unit) : DB unit :=
  match l with
  | [] => mret tt
  | x :: l' => body x ≫= fun _ => db_for l' body
  end.

(** [try: m  except sqlite3.IntegrityError: pass]. *)
Definition db_except_integrity (m : DB unit) : DB unit := fun s =>
  match m s with
  | (Raise (IntegrityError _), s') => (Ok tt, s')
  | r => r
  end.

(** Does the integer fit SQLite's INTEGER (the binding raises otherwise)? *)
Definition in_int64 (n : Z) : bool :=
  (-9223372036854775808 <=? n) && (n <=? 9223372036854775807).

(* ================================================================== *)
(** * models.py: Statistics *)
(* ================================================================== *)

Module Statistics.

Record t := mk {
  total_issues : Z;
  open_issues : Z;
  in_progress_issues : Z;
  closed_issues : Z;
  blocked_issues : Z;
  deferred_issues : Z;
  ready_issues : Z;
  tombstone_issues : Z;
  pinned_issues : Z;
  by_type : gmap string Z;
  by_priority : gmap Z Z }.

(** [Statistics()]. *)
Definition empty : t := mk 0 0 0 0 0 0 0 0 0 ∅ ∅.

Definition set_total_issues (v : Z) (x : t) : t :=
  mk v (open_issues x) (in_progress_issues x) (closed_issues x) (blocked_issues x)
     (deferred_issues x) (ready_issues x) (tombstone_issues x) (pinned_issues x)
     (by_type x) (by_priority x).
Definition set_open_issues (v : Z) (x : t) : t :=
  mk (total_issues x) v (in_progress_issues x) (closed_issues x) (blocked_issues x)
     (deferred_issues x) (ready_issues x) (tombstone_issues x) (pinned_issues x)
     (by_type x) (by_priority x).
Definition set_in_progress_issues (v : Z) (x : t) : t :=
  mk (total_issues x) (open_issues x) v (closed_issues x) (blocked_issues x)
     (deferred_issues x) (ready_issues x) (tombstone_issues x) (pinned_issues x)
     (by_type x) (by_priority x).
Definition set_closed_issues (v : Z) (x : t) : t :=
  mk (total_issues x) (open_issues x) (in_progress_issues x) v (blocked_issues x)
     (deferred_issues x) (ready_issues x) (tombstone_issues x) (pinned_issues x)
     (by_type x) (by_priority x).
Definition set_blocked_issues (v : Z) (x : t) : t :=
  mk (total_issues x) (open_issues x) (in_progress_issues x) (closed_issues x) v
     (deferred_issues x) (ready_issues x) (tombstone_issues x) (pinned_issues x)
     (by_type x) (by_priority x).
Definition set_deferred_issues (v : Z) (x : t) : t :=
  mk (total_issues x) (open_issues x) (in_progress_issues x) (closed_issues x)
     (blocked_issues x) v (ready_issues x) (tombstone_issues x) (pinned_issues x)
     (by_type x) (by_priority x).
Definition set_ready_issues (v : Z) (x : t) : t :=
  mk (total_issues x) (open_issues x) (in_progress_issues x) (closed_issues x)
     (blocked_issues x) (deferred_issues x) v (tombstone_issues x) (pinned_issues x)
     (by_type x) (by_priority x).
Definition set_tombstone_issues (v : Z) (x : t) : t :=
  mk (total_issues x) (open_issues x) (in_progress_issues x) (closed_issues x)
     (blocked_issues x) (deferred_issues x) (ready_issues x) v (pinned_issues x)
     (by_type x) (by_priority x).
Definition set_pinned_issues (v : Z) (x : t) : t :=
  mk (total_issues x) (open_issues x) (in_progress_issues x) (closed_issues x)
     (blocked_issues x) (deferred_issues x) (ready_issues x) (tombstone_issues x) v
     (by_type x) (by_priority x).
Definition set_by_type (v : gmap string Z) (x : t) : t :=
  mk (total_issues x) (open_issues x) (in_progress_issues x) (closed_issues x)
     (blocked_issues x) (deferred_issues x) (ready_issues x) (tombstone_issues x)
     (pinned_issues x) v (by_priority x).
Definition set_by_priority (v : gmap Z Z) (x : t) : t :=
  mk (total_issues x) (open_issues x) (in_progress_issues x) (closed_issues x)
     (blocked_issues x) (deferred_issues x) (ready_issues x) (tombstone_issues x)
     (pinned_issues x) (by_type x) v.

End Statistics.


(* ================================================================== *)
(** * storage/sqlite_store.py *)
(* ================================================================== *)

(** The [updates] dict of [update_issue], by key: [None] for an absent
    key, [Some v] for [updates[key] = v]. The keys are those of
    [field_map] and the two more the function names ([crystallizes],
    [last_activity]); a value has the type of the dataclass field, with
    [None] where the callers pass it. The same record gives the SET
    clause of [close_issue] and [reopen_issue]. *)
Module Updates.

Record t := mk {
  title : option string;
  description : option string;
  design : option string;
  acceptance_criteria : option string;
  notes : option string;
  status : option string;
  priority : option Z;
  issue_type : option string;
  assignee : option (option string);
  owner : option string;
  estimated_minutes : option (option Z);
  closed_at : option (option Datetime.t);
  close_reason : option string;
  closed_by_session : option string;
  external_ref : option (option string);
  spec_id : option string;
  pinned : option bool;
  is_template : option bool;
  ephemeral : option bool;
  sender : option string;
  wisp_type : option string;
  due_at : option (option Datetime.t);
  defer_until : option (option Datetime.t);
  source_system : option string;
  metadata : option string;
  created_by : option string;
  hook_bead : option string;
  role_bead : option string;
  agent_state : option string;
  role_type : option string;
  rig : option string;
  mol_type : option string;
  work_type : option string;
  event_kind : option string;
  actor : option string;
  target : option string;
  payload : option string;
  holder : option string;
  crystallizes : option bool;
  last_activity : option (option Datetime.t) }.

(** [{}]. *)
Definition empty : t :=
  {| title := None; description := None; design := None;
     acceptance_criteria := None; notes := None; status := None;
     priority := None; issue_type := None; assignee := None; owner := None;
     estimated_minutes := None; closed_at := None; close_reason := None;
     closed_by_session := None; external_ref := None; spec_id := None;
     pinned := None; is_template := None; ephemeral := None; sender := None;
     wisp_type := None; due_at := None; defer_until := None;
     source_system := None; metadata := None; created_by := None;
     hook_bead := None; role_bead := None; agent_state := None;
     role_type := None; rig := None; mol_type := None; work_type := None;
     event_kind := None; actor := None; target := None; payload := None;
     holder := None; crystallizes := None; last_activity := None |}.

(** [updates[key]] when present, the old value otherwise. *)
Definition pick {A B} (o : option A) (f : A -> B) (old : B) : B :=
  match o with
  | Some v => f v
  | None => old
  end.

End Updates.

(** The filter dict of [get_ready_work], by key. *)
Module ReadyFilter.
Record t := mk {
  type : option string;
  priority : option Z;
  assignee : option string;
  unassigned : bool;
  labels : list string;
  limit : Z }.
End ReadyFilter.

Module SQLiteStorage.

Definition FK_FAILED : PyExn := IntegrityError "FOREIGN KEY constraint failed".

(** [int(b)]. *)
Definition int_of_bool (b : bool) : Z := if b then 1 else 0.

(** [bool(x)] for an INTEGER column. *)
Definition bool_of_column (x : option Z) : bool :=
  match x with
  | Some n => negb (n =? 0)
  | None => false
  end.

(** [x or ""] for a TEXT column. *)
Definition text_or_empty (x : option string) : string :=
  match x with
  | Some s => str_or s ""
  | None => ""
  end.

(** [s or None]. *)
Definition str_or_none (s : option string) : option string :=
  match s with
  | Some s => if Str.nonempty s then Some s else None
  | None => None
  end.

(** [_row_to_issue]. *)
Definition _row_to_issue (row : IssueRow.t) : Issue.t :=
  {| Issue.id := IssueRow.id row;
     Issue.content_hash := text_or_empty (IssueRow.content_hash row);
     Issue.title := IssueRow.title row;
     Issue.description := str_or (IssueRow.description row) "";
     Issue.design := str_or (IssueRow.design row) "";
     Issue.acceptance_criteria := str_or (IssueRow.acceptance_criteria row) "";
     Issue.notes := str_or (IssueRow.notes row) "";
     Issue.spec_id := text_or_empty (IssueRow.spec_id row);
     Issue.status := str_or (IssueRow.status row) Status.OPEN;
     Issue.priority := IssueRow.priority row;
     Issue.issue_type := str_or (IssueRow.issue_type row) "task";
     Issue.assignee := Some (text_or_empty (IssueRow.assignee row));
     Issue.owner := text_or_empty (IssueRow.owner row);
     Issue.estimated_minutes := IssueRow.estimated_minutes row;
     Issue.created_at := IssueRow.created_at row;
     Issue.created_by := text_or_empty (IssueRow.created_by row);
     Issue.updated_at := IssueRow.updated_at row;
     Issue.closed_at := IssueRow.closed_at row;
     Issue.close_reason := text_or_empty (IssueRow.close_reason row);
     Issue.closed_by_session := text_or_empty (IssueRow.closed_by_session row);
     Issue.due_at := IssueRow.due_at row;
     Issue.defer_until := IssueRow.defer_until row;
     Issue.external_ref := IssueRow.external_ref row;
     Issue.source_system := text_or_empty (IssueRow.source_system row);
     Issue.metadata := str_or (IssueRow.metadata row) "";
     Issue.compaction_level := default 0 (IssueRow.compaction_level row);
     Issue.compacted_at := IssueRow.compacted_at row;
     Issue.compacted_at_commit := IssueRow.compacted_at_commit row;
     Issue.original_size := default 0 (IssueRow.original_size row);
     Issue.labels := [];
     Issue.dependencies := [];
     Issue.comments := [];
     Issue.deleted_at := IssueRow.deleted_at row;
     Issue.deleted_by := text_or_empty (IssueRow.deleted_by row);
     Issue.delete_reason := text_or_empty (IssueRow.delete_reason row);
     Issue.original_type := text_or_empty (IssueRow.original_type row);
     Issue.sender := text_or_empty (IssueRow.sender row);
     Issue.ephemeral := bool_of_column (IssueRow.ephemeral row);
     Issue.wisp_type := text_or_empty (IssueRow.wisp_type row);
     Issue.pinned := bool_of_column (IssueRow.pinned row);
     Issue.is_template := bool_of_column (IssueRow.is_template row);
     Issue.bonded_from := default [] (IssueRow.bonded_from row);
     Issue.creator := IssueRow.creator_json row;
     Issue.validations := default [] (IssueRow.validations_json row);
     Issue.quality_score := IssueRow.quality_score row;
     Issue.crystallizes := bool_of_column (IssueRow.crystallizes row);
     Issue.await_type := text_or_empty (IssueRow.await_type row);
     Issue.await_id := text_or_empty (IssueRow.await_id row);
     Issue.timeout := default 0 (IssueRow.timeout row);
     Issue.waiters := default [] (IssueRow.waiters_json row);
     Issue.holder := text_or_empty (IssueRow.holder row);
     Issue.hook_bead := text_or_empty (IssueRow.hook_bead row);
     Issue.role_bead := text_or_empty (IssueRow.role_bead row);
     Issue.agent_state := text_or_empty (IssueRow.agent_state row);
     Issue.role_type := text_or_empty (IssueRow.role_type row);
     Issue.rig := text_or_empty (IssueRow.rig row);
     Issue.last_activity := IssueRow.last_activity row;
     Issue.mol_type := text_or_empty (IssueRow.mol_type row);
     Issue.work_type := text_or_empty (IssueRow.work_type row);
     Issue.event_kind := text_or_empty (IssueRow.event_kind row);
     Issue.actor := text_or_empty (IssueRow.actor row);
     Issue.target := text_or_empty (IssueRow.target row);
     Issue.payload := text_or_empty (IssueRow.payload row) |}.

(** [_record_event]: one row more in [events]. *)
Definition _record_event (now : Datetime.t) (issue_id event_type actor : string)
    (old_value new_value comment : option string) : DB unit :=
  s ← db_get;
  if Store.has_issue s issue_id then
    db_modify (Store.add_event_row
      (Event.mk (Store.event_seq s + 1) issue_id event_type actor
                old_value new_value comment (stored_datetime now)))
  else db_raise FK_FAILED.

(** The upsert of [mark_dirty] on the rows of [dirty_issues]. *)
Fixpoint upsert_dirty (issue_id : string) (marked_at : Datetime.t)
    (rows : list (string * Datetime.t)) : list (string * Datetime.t) :=
  match rows with
  | [] => [(issue_id, marked_at)]
  | (k, t) :: rows' =>
      if String.eqb k issue_id then (k, marked_at) :: rows'
      else (k, t) :: upsert_dirty issue_id marked_at rows'
  end.

(** [mark_dirty]. *)
Definition mark_dirty (now : Datetime.t) (issue_id : string) : DB unit :=
  s ← db_get;
  if Store.has_issue s issue_id then
    db_modify (fun s => Store.set_dirty_issues
      (upsert_dirty issue_id (stored_datetime now) (Store.dirty_issues s)) s)
  else db_raise FK_FAILED.

(** [get_dirty_issues]: ORDER BY marked_at ASC. *)
Definition get_dirty_issues (s : Store.t) : list string :=
  map fst (OrderBy.sort
    (fun a b => String.leb (format_datetime (snd a)) (format_datetime (snd b)))
    (Store.dirty_issues s)).

(** [clear_dirty]. *)
Definition clear_dirty (issue_ids : list string) : DB unit :=
  db_for issue_ids (fun issue_id =>
    db_modify (fun s => Store.set_dirty_issues
      (filter (fun r => fst r ≠ issue_id) (Store.dirty_issues s)) s)).

(** INSERT OR IGNORE INTO labels. *)
Definition insert_label (issue_id label : string) : DB unit :=
  s ← db_get;
  if negb (Store.has_issue s issue_id) then db_raise FK_FAILED
  else if bool_decide ((issue_id, label) ∈ Store.labels s) then mret tt
  else db_modify (Store.set_labels (Store.labels s ++ [(issue_id, label)])).

(** Is there a row of [dependencies] with this primary key? *)
Definition has_edge (s : Store.t) (issue_id depends_on_id : string) : bool :=
  existsb (fun d => String.eqb (Dependency.issue_id d) issue_id
                    && String.eqb (Dependency.depends_on_id d) depends_on_id)
          (Store.dependencies s).

(** INSERT OR IGNORE INTO dependencies. *)
Definition insert_dependency (row : Dependency.t) : DB unit :=
  s ← db_get;
  if negb (Store.has_issue s (Dependency.issue_id row)
           && Store.has_issue s (Dependency.depends_on_id row)) then
    db_raise FK_FAILED
  else if has_edge s (Dependency.issue_id row) (Dependency.depends_on_id row) then mret tt
  else db_modify (Store.set_dependencies (Store.dependencies s ++ [row])).

(** INSERT INTO comments: the new row's id. *)
Definition insert_comment (issue_id author text : string) (created_at : Datetime.t) : DB Z :=
  s ← db_get;
  if Store.has_issue s issue_id then
    let cid := Store.comment_seq s + 1 in
    db_modify (Store.add_comment_row
      (Comment.mk cid issue_id author text (stored_datetime created_at))) ≫= fun _ =>
    mret cid
  else db_raise FK_FAILED.

(** The row [create_issue] inserts for [issue], whose hash is [h]. *)
Definition issue_row (issue : Issue.t) (h : string) : IssueRow.t :=
  {| IssueRow.id := Issue.id issue;
     IssueRow.content_hash := Some h;
     IssueRow.title := Issue.title issue;
     IssueRow.description := Issue.description issue;
     IssueRow.design := Issue.design issue;
     IssueRow.acceptance_criteria := Issue.acceptance_criteria issue;
     IssueRow.notes := Issue.notes issue;
     IssueRow.status := Issue.status issue;
     IssueRow.priority := Issue.priority issue;
     IssueRow.issue_type := Issue.issue_type issue;
     IssueRow.assignee := str_or_none (Issue.assignee issue);
     IssueRow.estimated_minutes := Issue.estimated_minutes issue;
     IssueRow.created_at := stored_datetime (Issue.created_at issue);
     IssueRow.created_by := Some (Issue.created_by issue);
     IssueRow.owner := Some (Issue.owner issue);
     IssueRow.updated_at := stored_datetime (Issue.updated_at issue);
     IssueRow.closed_at := stored_datetime <$> Issue.closed_at issue;
     IssueRow.closed_by_session := Some (Issue.closed_by_session issue);
     IssueRow.close_reason := Some (Issue.close_reason issue);
     IssueRow.external_ref := Issue.external_ref issue;
     IssueRow.spec_id := Some (Issue.spec_id issue);
     IssueRow.compaction_level := Some (Issue.compaction_level issue);
     IssueRow.compacted_at := stored_datetime <$> Issue.compacted_at issue;
     IssueRow.compacted_at_commit := Issue.compacted_at_commit issue;
     IssueRow.original_size := Some (Issue.original_size issue);
     IssueRow.deleted_at := stored_datetime <$> Issue.deleted_at issue;
     IssueRow.deleted_by := Some (Issue.deleted_by issue);
     IssueRow.delete_reason := Some (Issue.delete_reason issue);
     IssueRow.original_type := Some (Issue.original_type issue);
     IssueRow.sender := Some (Issue.sender issue);
     IssueRow.ephemeral := Some (int_of_bool (Issue.ephemeral issue));
     IssueRow.wisp_type := Some (Issue.wisp_type issue);
     IssueRow.pinned := Some (int_of_bool (Issue.pinned issue));
     IssueRow.is_template := Some (int_of_bool (Issue.is_template issue));
     IssueRow.crystallizes := Some (int_of_bool (Issue.crystallizes issue));
     IssueRow.mol_type := Some (Issue.mol_type issue);
     IssueRow.work_type := Some (Issue.work_type issue);
     IssueRow.quality_score := PyFloat.sql_real (Issue.quality_score issue);
     IssueRow.source_system := Some (Issue.source_system issue);
     IssueRow.metadata := str_or (Issue.metadata issue) "{}";
     IssueRow.event_kind := Some (Issue.event_kind issue);
     IssueRow.actor := Some (Issue.actor issue);
     IssueRow.target := Some (Issue.target issue);
     IssueRow.payload := Some (Issue.payload issue);
     IssueRow.due_at := stored_datetime <$> Issue.due_at issue;
     IssueRow.defer_until := stored_datetime <$> Issue.defer_until issue;
     IssueRow.hook_bead := Some (Issue.hook_bead issue);
     IssueRow.role_bead := Some (Issue.role_bead issue);
     IssueRow.agent_state := Some (Issue.agent_state issue);
     IssueRow.last_activity := stored_datetime <$> Issue.last_activity issue;
     IssueRow.role_type := Some (Issue.role_type issue);
     IssueRow.rig := Some (Issue.rig issue);
     IssueRow.bonded_from := Some (Issue.bonded_from issue);
     IssueRow.creator_json :=
       match Issue.creator issue with
       | Some (kv :: d) => Some (kv :: d)
       | _ => None
       end;
     IssueRow.validations_json := Some (Issue.validations issue);
     IssueRow.await_type := Some (Issue.await_type issue);
     IssueRow.await_id := Some (Issue.await_id issue);
     IssueRow.timeout := Some (Issue.timeout issue);
     IssueRow.waiters_json := Some (Issue.waiters issue);
     IssueRow.holder := Some (Issue.holder issue) |}.

(** [json.dumps(issue.validations)] raises on a [datetime]. *)
Definition json_dumps_validations (vs : list Validation.t) : PyResult unit :=
  if forallb (fun v => match Validation.timestamp v with
                       | TsStr _ => true
                       | TsDatetime _ => false
                       end) vs
  then Ok tt
  else Raise (TypeError "Object of type datetime is not JSON serializable").

(** The integers of a row that are bound to the statement. *)
Definition row_ints (r : IssueRow.t) : list Z :=
  IssueRow.priority r
  :: omap id [IssueRow.estimated_minutes r; IssueRow.compaction_level r;
              IssueRow.original_size r; IssueRow.timeout r].

(** Binding the parameters, then the CHECKs of [issues]. *)
Definition check_row (r : IssueRow.t) : PyResult unit :=
  if negb (forallb in_int64 (row_ints r)) then
    Raise (OverflowError "Python int too large to convert to SQLite INTEGER")
  else if negb (Schema.check_issue_row r) then
    Raise (IntegrityError "CHECK constraint failed")
  else Ok tt.

(** INSERT INTO issues. *)
Definition insert_issue (r : IssueRow.t) : DB unit :=
  db_lift (check_row r) ≫= fun _ =>
  s ← db_get;
  if Store.has_issue s (IssueRow.id r) then
    db_raise (IntegrityError "UNIQUE constraint failed: issues.id")
  else db_modify (Store.set_issues (Store.issues s ++ [r])).

(** [create_issue]. *)
Definition create_issue (now : Datetime.t) (issue : Issue.t) (actor : string) : DB unit :=
  h ← db_lift (Issue.compute_content_hash issue);
  db_lift (json_dumps_validations (Issue.validations issue)) ≫= fun _ =>
  insert_issue (issue_row issue h) ≫= fun _ =>
  db_for (Issue.labels issue) (fun label => insert_label (Issue.id issue) label) ≫= fun _ =>
  db_for (Issue.dependencies issue) (fun dep =>
    db_except_integrity (insert_dependency
      (Dependency.mk (Dependency.issue_id dep) (Dependency.depends_on_id dep)
         (Dependency.type dep) (stored_datetime (Dependency.created_at dep))
         (Dependency.created_by dep) (Dependency.metadata dep)
         (Dependency.thread_id dep)))) ≫= fun _ =>
  db_for (Issue.comments issue) (fun comment =>
    insert_comment (str_or (Comment.issue_id comment) (Issue.id issue))
      (Comment.author comment) (Comment.text comment) (Comment.created_at comment)
    ≫= fun _ => mret tt) ≫= fun _ =>
  _record_event now (Issue.id issue) EventType.CREATED actor None None None ≫= fun _ =>
  mark_dirty now (Issue.id issue).

(** [get_labels]: ORDER BY label. *)
Definition get_labels (s : Store.t) (issue_id : string) : list string :=
  OrderBy.sort String.leb
    (map snd (filter (fun r => fst r = issue_id) (Store.labels s))).

(** [get_dependency_records]. *)
Definition get_dependency_records (s : Store.t) (issue_id : string) : list Dependency.t :=
  filter (fun d => Dependency.issue_id d = issue_id) (Store.dependencies s).

(** [get_comments]: ORDER BY created_at ASC. *)
Definition get_comments (s : Store.t) (issue_id : string) : list Comment.t :=
  OrderBy.sort
    (fun a b => String.leb (format_datetime (Comment.created_at a))
                           (format_datetime (Comment.created_at b)))
    (filter (fun c => Comment.issue_id c = issue_id) (Store.comments s)).

(** [issue.labels], [issue.dependencies], [issue.comments] assigned. *)
Definition with_relations (labels : list string) (deps : list Dependency.t)
    (comments : list Comment.t) (i : Issue.t) : Issue.t :=
  Issue.assign (Issue.content_hash i) (Issue.ephemeral i) labels deps comments i.

(** [get_issue]. *)
Definition get_issue (s : Store.t) (issue_id : string) : option Issue.t :=
  match Store.find_issue s issue_id with
  | None => None
  | Some row =>
      Some (with_relations (get_labels s issue_id)
              (get_dependency_records s issue_id)
              (get_comments s issue_id) (_row_to_issue row))
  end.

(** [UPDATE issues SET ...] on one row: the columns [u] names, then
    [updated_at], then [content_hash] when the statement sets it. A flag
    is bound as [int(bool(value))], a timestamp as its text. *)
Definition set_columns (u : Updates.t) (updated_at : Datetime.t)
    (content_hash : option string) (r : IssueRow.t) : IssueRow.t :=
  {| IssueRow.id := IssueRow.id r;
     IssueRow.content_hash := Updates.pick content_hash Some (IssueRow.content_hash r);
     IssueRow.title := Updates.pick (Updates.title u) id (IssueRow.title r);
     IssueRow.description := Updates.pick (Updates.description u) id (IssueRow.description r);
     IssueRow.design := Updates.pick (Updates.design u) id (IssueRow.design r);
     IssueRow.acceptance_criteria :=
       Updates.pick (Updates.acceptance_criteria u) id (IssueRow.acceptance_criteria r);
     IssueRow.notes := Updates.pick (Updates.notes u) id (IssueRow.notes r);
     IssueRow.status := Updates.pick (Updates.status u) id (IssueRow.status r);
     IssueRow.priority := Updates.pick (Updates.priority u) id (IssueRow.priority r);
     IssueRow.issue_type := Updates.pick (Updates.issue_type u) id (IssueRow.issue_type r);
     IssueRow.assignee := Updates.pick (Updates.assignee u) id (IssueRow.assignee r);
     IssueRow.estimated_minutes :=
       Updates.pick (Updates.estimated_minutes u) id (IssueRow.estimated_minutes r);
     IssueRow.created_at := IssueRow.created_at r;
     IssueRow.created_by := Updates.pick (Updates.created_by u) Some (IssueRow.created_by r);
     IssueRow.owner := Updates.pick (Updates.owner u) Some (IssueRow.owner r);
     IssueRow.updated_at := stored_datetime updated_at;
     IssueRow.closed_at :=
       Updates.pick (Updates.closed_at u) (fmap stored_datetime) (IssueRow.closed_at r);
     IssueRow.closed_by_session :=
       Updates.pick (Updates.closed_by_session u) Some (IssueRow.closed_by_session r);
     IssueRow.close_reason := Updates.pick (Updates.close_reason u) Some (IssueRow.close_reason r);
     IssueRow.external_ref := Updates.pick (Updates.external_ref u) id (IssueRow.external_ref r);
     IssueRow.spec_id := Updates.pick (Updates.spec_id u) Some (IssueRow.spec_id r);
     IssueRow.compaction_level := IssueRow.compaction_level r;
     IssueRow.compacted_at := IssueRow.compacted_at r;
     IssueRow.compacted_at_commit := IssueRow.compacted_at_commit r;
     IssueRow.original_size := IssueRow.original_size r;
     IssueRow.deleted_at := IssueRow.deleted_at r;
     IssueRow.deleted_by := IssueRow.deleted_by r;
     IssueRow.delete_reason := IssueRow.delete_reason r;
     IssueRow.original_type := IssueRow.original_type r;
     IssueRow.sender := Updates.pick (Updates.sender u) Some (IssueRow.sender r);
     IssueRow.ephemeral :=
       Updates.pick (Updates.ephemeral u) (fun b => Some (int_of_bool b)) (IssueRow.ephemeral r);
     IssueRow.wisp_type := Updates.pick (Updates.wisp_type u) Some (IssueRow.wisp_type r);
     IssueRow.pinned :=
       Updates.pick (Updates.pinned u) (fun b => Some (int_of_bool b)) (IssueRow.pinned r);
     IssueRow.is_template :=
       Updates.pick (Updates.is_template u) (fun b => Some (int_of_bool b)) (IssueRow.is_template r);
     IssueRow.crystallizes :=
       Updates.pick (Updates.crystallizes u) (fun b => Some (int_of_bool b)) (IssueRow.crystallizes r);
     IssueRow.mol_type := Updates.pick (Updates.mol_type u) Some (IssueRow.mol_type r);
     IssueRow.work_type := Updates.pick (Updates.work_type u) Some (IssueRow.work_type r);
     IssueRow.quality_score := IssueRow.quality_score r;
     IssueRow.source_system := Updates.pick (Updates.source_system u) Some (IssueRow.source_system r);
     IssueRow.metadata := Updates.pick (Updates.metadata u) id (IssueRow.metadata r);
     IssueRow.event_kind := Updates.pick (Updates.event_kind u) Some (IssueRow.event_kind r);
     IssueRow.actor := Updates.pick (Updates.actor u) Some (IssueRow.actor r);
     IssueRow.target := Updates.pick (Updates.target u) Some (IssueRow.target r);
     IssueRow.payload := Updates.pick (Updates.payload u) Some (IssueRow.payload r);
     IssueRow.due_at := Updates.pick (Updates.due_at u) (fmap stored_datetime) (IssueRow.due_at r);
     IssueRow.defer_until :=
       Updates.pick (Updates.defer_until u) (fmap stored_datetime) (IssueRow.defer_until r);
     IssueRow.hook_bead := Updates.pick (Updates.hook_bead u) Some (IssueRow.hook_bead r);
     IssueRow.role_bead := Updates.pick (Updates.role_bead u) Some (IssueRow.role_bead r);
     IssueRow.agent_state := Updates.pick (Updates.agent_state u) Some (IssueRow.agent_state r);
     IssueRow.last_activity :=
       Updates.pick (Updates.last_activity u) (fmap stored_datetime) (IssueRow.last_activity r);
     IssueRow.role_type := Updates.pick (Updates.role_type u) Some (IssueRow.role_type r);
     IssueRow.rig := Updates.pick (Updates.rig u) Some (IssueRow.rig r);
     IssueRow.bonded_from := IssueRow.bonded_from r;
     IssueRow.creator_json := IssueRow.creator_json r;
     IssueRow.validations_json := IssueRow.validations_json r;
     IssueRow.await_type := IssueRow.await_type r;
     IssueRow.await_id := IssueRow.await_id r;
     IssueRow.timeout := IssueRow.timeout r;
     IssueRow.waiters_json := IssueRow.waiters_json r;
     IssueRow.holder := Updates.pick (Updates.holder u) Some (IssueRow.holder r) |}.

(** The rows of a table after [UPDATE ... WHERE id = ?]; a row that
    breaks a constraint makes the statement fail. *)
Fixpoint update_rows (issue_id : string) (f : IssueRow.t -> IssueRow.t)
    (rows : list IssueRow.t) : PyResult (list IssueRow.t) :=
  match rows with
  | [] => Ok []
  | r :: rows' =>
      r' ← (if String.eqb (IssueRow.id r) issue_id
            then check_row (f r) ≫= fun _ => Ok (f r)
            else Ok r);
      rows'' ← update_rows issue_id f rows';
      Ok (r' :: rows'')
  end.

(** [UPDATE issues SET ... WHERE id = ?]. *)
Definition update_where_id (issue_id : string) (f : IssueRow.t -> IssueRow.t) : DB unit :=
  s ← db_get;
  rows ← db_lift (update_rows issue_id f (Store.issues s));
  db_modify (Store.set_issues rows).

(** [for key, value in updates.items(): setattr(current, key, value)]. *)
Definition setattrs (u : Updates.t) (i : Issue.t) : Issue.t :=
  {| Issue.id := Issue.id i;
     Issue.content_hash := Issue.content_hash i;
     Issue.title := Updates.pick (Updates.title u) id (Issue.title i);
     Issue.description := Updates.pick (Updates.description u) id (Issue.description i);
     Issue.design := Updates.pick (Updates.design u) id (Issue.design i);
     Issue.acceptance_criteria :=
       Updates.pick (Updates.acceptance_criteria u) id (Issue.acceptance_criteria i);
     Issue.notes := Updates.pick (Updates.notes u) id (Issue.notes i);
     Issue.spec_id := Updates.pick (Updates.spec_id u) id (Issue.spec_id i);
     Issue.status := Updates.pick (Updates.status u) id (Issue.status i);
     Issue.priority := Updates.pick (Updates.priority u) id (Issue.priority i);
     Issue.issue_type := Updates.pick (Updates.issue_type u) id (Issue.issue_type i);
     Issue.assignee := Updates.pick (Updates.assignee u) id (Issue.assignee i);
     Issue.owner := Updates.pick (Updates.owner u) id (Issue.owner i);
     Issue.estimated_minutes :=
       Updates.pick (Updates.estimated_minutes u) id (Issue.estimated_minutes i);
     Issue.created_at := Issue.created_at i;
     Issue.created_by := Updates.pick (Updates.created_by u) id (Issue.created_by i);
     Issue.updated_at := Issue.updated_at i;
     Issue.closed_at := Updates.pick (Updates.closed_at u) id (Issue.closed_at i);
     Issue.close_reason := Updates.pick (Updates.close_reason u) id (Issue.close_reason i);
     Issue.closed_by_session :=
       Updates.pick (Updates.closed_by_session u) id (Issue.closed_by_session i);
     Issue.due_at := Updates.pick (Updates.due_at u) id (Issue.due_at i);
     Issue.defer_until := Updates.pick (Updates.defer_until u) id (Issue.defer_until i);
     Issue.external_ref := Updates.pick (Updates.external_ref u) id (Issue.external_ref i);
     Issue.source_system := Updates.pick (Updates.source_system u) id (Issue.source_system i);
     Issue.metadata := Updates.pick (Updates.metadata u) id (Issue.metadata i);
     Issue.compaction_level := Issue.compaction_level i;
     Issue.compacted_at := Issue.compacted_at i;
     Issue.compacted_at_commit := Issue.compacted_at_commit i;
     Issue.original_size := Issue.original_size i;
     Issue.labels := Issue.labels i;
     Issue.dependencies := Issue.dependencies i;
     Issue.comments := Issue.comments i;
     Issue.deleted_at := Issue.deleted_at i;
     Issue.deleted_by := Issue.deleted_by i;
     Issue.delete_reason := Issue.delete_reason i;
     Issue.original_type := Issue.original_type i;
     Issue.sender := Updates.pick (Updates.sender u) id (Issue.sender i);
     Issue.ephemeral := Updates.pick (Updates.ephemeral u) id (Issue.ephemeral i);
     Issue.wisp_type := Updates.pick (Updates.wisp_type u) id (Issue.wisp_type i);
     Issue.pinned := Updates.pick (Updates.pinned u) id (Issue.pinned i);
     Issue.is_template := Updates.pick (Updates.is_template u) id (Issue.is_template i);
     Issue.bonded_from := Issue.bonded_from i;
     Issue.creator := Issue.creator i;
     Issue.validations := Issue.validations i;
     Issue.quality_score := Issue.quality_score i;
     Issue.crystallizes := Updates.pick (Updates.crystallizes u) id (Issue.crystallizes i);
     Issue.await_type := Issue.await_type i;
     Issue.await_id := Issue.await_id i;
     Issue.timeout := Issue.timeout i;
     Issue.waiters := Issue.waiters i;
     Issue.holder := Updates.pick (Updates.holder u) id (Issue.holder i);
     Issue.hook_bead := Updates.pick (Updates.hook_bead u) id (Issue.hook_bead i);
     Issue.role_bead := Updates.pick (Updates.role_bead u) id (Issue.role_bead i);
     Issue.agent_state := Updates.pick (Updates.agent_state u) id (Issue.agent_state i);
     Issue.role_type := Updates.pick (Updates.role_type u) id (Issue.role_type i);
     Issue.rig := Updates.pick (Updates.rig u) id (Issue.rig i);
     Issue.last_activity := Updates.pick (Updates.last_activity u) id (Issue.last_activity i);
     Issue.mol_type := Updates.pick (Updates.mol_type u) id (Issue.mol_type i);
     Issue.work_type := Updates.pick (Updates.work_type u) id (Issue.work_type i);
     Issue.event_kind := Updates.pick (Updates.event_kind u) id (Issue.event_kind i);
     Issue.actor := Updates.pick (Updates.actor u) id (Issue.actor i);
     Issue.target := Updates.pick (Updates.target u) id (Issue.target i);
     Issue.payload := Updates.pick (Updates.payload u) id (Issue.payload i) |}.

(** [update_issue]. *)
Definition update_issue (now : Datetime.t) (issue_id : string) (updates : Updates.t)
    (actor : string) : DB unit :=
  s ← db_get;
  match get_issue s issue_id with
  | None => db_raise (ValueError ("Issue not found: " +:+ issue_id))
  | Some current =>
      let current := setattrs updates current in
      h ← db_lift (Issue.compute_content_hash current);
      update_where_id issue_id (set_columns updates now (Some h)) ≫= fun _ =>
      match Updates.status updates with
      | Some new_status =>
          _record_event now issue_id EventType.STATUS_CHANGED actor
            (Some (Issue.status current)) (Some new_status) None
      | None =>
          _record_event now issue_id EventType.UPDATED actor None None None
      end ≫= fun _ =>
      mark_dirty now issue_id
  end.

(** The SET clause of [close_issue]. *)
Definition close_columns (now : Datetime.t) (reason : string) : Updates.t :=
  {| Updates.title := None; Updates.description := None; Updates.design := None;
     Updates.acceptance_criteria := None; Updates.notes := None;
     Updates.status := Some Status.CLOSED;
     Updates.priority := None; Updates.issue_type := None; Updates.assignee := None;
     Updates.owner := None; Updates.estimated_minutes := None;
     Updates.closed_at := Some (Some now);
     Updates.close_reason := Some reason;
     Updates.closed_by_session := None; Updates.external_ref := None;
     Updates.spec_id := None; Updates.pinned := None; Updates.is_template := None;
     Updates.ephemeral := None; Updates.sender := None; Updates.wisp_type := None;
     Updates.due_at := None; Updates.defer_until := None; Updates.source_system := None;
     Updates.metadata := None; Updates.created_by := None; Updates.hook_bead := None;
     Updates.role_bead := None; Updates.agent_state := None; Updates.role_type := None;
     Updates.rig := None; Updates.mol_type := None; Updates.work_type := None;
     Updates.event_kind := None; Updates.actor := None; Updates.target := None;
     Updates.payload := None; Updates.holder := None; Updates.crystallizes := None;
     Updates.last_activity := None |}.

(** [close_issue]. *)
Definition close_issue (now : Datetime.t) (issue_id reason actor : string) : DB unit :=
  update_where_id issue_id (set_columns (close_columns now reason) now None) ≫= fun _ =>
  _record_event now issue_id EventType.CLOSED actor None None (Some reason) ≫= fun _ =>
  mark_dirty now issue_id.

(** The SET clause of [reopen_issue]. *)
Definition reopen_columns : Updates.t :=
  {| Updates.title := None; Updates.description := None; Updates.design := None;
     Updates.acceptance_criteria := None; Updates.notes := None;
     Updates.status := Some Status.OPEN;
     Updates.priority := None; Updates.issue_type := None; Updates.assignee := None;
     Updates.owner := None; Updates.estimated_minutes := None;
     Updates.closed_at := Some None;
     Updates.close_reason := Some "";
     Updates.closed_by_session := None; Updates.external_ref := None;
     Updates.spec_id := None; Updates.pinned := None; Updates.is_template := None;
     Updates.ephemeral := None; Updates.sender := None; Updates.wisp_type := None;
     Updates.due_at := None; Updates.defer_until := None; Updates.source_system := None;
     Updates.metadata := None; Updates.created_by := None; Updates.hook_bead := None;
     Updates.role_bead := None; Updates.agent_state := None; Updates.role_type := None;
     Updates.rig := None; Updates.mol_type := None; Updates.work_type := None;
     Updates.event_kind := None; Updates.actor := None; Updates.target := None;
     Updates.payload := None; Updates.holder := None; Updates.crystallizes := None;
     Updates.last_activity := None |}.

(** [reopen_issue]. *)
Definition reopen_issue (now : Datetime.t) (issue_id actor : string) : DB unit :=
  update_where_id issue_id (set_columns reopen_columns now None) ≫= fun _ =>
  _record_event now issue_id EventType.REOPENED actor None None None ≫= fun _ =>
  mark_dirty now issue_id.

(** [delete_issue]. *)
Definition delete_issue (issue_id : string) : DB unit :=
  db_modify (Store.delete_cascade issue_id).

(** [search_issues("", IssueFilter(include_tombstones=True))], the one
    call the importer and the exporter make: no clause of the filter
    applies, so the query is [SELECT * FROM issues i WHERE 1=1 ORDER BY
    i.created_at DESC]. *)
Definition search_all_rows (s : Store.t) : list IssueRow.t :=
  OrderBy.sort
    (fun a b => String.leb (format_datetime (IssueRow.created_at b))
                           (format_datetime (IssueRow.created_at a)))
    (Store.issues s).

Definition search_issues_all (s : Store.t) : list Issue.t :=
  map _row_to_issue (search_all_rows s).

(** ** Ready work *)

Definition BLOCKING_TYPES : list string :=
  ["blocks"; "parent-child"; "conditional-blocks"; "waits-for"].

Definition ACTIVE_STATUSES : list string :=
  ["open"; "in_progress"; "blocked"; "deferred"; "hooked"].

(** The subquery of [get_ready_work] for the row with id [issue_id]: a
    dependency of a blocking type joined to a blocker with an active
    status. *)
Definition has_active_blocker (s : Store.t) (issue_id : string) : bool :=
  existsb (fun d =>
    String.eqb (Dependency.issue_id d) issue_id
    && bool_decide (Dependency.type d ∈ BLOCKING_TYPES)
    && existsb (fun blocker =>
         String.eqb (Dependency.depends_on_id d) (IssueRow.id blocker)
         && bool_decide (IssueRow.status blocker ∈ ACTIVE_STATUSES))
       (Store.issues s))
    (Store.dependencies s).

(** [(col = 0 OR col IS NULL)]. *)
Definition zero_or_null (col : option Z) : bool :=
  match col with
  | Some n => n =? 0
  | None => true
  end.

(** The WHERE clause of [get_ready_work] without the filter's clauses;
    [now] is the text of [format_timestamp(now_utc())]. *)
Definition ready_where (s : Store.t) (now : string) (i : IssueRow.t) : bool :=
  String.eqb (IssueRow.status i) "open"
  && zero_or_null (IssueRow.ephemeral i)
  && zero_or_null (IssueRow.pinned i)
  && match IssueRow.defer_until i with
     | None => true
     | Some d => String.leb (format_datetime d) now
     end
  && negb (has_active_blocker s (IssueRow.id i)).

(** The clauses the filter adds. *)
Definition filter_where (s : Store.t) (f : option ReadyFilter.t) (i : IssueRow.t) : bool :=
  match f with
  | None => true
  | Some f =>
      match ReadyFilter.type f with
      | Some t => if Str.nonempty t then String.eqb (IssueRow.issue_type i) t else true
      | None => true
      end
      && match ReadyFilter.priority f with
         | Some p => IssueRow.priority i =? p
         | None => true
         end
      && match ReadyFilter.assignee f with
         | Some a => bool_decide (IssueRow.assignee i = Some a)
         | None => true
         end
      && (if ReadyFilter.unassigned f
          then bool_decide (IssueRow.assignee i = None ∨ IssueRow.assignee i = Some "")
          else true)
      && forallb (fun label => bool_decide ((IssueRow.id i, label) ∈ Store.labels s))
                 (ReadyFilter.labels f)
  end.

(** [ORDER BY i.priority ASC, i.created_at ASC]. *)
Definition ready_order (a b : IssueRow.t) : bool :=
  (IssueRow.priority a <? IssueRow.priority b)
  || ((IssueRow.priority a =? IssueRow.priority b)
      && String.leb (format_datetime (IssueRow.created_at a))
                    (format_datetime (IssueRow.created_at b))).

(** [LIMIT n]; a negative [n] is no limit. *)
Definition sql_limit {A} (n : Z) (l : list A) : list A :=
  if n <? 0 then l else firstn (Z.to_nat n) l.

(** The rows the query of [get_ready_work] selects. *)
Definition ready_rows (s : Store.t) (now : string) (f : option ReadyFilter.t)
  : list IssueRow.t :=
  let rows := OrderBy.sort ready_order
    (List.filter (fun i => ready_where s now i && filter_where s f i) (Store.issues s)) in
  match f with
  | Some f => if ReadyFilter.limit f =? 0 then rows else sql_limit (ReadyFilter.limit f) rows
  | None => rows
  end.

(** [get_ready_work]. *)
Definition get_ready_work (s : Store.t) (now : Datetime.t) (f : option ReadyFilter.t)
  : list Issue.t :=
  map _row_to_issue (ready_rows s (format_datetime now) f).

(** ** Dependencies *)

(** One step of the recursive query of [has_cycle]: the targets of the
    edges that leave the rows of [frontier]. *)
Definition cte_step (s : Store.t) (frontier : list string) : list string :=
  flat_map (fun r =>
    map Dependency.depends_on_id
      (List.filter (fun d => String.eqb (Dependency.issue_id d) r) (Store.dependencies s)))
    frontier.

(** The ids of [reachable] from depth [0] (the rows [frontier]) to depth
    [fuel]. *)
Fixpoint cte_reachable (s : Store.t) (fuel : nat) (frontier : list string) : list string :=
  frontier ++
  match fuel with
  | O => []
  | S fuel' => cte_reachable s fuel' (cte_step s frontier)
  end.

(** [has_cycle]. *)
Definition has_cycle (s : Store.t) (issue_id depends_on_id : string) : bool :=
  if String.eqb issue_id depends_on_id then true
  else bool_decide (issue_id ∈ cte_reachable s 100 [depends_on_id]).

(** [add_dependency]. *)
Definition add_dependency (now : Datetime.t) (dep : Dependency.t) (actor : string) : DB unit :=
  s ← db_get;
  if has_cycle s (Dependency.issue_id dep) (Dependency.depends_on_id dep) then
    db_raise (ValueError ("Adding dependency " +:+ Dependency.issue_id dep +:+ " → "
                          +:+ Dependency.depends_on_id dep +:+ " would create a cycle"))
  else
    insert_dependency
      (Dependency.mk (Dependency.issue_id dep) (Dependency.depends_on_id dep)
         (Dependency.type dep) (stored_datetime (Dependency.created_at dep))
         (str_or (Dependency.created_by dep) actor) (Dependency.metadata dep)
         (Dependency.thread_id dep)) ≫= fun _ =>
    _record_event now (Dependency.issue_id dep) EventType.DEPENDENCY_ADDED actor
      None (Some (Dependency.depends_on_id dep)) None ≫= fun _ =>
    mark_dirty now (Dependency.issue_id dep) ≫= fun _ =>
    mark_dirty now (Dependency.depends_on_id dep).

(** [remove_dependency]. *)
Definition remove_dependency (now : Datetime.t) (issue_id depends_on_id actor : string)
  : DB unit :=
  db_modify (fun s => Store.set_dependencies
    (filter (fun d => ¬ (Dependency.issue_id d = issue_id
                         ∧ Dependency.depends_on_id d = depends_on_id))
            (Store.dependencies s)) s) ≫= fun _ =>
  _record_event now issue_id EventType.DEPENDENCY_REMOVED actor
    (Some depends_on_id) None None ≫= fun _ =>
  mark_dirty now issue_id ≫= fun _ =>
  mark_dirty now depends_on_id.

(** ** Labels and comments *)

(** [add_label]. *)
Definition add_label (now : Datetime.t) (issue_id label actor : string) : DB unit :=
  insert_label issue_id label ≫= fun _ =>
  _record_event now issue_id EventType.LABEL_ADDED actor None (Some label) None ≫= fun _ =>
  mark_dirty now issue_id.

(** [remove_label]. *)
Definition remove_label (now : Datetime.t) (issue_id label actor : string) : DB unit :=
  db_modify (fun s => Store.set_labels
    (filter (fun r => r ≠ (issue_id, label)) (Store.labels s)) s) ≫= fun _ =>
  _record_event now issue_id EventType.LABEL_REMOVED actor (Some label) None None ≫= fun _ =>
  mark_dirty now issue_id.

(** [add_comment]. *)
Definition add_comment (now : Datetime.t) (issue_id author text : string) : DB Z :=
  cid ← insert_comment issue_id author text now;
  _record_event now issue_id EventType.COMMENTED author None (Some text) None ≫= fun _ =>
  mark_dirty now issue_id ≫= fun _ =>
  mret cid.

(** ** Config and child counters *)

(** [get_config]. *)
Definition get_config (s : Store.t) (key : string) : option string :=
  snd <$> find (fun kv => String.eqb (fst kv) key) (Store.config s).

Fixpoint bump_counter (parent_id : string) (rows : list (string * Z))
  : Z * list (string * Z) :=
  match rows with
  | [] => (1, [(parent_id, 1)])
  | (k, n) :: rows' =>
      if String.eqb k parent_id then (n + 1, (k, n + 1) :: rows')
      else let '(m, rows'') := bump_counter parent_id rows' in (m, (k, n) :: rows'')
  end.

(** [next_child_number]. *)
Definition next_child_number (parent_id : string) : DB Z :=
  s ← db_get;
  let '(next_num, rows) := bump_counter parent_id (Store.child_counters s) in
  if Store.has_issue s parent_id || bool_decide (parent_id ∈ map fst (Store.child_counters s))
  then db_modify (Store.set_child_counters rows) ≫= fun _ => mret next_num
  else db_raise FK_FAILED.

(** ** More queries *)

(** [get_dependencies]: the issues the edges of [issue_id] lead to. The
    query has no ORDER BY: the rows come in the order of the join. *)
Definition get_dependencies (s : Store.t) (issue_id : string) : list Issue.t :=
  map _row_to_issue
    (flat_map (fun d =>
       filter (fun i => IssueRow.id i = Dependency.depends_on_id d) (Store.issues s))
       (filter (fun d => Dependency.issue_id d = issue_id) (Store.dependencies s))).

(** [get_dependents]: the issues whose edges lead to [issue_id]. *)
Definition get_dependents (s : Store.t) (issue_id : string) : list Issue.t :=
  map _row_to_issue
    (flat_map (fun d =>
       filter (fun i => IssueRow.id i = Dependency.issue_id d) (Store.issues s))
       (filter (fun d => Dependency.depends_on_id d = issue_id) (Store.dependencies s))).



(** [INSERT ... ON CONFLICT (key) DO UPDATE SET value = excluded.value]. *)
Fixpoint upsert (key value : string) (rows : list (string * string))
  : list (string * string) :=
  match rows with
  | [] => [(key, value)]
  | (k, v) :: rows' =>
      if String.eqb k key then (k, value) :: rows'
      else (k, v) :: upsert key value rows'
  end.

(** [set_config]. *)
Definition set_config (key value : string) : DB unit :=
  db_modify (fun s =>
    Store.mk (Store.issues s) (Store.dependencies s) (Store.labels s) (Store.comments s)
      (Store.events s) (Store.dirty_issues s) (Store.export_hashes s)
      (Store.child_counters s) (upsert key value (Store.config s)) (Store.metadata s)
      (Store.comment_seq s) (Store.event_seq s)).

(** [list_config]: the dict of the rows, read in the order of their keys. *)
Definition list_config (s : Store.t) : gmap string string :=
  fold_left (fun d row => <[row.1 := row.2]> d)
    (OrderBy.sort (fun a b => String.leb a.1 b.1) (Store.config s)) ∅.

(** [get_metadata]. *)
Definition get_metadata (s : Store.t) (key : string) : option string :=
  snd <$> find (fun kv => String.eqb (fst kv) key) (Store.metadata s).

(** [set_metadata]. *)
Definition set_metadata (key value : string) : DB unit :=
  db_modify (fun s =>
    Store.mk (Store.issues s) (Store.dependencies s) (Store.labels s) (Store.comments s)
      (Store.events s) (Store.dirty_issues s) (Store.export_hashes s)
      (Store.child_counters s) (Store.config s) (upsert key value (Store.metadata s))
      (Store.comment_seq s) (Store.event_seq s)).

(** [SELECT key, COUNT( * ) ... GROUP BY key]: a row per key, with the
    number of rows of its group. *)
Fixpoint count_in {K} `{EqDecision K} (k : K) (groups : list (K * Z)) : list (K * Z) :=
  match groups with
  | [] => [(k, 1)]
  | (k', n) :: groups' =>
      if decide (k' = k) then (k', n + 1) :: groups'
      else (k', n) :: count_in k groups'
  end.

Definition group_count {K} `{EqDecision K} (keys : list K) : list (K * Z) :=
  fold_right count_in [] keys.

(** The body of the loop over the groups by status. *)
Definition count_status (stats : Statistics.t) (row : string * Z) : Statistics.t :=
  let '(status, cnt) := row in
  let stats :=
    if String.eqb status Status.OPEN then Statistics.set_open_issues cnt stats
    else if String.eqb status Status.IN_PROGRESS then Statistics.set_in_progress_issues cnt stats
    else if String.eqb status Status.CLOSED then Statistics.set_closed_issues cnt stats
    else if String.eqb status Status.BLOCKED then Statistics.set_blocked_issues cnt stats
    else if String.eqb status Status.DEFERRED then Statistics.set_deferred_issues cnt stats
    else if String.eqb status Status.PINNED then Statistics.set_pinned_issues cnt stats
    else stats in
  Statistics.set_total_issues (Statistics.total_issues stats + cnt) stats.

(** [get_statistics]; [now] is the clock [get_ready_work] reads. *)
Definition get_statistics (s : Store.t) (now : Datetime.t) : Statistics.t :=
  let live := filter (fun i => IssueRow.status i <> "tombstone") (Store.issues s) in
  let stats := fold_left count_status (group_count (map IssueRow.status live))
                 Statistics.empty in
  let stats := Statistics.set_tombstone_issues
    (Z.of_nat (List.length (filter (fun i => IssueRow.status i = "tombstone")
                              (Store.issues s)))) stats in
  let stats := Statistics.set_ready_issues
    (Z.of_nat (List.length (get_ready_work s now None))) stats in
  let stats := Statistics.set_by_type
    (fold_left (fun d row => <[row.1 := row.2]> d)
       (group_count (map IssueRow.issue_type live)) ∅) stats in
  Statistics.set_by_priority
    (fold_left (fun d row => <[row.1 := row.2]> d)
       (group_count (map IssueRow.priority live)) ∅) stats.

End SQLiteStorage.


(* ================================================================== *)
(** * importer.py *)
(* ================================================================== *)

Module importer.

Record ImportResult := mkResult {
  created : Z;
  updated : Z;
  unchanged : Z;
  skipped : Z;
  deleted : Z }.

Definition no_result : ImportResult := mkResult 0 0 0 0 0.

Definition add_created (r : ImportResult) : ImportResult :=
  mkResult (created r + 1) (updated r) (unchanged r) (skipped r) (deleted r).
Definition add_updated (r : ImportResult) : ImportResult :=
  mkResult (created r) (updated r + 1) (unchanged r) (skipped r) (deleted r).
Definition add_unchanged (r : ImportResult) : ImportResult :=
  mkResult (created r) (updated r) (unchanged r + 1) (skipped r) (deleted r).
Definition add_skipped (r : ImportResult) : ImportResult :=
  mkResult (created r) (updated r) (unchanged r) (skipped r + 1) (deleted r).
Definition add_deleted (r : ImportResult) : ImportResult :=
  mkResult (created r) (updated r) (unchanged r) (skipped r) (deleted r + 1).

(** What the loop over the incoming issues carries: the tally and the
    two sets of the batch. *)
Record Loop := mkLoop {
  result : ImportResult;
  seen_hashes : gset string;
  seen_ids : gset string }.

(** The two dicts built from the store before the loop. *)
Record Snapshot := mkSnapshot {
  db_by_id : gmap string Issue.t;
  db_by_hash : gmap string Issue.t }.

(** [{i.id: i for i in existing_issues}]. *)
Definition index_by_id (existing : list Issue.t) : gmap string Issue.t :=
  fold_left (fun m i => <[Issue.id i := i]> m) existing ∅.

(** The loop that fills [db_by_hash]. *)
Definition index_by_hash (existing : list Issue.t) : gmap string Issue.t :=
  fold_left (fun m i =>
    if Str.nonempty (Issue.content_hash i) then <[Issue.content_hash i := i]> m else m)
    existing ∅.

Definition snapshot (s : Store.t) : Snapshot :=
  let existing_issues := SQLiteStorage.search_issues_all s in
  mkSnapshot (index_by_id existing_issues) (index_by_hash existing_issues).

(** The [updates] dict of phase 2. *)
Definition updates_of (incoming : Issue.t) : Updates.t :=
  {| Updates.title := Some (Issue.title incoming);
     Updates.description := Some (Issue.description incoming);
     Updates.design := Some (Issue.design incoming);
     Updates.acceptance_criteria := Some (Issue.acceptance_criteria incoming);
     Updates.notes := Some (Issue.notes incoming);
     Updates.status := Some (Issue.status incoming);
     Updates.priority := Some (Issue.priority incoming);
     Updates.issue_type := Some (Issue.issue_type incoming);
     Updates.assignee := Some (SQLiteStorage.str_or_none (Issue.assignee incoming));
     Updates.owner := None;
     Updates.estimated_minutes := None;
     Updates.closed_at :=
       match Issue.closed_at incoming with
       | Some t => Some (Some t)
       | None => None
       end;
     Updates.close_reason :=
       if Str.nonempty (Issue.close_reason incoming)
       then Some (Issue.close_reason incoming) else None;
     Updates.closed_by_session := None;
     Updates.external_ref :=
       match Issue.external_ref incoming with
       | Some e => if Str.nonempty e then Some (Some e) else None
       | None => None
       end;
     Updates.spec_id := None;
     Updates.pinned := if Issue.pinned incoming then Some true else None;
     Updates.is_template := None; Updates.ephemeral := None; Updates.sender := None;
     Updates.wisp_type := None; Updates.due_at := None; Updates.defer_until := None;
     Updates.source_system := None; Updates.metadata := None; Updates.created_by := None;
     Updates.hook_bead := None; Updates.role_bead := None; Updates.agent_state := None;
     Updates.role_type := None; Updates.rig := None; Updates.mol_type := None;
     Updates.work_type := None; Updates.event_kind := None; Updates.actor := None;
     Updates.target := None; Updates.payload := None; Updates.holder := None;
     Updates.crystallizes := None; Updates.last_activity := None |}.

Definition skip (l : Loop) : Loop :=
  mkLoop (add_skipped (result l)) (seen_hashes l) (seen_ids l).

(** The body of [for incoming in issues]. *)
Definition import_one (now : Datetime.t) (snap : Snapshot) (l : Loop)
    (incoming : Issue.t) : DB Loop :=
  h ← (if Str.nonempty (Issue.content_hash incoming)
       then mret (Issue.content_hash incoming)
       else db_lift (Issue.compute_content_hash incoming));
  if bool_decide (h ∈ seen_hashes l) then mret (skip l)
  else
    let l := mkLoop (result l) ({[h]} ∪ seen_hashes l) (seen_ids l) in
    if bool_decide (Issue.id incoming ∈ seen_ids l) then mret (skip l)
    else
      let l := mkLoop (result l) (seen_hashes l) ({[Issue.id incoming]} ∪ seen_ids l) in
      let existing_by_id := db_by_id snap !! Issue.id incoming in
      if match existing_by_id with
         | Some e => String.eqb (Issue.status e) Status.TOMBSTONE
         | None => false
         end
      then mret (skip l)
      else
        match db_by_hash snap !! h with
        | Some existing_by_hash =>
            if String.eqb (Issue.id existing_by_hash) (Issue.id incoming)
            then mret (mkLoop (add_unchanged (result l)) (seen_hashes l) (seen_ids l))
            else mret (skip l)
        | None =>
            match existing_by_id with
            | Some e =>
                older ← db_lift (Datetime.le (Issue.updated_at incoming) (Issue.updated_at e));
                if (older : bool)
                then mret (mkLoop (add_unchanged (result l)) (seen_hashes l) (seen_ids l))
                else
                  SQLiteStorage.update_issue now (Issue.id incoming)
                    (updates_of incoming) "import" ≫= fun _ =>
                  mret (mkLoop (add_updated (result l)) (seen_hashes l) (seen_ids l))
            | None =>
                SQLiteStorage.create_issue now incoming "import" ≫= fun _ =>
                mret (mkLoop (add_created (result l)) (seen_hashes l) (seen_ids l))
            end
        end.

Fixpoint import_loop (now : Datetime.t) (snap : Snapshot) (l : Loop)
    (issues : list Issue.t) : DB Loop :=
  match issues with
  | [] => mret l
  | incoming :: issues' =>
      l' ← import_one now snap l incoming;
      import_loop now snap l' issues'
  end.

(** The loop over the deletion markers. *)
Fixpoint process_deletions (deletion_ids : list string) (r : ImportResult)
  : DB ImportResult :=
  match deletion_ids with
  | [] => mret r
  | del_id :: ids =>
      s ← db_get;
      match SQLiteStorage.get_issue s del_id with
      | Some _ =>
          SQLiteStorage.delete_issue del_id ≫= fun _ =>
          process_deletions ids (add_deleted r)
      | None => process_deletions ids r
      end
  end.

(** The first pass over the incoming issues: [issue.content_hash =
    issue.compute_content_hash()]. *)
Fixpoint compute_hashes (issues : list Issue.t) : PyResult (list Issue.t) :=
  match issues with
  | [] => Ok []
  | issue :: issues' =>
      h ← Issue.compute_content_hash issue;
      rest ← compute_hashes issues';
      Ok (Issue.set_content_hash h issue :: rest)
  end.

(** The second pass: an id with [-wisp-] in it marks an ephemeral issue. *)
Definition detect_wisp (issue : Issue.t) : Issue.t :=
  if Str.contains "-wisp-" (Issue.id issue) && negb (Issue.ephemeral issue)
  then Issue.set_ephemeral true issue
  else issue.

(** [import_jsonl] on the records [parse_jsonl] returned: the issues and
    the ids of the deletion markers. *)
Definition import_jsonl (now : Datetime.t) (issues : list Issue.t)
    (deletion_ids : list string) : DB ImportResult :=
  r ← process_deletions deletion_ids no_result;
  issues ← db_lift (compute_hashes issues);
  let issues := map detect_wisp issues in
  s ← db_get;
  l ← import_loop now (snapshot s) (mkLoop r ∅ ∅) issues;
  mret (result l).

End importer.

(* ================================================================== *)
(** * export.py *)
(* ================================================================== *)

Module export.

(** The files of the directory: the lines of each. *)
Abbreviation FS := (gmap string (list string)).

(** Where the file system fails during one export. *)
Record Faults := mkFaults {
  open_fails : bool;
  write_fails : nat -> bool;
  close_fails : bool;
  replace_fails : bool }.

Definition no_faults : Faults := mkFaults false (fun _ => false) false false.

Section Codec.

(** [json.dumps(issue.to_dict(), ensure_ascii=False, separators=(",", ":"))],
    which raises when [to_dict] cannot decode the metadata. *)
Variable json_line : Issue.t -> PyResult string.

(** The two comprehensions before the file is opened. *)
Definition enriched (s : Store.t) : list Issue.t :=
  omap (fun issue : Issue.t =>
          if Issue.ephemeral issue then None
          else SQLiteStorage.get_issue s (Issue.id issue))
       (SQLiteStorage.search_issues_all s).

(** The loop that writes the lines: [k] lines are in the file already. *)
Fixpoint write_lines (faults : Faults) (tmp_path : string) (issues : list Issue.t)
    (k : nat) (fs : FS) : PyResult nat * FS :=
  match issues with
  | [] => (Ok k, fs)
  | issue :: issues' =>
      match json_line issue with
      | Raise e => (Raise e, fs)
      | Ok line =>
          if write_fails faults k then (Raise (OSError "write failed"), fs)
          else write_lines faults tmp_path issues' (S k)
                 (<[tmp_path := (default [] (fs !! tmp_path) ++ [line])%list]> fs)
      end
  end.

(** The body of the [try]. *)
Definition write_and_replace (faults : Faults) (jsonl_path tmp_path : string)
    (issues : list Issue.t) (fs : FS) : PyResult nat * FS :=
  if open_fails faults then (Raise (OSError "open failed"), fs)
  else
    match write_lines faults tmp_path issues 0 (<[tmp_path := []]> fs) with
    | (Raise e, fs) => (Raise e, fs)
    | (Ok count, fs) =>
        if close_fails faults then (Raise (OSError "close failed"), fs)
        else if replace_fails faults then (Raise (OSError "replace failed"), fs)
        else (Ok count, <[jsonl_path := default [] (fs !! tmp_path)]> (delete tmp_path fs))
    end.

(** [flush_to_jsonl]: the count or the exception, the store and the
    files it leaves. *)
Definition flush_to_jsonl (faults : Faults) (jsonl_path : string)
    (s : Store.t) (fs : FS) : PyResult Z * Store.t * FS :=
  let issues := enriched s in
  let tmp_path := jsonl_path +:+ ".tmp" in
  match write_and_replace faults jsonl_path tmp_path issues fs with
  | (Raise e, fs) => (Raise e, s, delete tmp_path fs)
  | (Ok count, fs) =>
      let dirty_ids := SQLiteStorage.get_dirty_issues s in
      match SQLiteStorage.clear_dirty dirty_ids s with
      | (Raise e, s) => (Raise e, s, fs)
      | (Ok _, s) => (Ok (Z.of_nat count), s, fs)
      end
  end.

(** [flush_dirty_to_jsonl]. *)
Definition flush_dirty_to_jsonl (faults : Faults) (jsonl_path : string)
    (s : Store.t) (fs : FS) : PyResult Z * Store.t * FS :=
  match SQLiteStorage.get_dirty_issues s with
  | [] => (Ok 0, s, fs)
  | _ => flush_to_jsonl faults jsonl_path s fs
  end.

End Codec.

End export.

(* ================================================================== *)
(** * commands/create.py: the id of a child *)
(* ================================================================== *)

Module create_cmd.


(** ** The hash id of a new issue *)

(** [for length in range(6, 13): ...], from the candidate [issue_id]. *)
Fixpoint pick_id (s : Store.t) (prefix full_hash : string) (lengths : list Z)
    (issue_id : string) : string :=
  match lengths with
  | [] => issue_id
  | length :: lengths' =>
      match SQLiteStorage.get_issue s issue_id with
      | None => issue_id
      | Some _ =>
          pick_id s prefix full_hash lengths'
            (id_gen.make_issue_id prefix full_hash (length + 1))
      end
  end.

(** The [else:] branch of [create]: the id of an issue with no custom id
    and no parent. *)
Definition hash_id (s : Store.t) (prefix title description : string) (now : Datetime.t)
  : string :=
  let workspace_id := prefix in
  let full_hash := id_gen.generate_hash_id prefix title description now workspace_id in
  pick_id s prefix full_hash (py_range 6 13)
    (id_gen.make_issue_id prefix full_hash 6).

End create_cmd.

(* ================================================================== *)
(** * utils.py *)
(* ================================================================== *)

Module utils.

(** [resolve_partial_id]. *)
Definition resolve_partial_id (partial : string) (all_ids : list string) : option string :=
  let matches := List.filter (fun id => String.prefix partial id) all_ids in
  match matches with
  | [m] => Some m
  | _ => if bool_decide (partial ∈ all_ids) then Some partial else None
  end.

(** [extract_issue_prefix]; [split] gives one part at least, and
    [rfind] is negative when the base holds no hyphen. *)
Definition extract_issue_prefix (issue_id : string) : string :=
  let base := hd "" (Str.split "." issue_id) in
  if Str.count_char "-" base =? 0 then base
  else id_gen.before_last "-" base.

(** [truncate]. *)
Definition truncate (s : string) (max_len : Z) : string :=
  if Str.py_len s <=? max_len then s
  else PyStr.slice_to (max_len - 3) s +:+ "...".

End utils.


(* ================================================================== *)
(** * Sample data for the concrete statements *)
(* ================================================================== *)

Module Sample.

Definition T0 : Datetime.t := Datetime.mk 2026 1 15 10 0 0 0 (Some 0).
Definition T1 : Datetime.t := Datetime.mk 2026 1 15 11 0 0 0 (Some 0).
Definition T2 : Datetime.t := Datetime.mk 2026 1 15 12 0 0 0 (Some 0).

(** [Issue(id=..., title=..., priority=..., created_at=t, updated_at=t)]. *)
Definition issue (id title : string) (priority : Z) (t : Datetime.t) : Issue.t :=
  let i := Issue.new t in
  {| Issue.id := id;
     Issue.content_hash := Issue.content_hash i;
     Issue.title := title;
     Issue.description := Issue.description i;
     Issue.design := Issue.design i;
     Issue.acceptance_criteria := Issue.acceptance_criteria i;
     Issue.notes := Issue.notes i;
     Issue.spec_id := Issue.spec_id i;
     Issue.status := Issue.status i;
     Issue.priority := priority;
     Issue.issue_type := Issue.issue_type i;
     Issue.assignee := Issue.assignee i;
     Issue.owner := Issue.owner i;
     Issue.estimated_minutes := Issue.estimated_minutes i;
     Issue.created_at := Issue.created_at i;
     Issue.created_by := Issue.created_by i;
     Issue.updated_at := Issue.updated_at i;
     Issue.closed_at := Issue.closed_at i;
     Issue.close_reason := Issue.close_reason i;
     Issue.closed_by_session := Issue.closed_by_session i;
     Issue.due_at := Issue.due_at i;
     Issue.defer_until := Issue.defer_until i;
     Issue.external_ref := Issue.external_ref i;
     Issue.source_system := Issue.source_system i;
     Issue.metadata := Issue.metadata i;
     Issue.compaction_level := Issue.compaction_level i;
     Issue.compacted_at := Issue.compacted_at i;
     Issue.compacted_at_commit := Issue.compacted_at_commit i;
     Issue.original_size := Issue.original_size i;
     Issue.labels := Issue.labels i;
     Issue.dependencies := Issue.dependencies i;
     Issue.comments := Issue.comments i;
     Issue.deleted_at := Issue.deleted_at i;
     Issue.deleted_by := Issue.deleted_by i;
     Issue.delete_reason := Issue.delete_reason i;
     Issue.original_type := Issue.original_type i;
     Issue.sender := Issue.sender i;
     Issue.ephemeral := Issue.ephemeral i;
     Issue.wisp_type := Issue.wisp_type i;
     Issue.pinned := Issue.pinned i;
     Issue.is_template := Issue.is_template i;
     Issue.bonded_from := Issue.bonded_from i;
     Issue.creator := Issue.creator i;
     Issue.validations := Issue.validations i;
     Issue.quality_score := Issue.quality_score i;
     Issue.crystallizes := Issue.crystallizes i;
     Issue.await_type := Issue.await_type i;
     Issue.await_id := Issue.await_id i;
     Issue.timeout := Issue.timeout i;
     Issue.waiters := Issue.waiters i;
     Issue.holder := Issue.holder i;
     Issue.hook_bead := Issue.hook_bead i;
     Issue.role_bead := Issue.role_bead i;
     Issue.agent_state := Issue.agent_state i;
     Issue.role_type := Issue.role_type i;
     Issue.rig := Issue.rig i;
     Issue.last_activity := Issue.last_activity i;
     Issue.mol_type := Issue.mol_type i;
     Issue.work_type := Issue.work_type i;
     Issue.event_kind := Issue.event_kind i;
     Issue.actor := Issue.actor i;
     Issue.target := Issue.target i;
     Issue.payload := Issue.payload i |}.

(** The store after the operations [ops], run in order from the empty
    database; an operation that raises leaves what it wrote. *)
Definition run (ops : list (DB unit)) : Store.t :=
  fold_left (fun s op => (op s).2) ops Store.empty.


(** [i] with its status and the two timestamps that go with it. *)
Definition with_status (status : string) (closed_at deleted_at : option Datetime.t)
    (i : Issue.t) : Issue.t :=
  {| Issue.id := Issue.id i;
     Issue.content_hash := Issue.content_hash i;
     Issue.title := Issue.title i;
     Issue.description := Issue.description i;
     Issue.design := Issue.design i;
     Issue.acceptance_criteria := Issue.acceptance_criteria i;
     Issue.notes := Issue.notes i;
     Issue.spec_id := Issue.spec_id i;
     Issue.status := status;
     Issue.priority := Issue.priority i;
     Issue.issue_type := Issue.issue_type i;
     Issue.assignee := Issue.assignee i;
     Issue.owner := Issue.owner i;
     Issue.estimated_minutes := Issue.estimated_minutes i;
     Issue.created_at := Issue.created_at i;
     Issue.created_by := Issue.created_by i;
     Issue.updated_at := Issue.updated_at i;
     Issue.closed_at := closed_at;
     Issue.close_reason := Issue.close_reason i;
     Issue.closed_by_session := Issue.closed_by_session i;
     Issue.due_at := Issue.due_at i;
     Issue.defer_until := Issue.defer_until i;
     Issue.external_ref := Issue.external_ref i;
     Issue.source_system := Issue.source_system i;
     Issue.metadata := Issue.metadata i;
     Issue.compaction_level := Issue.compaction_level i;
     Issue.compacted_at := Issue.compacted_at i;
     Issue.compacted_at_commit := Issue.compacted_at_commit i;
     Issue.original_size := Issue.original_size i;
     Issue.labels := Issue.labels i;
     Issue.dependencies := Issue.dependencies i;
     Issue.comments := Issue.comments i;
     Issue.deleted_at := deleted_at;
     Issue.deleted_by := Issue.deleted_by i;
     Issue.delete_reason := Issue.delete_reason i;
     Issue.original_type := Issue.original_type i;
     Issue.sender := Issue.sender i;
     Issue.ephemeral := Issue.ephemeral i;
     Issue.wisp_type := Issue.wisp_type i;
     Issue.pinned := Issue.pinned i;
     Issue.is_template := Issue.is_template i;
     Issue.bonded_from := Issue.bonded_from i;
     Issue.creator := Issue.creator i;
     Issue.validations := Issue.validations i;
     Issue.quality_score := Issue.quality_score i;
     Issue.crystallizes := Issue.crystallizes i;
     Issue.await_type := Issue.await_type i;
     Issue.await_id := Issue.await_id i;
     Issue.timeout := Issue.timeout i;
     Issue.waiters := Issue.waiters i;
     Issue.holder := Issue.holder i;
     Issue.hook_bead := Issue.hook_bead i;
     Issue.role_bead := Issue.role_bead i;
     Issue.agent_state := Issue.agent_state i;
     Issue.role_type := Issue.role_type i;
     Issue.rig := Issue.rig i;
     Issue.last_activity := Issue.last_activity i;
     Issue.mol_type := Issue.mol_type i;
     Issue.work_type := Issue.work_type i;
     Issue.event_kind := Issue.event_kind i;
     Issue.actor := Issue.actor i;
     Issue.target := Issue.target i;
     Issue.payload := Issue.payload i |}.

(** A closed issue. *)
Definition closed : Issue.t :=
  with_status Status.CLOSED (Some T1) None (issue "p-done" "Done" 1 T0).

(** A tombstone that kept the [closed_at] of the closed issue it was. *)
Definition tombstone : Issue.t :=
  with_status Status.TOMBSTONE (Some T0) (Some T1) (issue "p-dead" "Removed" 2 T0).

(** Two issues [A] and [B]. *)
Definition two_issues : Store.t :=
  run [ SQLiteStorage.create_issue T0 (issue "A" "first" 2 T0) "alice";
        SQLiteStorage.create_issue T1 (issue "B" "second" 2 T1) "alice" ].

Definition edge (issue_id depends_on_id type : string) : Dependency.t :=
  Dependency.mk issue_id depends_on_id type T1 "alice" "" "".

(** [B] depends on [A] (the edge [B -> A], of type blocks). *)
Definition b_blocked_by_a : Store.t :=
  (SQLiteStorage.add_dependency T1 (edge "B" "A" "blocks") "alice" two_issues).2.

(** A dict of [update_issue] with the keys [title], [status],
    [assignee] and [defer_until], each present or not. *)
Definition updates (title status : option string) (assignee : option (option string))
    (defer_until : option (option Datetime.t)) : Updates.t :=
  {| Updates.title := title; Updates.description := None; Updates.design := None;
     Updates.acceptance_criteria := None; Updates.notes := None;
     Updates.status := status; Updates.priority := None;
     Updates.issue_type := None; Updates.assignee := assignee;
     Updates.owner := None; Updates.estimated_minutes := None;
     Updates.closed_at := None; Updates.close_reason := None;
     Updates.closed_by_session := None; Updates.external_ref := None;
     Updates.spec_id := None; Updates.pinned := None;
     Updates.is_template := None; Updates.ephemeral := None;
     Updates.sender := None; Updates.wisp_type := None; Updates.due_at := None;
     Updates.defer_until := defer_until;
     Updates.source_system := None; Updates.metadata := None;
     Updates.created_by := None; Updates.hook_bead := None;
     Updates.role_bead := None; Updates.agent_state := None;
     Updates.role_type := None; Updates.rig := None; Updates.mol_type := None;
     Updates.work_type := None; Updates.event_kind := None;
     Updates.actor := None; Updates.target := None; Updates.payload := None;
     Updates.holder := None; Updates.crystallizes := None;
     Updates.last_activity := None |}.

(** The dict [{"defer_until": d}] of [bd update --defer]. *)
Definition deferral (d : Datetime.t) : Updates.t :=
  updates None None None (Some (Some d)).

(** One open issue [A], deferred until [d]. *)
Definition deferred_until (d : Datetime.t) : Store.t :=
  run [ SQLiteStorage.create_issue T0 (issue "A" "first" 2 T0) "alice";
        SQLiteStorage.update_issue T1 "A" (deferral d) "alice" ].

(** 2026-02-01T03:00:00+05:00, which is 2026-01-31T22:00:00Z. *)
Definition three_at_plus_five : Datetime.t := Datetime.mk 2026 2 1 3 0 0 0 (Some 300).

(** 2026-02-01T00:00:00Z and, half a second later,
    2026-02-01T00:00:00.500000Z. *)
Definition midnight : Datetime.t := Datetime.mk 2026 2 1 0 0 0 0 (Some 0).
Definition midnight_and_a_half : Datetime.t := Datetime.mk 2026 2 1 0 0 0 500000 (Some 0).

(** Two open issues of one priority: [early] created at midnight,
    [late] half a second after. *)
Definition early_and_late : Store.t :=
  run [ SQLiteStorage.create_issue T0 (issue "early" "first" 2 midnight) "alice";
        SQLiteStorage.create_issue T0
          (issue "late" "second" 2 midnight_and_a_half) "alice" ].

(** The store after [create_issue(Issue(id="A", title="first"), "alice")]
    on a fresh database. *)
Definition one_issue : Store.t :=
  run [ SQLiteStorage.create_issue T0 (issue "A" "first" 2 T0) "alice" ].

(** An open issue, a wisp and a tombstone. *)
Definition mixed : Store.t :=
  run [ SQLiteStorage.create_issue T0 (issue "A" "first" 2 T0) "alice";
        SQLiteStorage.create_issue T1
          (Issue.set_ephemeral true (issue "p-wisp-1" "scratch" 2 T1)) "alice";
        SQLiteStorage.create_issue T2 tombstone "alice" ].

(** For the export: a codec that writes the id of the issue, a directory
    that holds a log already, and a disk that fails at the second line. *)
Definition id_line (i : Issue.t) : PyResult string := Ok (Issue.id i).

Definition old_log : export.FS := {[ "issues.jsonl" := ["old"] ]}.

Definition second_write_fails : export.Faults :=
  export.mkFaults false (fun k => Nat.eqb k 1) false false.

(** The record of an issue [id] assigned to [assignee], as the importer
    reads it. *)
Definition record (id title assignee : string) (t : Datetime.t) : Issue.t :=
  SQLiteStorage.setattrs (updates None None (Some (Some assignee)) None)
    (issue id title 2 t).

(** A record after the first pass of the importer, which sets its hash. *)
Definition hashed (i : Issue.t) : Issue.t :=
  match Issue.compute_content_hash i with
  | Ok h => Issue.set_content_hash h i
  | Raise _ => i
  end.

(** A store with the issue [p-1], titled [Old], of [bob], updated at [T1]. *)
Definition old_p1 : Store.t :=
  run [ SQLiteStorage.create_issue T1 (record "p-1" "Old" "bob" T1) "alice" ].






End Sample.

(* ================================================================== *)
(** * The states a store can reach *)
(* ================================================================== *)

Module Reach.

(** One call of the store's interface, or one import. *)
Inductive op : Type :=
  | create_issue (now : Datetime.t) (issue : Issue.t) (actor : string)
  | update_issue (now : Datetime.t) (issue_id : string) (updates : Updates.t) (actor : string)
  | close_issue (now : Datetime.t) (issue_id reason actor : string)
  | reopen_issue (now : Datetime.t) (issue_id actor : string)
  | delete_issue (issue_id : string)
  | add_dependency (now : Datetime.t) (dep : Dependency.t) (actor : string)
  | remove_dependency (now : Datetime.t) (issue_id depends_on_id actor : string)
  | add_label (now : Datetime.t) (issue_id label actor : string)
  | remove_label (now : Datetime.t) (issue_id label actor : string)
  | add_comment (now : Datetime.t) (issue_id author text : string)
  | mark_dirty (now : Datetime.t) (issue_id : string)
  | clear_dirty (issue_ids : list string)
  | next_child_number (parent_id : string)
  | import_jsonl (now : Datetime.t) (issues : list Issue.t) (deletion_ids : list string).

Definition discard {A} (m : DB A) : DB unit := m ≫= fun _ => mret tt.

Definition run (o : op) : DB unit :=
  match o with
  | create_issue now issue actor => SQLiteStorage.create_issue now issue actor
  | update_issue now issue_id updates actor =>
      SQLiteStorage.update_issue now issue_id updates actor
  | close_issue now issue_id reason actor =>
      SQLiteStorage.close_issue now issue_id reason actor
  | reopen_issue now issue_id actor => SQLiteStorage.reopen_issue now issue_id actor
  | delete_issue issue_id => SQLiteStorage.delete_issue issue_id
  | add_dependency now dep actor => SQLiteStorage.add_dependency now dep actor
  | remove_dependency now issue_id depends_on_id actor =>
      SQLiteStorage.remove_dependency now issue_id depends_on_id actor
  | add_label now issue_id label actor => SQLiteStorage.add_label now issue_id label actor
  | remove_label now issue_id label actor =>
      SQLiteStorage.remove_label now issue_id label actor
  | add_comment now issue_id author text =>
      discard (SQLiteStorage.add_comment now issue_id author text)
  | mark_dirty now issue_id => SQLiteStorage.mark_dirty now issue_id
  | clear_dirty issue_ids => SQLiteStorage.clear_dirty issue_ids
  | next_child_number parent_id => discard (SQLiteStorage.next_child_number parent_id)
  | import_jsonl now issues deletion_ids =>
      discard (importer.import_jsonl now issues deletion_ids)
  end.

(** The stores reached from a fresh database; a call that raises leaves
    the store it had reached. *)
Inductive reachable : Store.t -> Prop :=
  | reach_empty : reachable Store.empty
  | reach_step s o : reachable s -> reachable (run o s).2.

End Reach.

(* ================================================================== *)
(** * The dependency graph *)
(* ================================================================== *)

Module Graph.

(** An edge of the table, of any type: [x] depends on [y]. *)
Definition edge (s : Store.t) (x y : string) : Prop :=
  exists d, d ∈ Store.dependencies s
            /\ Dependency.issue_id d = x /\ Dependency.depends_on_id d = y.

(** A walk of [n] edges from [x] to [z]. *)
Inductive walk (s : Store.t) : nat -> string -> string -> Prop :=
  | walk_here x : walk s 0 x x
  | walk_edge n x y z : edge s x y -> walk s n y z -> walk s (S n) x z.

End Graph.

(* ================================================================== *)
(** * The audit trail and the dirty set *)
(* ================================================================== *)

Module Audit.

(** From [s] to [s'] one event was appended: of kind [event_type], for
    [issue_id]. *)
Definition recorded (event_type issue_id : string) (s s' : Store.t) : Prop :=
  exists e, Store.events s' = (Store.events s ++ [e])%list
            /\ Event.issue_id e = issue_id /\ Event.event_type e = event_type.

(** [issue_id] is in the dirty set. *)
Definition dirty (issue_id : string) (s : Store.t) : Prop :=
  issue_id ∈ SQLiteStorage.get_dirty_issues s.

End Audit.

(* ================================================================== *)
(** * Ready work, as the query words it *)
(* ================================================================== *)

Module Ready.

(** The row [i] has an edge of a blocking type to a row with an active
    status. *)
Definition blocked (s : Store.t) (i : IssueRow.t) : Prop :=
  exists d blocker,
    d ∈ Store.dependencies s /\ blocker ∈ Store.issues s
    /\ Dependency.issue_id d = IssueRow.id i
    /\ Dependency.depends_on_id d = IssueRow.id blocker
    /\ Dependency.type d ∈ SQLiteStorage.BLOCKING_TYPES
    /\ IssueRow.status blocker ∈ SQLiteStorage.ACTIVE_STATUSES.

(** [defer_until IS NULL OR defer_until <= now], on the stored text. *)
Definition due (now : string) (i : IssueRow.t) : Prop :=
  match IssueRow.defer_until i with
  | None => True
  | Some d => String.leb (format_datetime d) now = true
  end.

(** The row [i] is ready at [now], clause by clause. *)
Definition ready (s : Store.t) (now : string) (i : IssueRow.t) : Prop :=
  IssueRow.status i = "open"
  /\ (IssueRow.ephemeral i = Some 0 \/ IssueRow.ephemeral i = None)
  /\ (IssueRow.pinned i = Some 0 \/ IssueRow.pinned i = None)
  /\ due now i
  /\ ~ blocked s i.

End Ready.

(* ================================================================== *)
(** * The content hash, as section 4.2 words it *)
(* ================================================================== *)

Module ContentHash.

(** The writer primitives, each as the bytes it contributes. *)
Definition str (s : string) : string := s +:+ NUL.

Definition str_optional (s : option string) : string :=
  match s with
  | Some s => s +:+ NUL
  | None => NUL
  end.

Definition int (n : Z) : string := Str.of_Z n +:+ NUL.

Definition flag (b : bool) (label : string) : string :=
  if b then label +:+ NUL else NUL.

Definition float_optional (f : option PyFloat.t) : string :=
  match f with
  | Some f => PyFloat.format_f f +:+ NUL
  | None => NUL
  end.

Definition duration (d : Z) : string := Str.of_Z d +:+ NUL.

Definition join (pieces : list string) : string :=
  fold_right String.append "" pieces.

Definition entity_ref (e : option pydict) : string :=
  match e with
  | Some e =>
      join [str (dict_get e "name"); str (dict_get e "platform");
            str (dict_get e "org"); str (dict_get e "id")]
  | None => ""
  end.

Definition bond (br : BondRef.t) : string :=
  join [str (BondRef.source_id br); str (BondRef.bond_type br);
        str (BondRef.bond_point br)].

Definition validation (v : Validation.t) : string :=
  join [entity_ref (Validation.validator v); str (Validation.outcome v);
        str (Issue.validation_ts (Validation.timestamp v));
        float_optional (Validation.score v)].

(** The concatenation, in the field order of section 4.2, for an issue
    whose assignee is the string [assignee]. *)
Definition stream (assignee : string) (i : Issue.t) : string :=
  join [ str (Issue.title i); str (Issue.description i); str (Issue.design i);
         str (Issue.acceptance_criteria i); str (Issue.notes i);
         str (Issue.spec_id i); str (Issue.status i); int (Issue.priority i);
         str (Issue.issue_type i); str assignee; str (Issue.owner i);
         str (Issue.created_by i); str_optional (Issue.external_ref i);
         str (Issue.source_system i); flag (Issue.pinned i) "pinned";
         str (Issue.metadata i); flag (Issue.is_template i) "template";
         join (map bond (Issue.bonded_from i));
         entity_ref (Issue.creator i);
         join (map validation (Issue.validations i));
         float_optional (Issue.quality_score i);
         flag (Issue.crystallizes i) "crystallizes";
         str (Issue.await_type i); str (Issue.await_id i);
         duration (Issue.timeout i);
         join (map str (Issue.waiters i));
         str (Issue.holder i); str (Issue.hook_bead i); str (Issue.role_bead i);
         str (Issue.agent_state i); str (Issue.role_type i); str (Issue.rig i);
         str (Issue.mol_type i); str (Issue.work_type i);
         str (Issue.event_kind i); str (Issue.actor i); str (Issue.target i);
         str (Issue.payload i) ].

(** Two issues agree on every field of the field order. *)
Definition same_content (i j : Issue.t) : Prop :=
  Issue.title i = Issue.title j
  /\ Issue.description i = Issue.description j
  /\ Issue.design i = Issue.design j
  /\ Issue.acceptance_criteria i = Issue.acceptance_criteria j
  /\ Issue.notes i = Issue.notes j
  /\ Issue.spec_id i = Issue.spec_id j
  /\ Issue.status i = Issue.status j
  /\ Issue.priority i = Issue.priority j
  /\ Issue.issue_type i = Issue.issue_type j
  /\ Issue.assignee i = Issue.assignee j
  /\ Issue.owner i = Issue.owner j
  /\ Issue.created_by i = Issue.created_by j
  /\ Issue.external_ref i = Issue.external_ref j
  /\ Issue.source_system i = Issue.source_system j
  /\ Issue.pinned i = Issue.pinned j
  /\ Issue.metadata i = Issue.metadata j
  /\ Issue.is_template i = Issue.is_template j
  /\ Issue.bonded_from i = Issue.bonded_from j
  /\ Issue.creator i = Issue.creator j
  /\ Issue.validations i = Issue.validations j
  /\ Issue.quality_score i = Issue.quality_score j
  /\ Issue.crystallizes i = Issue.crystallizes j
  /\ Issue.await_type i = Issue.await_type j
  /\ Issue.await_id i = Issue.await_id j
  /\ Issue.timeout i = Issue.timeout j
  /\ Issue.waiters i = Issue.waiters j
  /\ Issue.holder i = Issue.holder j
  /\ Issue.hook_bead i = Issue.hook_bead j
  /\ Issue.role_bead i = Issue.role_bead j
  /\ Issue.agent_state i = Issue.agent_state j
  /\ Issue.role_type i = Issue.role_type j
  /\ Issue.rig i = Issue.rig j
  /\ Issue.mol_type i = Issue.mol_type j
  /\ Issue.work_type i = Issue.work_type j
  /\ Issue.event_kind i = Issue.event_kind j
  /\ Issue.actor i = Issue.actor j
  /\ Issue.target i = Issue.target j
  /\ Issue.payload i = Issue.payload j.


(** A 64-character lowercase hex text. *)
Definition is_hex64 (h : string) : Prop :=
  String.length h = 64%nat /\ Str.all_chars SHA256.is_lower_hex h = true.

End ContentHash.

(* ================================================================== *)
(** * What an export is to write *)
(* ================================================================== *)

Module Exported.

(** The primary key of [issues]: no id twice. *)
Definition ids_unique (s : Store.t) : Prop := NoDup (Store.issue_ids s).

(** The issue of the row [r], with its labels, edges and comments. *)
Definition full (s : Store.t) (r : IssueRow.t) : Issue.t :=
  SQLiteStorage.with_relations
    (SQLiteStorage.get_labels s (IssueRow.id r))
    (SQLiteStorage.get_dependency_records s (IssueRow.id r))
    (SQLiteStorage.get_comments s (IssueRow.id r))
    (SQLiteStorage._row_to_issue r).

(** The rows that are not ephemeral, of any status, newest first. *)
Definition rows (s : Store.t) : list IssueRow.t :=
  List.filter (fun r => negb (SQLiteStorage.bool_of_column (IssueRow.ephemeral r)))
    (SQLiteStorage.search_all_rows s).

(** The file [tmp_path] next to the log. *)
Definition tmp_path (jsonl_path : string) : string := jsonl_path +:+ ".tmp".

End Exported.

(* ================================================================== *)
(** * The importer's merge, as section 4.5 words it *)
(* ================================================================== *)

Module Merge.



End Merge.

(* ================================================================== *)
(** * A record ready for the loop of the importer *)
(* ================================================================== *)

Module Batch.

(** After the first pass a record carries its own hash. *)
Definition hashed (x : Issue.t) : Prop :=
  Issue.compute_content_hash x = Ok (Issue.content_hash x).

(** The row [create_issue] adds for a record that carries its hash. *)
Definition row (x : Issue.t) : IssueRow.t :=
  SQLiteStorage.issue_row x (Issue.content_hash x).


End Batch.


(* ================================================================== *)
(** * The foreign keys of the schema *)
(* ================================================================== *)

Module Integrity.

(** The ids the rows of the other tables refer to, by a column declared
    [REFERENCES issues(id)]. *)
Definition referenced (s : Store.t) : list string :=
  (map Dependency.issue_id (Store.dependencies s)
   ++ map Dependency.depends_on_id (Store.dependencies s)
   ++ map fst (Store.labels s)
   ++ map Comment.issue_id (Store.comments s)
   ++ map Event.issue_id (Store.events s)
   ++ map fst (Store.dirty_issues s)
   ++ map fst (Store.export_hashes s)
   ++ map fst (Store.child_counters s))%list.

(** No row refers to an issue that is not there. *)
Definition refs_ok (s : Store.t) : Prop :=
  forall k, k ∈ referenced s -> k ∈ Store.issue_ids s.

(** The primary key of a row of [dependencies]. *)
Definition dep_key (d : Dependency.t) : string * string :=
  (Dependency.issue_id d, Dependency.depends_on_id d).

(** The keys of an AUTOINCREMENT table: no id twice, none above the
    sequence. *)
Definition seq_ok (seq : Z) (ids : list Z) : Prop :=
  NoDup ids /\ Forall (fun i => i <= seq) ids.

(** No table holds a primary key twice. *)
Definition keys_ok (s : Store.t) : Prop :=
  NoDup (Store.issue_ids s)
  /\ NoDup (map dep_key (Store.dependencies s))
  /\ NoDup (Store.labels s)
  /\ seq_ok (Store.comment_seq s) (map Comment.id (Store.comments s))
  /\ seq_ok (Store.event_seq s) (map Event.id (Store.events s))
  /\ NoDup (map fst (Store.dirty_issues s))
  /\ NoDup (map fst (Store.export_hashes s))
  /\ NoDup (map fst (Store.child_counters s)).

(** Every row passes the binding of its integers and the CHECKs. *)
Definition rows_ok (s : Store.t) : Prop :=
  Forall (fun r => SQLiteStorage.check_row r = Ok tt) (Store.issues s).

(** The rows of [issues] after [UPDATE issues SET ... WHERE id = ?]. *)
Definition updated (issue_id : string) (f : IssueRow.t -> IssueRow.t)
    (rows : list IssueRow.t) : list IssueRow.t :=
  map (fun r => if String.eqb (IssueRow.id r) issue_id then f r else r) rows.

End Integrity.

(* ================================================================== *)
(** * The trail of a mutator *)
(* ================================================================== *)

Module Trail.

(** The store after [_record_event] and [mark_dirty] for one issue: one
    event more, and the dirty mark of the issue set to [now]. *)
Definition logged (now : Datetime.t) (event_type issue_id actor : string)
    (old_value new_value comment : option string) (s : Store.t) : Store.t :=
  Store.mk (Store.issues s) (Store.dependencies s) (Store.labels s) (Store.comments s)
    (Store.events s ++
       [Event.mk (Store.event_seq s + 1) issue_id event_type actor
          old_value new_value comment (stored_datetime now)])
    (SQLiteStorage.upsert_dirty issue_id (stored_datetime now) (Store.dirty_issues s))
    (Store.export_hashes s) (Store.child_counters s) (Store.config s) (Store.metadata s)
    (Store.comment_seq s) (Store.event_seq s + 1).

End Trail.

(* ================================================================== *)
(** * Small databases, by the calls that made them *)
(* ================================================================== *)

Module Scenario.

(** One open issue, [A]. *)
Definition one : Store.t :=
  (Reach.run (Reach.create_issue Sample.T0 (Sample.issue "A" "first" 2 Sample.T0) "alice")
     Store.empty).2.

(** Two open issues, [A] and [B]. *)
Definition two : Store.t :=
  (Reach.run (Reach.create_issue Sample.T1 (Sample.issue "B" "second" 2 Sample.T1) "alice")
     one).2.

(** [B] waits for [A]. *)
Definition blocked : Store.t :=
  (Reach.run (Reach.add_dependency Sample.T1 (Sample.edge "B" "A" "blocks") "alice") two).2.

(** [A] with the labels [api] and [bug]. *)
Definition labelled : Store.t :=
  (Reach.run (Reach.add_label Sample.T1 "A" "api" "alice")
     (Reach.run (Reach.add_label Sample.T1 "A" "bug" "alice") one).2).2.

(** [A] closed. *)
Definition closed : Store.t :=
  (Reach.run (Reach.close_issue Sample.T1 "A" "done" "alice") one).2.


End Scenario.

(* ================================================================== *)
(** * Base 36 *)
(* ================================================================== *)

Module Base36.

(** The place of a character in [BASE36_ALPHABET]. *)
Definition digit_value (a : ascii) : Z :=
  let b := Str.byte_of a in
  if b <=? 57 then b - 48 else b - 87.

(** The number a text denotes in base 36, most significant digit first. *)
Definition value (s : string) : Z :=
  fold_left (fun n a => n * 36 + digit_value a) (list_ascii_of_string s) 0.

(** A character of [BASE36_ALPHABET]. *)
Definition is_digit (a : ascii) : bool :=
  let b := Str.byte_of a in
  ((48 <=? b) && (b <=? 57)) || ((97 <=? b) && (b <=? 122)).

End Base36.

(** The number the digits [l] denote in base 36, most significant first. *)
Definition valueL (l : list ascii) : Z :=
  fold_left (fun n a => n * 36 + Base36.digit_value a) l 0.

(** Every character is one of [BASE36_ALPHABET]. *)
Definition all_base36 (l : list ascii) : Prop :=
  Forall (fun a => Base36.is_digit a = true) l.

(* ================================================================== *)
(** * Counting *)
(* ================================================================== *)

(** How often [k] occurs in [keys]. *)
Definition occurrences {K : Type} `{EqDecision K} (k : K) (keys : list K) : Z :=
  Z.of_nat (length (filter (fun x => x = k) keys)).

(** The sum of the counts of a list of groups. *)
Definition group_sum {K : Type} (groups : list (K * Z)) : Z :=
  fold_right (fun kv acc => kv.2 + acc) 0 groups.

(** The count a group list gives a key: 0 when it has no group. *)
Definition count_of {K : Type} `{EqDecision K} (q : K) (groups : list (K * Z)) : Z :=
  default 0 (snd <$> find (fun kv => bool_decide (kv.1 = q)) groups).

(** The records an import has accounted for. *)
Definition tally (r : importer.ImportResult) : Z :=
  importer.created r + importer.updated r + importer.unchanged r + importer.skipped r.


(* ================================================================== *)
(** * Theorems *)
(* ================================================================== *)

Example sha256_abc :
  SHA256.hexdigest "abc" =
  "ba7816bf8f01cfea414140de5dae2223b00361a396177a9cb410ff61f20015ad".
Proof. vm_compute. reflexivity. Qed.

Example sha256_empty :
  SHA256.hexdigest "" =
  "e3b0c44298fc1c149afbf4c8996fb92427ae41e4649b934ca495991b7852b855".
Proof. vm_compute. reflexivity. Qed.

Example sha256_two_blocks :
  SHA256.hexdigest "abcdbcdecdefdefgefghfghighijhijkijkljklmklmnlmnomnopnopq" =
  "248d6a61d20638b8e5c026930c3e6039a33ce45964ff2167f6ecedd419db06c1".
Proof. vm_compute. reflexivity. Qed.

(* ------------------------------------------------------------------ *)
(** ** Results and store operations *)
(* ------------------------------------------------------------------ *)

Lemma db_bind_ok {A B} (m : DB A) (f : A -> DB B) s b s' :
  (m ≫= f) s = (Ok b, s') <->
  exists a s1, m s = (Ok a, s1) /\ f a s1 = (Ok b, s').
Proof.
  unfold mbind, DB_bind. destruct (m s) as [[a|e] s1]; split.
  - intros H. exists a, s1. auto.
  - intros (a' & s1' & Heq & H). inversion Heq; subst. exact H.
  - intros H. discriminate.
  - intros (a' & s1' & Heq & H). discriminate.
Qed.

Lemma db_bind_raise {A B} (m : DB A) (f : A -> DB B) s e s' :
  (m ≫= f) s = (Raise e, s') <->
  m s = (Raise e, s') \/ exists a s1, m s = (Ok a, s1) /\ f a s1 = (Raise e, s').
Proof.
  unfold mbind, DB_bind. destruct (m s) as [[a|e0] s1]; split.
  - intros H. right. exists a, s1. auto.
  - intros [Heq | (a' & s1' & Heq & H)]; [discriminate|].
    inversion Heq; subst. exact H.
  - intros H. inversion H; subst. left. reflexivity.
  - intros [Heq | (a' & s1' & Heq & H)]; [|discriminate].
    inversion Heq; subst. reflexivity.
Qed.

(** A property of the store that an operation keeps, whether it returns
    or raises. *)
Definition preserves {A} (P : Store.t -> Prop) (m : DB A) : Prop :=
  forall s, P s -> P (m s).2.

Lemma preserves_ret {A} P (a : A) : preserves P (mret a : DB A).
Proof. intros s H. exact H. Qed.

Lemma preserves_raise {A} P e : preserves P (db_raise e : DB A).
Proof. intros s H. exact H. Qed.

Lemma preserves_lift {A} P (r : PyResult A) : preserves P (db_lift r).
Proof. intros s H. exact H. Qed.

Lemma preserves_get P : preserves P db_get.
Proof. intros s H. exact H. Qed.

Lemma preserves_modify P f :
  (forall s, P s -> P (f s)) -> preserves P (db_modify f).
Proof. intros Hf s H. apply Hf, H. Qed.

Lemma preserves_bind {A B} P (m : DB A) (f : A -> DB B) :
  preserves P m -> (forall a, preserves P (f a)) -> preserves P (m ≫= f).
Proof.
  intros Hm Hf s H. unfold mbind, DB_bind.
  specialize (Hm s H). destruct (m s) as [[a|e] s1]; simpl in *.
  - apply Hf, Hm.
  - exact Hm.
Qed.

Lemma preserves_for {A} P (l : list A) (body : A -> DB unit) :
  (forall x, preserves P (body x)) -> preserves P (db_for l body).
Proof.
  intros Hb. induction l as [|x l IH]; simpl.
  - apply preserves_ret.
  - apply preserves_bind; [apply Hb | intros _; exact IH].
Qed.

Lemma preserves_except P (m : DB unit) :
  preserves P m -> preserves P (db_except_integrity m).
Proof.
  intros Hm s H. unfold db_except_integrity.
  specialize (Hm s H). destruct (m s) as [[a|e] s1]; simpl in *; [exact Hm|].
  destruct e; exact Hm.
Qed.

(** An operation that stores nothing in a table [get] leaves it as it
    was. *)
Definition keeps {A B} (get : Store.t -> B) (m : DB A) : Prop :=
  forall s, get (m s).2 = get s.

Lemma keeps_preserves {A B} (get : Store.t -> B) (m : DB A) :
  keeps get m <-> forall v, preserves (fun s => get s = v) m.
Proof.
  split.
  - intros H v s Hs. rewrite H. exact Hs.
  - intros H s. apply (H (get s) s). reflexivity.
Qed.

(* ------------------------------------------------------------------ *)
(** ** The order of strings *)
(* ------------------------------------------------------------------ *)

Lemma ascii_compare_N a b :
  Ascii.compare a b = N.compare (N_of_ascii a) (N_of_ascii b).
Proof. reflexivity. Qed.

Lemma string_compare_trans_lt s1 : forall s2 s3,
  String.compare s1 s2 = Lt -> String.compare s2 s3 = Lt ->
  String.compare s1 s3 = Lt.
Proof.
  induction s1 as [|a s1 IH]; intros [|b s2] [|c s3]; simpl; try congruence.
  rewrite !ascii_compare_N.
  destruct (N.compare_spec (N_of_ascii a) (N_of_ascii b)) as [Hab|Hab|Hab];
  destruct (N.compare_spec (N_of_ascii b) (N_of_ascii c)) as [Hbc|Hbc|Hbc];
  try congruence; intros H1 H2.
  - rewrite <- Hbc, Hab, N.compare_refl. eauto.
  - rewrite Hab. apply N.compare_lt_iff in Hbc. rewrite Hbc. reflexivity.
  - rewrite <- Hbc. apply N.compare_lt_iff in Hab. rewrite Hab. reflexivity.
  - assert (H : (N_of_ascii a < N_of_ascii c)%N) by lia.
    apply N.compare_lt_iff in H. rewrite H. reflexivity.
Qed.

Lemma string_leb_refl s : String.leb s s = true.
Proof. destruct (String.leb_total s s); assumption. Qed.

Lemma string_leb_trans s1 s2 s3 :
  String.leb s1 s2 = true -> String.leb s2 s3 = true -> String.leb s1 s3 = true.
Proof.
  unfold String.leb.
  destruct (String.compare s1 s2) eqn:H12; try discriminate;
  destruct (String.compare s2 s3) eqn:H23; try discriminate; intros _ _.
  - apply String.compare_eq_iff in H12, H23. subst.
    exact (string_leb_refl s3).
  - apply String.compare_eq_iff in H12. subst. rewrite H23. reflexivity.
  - apply String.compare_eq_iff in H23. subst. rewrite H12. reflexivity.
  - rewrite (string_compare_trans_lt _ _ _ H12 H23). reflexivity.
Qed.


(* ------------------------------------------------------------------ *)
(** ** ORDER BY *)
(* ------------------------------------------------------------------ *)

Section OrderByFacts.

Context {A : Type} (le : A -> A -> bool).

Lemma insert_perm x l : OrderBy.insert le x l ≡ₚ x :: l.
Proof.
  induction l as [|y l IH]; simpl; [reflexivity|].
  destruct (le x y); [reflexivity|].
  rewrite IH. apply Permutation_swap.
Qed.

Lemma sort_perm l : OrderBy.sort le l ≡ₚ l.
Proof.
  induction l as [|x l IH]; simpl; [reflexivity|].
  rewrite insert_perm, IH. reflexivity.
Qed.

Lemma elem_of_sort x l : x ∈ OrderBy.sort le l <-> x ∈ l.
Proof. rewrite sort_perm. reflexivity. Qed.

Lemma length_sort l : length (OrderBy.sort le l) = length l.
Proof. rewrite sort_perm. reflexivity. Qed.

Lemma NoDup_sort l : NoDup (OrderBy.sort le l) <-> NoDup l.
Proof. rewrite sort_perm. reflexivity. Qed.

(** Every earlier row is below every later one, for a total and
    transitive order. *)
Inductive ordered : list A -> Prop :=
  | ordered_nil : ordered []
  | ordered_cons x l :
      Forall (fun y => le x y = true) l -> ordered l -> ordered (x :: l).

Hypothesis le_total : forall x y, le x y = true \/ le y x = true.
Hypothesis le_trans : forall x y z, le x y = true -> le y z = true -> le x z = true.

Lemma insert_ordered x l : ordered l -> ordered (OrderBy.insert le x l).
Proof.
  induction 1 as [|y l Hy Hl IH]; simpl.
  - constructor; [constructor | constructor].
  - destruct (le x y) eqn:Hxy.
    + constructor; [|constructor; assumption].
      constructor; [exact Hxy|].
      eapply Forall_impl; [exact Hy|]. intros z Hz. eauto.
    + constructor; [|exact IH].
      assert (Hyx : le y x = true).
      { destruct (le_total x y) as [H|H]; [congruence | exact H]. }
      apply Forall_forall. intros z Hz.
      rewrite insert_perm in Hz. apply elem_of_cons in Hz as [->|Hz]; [exact Hyx|].
      rewrite Forall_forall in Hy. apply Hy, Hz.
Qed.

Lemma sort_ordered l : ordered (OrderBy.sort le l).
Proof.
  induction l as [|x l IH]; simpl; [constructor | apply insert_ordered, IH].
Qed.

End OrderByFacts.


(* ------------------------------------------------------------------ *)
(** ** Hierarchical identifiers (C8) *)
(* ------------------------------------------------------------------ *)

Lemma count_char_nonneg c s : 0 <= Str.count_char c s.
Proof.
  induction s as [|a s IH]; simpl; [lia|].
  destruct (Ascii.eqb a c); lia.
Qed.






Example check_hierarchy_depth_examples :
  id_gen.check_hierarchy_depth "bd-abc" 0 = None
  /\ id_gen.check_hierarchy_depth "bd-abc.1" 0 = None
  /\ id_gen.check_hierarchy_depth "bd-abc.1.2" 0 = None
  /\ id_gen.check_hierarchy_depth "bd-abc.1.2.3" 0
     = Some "maximum hierarchy depth (3) exceeded for parent bd-abc.1.2.3"
  /\ id_gen.parse_hierarchical_id "bd-abc123.1.2" = ("bd-abc123", "bd-abc123.1", 2)
  /\ id_gen.parse_hierarchical_id "p-abc.foo" = ("p-abc.foo", "", 0).
Proof. vm_compute. repeat split; reflexivity. Qed.

(* ------------------------------------------------------------------ *)
(** ** The rows of [issues] satisfy the CHECKs (C7) *)
(* ------------------------------------------------------------------ *)

Definition rows_checked (s : Store.t) : Prop :=
  Forall (fun r => Schema.check_issue_row r = true) (Store.issues s).

Ltac db_unfold :=
  unfold mbind, mret, DB_bind, DB_ret, db_lift, db_get, db_modify, db_raise in *.

Lemma check_row_ok r : SQLiteStorage.check_row r = Ok tt -> Schema.check_issue_row r = true.
Proof.
  unfold SQLiteStorage.check_row.
  destruct (forallb in_int64 (SQLiteStorage.row_ints r)); simpl; [|discriminate].
  destruct (Schema.check_issue_row r); simpl; [reflexivity | discriminate].
Qed.

Lemma update_rows_checked issue_id f rows rows' :
  SQLiteStorage.update_rows issue_id f rows = Ok rows' ->
  Forall (fun r => Schema.check_issue_row r = true) rows ->
  Forall (fun r => Schema.check_issue_row r = true) rows'.
Proof.
  revert rows'. induction rows as [|r rows IH]; intros rows' H Hall; simpl in H.
  - inversion H. constructor.
  - inversion Hall as [|? ? Hr Hrows]; subst.
    destruct (String.eqb (IssueRow.id r) issue_id).
    + destruct (SQLiteStorage.check_row (f r)) as [[]|e] eqn:Hc; simpl in H; [|discriminate].
      destruct (SQLiteStorage.update_rows issue_id f rows) as [rows''|e] eqn:Hu;
        simpl in H; [|discriminate].
      inversion H; subst. constructor; [apply check_row_ok, Hc | apply IH; auto].
    + simpl in H.
      destruct (SQLiteStorage.update_rows issue_id f rows) as [rows''|e] eqn:Hu;
        simpl in H; [|discriminate].
      inversion H; subst. constructor; [exact Hr | apply IH; auto].
Qed.

Lemma insert_issue_checked r : preserves rows_checked (SQLiteStorage.insert_issue r).
Proof.
  intros s H. unfold SQLiteStorage.insert_issue. db_unfold.
  destruct (SQLiteStorage.check_row r) as [[]|e] eqn:Hc; simpl; [|exact H].
  destruct (Store.has_issue s (IssueRow.id r)); simpl; [exact H|].
  unfold rows_checked. simpl. apply Forall_app. split; [exact H|].
  constructor; [apply check_row_ok, Hc | constructor].
Qed.

Lemma update_where_id_checked issue_id f :
  preserves rows_checked (SQLiteStorage.update_where_id issue_id f).
Proof.
  intros s H. unfold SQLiteStorage.update_where_id. db_unfold.
  destruct (SQLiteStorage.update_rows issue_id f (Store.issues s)) as [rows|e] eqn:Hu;
    simpl; [|exact H].
  unfold rows_checked. simpl. eapply update_rows_checked; eauto.
Qed.

Lemma delete_issue_checked issue_id :
  preserves rows_checked (SQLiteStorage.delete_issue issue_id).
Proof.
  intros s H. unfold SQLiteStorage.delete_issue, rows_checked. db_unfold. simpl.
  unfold Store.drop_key. apply Forall_forall. intros r Hr.
  apply list_elem_of_filter in Hr as [_ Hr].
  unfold rows_checked in H. rewrite Forall_forall in H. apply H, Hr.
Qed.

(** The operations that write no row of [issues]. *)
Lemma record_event_issues now i t a o n c :
  keeps Store.issues (SQLiteStorage._record_event now i t a o n c).
Proof.
  intros s. unfold SQLiteStorage._record_event. db_unfold.
  destruct (Store.has_issue s i); reflexivity.
Qed.

Lemma mark_dirty_issues now i : keeps Store.issues (SQLiteStorage.mark_dirty now i).
Proof.
  intros s. unfold SQLiteStorage.mark_dirty. db_unfold.
  destruct (Store.has_issue s i); reflexivity.
Qed.

Lemma insert_label_issues i l : keeps Store.issues (SQLiteStorage.insert_label i l).
Proof.
  intros s. unfold SQLiteStorage.insert_label. db_unfold.
  destruct (Store.has_issue s i); simpl; [|reflexivity].
  destruct (bool_decide _); reflexivity.
Qed.

Lemma insert_dependency_issues d : keeps Store.issues (SQLiteStorage.insert_dependency d).
Proof.
  intros s. unfold SQLiteStorage.insert_dependency. db_unfold.
  destruct (negb _); simpl; [reflexivity|].
  destruct (SQLiteStorage.has_edge _ _ _); reflexivity.
Qed.

Lemma insert_comment_issues i a t c : keeps Store.issues (SQLiteStorage.insert_comment i a t c).
Proof.
  intros s. unfold SQLiteStorage.insert_comment. db_unfold.
  destruct (Store.has_issue s i); reflexivity.
Qed.

Lemma keeps_checked {A} (m : DB A) : keeps Store.issues m -> preserves rows_checked m.
Proof. intros H s Hs. unfold rows_checked. rewrite H. exact Hs. Qed.

Ltac preserves_auto :=
  repeat first
    [ apply preserves_ret | apply preserves_raise | apply preserves_lift
    | apply preserves_get
    | apply insert_issue_checked | apply update_where_id_checked
    | apply delete_issue_checked
    | apply keeps_checked;
      first [ apply record_event_issues | apply mark_dirty_issues
            | apply insert_label_issues | apply insert_dependency_issues
            | apply insert_comment_issues ]
    | apply preserves_bind; [|intros ?]
    | apply preserves_for; intros ?
    | apply preserves_except
    | match goal with |- preserves _ (if ?c then _ else _) => destruct c end
    | match goal with |- preserves _ (match ?c with _ => _ end) => destruct c end
    | apply preserves_modify; intros ? ?; assumption ].

Lemma create_issue_checked now issue actor :
  preserves rows_checked (SQLiteStorage.create_issue now issue actor).
Proof. unfold SQLiteStorage.create_issue. preserves_auto. Qed.

Lemma update_issue_checked now issue_id u actor :
  preserves rows_checked (SQLiteStorage.update_issue now issue_id u actor).
Proof. unfold SQLiteStorage.update_issue. preserves_auto. Qed.

Lemma import_loop_checked now snap issues : forall l,
  preserves rows_checked (importer.import_loop now snap l issues).
Proof.
  induction issues as [|i issues IH]; intros l; simpl.
  - apply preserves_ret.
  - apply preserves_bind; [|intros l'; apply IH].
    unfold importer.import_one. preserves_auto;
      first [apply create_issue_checked | apply update_issue_checked].
Qed.

Lemma process_deletions_checked ids : forall r,
  preserves rows_checked (importer.process_deletions ids r).
Proof.
  induction ids as [|i ids IH]; intros r; simpl.
  - apply preserves_ret.
  - preserves_auto; apply IH.
Qed.

Lemma run_checked o : preserves rows_checked (Reach.run o).
Proof.
  destruct o; simpl;
    unfold SQLiteStorage.close_issue, SQLiteStorage.reopen_issue,
      SQLiteStorage.add_dependency, SQLiteStorage.remove_dependency,
      SQLiteStorage.add_label, SQLiteStorage.remove_label,
      SQLiteStorage.add_comment, SQLiteStorage.clear_dirty,
      SQLiteStorage.next_child_number, importer.import_jsonl, Reach.discard;
    first [ apply create_issue_checked | apply update_issue_checked | idtac ];
    preserves_auto;
    first [ apply import_loop_checked | apply process_deletions_checked | idtac ].
Qed.

Lemma reachable_checked s : Reach.reachable s -> rows_checked s.
Proof.
  induction 1 as [|s o _ IH].
  - constructor.
  - apply run_checked, IH.
Qed.

Lemma check_closed_spec status closed_at :
  Schema.check_closed status closed_at = true ->
  (status = "closed" -> is_Some closed_at)
  /\ (is_Some closed_at -> status = "closed" \/ status = "tombstone").
Proof.
  unfold Schema.check_closed. intros H.
  apply orb_true_iff in H as [H|H]; [apply orb_true_iff in H as [H|H]|].
  - apply andb_true_iff in H as [H1 H2].
    apply String.eqb_eq in H1. apply bool_decide_eq_true in H2. auto.
  - apply String.eqb_eq in H. subst. split; [discriminate | auto].
  - apply andb_true_iff in H as [H1 H2].
    apply negb_true_iff, bool_decide_eq_false in H1.
    apply negb_true_iff, bool_decide_eq_false in H2.
    split.
    + intros ->. exfalso. apply H1. apply elem_of_cons. left. reflexivity.
    + intros Hs. contradiction.
Qed.

(** C7, as the code has it. Validation accepts a closed issue only with a
    [closed_at], and accepts a [closed_at] on a closed issue or on a
    tombstone only; the CHECK of the schema holds the rows of every
    reachable store, and so the issues [get_issue] returns, to the same
    rule. *)
Theorem closed_at_rule :
  (forall json_loads_ok i,
     Issue.validate json_loads_ok i = None ->
     (Issue.status i = "closed" -> is_Some (Issue.closed_at i))
     /\ (is_Some (Issue.closed_at i) ->
         Issue.status i = "closed" \/ Issue.status i = "tombstone"))
  /\ (forall s, Reach.reachable s ->
      (forall r, r ∈ Store.issues s ->
         (IssueRow.status r = "closed" -> is_Some (IssueRow.closed_at r))
         /\ (is_Some (IssueRow.closed_at r) ->
             IssueRow.status r = "closed" \/ IssueRow.status r = "tombstone"))
      /\ (forall issue_id i, SQLiteStorage.get_issue s issue_id = Some i ->
         (Issue.status i = "closed" -> is_Some (Issue.closed_at i))
         /\ (is_Some (Issue.closed_at i) ->
             Issue.status i = "closed" \/ Issue.status i = "tombstone"))).
Proof.
  split.
  - intros f i H. unfold Issue.validate in H.
    repeat match type of H with
           | (if ?c then _ else _) = None => destruct c eqn:?; [discriminate|]
           end.
    unfold Status.CLOSED, Status.TOMBSTONE in *.
    split.
    + intros Hs. rewrite Hs in *. simpl in *.
      lazymatch goal with
      | H' : negb (bool_decide (is_Some (Issue.closed_at i))) = false |- _ =>
          apply negb_false_iff, bool_decide_eq_true in H'; exact H'
      end.
    + intros Hc.
      lazymatch goal with
      | H' : negb (bool_decide (_ ∈ _)) && bool_decide (is_Some (Issue.closed_at i)) = false
        |- _ =>
          destruct (proj1 (andb_false_iff _ _) H') as [H1|H1];
          [ apply negb_false_iff, bool_decide_eq_true in H1;
            rewrite !elem_of_cons, elem_of_nil in H1; tauto
          | apply bool_decide_eq_false in H1; contradiction ]
      end.
  - intros s Hs. apply reachable_checked in Hs.
    assert (Hrows : forall r, r ∈ Store.issues s ->
      (IssueRow.status r = "closed" -> is_Some (IssueRow.closed_at r))
      /\ (is_Some (IssueRow.closed_at r) ->
          IssueRow.status r = "closed" \/ IssueRow.status r = "tombstone")).
    { intros r Hr. unfold rows_checked in Hs. rewrite Forall_forall in Hs.
      specialize (Hs r Hr). unfold Schema.check_issue_row in Hs.
      apply andb_true_iff in Hs as [_ Hs]. apply check_closed_spec, Hs. }
    split; [exact Hrows|].
    intros issue_id i Hget. unfold SQLiteStorage.get_issue in Hget.
    destruct (Store.find_issue s issue_id) as [r|] eqn:Hf; [|discriminate].
    inversion Hget; subst; clear Hget.
    unfold Store.find_issue in Hf. apply find_some in Hf as [Hin _].
    apply list_elem_of_In in Hin. destruct (Hrows r Hin) as [H1 H2]. simpl.
    unfold str_or, Status.OPEN.
    destruct (IssueRow.status r) as [|a st] eqn:Hst; simpl.
    + split; [discriminate|]. intros Hc. destruct (H2 Hc); discriminate.
    + split; assumption.
Qed.

(** C7, the claim's converse fails on a tombstone: validation accepts it
    with a [closed_at], the schema stores it, and [get_issue] returns it. *)
Lemma tombstone_keeps_closed_at :
  Issue.validate (fun _ => true) Sample.tombstone = None
  /\ is_Some (Issue.closed_at Sample.tombstone)
  /\ Issue.status Sample.tombstone <> "closed"
  /\ let r := SQLiteStorage.create_issue Sample.T2 Sample.tombstone "import" Store.empty in
     r.1 = Ok tt
     /\ exists i, SQLiteStorage.get_issue r.2 "p-dead" = Some i
                  /\ is_Some (Issue.closed_at i) /\ Issue.status i <> "closed".
Proof.
  split; [vm_compute; reflexivity|].
  split; [eexists; reflexivity|].
  split; [discriminate|].
  split; [vm_compute; reflexivity|].
  eexists. split; [vm_compute; reflexivity|].
  split; [eexists; reflexivity | discriminate].
Qed.

(** The rule at a closed issue that validation accepts and at the store
    that holds it. *)
Lemma closed_at_rule_witness :
  Issue.validate (fun _ => true) Sample.closed = None
  /\ is_Some (Issue.closed_at Sample.closed)
  /\ Reach.reachable
       (Reach.run (Reach.create_issue Sample.T1 Sample.closed "alice") Store.empty).2
  /\ forall r,
       r ∈ Store.issues
             (Reach.run (Reach.create_issue Sample.T1 Sample.closed "alice")
                Store.empty).2 ->
       IssueRow.status r = "closed" -> is_Some (IssueRow.closed_at r).
Proof.
  assert (Hv : Issue.validate (fun _ => true) Sample.closed = None)
    by (vm_compute; reflexivity).
  assert (Hr : Reach.reachable
                 (Reach.run (Reach.create_issue Sample.T1 Sample.closed "alice")
                    Store.empty).2)
    by (apply Reach.reach_step, Reach.reach_empty).
  split; [exact Hv|]. split; [|split; [exact Hr|]].
  - exact (proj1 (proj1 closed_at_rule _ _ Hv) eq_refl).
  - intros r Hin. exact (proj1 (proj1 (proj2 closed_at_rule _ Hr) r Hin)).
Defined.

(* ------------------------------------------------------------------ *)
(** ** The cycle oracle (C5) *)
(* ------------------------------------------------------------------ *)

Lemma elem_of_cte_step s frontier z :
  z ∈ SQLiteStorage.cte_step s frontier <-> exists y, y ∈ frontier /\ Graph.edge s y z.
Proof.
  unfold SQLiteStorage.cte_step, Graph.edge.
  rewrite list_elem_of_In, in_flat_map. split.
  - intros (y & Hy & Hz). apply in_map_iff in Hz as (d & Hd & Hin).
    apply filter_In in Hin as [Hin Heq]. apply String.eqb_eq in Heq.
    exists y. split; [apply list_elem_of_In, Hy|].
    exists d. split; [apply list_elem_of_In, Hin | auto].
  - intros (y & Hy & d & Hd & Hsrc & Hdst).
    exists y. split; [apply list_elem_of_In, Hy|].
    apply in_map_iff. exists d. split; [exact Hdst|].
    apply filter_In. split; [apply list_elem_of_In, Hd | apply String.eqb_eq, Hsrc].
Qed.

Lemma elem_of_cte_reachable s fuel : forall frontier x,
  x ∈ SQLiteStorage.cte_reachable s fuel frontier <->
  exists n y, (n <= fuel)%nat /\ y ∈ frontier /\ Graph.walk s n y x.
Proof.
  induction fuel as [|fuel IH]; intros frontier x; simpl.
  - rewrite app_nil_r. split.
    + intros Hx. exists 0%nat, x. split; [lia|]. split; [exact Hx | constructor].
    + intros (n & y & Hn & Hy & Hw). assert (n = 0%nat) by lia. subst.
      inversion Hw; subst. exact Hy.
  - rewrite elem_of_app, IH. split.
    + intros [Hx | (n & z & Hn & Hz & Hw)].
      * exists 0%nat, x. split; [lia|]. split; [exact Hx | constructor].
      * apply elem_of_cte_step in Hz as (y & Hy & He).
        exists (S n), y. split; [lia|]. split; [exact Hy|].
        econstructor; eauto.
    + intros (n & y & Hn & Hy & Hw). inversion Hw; subst.
      * left. exact Hy.
      * right. exists n0, y0. split; [lia|]. split; [|assumption].
        apply elem_of_cte_step. eauto.
Qed.

(** C5. [has_cycle(a, b)] is true when [a = b], and otherwise exactly
    when a walk of at most 100 edges, of any type, leads from [b] to [a];
    when it is true for the two ends of [dep], [add_dependency] raises a
    [ValueError] and leaves the store as it was. *)
Theorem has_cycle_spec (s : Store.t) :
  (forall a b,
     SQLiteStorage.has_cycle s a b = true <->
     a = b \/ exists n, (n <= 100)%nat /\ Graph.walk s n b a)
  /\ (forall now dep actor,
        SQLiteStorage.has_cycle s (Dependency.issue_id dep) (Dependency.depends_on_id dep)
          = true ->
        exists msg, SQLiteStorage.add_dependency now dep actor s = (Raise (ValueError msg), s)).
Proof.
  split.
  - intros a b. unfold SQLiteStorage.has_cycle.
    destruct (String.eqb a b) eqn:Hab.
    + apply String.eqb_eq in Hab. tauto.
    + rewrite bool_decide_eq_true, elem_of_cte_reachable. split.
      * intros (n & y & Hn & Hy & Hw). apply list_elem_of_singleton in Hy. subst.
        right. eauto.
      * intros [Heq | (n & Hn & Hw)].
        -- apply String.eqb_neq in Hab. contradiction.
        -- exists n, b. split; [exact Hn|]. split; [|exact Hw].
           apply list_elem_of_singleton. reflexivity.
  - intros now dep actor H. unfold SQLiteStorage.add_dependency. db_unfold.
    rewrite H. eexists. reflexivity.
Qed.

(** The rule at the scenario of the specification: with the edge
    [B -> A] stored, the edge [A -> B] would close a cycle and is
    refused. *)
Lemma has_cycle_spec_witness :
  SQLiteStorage.has_cycle Sample.b_blocked_by_a "A" "B" = true
  /\ exists msg,
       SQLiteStorage.add_dependency Sample.T2 (Sample.edge "A" "B" "blocks") "alice"
         Sample.b_blocked_by_a
       = (Raise (ValueError msg), Sample.b_blocked_by_a).
Proof.
  assert (H : SQLiteStorage.has_cycle Sample.b_blocked_by_a "A" "B" = true)
    by (vm_compute; reflexivity).
  split; [exact H|].
  exact (proj2 (has_cycle_spec Sample.b_blocked_by_a) Sample.T2
           (Sample.edge "A" "B" "blocks") "alice" H).
Defined.

Example self_edge_is_refused :
  SQLiteStorage.has_cycle Sample.two_issues "A" "A" = true
  /\ SQLiteStorage.has_cycle Sample.b_blocked_by_a "B" "A" = false.
Proof. vm_compute. split; reflexivity. Qed.

(* ------------------------------------------------------------------ *)
(** ** Events and dirty marks of the mutators (C9) *)
(* ------------------------------------------------------------------ *)

Lemma db_lift_ok {A} (r : PyResult A) s a s' :
  db_lift r s = (Ok a, s') -> r = Ok a /\ s' = s.
Proof. unfold db_lift. intros H. inversion H. auto. Qed.

Lemma db_get_ok s a s' : db_get s = (Ok a, s') -> a = s /\ s' = s.
Proof. unfold db_get. intros H. inversion H. auto. Qed.

Lemma db_modify_ok f s a s' : db_modify f s = (Ok a, s') -> s' = f s.
Proof. unfold db_modify. intros H. inversion H. auto. Qed.

Lemma keeps_ok {A B} (get : Store.t -> B) (m : DB A) s r s' :
  keeps get m -> m s = (r, s') -> get s' = get s.
Proof. intros Hk Hm. specialize (Hk s). rewrite Hm in Hk. exact Hk. Qed.

Lemma keeps_bind {A B C} (get : Store.t -> C) (m : DB A) (f : A -> DB B) :
  keeps get m -> (forall a, keeps get (f a)) -> keeps get (m ≫= f).
Proof.
  rewrite !keeps_preserves. intros Hm Hf v.
  apply preserves_bind; [apply Hm|]. intros a. apply keeps_preserves, Hf.
Qed.

Lemma keeps_for {A C} (get : Store.t -> C) (l : list A) (body : A -> DB unit) :
  (forall x, keeps get (body x)) -> keeps get (db_for l body).
Proof.
  intros Hb. apply keeps_preserves. intros v.
  apply preserves_for. intros x. apply keeps_preserves, Hb.
Qed.

Lemma keeps_except {C} (get : Store.t -> C) (m : DB unit) :
  keeps get m -> keeps get (db_except_integrity m).
Proof.
  intros Hm. apply keeps_preserves. intros v.
  apply preserves_except. apply keeps_preserves, Hm.
Qed.

Lemma keeps_stateless {A C} (get : Store.t -> C) (m : DB A) :
  (forall s, (m s).2 = s) -> keeps get m.
Proof. intros H s. rewrite H. reflexivity. Qed.

(** The inserts and updates write neither [events] nor [dirty_issues]. *)
Lemma insert_issue_events r : keeps Store.events (SQLiteStorage.insert_issue r).
Proof.
  intros s. unfold SQLiteStorage.insert_issue. db_unfold.
  destruct (SQLiteStorage.check_row r) as [[]|]; simpl; [|reflexivity].
  destruct (Store.has_issue _ _); reflexivity.
Qed.

Lemma insert_issue_dirty r : keeps Store.dirty_issues (SQLiteStorage.insert_issue r).
Proof.
  intros s. unfold SQLiteStorage.insert_issue. db_unfold.
  destruct (SQLiteStorage.check_row r) as [[]|]; simpl; [|reflexivity].
  destruct (Store.has_issue _ _); reflexivity.
Qed.

Lemma insert_label_events i l : keeps Store.events (SQLiteStorage.insert_label i l).
Proof.
  intros s. unfold SQLiteStorage.insert_label. db_unfold.
  destruct (Store.has_issue s i); simpl; [|reflexivity].
  destruct (bool_decide _); reflexivity.
Qed.

Lemma insert_label_dirty i l : keeps Store.dirty_issues (SQLiteStorage.insert_label i l).
Proof.
  intros s. unfold SQLiteStorage.insert_label. db_unfold.
  destruct (Store.has_issue s i); simpl; [|reflexivity].
  destruct (bool_decide _); reflexivity.
Qed.

Lemma insert_dependency_events d : keeps Store.events (SQLiteStorage.insert_dependency d).
Proof.
  intros s. unfold SQLiteStorage.insert_dependency. db_unfold.
  destruct (negb _); simpl; [reflexivity|].
  destruct (SQLiteStorage.has_edge _ _ _); reflexivity.
Qed.

Lemma insert_dependency_dirty d :
  keeps Store.dirty_issues (SQLiteStorage.insert_dependency d).
Proof.
  intros s. unfold SQLiteStorage.insert_dependency. db_unfold.
  destruct (negb _); simpl; [reflexivity|].
  destruct (SQLiteStorage.has_edge _ _ _); reflexivity.
Qed.

Lemma insert_comment_events i a t c : keeps Store.events (SQLiteStorage.insert_comment i a t c).
Proof.
  intros s. unfold SQLiteStorage.insert_comment. db_unfold.
  destruct (Store.has_issue s i); reflexivity.
Qed.

Lemma insert_comment_dirty i a t c :
  keeps Store.dirty_issues (SQLiteStorage.insert_comment i a t c).
Proof.
  intros s. unfold SQLiteStorage.insert_comment. db_unfold.
  destruct (Store.has_issue s i); reflexivity.
Qed.

Lemma update_where_id_events i f : keeps Store.events (SQLiteStorage.update_where_id i f).
Proof.
  intros s. unfold SQLiteStorage.update_where_id. db_unfold.
  destruct (SQLiteStorage.update_rows _ _ _); reflexivity.
Qed.

Lemma update_where_id_dirty i f :
  keeps Store.dirty_issues (SQLiteStorage.update_where_id i f).
Proof.
  intros s. unfold SQLiteStorage.update_where_id. db_unfold.
  destruct (SQLiteStorage.update_rows _ _ _); reflexivity.
Qed.

Lemma mark_dirty_events now i : keeps Store.events (SQLiteStorage.mark_dirty now i).
Proof.
  intros s. unfold SQLiteStorage.mark_dirty. db_unfold.
  destruct (Store.has_issue s i); reflexivity.
Qed.

Lemma record_event_dirty now i t a o n c :
  keeps Store.dirty_issues (SQLiteStorage._record_event now i t a o n c).
Proof.
  intros s. unfold SQLiteStorage._record_event. db_unfold.
  destruct (Store.has_issue s i); reflexivity.
Qed.

Create HintDb keeps discriminated.
#[export] Hint Resolve insert_issue_events insert_issue_dirty insert_label_events
  insert_label_dirty insert_dependency_events insert_dependency_dirty
  insert_comment_events insert_comment_dirty update_where_id_events
  update_where_id_dirty mark_dirty_events record_event_dirty
  record_event_issues mark_dirty_issues insert_label_issues
  insert_dependency_issues insert_comment_issues : keeps.

Ltac keeps_auto :=
  repeat first
    [ solve [eauto with keeps]
    | apply keeps_bind; [|intros ?]
    | apply keeps_for; intros ?
    | apply keeps_except
    | match goal with |- keeps _ (if ?c then _ else _) => destruct c end
    | match goal with |- keeps _ (match ?c with _ => _ end) => destruct c end
    | apply keeps_stateless; intros ?; reflexivity ].

Lemma elem_of_get_dirty_issues i s :
  i ∈ SQLiteStorage.get_dirty_issues s <-> i ∈ (Store.dirty_issues s).*1.
Proof.
  unfold SQLiteStorage.get_dirty_issues.
  rewrite !list_elem_of_fmap. split; intros (x & Hx & Hin); exists x; split; auto.
  - apply elem_of_sort in Hin. exact Hin.
  - apply elem_of_sort. exact Hin.
Qed.

Lemma elem_of_upsert_dirty i t rows j :
  j ∈ (SQLiteStorage.upsert_dirty i t rows).*1 <-> j = i \/ j ∈ rows.*1.
Proof.
  induction rows as [|[k t'] rows IH]; simpl.
  - rewrite list_elem_of_singleton, elem_of_nil. tauto.
  - destruct (String.eqb k i) eqn:Hk; simpl.
    + apply String.eqb_eq in Hk. subst. rewrite !elem_of_cons. tauto.
    + rewrite !elem_of_cons, IH. tauto.
Qed.

(** What a successful [_record_event] and [mark_dirty] leave. *)
Lemma record_event_ok now i t a o n c s s' :
  SQLiteStorage._record_event now i t a o n c s = (Ok tt, s') ->
  Audit.recorded t i s s' /\ Store.has_issue s i = true.
Proof.
  unfold SQLiteStorage._record_event. db_unfold.
  destruct (Store.has_issue s i); [|discriminate].
  intros H. inversion H; subst. split; [|reflexivity].
  eexists. simpl. split; [reflexivity|]. split; reflexivity.
Qed.

Lemma mark_dirty_ok now i s s' :
  SQLiteStorage.mark_dirty now i s = (Ok tt, s') ->
  Audit.dirty i s' /\ (forall j, Audit.dirty j s -> Audit.dirty j s').
Proof.
  unfold SQLiteStorage.mark_dirty, Audit.dirty. db_unfold.
  destruct (Store.has_issue s i); [|discriminate].
  intros H. inversion H; subst.
  split; [|intros j]; rewrite !elem_of_get_dirty_issues; simpl;
    rewrite elem_of_upsert_dirty; tauto.
Qed.

Ltac db_inv H :=
  let a := fresh "a" in
  let s1 := fresh "s" in
  let H1 := fresh "Hstep" in
  apply db_bind_ok in H as (a & s1 & H1 & H).

(** A mutator that ends with [_record_event] and [mark_dirty]. *)
Lemma event_then_dirty now t i actor o n c s s' :
  (SQLiteStorage._record_event now i t actor o n c ≫= fun _ =>
   SQLiteStorage.mark_dirty now i) s = (Ok tt, s') ->
  Audit.recorded t i s s' /\ Audit.dirty i s'.
Proof.
  intros H. db_inv H. destruct a.
  apply record_event_ok in Hstep as [(e & He & Hi & Ht) _].
  pose proof (keeps_ok _ _ _ _ _ (mark_dirty_events now i) H) as Hev.
  apply mark_dirty_ok in H as [Hd _].
  split; [|exact Hd]. exists e. rewrite Hev. auto.
Qed.

Lemma recorded_after {A} (m : DB A) t i s s1 s' r :
  keeps Store.events m -> m s = (r, s1) ->
  Audit.recorded t i s1 s' -> Audit.recorded t i s s'.
Proof.
  intros Hk Hm (e & He & Hi & Ht). exists e.
  rewrite He, (keeps_ok _ _ _ _ _ Hk Hm). auto.
Qed.

Lemma create_issue_audit now issue actor s s' :
  SQLiteStorage.create_issue now issue actor s = (Ok tt, s') ->
  Audit.recorded "created" (Issue.id issue) s s' /\ Audit.dirty (Issue.id issue) s'.
Proof.
  unfold SQLiteStorage.create_issue. intros H.
  db_inv H. apply db_lift_ok in Hstep as [_ ->].
  db_inv H. apply db_lift_ok in Hstep as [_ ->].
  db_inv H. rename Hstep into H1.
  db_inv H. rename Hstep into H2.
  db_inv H. rename Hstep into H3.
  db_inv H. rename Hstep into H4.
  apply event_then_dirty in H as [Hr Hd]. split; [|exact Hd].
  eapply recorded_after; [| exact H1 |]; [keeps_auto|].
  eapply recorded_after; [| exact H2 |]; [keeps_auto|].
  eapply recorded_after; [| exact H3 |]; [keeps_auto|].
  eapply recorded_after; [| exact H4 |]; [keeps_auto|].
  exact Hr.
Qed.

Lemma update_issue_audit now issue_id u actor s s' :
  SQLiteStorage.update_issue now issue_id u actor s = (Ok tt, s') ->
  Audit.recorded (match Updates.status u with
                  | Some _ => "status_changed"
                  | None => "updated"
                  end) issue_id s s'
  /\ Audit.dirty issue_id s'.
Proof.
  unfold SQLiteStorage.update_issue. intros H.
  db_inv H. apply db_get_ok in Hstep as [-> ->].
  destruct (SQLiteStorage.get_issue s issue_id) as [current|]; [|discriminate].
  db_inv H. apply db_lift_ok in Hstep as [_ ->].
  db_inv H. rename Hstep into H1.
  assert (Hr : Audit.recorded (match Updates.status u with
                               | Some _ => "status_changed"
                               | None => "updated"
                               end) issue_id s0 s' /\ Audit.dirty issue_id s').
  { destruct (Updates.status u); apply event_then_dirty in H; exact H. }
  destruct Hr as [Hr Hd]. split; [|exact Hd].
  eapply recorded_after; [| exact H1 |]; [keeps_auto | exact Hr].
Qed.

Lemma close_issue_audit now issue_id reason actor s s' :
  SQLiteStorage.close_issue now issue_id reason actor s = (Ok tt, s') ->
  Audit.recorded "closed" issue_id s s' /\ Audit.dirty issue_id s'.
Proof.
  unfold SQLiteStorage.close_issue. intros H.
  db_inv H. rename Hstep into H1.
  apply event_then_dirty in H as [Hr Hd]. split; [|exact Hd].
  eapply recorded_after; [| exact H1 |]; [keeps_auto | exact Hr].
Qed.

Lemma reopen_issue_audit now issue_id actor s s' :
  SQLiteStorage.reopen_issue now issue_id actor s = (Ok tt, s') ->
  Audit.recorded "reopened" issue_id s s' /\ Audit.dirty issue_id s'.
Proof.
  unfold SQLiteStorage.reopen_issue. intros H.
  db_inv H. rename Hstep into H1.
  apply event_then_dirty in H as [Hr Hd]. split; [|exact Hd].
  eapply recorded_after; [| exact H1 |]; [keeps_auto | exact Hr].
Qed.

(** A mutator of an edge ends with [_record_event] and two [mark_dirty]. *)
Lemma event_then_two_dirty now t i j actor o n c s s' :
  (SQLiteStorage._record_event now i t actor o n c ≫= fun _ =>
   SQLiteStorage.mark_dirty now i ≫= fun _ =>
   SQLiteStorage.mark_dirty now j) s = (Ok tt, s') ->
  Audit.recorded t i s s' /\ Audit.dirty i s' /\ Audit.dirty j s'.
Proof.
  intros H. db_inv H. destruct a.
  apply record_event_ok in Hstep as [(e & He & Hi & Ht) _].
  db_inv H. destruct a.
  pose proof (keeps_ok _ _ _ _ _ (mark_dirty_events now i) Hstep) as Hev1.
  pose proof (keeps_ok _ _ _ _ _ (mark_dirty_events now j) H) as Hev2.
  apply mark_dirty_ok in Hstep as [Hdi _].
  apply mark_dirty_ok in H as [Hdj Hkeep].
  split; [|split; [apply Hkeep, Hdi | exact Hdj]].
  exists e. rewrite Hev2, Hev1. auto.
Qed.

Lemma add_dependency_audit now dep actor s s' :
  SQLiteStorage.add_dependency now dep actor s = (Ok tt, s') ->
  Audit.recorded "dependency_added" (Dependency.issue_id dep) s s'
  /\ Audit.dirty (Dependency.issue_id dep) s'
  /\ Audit.dirty (Dependency.depends_on_id dep) s'.
Proof.
  unfold SQLiteStorage.add_dependency. intros H.
  db_inv H. apply db_get_ok in Hstep as [-> ->].
  destruct (SQLiteStorage.has_cycle _ _ _); [discriminate|].
  db_inv H. rename Hstep into H1.
  apply event_then_two_dirty in H as (Hr & Hd1 & Hd2).
  split; [|split; assumption].
  eapply recorded_after; [| exact H1 |]; [keeps_auto | exact Hr].
Qed.

Lemma remove_dependency_audit now issue_id depends_on_id actor s s' :
  SQLiteStorage.remove_dependency now issue_id depends_on_id actor s = (Ok tt, s') ->
  Audit.recorded "dependency_removed" issue_id s s'
  /\ Audit.dirty issue_id s' /\ Audit.dirty depends_on_id s'.
Proof.
  unfold SQLiteStorage.remove_dependency. intros H.
  db_inv H. apply db_modify_ok in Hstep. subst.
  apply event_then_two_dirty in H as ((e & He & Hi & Ht) & Hd1 & Hd2).
  split; [|split; assumption]. exists e. auto.
Qed.

Lemma add_label_audit now issue_id label actor s s' :
  SQLiteStorage.add_label now issue_id label actor s = (Ok tt, s') ->
  Audit.recorded "label_added" issue_id s s' /\ Audit.dirty issue_id s'.
Proof.
  unfold SQLiteStorage.add_label. intros H.
  db_inv H. rename Hstep into H1.
  apply event_then_dirty in H as [Hr Hd]. split; [|exact Hd].
  eapply recorded_after; [| exact H1 |]; [keeps_auto | exact Hr].
Qed.

Lemma remove_label_audit now issue_id label actor s s' :
  SQLiteStorage.remove_label now issue_id label actor s = (Ok tt, s') ->
  Audit.recorded "label_removed" issue_id s s' /\ Audit.dirty issue_id s'.
Proof.
  unfold SQLiteStorage.remove_label. intros H.
  db_inv H. apply db_modify_ok in Hstep. subst.
  apply event_then_dirty in H as [(e & He & Hi & Ht) Hd].
  split; [|exact Hd]. exists e. auto.
Qed.

Lemma add_comment_audit now issue_id author text cid s s' :
  SQLiteStorage.add_comment now issue_id author text s = (Ok cid, s') ->
  Audit.recorded "commented" issue_id s s' /\ Audit.dirty issue_id s'.
Proof.
  unfold SQLiteStorage.add_comment. intros H.
  db_inv H. rename Hstep into H1.
  db_inv H. destruct a0. rename Hstep into H2.
  db_inv H. destruct a0. rename Hstep into H3.
  unfold mret, DB_ret in H. inversion H; subst.
  apply record_event_ok in H2 as [(e & He & Hi & Ht) _].
  pose proof (keeps_ok _ _ _ _ _ (mark_dirty_events now issue_id) H3) as Hev.
  apply mark_dirty_ok in H3 as [Hd _]. split; [|exact Hd].
  exists e. rewrite Hev, He.
  rewrite (keeps_ok _ _ _ _ _ (insert_comment_events issue_id author text now) H1).
  auto.
Qed.

Lemma elem_of_drop_key {A} (key : A -> string) issue_id (l : list A) x :
  x ∈ Store.drop_key key issue_id l <-> key x <> issue_id /\ x ∈ l.
Proof.
  unfold Store.drop_key.
  exact (list_elem_of_filter (fun y => key y <> issue_id) l x).
Qed.

(** C9, as the code has it. Each of [create_issue], [update_issue],
    [close_issue], [reopen_issue], [add_dependency], [remove_dependency],
    [add_label], [remove_label] and [add_comment], when it returns, has
    appended one event for the issue and left the issue in the dirty set
    (both ends of the edge for the two dependency mutators).
    [delete_issue] records no event: it deletes the row, and the cascade
    takes the issue's events and its dirty mark with it. *)
Theorem mutators_audit (now : Datetime.t) (s s' : Store.t) :
  (forall issue actor,
     SQLiteStorage.create_issue now issue actor s = (Ok tt, s') ->
     Audit.recorded "created" (Issue.id issue) s s' /\ Audit.dirty (Issue.id issue) s')
  /\ (forall issue_id updates actor,
     SQLiteStorage.update_issue now issue_id updates actor s = (Ok tt, s') ->
     Audit.recorded (match Updates.status updates with
                     | Some _ => "status_changed"
                     | None => "updated"
                     end) issue_id s s'
     /\ Audit.dirty issue_id s')
  /\ (forall issue_id reason actor,
     SQLiteStorage.close_issue now issue_id reason actor s = (Ok tt, s') ->
     Audit.recorded "closed" issue_id s s' /\ Audit.dirty issue_id s')
  /\ (forall issue_id actor,
     SQLiteStorage.reopen_issue now issue_id actor s = (Ok tt, s') ->
     Audit.recorded "reopened" issue_id s s' /\ Audit.dirty issue_id s')
  /\ (forall dep actor,
     SQLiteStorage.add_dependency now dep actor s = (Ok tt, s') ->
     Audit.recorded "dependency_added" (Dependency.issue_id dep) s s'
     /\ Audit.dirty (Dependency.issue_id dep) s'
     /\ Audit.dirty (Dependency.depends_on_id dep) s')
  /\ (forall issue_id depends_on_id actor,
     SQLiteStorage.remove_dependency now issue_id depends_on_id actor s = (Ok tt, s') ->
     Audit.recorded "dependency_removed" issue_id s s'
     /\ Audit.dirty issue_id s' /\ Audit.dirty depends_on_id s')
  /\ (forall issue_id label actor,
     SQLiteStorage.add_label now issue_id label actor s = (Ok tt, s') ->
     Audit.recorded "label_added" issue_id s s' /\ Audit.dirty issue_id s')
  /\ (forall issue_id label actor,
     SQLiteStorage.remove_label now issue_id label actor s = (Ok tt, s') ->
     Audit.recorded "label_removed" issue_id s s' /\ Audit.dirty issue_id s')
  /\ (forall issue_id author text cid,
     SQLiteStorage.add_comment now issue_id author text s = (Ok cid, s') ->
     Audit.recorded "commented" issue_id s s' /\ Audit.dirty issue_id s')
  /\ (forall issue_id,
     exists s'', SQLiteStorage.delete_issue issue_id s = (Ok tt, s'')
       /\ Store.events s'' = filter (fun e => Event.issue_id e <> issue_id) (Store.events s)
       /\ ~ Audit.dirty issue_id s'').
Proof.
  split; [intros; eapply create_issue_audit; eassumption|].
  split; [intros; eapply update_issue_audit; eassumption|].
  split; [intros; eapply close_issue_audit; eassumption|].
  split; [intros; eapply reopen_issue_audit; eassumption|].
  split; [intros; eapply add_dependency_audit; eassumption|].
  split; [intros; eapply remove_dependency_audit; eassumption|].
  split; [intros; eapply add_label_audit; eassumption|].
  split; [intros; eapply remove_label_audit; eassumption|].
  split; [intros; eapply add_comment_audit; eassumption|].
  intros issue_id. eexists. split; [reflexivity|]. split; [reflexivity|].
  unfold Audit.dirty. rewrite elem_of_get_dirty_issues. simpl.
  rewrite list_elem_of_fmap. intros (x & Hx & Hin).
  apply elem_of_drop_key in Hin as [Hne _]. congruence.
Qed.

(** The original wording of C9 fails at [delete_issue]: deleting [A]
    from the store of two issues returns, appends no event and leaves
    [A] out of the dirty set, where its creation had put it. *)
Lemma delete_issue_records_nothing :
  exists s', SQLiteStorage.delete_issue "A" Sample.two_issues = (Ok tt, s')
    /\ Audit.dirty "A" Sample.two_issues
    /\ (forall event_type, ~ Audit.recorded event_type "A" Sample.two_issues s')
    /\ ~ Audit.dirty "A" s'.
Proof.
  eexists. split; [reflexivity|]. split; [|split].
  - unfold Audit.dirty. vm_compute. apply list_elem_of_In. simpl. tauto.
  - intros t (e & He & _). apply (f_equal length) in He.
    rewrite length_app in He. vm_compute in He. discriminate.
  - unfold Audit.dirty. intros H. apply list_elem_of_In in H.
    vm_compute in H. intuition discriminate.
Qed.

Lemma mutators_audit_witness :
  let s' := (SQLiteStorage.create_issue Sample.T0
               (Sample.issue "A" "first" 2 Sample.T0) "alice" Store.empty).2 in
  SQLiteStorage.create_issue Sample.T0
    (Sample.issue "A" "first" 2 Sample.T0) "alice" Store.empty = (Ok tt, s')
  /\ Audit.recorded "created" "A" Store.empty s' /\ Audit.dirty "A" s'.
Proof.
  intros s'. split; [vm_compute; reflexivity|].
  apply (proj1 (mutators_audit Sample.T0 Store.empty s')
           (Sample.issue "A" "first" 2 Sample.T0) "alice").
  vm_compute. reflexivity.
Defined.

(* ------------------------------------------------------------------ *)
(** ** Ready work *)
(* ------------------------------------------------------------------ *)

Lemma has_active_blocker_spec s i :
  SQLiteStorage.has_active_blocker s (IssueRow.id i) = true <-> Ready.blocked s i.
Proof.
  unfold SQLiteStorage.has_active_blocker, Ready.blocked.
  rewrite existsb_exists. split.
  - intros (d & Hd & H).
    apply andb_true_iff in H as [H Hb]. apply andb_true_iff in H as [Hid Hty].
    apply existsb_exists in Hb as (b & Hb & H).
    apply andb_true_iff in H as [Hto Hst].
    exists d, b.
    apply String.eqb_eq in Hid, Hto.
    apply bool_decide_eq_true in Hty, Hst.
    apply list_elem_of_In in Hd, Hb. tauto.
  - intros (d & b & Hd & Hb & Hid & Hto & Hty & Hst).
    exists d. rewrite <- list_elem_of_In. split; [exact Hd|].
    rewrite !andb_true_iff. repeat split.
    + apply String.eqb_eq, Hid.
    + apply bool_decide_eq_true, Hty.
    + apply existsb_exists. exists b. rewrite <- list_elem_of_In.
      split; [exact Hb|]. rewrite andb_true_iff. split.
      * apply String.eqb_eq, Hto.
      * apply bool_decide_eq_true, Hst.
Qed.

Lemma zero_or_null_spec col :
  SQLiteStorage.zero_or_null col = true <-> col = Some 0 \/ col = None.
Proof.
  destruct col as [n|]; simpl.
  - rewrite Z.eqb_eq. split; [intros ->; auto | intros [H|H]; congruence].
  - split; auto.
Qed.

Lemma ready_where_spec s now i :
  SQLiteStorage.ready_where s now i = true <-> Ready.ready s now i.
Proof.
  unfold SQLiteStorage.ready_where, Ready.ready, Ready.due.
  rewrite !andb_true_iff, negb_true_iff, String.eqb_eq, !zero_or_null_spec.
  rewrite <- has_active_blocker_spec, <- not_true_iff_false.
  destruct (IssueRow.defer_until i); tauto.
Qed.




(** [ordered] for [ready_order], in the words of ORDER BY: of two rows,
    the earlier has the lower priority, or the same priority and a
    [created_at] text that is not above the later's. *)
Lemma ready_order_spec a b :
  SQLiteStorage.ready_order a b = true <->
  IssueRow.priority a < IssueRow.priority b
  \/ (IssueRow.priority a = IssueRow.priority b
      /\ String.leb (format_datetime (IssueRow.created_at a))
                    (format_datetime (IssueRow.created_at b)) = true).
Proof.
  unfold SQLiteStorage.ready_order.
  rewrite orb_true_iff, andb_true_iff, Z.ltb_lt, Z.eqb_eq. reflexivity.
Qed.

(** C2. The query compares and orders timestamps as the texts
    [format_timestamp] stored, and the texts do not order as the
    instants do. An open issue with no dependency, neither ephemeral nor
    pinned, deferred until 03:00 at +05:00 (22:00 UTC of the day
    before), is not returned half a second past midnight UTC; deferred
    until midnight, it is not returned half a second past midnight
    either; and of two ready issues of one priority the one created
    half a second later comes first. *)
Theorem get_ready_work_compares_text :
  Forall (fun d =>
     map (fun r => (IssueRow.id r, IssueRow.status r, IssueRow.ephemeral r,
                    IssueRow.pinned r, IssueRow.defer_until r))
         (Store.issues (Sample.deferred_until d))
       = [("A", "open", Some 0, Some 0, Some d)]
     /\ Store.dependencies (Sample.deferred_until d) = []
     /\ Datetime.le d Sample.midnight_and_a_half = Ok true
     /\ SQLiteStorage.get_ready_work (Sample.deferred_until d)
          Sample.midnight_and_a_half None = [])
    [Sample.three_at_plus_five; Sample.midnight]
  /\ map (fun i => (Issue.id i, Issue.priority i, Issue.created_at i))
         (SQLiteStorage.get_ready_work Sample.early_and_late Sample.T2 None)
       = [("late", 2, Sample.midnight_and_a_half); ("early", 2, Sample.midnight)]
  /\ Datetime.le Sample.midnight_and_a_half Sample.midnight = Ok false.
Proof.
  split; [|split; vm_compute; reflexivity].
  apply List.Forall_cons; [|apply List.Forall_cons; [|apply List.Forall_nil]];
    (split; [|split; [|split]]; vm_compute; reflexivity).
Qed.

(* ------------------------------------------------------------------ *)
(** ** The content hash *)
(* ------------------------------------------------------------------ *)

Lemma append_assoc (a b c : string) : (a +:+ b) +:+ c = a +:+ b +:+ c.
Proof.
  induction a as [|x a IH]; [reflexivity|].
  change (String x ((a +:+ b) +:+ c) = String x (a +:+ b +:+ c)).
  rewrite IH. reflexivity.
Qed.

Lemma append_nil_r (a : string) : a +:+ "" = a.
Proof.
  induction a as [|x a IH]; [reflexivity|].
  change (String x (a +:+ "") = String x a). rewrite IH. reflexivity.
Qed.

Lemma length_be_bytes n x : length (SHA256.be_bytes n x) = n.
Proof. unfold SHA256.be_bytes. rewrite length_map, length_rev, length_seq. reflexivity. Qed.

Lemma be_bytes_range n x : Forall (fun b => 0 <= b < 256) (SHA256.be_bytes n x).
Proof.
  unfold SHA256.be_bytes. apply Forall_forall. intros b Hb.
  apply list_elem_of_In, in_map_iff in Hb as (i & <- & _).
  apply Z.mod_pos_bound. lia.
Qed.

Lemma digest_bytes msg :
  length (SHA256.digest msg) = 32%nat
  /\ Forall (fun b => 0 <= b < 256) (SHA256.digest msg).
Proof.
  unfold SHA256.digest.
  set (s := SHA256.blocks _ _ _). clearbody s.
  cbn [map concat]. split.
  - rewrite !length_app, !length_be_bytes. reflexivity.
  - repeat (apply Forall_app; split); try apply be_bytes_range. constructor.
Qed.

Lemma hex_char_lower d : 0 <= d < 16 -> SHA256.is_lower_hex (SHA256.hex_char d) = true.
Proof.
  intros H.
  assert (Hd : d ∈ map Z.of_nat (seq 0 16)).
  { apply list_elem_of_In, in_map_iff. exists (Z.to_nat d).
    split; [lia | apply in_seq; lia]. }
  vm_compute in Hd.
  repeat (apply elem_of_cons in Hd as [-> | Hd]; [reflexivity|]).
  apply elem_of_nil in Hd. contradiction.
Qed.

Lemma hex_spec bs :
  Forall (fun b => 0 <= b < 256) bs ->
  String.length (SHA256.hex bs) = (2 * length bs)%nat
  /\ Str.all_chars SHA256.is_lower_hex (SHA256.hex bs) = true.
Proof.
  induction 1 as [|b bs Hb _ [IHl IHc]]; [split; reflexivity|].
  cbn [SHA256.hex String.length Str.all_chars length]. split; [lia|].
  rewrite !hex_char_lower, IHc; [reflexivity | |].
  - apply Z.mod_pos_bound. lia.
  - split; [apply Z.div_pos; lia | apply Z.div_lt_upper_bound; lia].
Qed.

Lemma hexdigest_is_hex64 msg : ContentHash.is_hex64 (SHA256.hexdigest msg).
Proof.
  unfold ContentHash.is_hex64, SHA256.hexdigest.
  destruct (digest_bytes (Str.bytes msg)) as [Hl Hr].
  destruct (hex_spec _ Hr) as [H1 H2]. rewrite H1, Hl. split; [reflexivity | exact H2].
Qed.

(** Each writer appends to the hasher the bytes section 4.2 gives it. *)
Lemma write_str_spec s h : Issue.write_str s h = h +:+ ContentHash.str s.
Proof. apply append_assoc. Qed.

Lemma write_int_spec n h : Issue.write_int n h = h +:+ ContentHash.int n.
Proof. apply append_assoc. Qed.

Lemma write_duration_spec d h : Issue.write_duration d h = h +:+ ContentHash.duration d.
Proof. apply append_assoc. Qed.

Lemma write_str_optional_spec s h :
  Issue.write_str_optional s h = h +:+ ContentHash.str_optional s.
Proof. destruct s; [apply append_assoc | reflexivity]. Qed.

Lemma write_flag_spec b label h :
  Issue.write_flag b label h = h +:+ ContentHash.flag b label.
Proof. destruct b; [apply append_assoc | reflexivity]. Qed.

Lemma write_float_optional_spec f h :
  Issue.write_float_optional f h = h +:+ ContentHash.float_optional f.
Proof. destruct f; [apply append_assoc | reflexivity]. Qed.

Lemma join_cons p ps : ContentHash.join (p :: ps) = p +:+ ContentHash.join ps.
Proof. reflexivity. Qed.

Lemma join_nil : ContentHash.join [] = "".
Proof. reflexivity. Qed.

Lemma write_entity_ref_spec e h :
  Issue.write_entity_ref e h = h +:+ ContentHash.entity_ref e.
Proof.
  destruct e as [e|]; cbn [Issue.write_entity_ref ContentHash.entity_ref].
  - rewrite !write_str_spec, !join_cons, join_nil, append_nil_r, !append_assoc.
    reflexivity.
  - symmetry. apply append_nil_r.
Qed.

Lemma write_bond_spec h br : Issue.write_bond h br = h +:+ ContentHash.bond br.
Proof.
  unfold Issue.write_bond, ContentHash.bond.
  rewrite !write_str_spec, !join_cons, join_nil, append_nil_r, !append_assoc.
  reflexivity.
Qed.

Lemma write_validation_spec h v :
  Issue.write_validation h v = h +:+ ContentHash.validation v.
Proof.
  unfold Issue.write_validation, ContentHash.validation.
  rewrite write_float_optional_spec, !write_str_spec, write_entity_ref_spec.
  rewrite !join_cons, join_nil, append_nil_r, !append_assoc. reflexivity.
Qed.

(** A loop of writes appends the pieces of its items, in order. *)
Lemma fold_left_write {A} (w : Hasher.t -> A -> Hasher.t) (enc : A -> string) :
  (forall h x, w h x = h +:+ enc x) ->
  forall l h, fold_left w l h = h +:+ ContentHash.join (map enc l).
Proof.
  intros Hw. induction l as [|x l IH]; intros h; cbn [fold_left map].
  - rewrite join_nil, append_nil_r. reflexivity.
  - rewrite IH, Hw, join_cons, append_assoc. reflexivity.
Qed.

Lemma hash_fields_spec i a :
  Issue.assignee i = Some a ->
  Issue.hash_fields i = Ok (ContentHash.stream a i).
Proof.
  intros Ha. unfold Issue.hash_fields. rewrite Ha.
  cbn [Issue.write_str_attr mbind PyResult_bind mret PyResult_ret].
  rewrite (fold_left_write Issue.write_bond ContentHash.bond write_bond_spec).
  rewrite (fold_left_write Issue.write_validation ContentHash.validation
             write_validation_spec).
  rewrite (fold_left_write (fun h waiter => Issue.write_str waiter h) ContentHash.str
             (fun h x => write_str_spec x h)).
  rewrite !write_str_spec, !write_int_spec, ?write_duration_spec,
    !write_str_optional_spec, !write_flag_spec, !write_float_optional_spec,
    !write_entity_ref_spec.
  unfold ContentHash.stream. rewrite !join_cons, join_nil, append_nil_r.
  rewrite !append_assoc. reflexivity.
Qed.

(** C1. Two issues that agree on the fields of the field order get the
    same result from [compute_content_hash]; and for an issue whose
    assignee is a string, that result is the SHA-256 of the concatenation
    section 4.2 describes, as 64 lowercase hex characters. *)
Theorem compute_content_hash_spec (i j : Issue.t) (a : string) :
  ContentHash.same_content i j ->
  Issue.assignee i = Some a ->
  Issue.compute_content_hash i = Issue.compute_content_hash j
  /\ Issue.compute_content_hash i = Ok (SHA256.hexdigest (ContentHash.stream a i))
  /\ ContentHash.is_hex64 (SHA256.hexdigest (ContentHash.stream a i)).
Proof.
  intros Hs Ha. split; [|split].
  - unfold ContentHash.same_content in Hs. decompose [and] Hs. clear Hs.
    unfold Issue.compute_content_hash, Issue.hash_fields.
    repeat match goal with H : _ = _ |- _ => rewrite H; clear H end.
    reflexivity.
  - unfold Issue.compute_content_hash. rewrite (hash_fields_spec i a Ha).
    reflexivity.
  - apply hexdigest_is_hex64.
Qed.

Lemma compute_content_hash_spec_witness :
  Issue.compute_content_hash (Sample.issue "A" "first" 2 Sample.T0)
  = Issue.compute_content_hash (Sample.issue "B" "first" 2 Sample.T1)
  /\ Issue.compute_content_hash (Sample.issue "A" "first" 2 Sample.T0)
     = Ok (SHA256.hexdigest
             (ContentHash.stream "" (Sample.issue "A" "first" 2 Sample.T0)))
  /\ ContentHash.is_hex64
       (SHA256.hexdigest (ContentHash.stream "" (Sample.issue "A" "first" 2 Sample.T0))).
Proof.
  apply (compute_content_hash_spec
           (Sample.issue "A" "first" 2 Sample.T0)
           (Sample.issue "B" "first" 2 Sample.T1) "").
  - unfold ContentHash.same_content. cbn. tauto.
  - reflexivity.
Defined.

Example content_hash_of_a_new_issue :
  Issue.compute_content_hash (Sample.issue "A" "first" 2 Sample.T0)
  = Ok "af4b35343e23b11f6306616b78917ad25f830c7dc5d65292dc086639d8576006".
Proof. vm_compute. reflexivity. Qed.

Lemma append_length (a b : string) :
  String.length (a +:+ b) = (String.length a + String.length b)%nat.
Proof.
  induction a as [|x a IH]; [reflexivity|].
  change (S (String.length (a +:+ b)) = S (String.length a + String.length b)).
  rewrite IH. reflexivity.
Qed.

Lemma pad_digits_length k n : String.length (Str.pad_digits k n) = k.
Proof.
  revert n. induction k as [|k IH]; intros n; [reflexivity|].
  cbn [Str.pad_digits]. rewrite append_length, IH. simpl. lia.
Qed.

(** A float that is a number is written with six decimals. *)
Lemma format_f_six_decimals s m e :
  exists sign whole frac,
    PyFloat.format_f (SpecFloat.S754_finite s m e) = sign +:+ whole +:+ "." +:+ frac
    /\ String.length frac = 6%nat.
Proof.
  eexists _, _, _. split; [reflexivity|]. apply pad_digits_length.
Qed.

(* ------------------------------------------------------------------ *)
(** ** What [create_issue] stores and [get_issue] gives back *)
(* ------------------------------------------------------------------ *)

Lemma insert_issue_ok r s s' :
  SQLiteStorage.insert_issue r s = (Ok tt, s') ->
  Store.has_issue s (IssueRow.id r) = false
  /\ Store.issues s' = (Store.issues s ++ [r])%list.
Proof.
  unfold SQLiteStorage.insert_issue. intros H.
  db_inv H. apply db_lift_ok in Hstep as [_ ->].
  db_inv H. apply db_get_ok in Hstep as [-> ->].
  destruct (Store.has_issue s (IssueRow.id r)); [discriminate|].
  apply db_modify_ok in H. subst. split; reflexivity.
Qed.

(** A successful [create_issue] computed the hash [h] and added the row
    [issue_row issue h], whose id was not in the table. *)
Lemma create_issue_ok now issue actor s s' :
  SQLiteStorage.create_issue now issue actor s = (Ok tt, s') ->
  exists h, Issue.compute_content_hash issue = Ok h
    /\ Store.has_issue s (Issue.id issue) = false
    /\ Store.issues s' = (Store.issues s ++ [SQLiteStorage.issue_row issue h])%list.
Proof.
  unfold SQLiteStorage.create_issue. intros H.
  db_inv H. apply db_lift_ok in Hstep as [Hh ->]. rename a into h.
  db_inv H. apply db_lift_ok in Hstep as [_ ->].
  db_inv H. destruct a0. apply insert_issue_ok in Hstep as [Hnew Hrows].
  exists h. split; [exact Hh|]. split; [exact Hnew|].
  rewrite <- Hrows. eapply (keeps_ok Store.issues); [|exact H]. keeps_auto.
Qed.




Lemma str_or_empty s : str_or s "" = s.
Proof. destruct s; reflexivity. Qed.








(** On the sample: the hash stored for [A], and the hash of the [A]
    that [get_issue] returns. *)
Example recomputed_hash_of_a_new_issue :
  (fun got => (Issue.metadata got, Issue.content_hash got,
               Issue.compute_content_hash got))
    <$> SQLiteStorage.get_issue Sample.one_issue "A"
  = Some ("{}", "af4b35343e23b11f6306616b78917ad25f830c7dc5d65292dc086639d8576006",
          Ok "56fc1dc716bd99f9a9906565c90ba531d45fba9e2bcd35958a789f4d44e42c8f").
Proof. vm_compute. reflexivity. Qed.

(* ------------------------------------------------------------------ *)
(** ** The primary key of [issues] *)
(* ------------------------------------------------------------------ *)

Lemma update_rows_ids issue_id f rows rows' :
  (forall r, IssueRow.id (f r) = IssueRow.id r) ->
  SQLiteStorage.update_rows issue_id f rows = Ok rows' ->
  map IssueRow.id rows' = map IssueRow.id rows.
Proof.
  intros Hf. revert rows'. induction rows as [|r rows IH]; intros rows' H; simpl in H.
  - inversion H. reflexivity.
  - destruct (String.eqb (IssueRow.id r) issue_id).
    + destruct (SQLiteStorage.check_row (f r)) as [[]|e]; simpl in H; [|discriminate].
      destruct (SQLiteStorage.update_rows issue_id f rows) as [rows''|e];
        simpl in H; [|discriminate].
      inversion H; subst. simpl. rewrite Hf, (IH rows''); reflexivity.
    + simpl in H.
      destruct (SQLiteStorage.update_rows issue_id f rows) as [rows''|e];
        simpl in H; [|discriminate].
      inversion H; subst. simpl. rewrite (IH rows''); reflexivity.
Qed.

Lemma insert_issue_unique r : preserves Exported.ids_unique (SQLiteStorage.insert_issue r).
Proof.
  intros s H. unfold SQLiteStorage.insert_issue. db_unfold.
  destruct (SQLiteStorage.check_row r) as [[]|e]; simpl; [|exact H].
  destruct (Store.has_issue s (IssueRow.id r)) eqn:Hnew; simpl; [exact H|].
  unfold Exported.ids_unique, Store.issue_ids in *. simpl.
  rewrite map_app. simpl. apply NoDup_app. split; [exact H|]. split.
  - intros x Hx Hx'. apply list_elem_of_singleton in Hx'. subst.
    apply bool_decide_eq_false in Hnew. apply Hnew, Hx.
  - apply NoDup_singleton.
Qed.

Lemma update_where_id_unique issue_id f :
  (forall r, IssueRow.id (f r) = IssueRow.id r) ->
  preserves Exported.ids_unique (SQLiteStorage.update_where_id issue_id f).
Proof.
  intros Hf s H. unfold SQLiteStorage.update_where_id. db_unfold.
  destruct (SQLiteStorage.update_rows issue_id f (Store.issues s)) as [rows|e] eqn:Hu;
    simpl; [|exact H].
  unfold Exported.ids_unique, Store.issue_ids in *. simpl.
  rewrite (update_rows_ids _ _ _ _ Hf Hu). exact H.
Qed.

Lemma NoDup_map_filter {A B} (key : A -> B) (P : A -> Prop)
    `{forall x, Decision (P x)} (l : list A) :
  NoDup (map key l) -> NoDup (map key (filter P l)).
Proof.
  induction l as [|r l IH]; intros Hl; [constructor|].
  cbn [map] in Hl. apply NoDup_cons in Hl as [Hr Hl].
  rewrite filter_cons. destruct (decide (P r)); [|apply IH, Hl].
  cbn [map]. apply NoDup_cons. split; [|apply IH, Hl].
  intros Hin. apply Hr. apply list_elem_of_fmap in Hin as (x & Hx & Hin).
  apply list_elem_of_filter in Hin as [_ Hin].
  apply list_elem_of_fmap. exists x. auto.
Qed.

Lemma delete_issue_unique issue_id :
  preserves Exported.ids_unique (SQLiteStorage.delete_issue issue_id).
Proof.
  intros s H. unfold SQLiteStorage.delete_issue. db_unfold.
  unfold Exported.ids_unique, Store.issue_ids, Store.delete_cascade in *.
  cbn [snd Store.issues]. unfold Store.drop_key. apply NoDup_map_filter, H.
Qed.

Lemma keeps_unique {A} (m : DB A) :
  keeps Store.issues m -> preserves Exported.ids_unique m.
Proof.
  intros H s Hs. unfold Exported.ids_unique, Store.issue_ids. rewrite H. exact Hs.
Qed.

Ltac unique_auto :=
  repeat first
    [ apply preserves_ret | apply preserves_raise | apply preserves_lift
    | apply preserves_get
    | apply insert_issue_unique
    | apply update_where_id_unique; intros ?; reflexivity
    | apply delete_issue_unique
    | apply keeps_unique;
      first [ apply record_event_issues | apply mark_dirty_issues
            | apply insert_label_issues | apply insert_dependency_issues
            | apply insert_comment_issues ]
    | apply preserves_bind; [|intros ?]
    | apply preserves_for; intros ?
    | apply preserves_except
    | match goal with |- preserves _ (if ?c then _ else _) => destruct c end
    | match goal with |- preserves _ (match ?c with _ => _ end) => destruct c end
    | apply preserves_modify; intros ? ?; assumption ].

Lemma create_issue_unique now issue actor :
  preserves Exported.ids_unique (SQLiteStorage.create_issue now issue actor).
Proof. unfold SQLiteStorage.create_issue. unique_auto. Qed.

Lemma update_issue_unique now issue_id u actor :
  preserves Exported.ids_unique (SQLiteStorage.update_issue now issue_id u actor).
Proof. unfold SQLiteStorage.update_issue. unique_auto. Qed.

Lemma import_loop_unique now snap issues : forall l,
  preserves Exported.ids_unique (importer.import_loop now snap l issues).
Proof.
  induction issues as [|i issues IH]; intros l; simpl.
  - apply preserves_ret.
  - apply preserves_bind; [|intros l'; apply IH].
    unfold importer.import_one. unique_auto;
      first [apply create_issue_unique | apply update_issue_unique].
Qed.

Lemma process_deletions_unique ids : forall r,
  preserves Exported.ids_unique (importer.process_deletions ids r).
Proof.
  induction ids as [|i ids IH]; intros r; simpl.
  - apply preserves_ret.
  - unique_auto; apply IH.
Qed.

Lemma run_unique o : preserves Exported.ids_unique (Reach.run o).
Proof.
  destruct o; simpl;
    unfold SQLiteStorage.close_issue, SQLiteStorage.reopen_issue,
      SQLiteStorage.add_dependency, SQLiteStorage.remove_dependency,
      SQLiteStorage.add_label, SQLiteStorage.remove_label,
      SQLiteStorage.add_comment, SQLiteStorage.clear_dirty,
      SQLiteStorage.next_child_number, importer.import_jsonl, Reach.discard;
    first [ apply create_issue_unique | apply update_issue_unique | idtac ];
    unique_auto;
    first [ apply import_loop_unique | apply process_deletions_unique | idtac ].
Qed.

(** Every store reached from a fresh database has no id twice. *)
Lemma reachable_unique s : Reach.reachable s -> Exported.ids_unique s.
Proof.
  induction 1 as [|s o _ IH].
  - constructor.
  - apply run_unique, IH.
Qed.

(* ------------------------------------------------------------------ *)
(** ** The export *)
(* ------------------------------------------------------------------ *)


Lemma find_unique_row rows r :
  NoDup (map IssueRow.id rows) -> r ∈ rows ->
  find (fun x => String.eqb (IssueRow.id x) (IssueRow.id r)) rows = Some r.
Proof.
  induction rows as [|x rows IH]; intros Hu Hr; [apply elem_of_nil in Hr; contradiction|].
  cbn [map] in Hu. apply NoDup_cons in Hu as [Hx Hu].
  cbn [find]. apply elem_of_cons in Hr as [->|Hr].
  - rewrite String.eqb_refl. reflexivity.
  - destruct (String.eqb_spec (IssueRow.id x) (IssueRow.id r)) as [E|_];
      [|apply IH; assumption].
    exfalso. apply Hx. rewrite E. apply list_elem_of_fmap. exists r. auto.
Qed.

Lemma get_issue_of_row s r :
  Exported.ids_unique s -> r ∈ Store.issues s ->
  SQLiteStorage.get_issue s (IssueRow.id r) = Some (Exported.full s r).
Proof.
  intros Hu Hr. unfold SQLiteStorage.get_issue, Store.find_issue.
  rewrite (find_unique_row _ _ Hu Hr). reflexivity.
Qed.



Lemma filter_all {A} (P : A -> Prop) `{forall x, Decision (P x)} (l : list A) :
  (forall x, x ∈ l -> P x) -> filter P l = l.
Proof.
  induction l as [|x l IH]; intros Hl; [reflexivity|].
  rewrite filter_cons_True by (apply Hl; left).
  rewrite IH; [reflexivity|]. intros y Hy. apply Hl. right. exact Hy.
Qed.

Lemma filter_none {A} (P : A -> Prop) `{forall x, Decision (P x)} (l : list A) :
  (forall x, x ∈ l -> ~ P x) -> filter P l = [].
Proof.
  induction l as [|x l IH]; intros Hl; [reflexivity|].
  rewrite filter_cons_False by (apply Hl; left).
  apply IH. intros y Hy. apply Hl. right. exact Hy.
Qed.

(** [clear_dirty] returns, and leaves the marks of the other issues. *)
Lemma clear_dirty_spec ids : forall s,
  exists s', SQLiteStorage.clear_dirty ids s = (Ok tt, s')
    /\ Store.dirty_issues s' = filter (fun r => fst r ∉ ids) (Store.dirty_issues s)
    /\ Store.issues s' = Store.issues s.
Proof.
  unfold SQLiteStorage.clear_dirty.
  induction ids as [|i ids IH]; intros s; cbn [db_for].
  - exists s. split; [reflexivity|]. split; [|reflexivity].
    symmetry. apply filter_all. intros r _. apply not_elem_of_nil.
  - destruct (IH (Store.set_dirty_issues
                    (filter (fun r => fst r ≠ i) (Store.dirty_issues s)) s))
      as (s' & Hrun & Hd & Hi).
    exists s'. split; [|split].
    + db_unfold. exact Hrun.
    + rewrite Hd. cbn [Store.dirty_issues Store.set_dirty_issues].
      rewrite list_filter_filter. apply list_filter_iff.
      intros r. rewrite not_elem_of_cons. tauto.
    + rewrite Hi. reflexivity.
Qed.

(** After [clear_dirty(get_dirty_issues())] no issue is dirty. *)
Lemma clear_all_dirty s :
  exists s', SQLiteStorage.clear_dirty (SQLiteStorage.get_dirty_issues s) s = (Ok tt, s')
    /\ SQLiteStorage.get_dirty_issues s' = []
    /\ Store.issues s' = Store.issues s.
Proof.
  destruct (clear_dirty_spec (SQLiteStorage.get_dirty_issues s) s) as (s' & Hrun & Hd & Hi).
  exists s'. split; [exact Hrun|]. split; [|exact Hi].
  unfold SQLiteStorage.get_dirty_issues at 1. rewrite Hd.
  rewrite filter_none; [reflexivity|].
  intros r Hr Hnot. apply Hnot.
  unfold SQLiteStorage.get_dirty_issues. apply list_elem_of_fmap.
  exists r. split; [reflexivity|]. apply elem_of_sort, Hr.
Qed.

Lemma tmp_path_differs jsonl_path : Exported.tmp_path jsonl_path <> jsonl_path.
Proof.
  unfold Exported.tmp_path. intros E. apply (f_equal String.length) in E.
  rewrite append_length in E. simpl in E. lia.
Qed.

Section ExportFacts.

Variable json_line : Issue.t -> PyResult string.

(** The loop that writes: on return the lines of the issues were added
    to the file; on an exception only the file written to has changed. *)
Lemma write_lines_spec faults tmp issues : forall k (fs : export.FS) old,
  fs !! tmp = Some old ->
  match export.write_lines json_line faults tmp issues k fs with
  | (Ok n, fs') =>
      exists lines,
        Forall2 (fun i line => json_line i = Ok line) issues lines
        /\ n = (k + length issues)%nat
        /\ fs' = <[tmp := (old ++ lines)%list]> fs
  | (Raise e, fs') => delete tmp fs' = delete tmp fs
  end.
Proof.
  induction issues as [|i issues IH]; intros k fs old Hold; cbn [export.write_lines].
  - exists []. split; [constructor|]. split; [simpl; lia|].
    rewrite app_nil_r, insert_id; [reflexivity | exact Hold].
  - destruct (json_line i) as [line|e] eqn:Hline; [|reflexivity].
    destruct (export.write_fails faults k); [reflexivity|].
    rewrite Hold. cbn [default].
    specialize (IH (S k) (<[tmp := (old ++ [line])%list]> fs) (old ++ [line])%list
                   (lookup_insert_eq _ _ _)).
    destruct (export.write_lines _ _ _ _ _ _) as [[n|e] fs'].
    + destruct IH as (lines & Hl & -> & ->). exists (line :: lines).
      split; [constructor; assumption|]. split; [simpl; lia|].
      rewrite insert_insert_eq, <- app_assoc. reflexivity.
    + rewrite IH, delete_insert_eq. reflexivity.
Qed.

(** The body of the [try]: the log is replaced by the lines, or only
    the temporary file has changed. *)
Lemma write_and_replace_spec faults jsonl_path issues (fs : export.FS) :
  match export.write_and_replace json_line faults jsonl_path
          (Exported.tmp_path jsonl_path) issues fs with
  | (Ok n, fs') =>
      exists lines,
        Forall2 (fun i line => json_line i = Ok line) issues lines
        /\ n = length lines
        /\ fs' = <[jsonl_path := lines]> (delete (Exported.tmp_path jsonl_path) fs)
  | (Raise e, fs') =>
      delete (Exported.tmp_path jsonl_path) fs'
      = delete (Exported.tmp_path jsonl_path) fs
  end.
Proof.
  unfold export.write_and_replace.
  destruct (export.open_fails faults); [reflexivity|].
  pose proof (write_lines_spec faults (Exported.tmp_path jsonl_path) issues 0%nat
                (<[Exported.tmp_path jsonl_path := []]> fs) []
                (lookup_insert_eq _ _ _)) as H.
  destruct (export.write_lines _ _ _ _ _ _) as [[n|e] fs'].
  - destruct H as (lines & Hl & -> & ->). cbn [app].
    rewrite insert_insert_eq.
    destruct (export.close_fails faults); [apply delete_insert_eq|].
    destruct (export.replace_fails faults); [apply delete_insert_eq|].
    exists lines. split; [exact Hl|]. split.
    + apply Forall2_length in Hl. simpl. lia.
    + rewrite lookup_insert_eq, delete_insert_eq. reflexivity.
  - rewrite H, delete_insert_eq. reflexivity.
Qed.

(** Without a fault and with every issue encoded, the body returns. *)
Lemma write_lines_returns tmp issues : forall k (fs : export.FS),
  Forall (fun i => is_ok (json_line i) = true) issues ->
  exists n fs', export.write_lines json_line export.no_faults tmp issues k fs = (Ok n, fs').
Proof.
  induction issues as [|i issues IH]; intros k fs Hall; cbn [export.write_lines].
  - eauto.
  - inversion Hall as [|? ? Hi Hrest]; subst.
    destruct (json_line i) as [line|e]; [|discriminate]. cbn. apply IH, Hrest.
Qed.

End ExportFacts.



(** The store of an open issue, a wisp and a tombstone, all three dirty,
    exported over an old log: two lines, no temporary file, nothing
    dirty. With a disk that fails at the second line: the error, the old
    log, no temporary file, the three still dirty. *)
Example export_of_the_sample :
  let ok := export.flush_to_jsonl Sample.id_line export.no_faults "issues.jsonl"
              Sample.mixed Sample.old_log in
  let ko := export.flush_to_jsonl Sample.id_line Sample.second_write_fails
              "issues.jsonl" Sample.mixed Sample.old_log in
  SQLiteStorage.get_dirty_issues Sample.mixed = ["A"; "p-wisp-1"; "p-dead"]
  /\ (ok.1.1, SQLiteStorage.get_dirty_issues ok.1.2,
      ok.2 !! "issues.jsonl", ok.2 !! "issues.jsonl.tmp")
     = (Ok 2, [], Some ["A"; "p-dead"], None)
  /\ (ko.1.1, SQLiteStorage.get_dirty_issues ko.1.2,
      ko.2 !! "issues.jsonl", ko.2 !! "issues.jsonl.tmp")
     = (Raise (OSError "write failed"), ["A"; "p-wisp-1"; "p-dead"],
        Some ["old"], None).
Proof. vm_compute. split; [|split]; reflexivity. Qed.

(* ------------------------------------------------------------------ *)
(** ** The merge by id of the importer *)
(* ------------------------------------------------------------------ *)

Lemma update_where_id_ok issue_id f s s' :
  SQLiteStorage.update_where_id issue_id f s = (Ok tt, s') ->
  SQLiteStorage.update_rows issue_id f (Store.issues s) = Ok (Store.issues s').
Proof.
  unfold SQLiteStorage.update_where_id. intros H.
  db_inv H. apply db_get_ok in Hstep as [-> ->].
  db_inv H. apply db_lift_ok in Hstep as [Hu ->].
  apply db_modify_ok in H. subst. exact Hu.
Qed.

(** What a returning [update_issue] has done to the table. *)
Lemma update_issue_ok now issue_id u actor s s' :
  SQLiteStorage.update_issue now issue_id u actor s = (Ok tt, s') ->
  exists current h,
    SQLiteStorage.get_issue s issue_id = Some current
    /\ Issue.compute_content_hash (SQLiteStorage.setattrs u current) = Ok h
    /\ SQLiteStorage.update_rows issue_id (SQLiteStorage.set_columns u now (Some h))
         (Store.issues s) = Ok (Store.issues s').
Proof.
  unfold SQLiteStorage.update_issue. intros H.
  db_inv H. apply db_get_ok in Hstep as [-> ->].
  destruct (SQLiteStorage.get_issue s issue_id) as [current|]; [|discriminate].
  db_inv H. apply db_lift_ok in Hstep as [Hh ->].
  db_inv H. destruct a0. apply update_where_id_ok in Hstep.
  exists current, a. split; [reflexivity|]. split; [exact Hh|].
  rewrite Hstep. f_equal. symmetry.
  eapply (keeps_ok Store.issues); [|exact H].
  destruct (Updates.status u); keeps_auto.
Qed.

Lemma update_rows_elem issue_id f rows : forall rows' r,
  SQLiteStorage.update_rows issue_id f rows = Ok rows' ->
  r ∈ rows -> IssueRow.id r = issue_id -> f r ∈ rows'.
Proof.
  induction rows as [|x rows IH]; intros rows' r H Hr Hid;
    [apply elem_of_nil in Hr; contradiction|].
  cbn [SQLiteStorage.update_rows] in H.
  destruct (String.eqb_spec (IssueRow.id x) issue_id) as [E|E].
  - destruct (SQLiteStorage.check_row (f x)) as [[]|e]; simpl in H; [|discriminate].
    destruct (SQLiteStorage.update_rows issue_id f rows) as [rows''|e];
      simpl in H; [|discriminate].
    inversion H; subst. apply elem_of_cons in Hr as [->|Hr]; [left|right; eauto].
  - simpl in H.
    destruct (SQLiteStorage.update_rows issue_id f rows) as [rows''|e];
      simpl in H; [|discriminate].
    inversion H; subst. apply elem_of_cons in Hr as [->|Hr]; [contradiction|].
    right. eauto.
Qed.

Lemma get_issue_row s issue_id i :
  SQLiteStorage.get_issue s issue_id = Some i ->
  exists r, r ∈ Store.issues s /\ IssueRow.id r = issue_id /\ i = Exported.full s r.
Proof.
  unfold SQLiteStorage.get_issue, Store.find_issue.
  destruct (find _ _) as [r|] eqn:Hf; [|discriminate].
  intros H. inversion H; subst. apply find_some in Hf as [Hin Heq].
  apply String.eqb_eq in Heq. exists r. rewrite list_elem_of_In.
  subst. auto.
Qed.

(** The row of [issue_id] after a returning [update_issue]. *)
Lemma update_issue_row now issue_id u actor s s' :
  Exported.ids_unique s ->
  SQLiteStorage.update_issue now issue_id u actor s = (Ok tt, s') ->
  exists r h,
    r ∈ Store.issues s /\ IssueRow.id r = issue_id
    /\ Issue.compute_content_hash
         (SQLiteStorage.setattrs u (Exported.full s r)) = Ok h
    /\ SQLiteStorage.set_columns u now (Some h) r ∈ Store.issues s'
    /\ SQLiteStorage.get_issue s' issue_id
       = Some (Exported.full s' (SQLiteStorage.set_columns u now (Some h) r)).
Proof.
  intros Hu H.
  assert (Hu' : Exported.ids_unique s').
  { pose proof (update_issue_unique now issue_id u actor s Hu) as Hp.
    rewrite H in Hp. exact Hp. }
  apply update_issue_ok in H as (current & h & Hget & Hh & Hrows).
  apply get_issue_row in Hget as (r & Hr & Hid & ->).
  exists r, h. split; [exact Hr|]. split; [exact Hid|]. split; [exact Hh|].
  assert (Hin : SQLiteStorage.set_columns u now (Some h) r ∈ Store.issues s').
  { eapply update_rows_elem; eassumption. }
  split; [exact Hin|].
  rewrite <- Hid.
  change (IssueRow.id r)
    with (IssueRow.id (SQLiteStorage.set_columns u now (Some h) r)).
  apply get_issue_of_row; assumption.
Qed.






Lemma db_bind_run {A B} (m : DB A) (f : A -> DB B) s a s1 :
  m s = (Ok a, s1) -> (m ≫= f) s = f a s1.
Proof. intros H. unfold mbind, DB_bind. rewrite H. reflexivity. Qed.

Lemma update_where_id_run issue_id f s rows' :
  SQLiteStorage.update_rows issue_id f (Store.issues s) = Ok rows' ->
  SQLiteStorage.update_where_id issue_id f s = (Ok tt, Store.set_issues rows' s).
Proof.
  intros H. unfold SQLiteStorage.update_where_id. db_unfold. rewrite H. reflexivity.
Qed.






(** The example of the spec, for an issue of [bob]: a newer record is
    merged, an older one and one of the same time are not. *)
Example newer_wins_on_the_sample :
  (fun t => (importer.import_jsonl Sample.T2
               [Sample.record "p-1" "New" "bob" t] [] Sample.old_p1).1)
    <$> [Sample.T2; Sample.T1; Sample.T0]
  = [Ok (importer.mkResult 0 1 0 0 0); Ok (importer.mkResult 0 0 1 0 0);
     Ok (importer.mkResult 0 0 1 0 0)]
  /\ (fun t => Issue.title <$>
        SQLiteStorage.get_issue
          (importer.import_jsonl Sample.T2
             [Sample.record "p-1" "New" "bob" t] [] Sample.old_p1).2 "p-1")
       <$> [Sample.T2; Sample.T1; Sample.T0]
     = [Some "New"; Some "Old"; Some "Old"].
Proof. split; vm_compute; reflexivity. Qed.

(** What the theorem leaves out: a newer record with no assignee. The
    patch holds [None] for the assignee, [update_issue] assigns it to
    the issue it hashes, and the hash raises; nothing is merged. *)
Example newer_record_without_assignee :
  importer.import_jsonl Sample.T2 [Sample.record "p-1" "New" "" Sample.T2] []
    Sample.old_p1
  = (Raise (AttributeError "'NoneType' object has no attribute 'encode'"),
     Sample.old_p1).
Proof. vm_compute. reflexivity. Qed.

(* ------------------------------------------------------------------ *)
(** ** The two dicts of the importer *)
(* ------------------------------------------------------------------ *)








(* ------------------------------------------------------------------ *)
(** ** A first import that creates every record *)
(* ------------------------------------------------------------------ *)






(* ------------------------------------------------------------------ *)
(** ** A second import that finds every record *)
(* ------------------------------------------------------------------ *)



(* ------------------------------------------------------------------ *)
(** ** The passes before the loop *)
(* ------------------------------------------------------------------ *)

Lemma get_issue_None s d :
  SQLiteStorage.get_issue s d = None <-> d ∉ Store.issue_ids s.
Proof.
  unfold SQLiteStorage.get_issue, Store.find_issue, Store.issue_ids. split.
  - destruct (find _ _) as [r|] eqn:Hf; [discriminate|]. intros _ Hin.
    apply list_elem_of_fmap in Hin as (r & -> & Hr).
    apply list_elem_of_In in Hr.
    apply (find_none _ _ Hf) in Hr. rewrite String.eqb_refl in Hr. discriminate.
  - intros Hnot. destruct (find _ _) as [r|] eqn:Hf; [|reflexivity].
    apply find_some in Hf as [Hin Heq]. apply String.eqb_eq in Heq.
    exfalso. apply Hnot. apply list_elem_of_fmap. exists r.
    rewrite list_elem_of_In. auto.
Qed.










(* [naive_solver] clears hypotheses by name, some of them gone already. *)
#[local] Set Warnings "-clear-no-such-hyp".


(* ------------------------------------------------------------------ *)
(** ** The small databases are reachable *)
(* ------------------------------------------------------------------ *)

Lemma reachable_one : Reach.reachable Scenario.one.
Proof. apply Reach.reach_step, Reach.reach_empty. Defined.

Lemma reachable_two : Reach.reachable Scenario.two.
Proof. apply Reach.reach_step, reachable_one. Defined.

Lemma reachable_blocked : Reach.reachable Scenario.blocked.
Proof. apply Reach.reach_step, reachable_two. Defined.

Lemma reachable_labelled : Reach.reachable Scenario.labelled.
Proof. do 2 apply Reach.reach_step. apply reachable_one. Defined.

Lemma reachable_closed : Reach.reachable Scenario.closed.
Proof. apply Reach.reach_step, reachable_one. Defined.

(* ------------------------------------------------------------------ *)
(** ** Referential integrity *)
(* ------------------------------------------------------------------ *)

Lemma elem_of_referenced s k :
  k ∈ Integrity.referenced s <->
  (exists d, d ∈ Store.dependencies s
             /\ (k = Dependency.issue_id d \/ k = Dependency.depends_on_id d))
  \/ (exists r, r ∈ Store.labels s /\ k = r.1)
  \/ (exists c, c ∈ Store.comments s /\ k = Comment.issue_id c)
  \/ (exists e, e ∈ Store.events s /\ k = Event.issue_id e)
  \/ (exists r, r ∈ Store.dirty_issues s /\ k = r.1)
  \/ (exists r, r ∈ Store.export_hashes s /\ k = r.1)
  \/ (exists r, r ∈ Store.child_counters s /\ k = r.1).
Proof.
  unfold Integrity.referenced. rewrite !elem_of_app, !list_elem_of_fmap.
  split.
  - intros [(d & -> & H)|[(d & -> & H)|[(r & -> & H)|[(c & -> & H)|[(e & -> & H)|
            [(r & -> & H)|[(r & -> & H)|(r & -> & H)]]]]]]]; eauto 10.
  - intros [(d & H & [->| ->])|[(r & H & ->)|[(c & H & ->)|[(e & H & ->)|
            [(r & H & ->)|[(r & H & ->)|(r & H & ->)]]]]]]; eauto 10.
Qed.

Lemma refs_step s s' :
  (forall k, k ∈ Store.issue_ids s -> k ∈ Store.issue_ids s') ->
  (forall k, k ∈ Integrity.referenced s' ->
     k ∈ Integrity.referenced s \/ k ∈ Store.issue_ids s') ->
  Integrity.refs_ok s -> Integrity.refs_ok s'.
Proof. intros Hids Hrefs Hs k Hk. destruct (Hrefs k Hk); auto. Qed.

Lemma has_issue_true s k : Store.has_issue s k = true <-> k ∈ Store.issue_ids s.
Proof. unfold Store.has_issue. apply bool_decide_eq_true. Qed.

Ltac refs_solve :=
  let k := fresh "k" in
  intros k; rewrite !elem_of_referenced; cbn;
  repeat setoid_rewrite elem_of_app; repeat setoid_rewrite list_elem_of_singleton;
  naive_solver.

Lemma upsert_dirty_keys i t rows k :
  k ∈ map fst (SQLiteStorage.upsert_dirty i t rows) <-> k ∈ map fst rows \/ k = i.
Proof.
  induction rows as [|[k' t'] rows IH]; simpl.
  - rewrite list_elem_of_singleton, elem_of_nil. tauto.
  - destruct (String.eqb_spec k' i) as [->|Hne]; simpl.
    + rewrite !elem_of_cons. tauto.
    + rewrite !elem_of_cons, IH. tauto.
Qed.

Lemma bump_counter_keys p rows k :
  k ∈ map fst (SQLiteStorage.bump_counter p rows).2 <-> k ∈ map fst rows \/ k = p.
Proof.
  induction rows as [|[k' n] rows IH]; simpl.
  - rewrite list_elem_of_singleton, elem_of_nil. tauto.
  - destruct (String.eqb_spec k' p) as [->|Hne]; simpl.
    + rewrite !elem_of_cons. tauto.
    + destruct (SQLiteStorage.bump_counter p rows) as [m rows'] eqn:Hb; simpl in *.
      rewrite !elem_of_cons, IH. tauto.
Qed.

Lemma elem_of_keys {A} (key : A -> string) (l : list A) k :
  k ∈ map key l <-> exists r, r ∈ l /\ k = key r.
Proof. rewrite list_elem_of_fmap. naive_solver. Qed.

Lemma insert_label_refs i l : preserves Integrity.refs_ok (SQLiteStorage.insert_label i l).
Proof.
  intros s H. unfold SQLiteStorage.insert_label. db_unfold.
  destruct (Store.has_issue s i) eqn:Hi; cbn; [|exact H].
  destruct (bool_decide _); cbn; [exact H|].
  apply has_issue_true in Hi.
  apply (refs_step s); [auto| |exact H]. refs_solve.
Qed.

Lemma insert_dependency_refs d :
  preserves Integrity.refs_ok (SQLiteStorage.insert_dependency d).
Proof.
  intros s H. unfold SQLiteStorage.insert_dependency. db_unfold.
  destruct (Store.has_issue s (Dependency.issue_id d)) eqn:Hi; cbn; [|exact H].
  destruct (Store.has_issue s (Dependency.depends_on_id d)) eqn:Hj; cbn; [|exact H].
  destruct (SQLiteStorage.has_edge _ _ _); cbn; [exact H|].
  apply has_issue_true in Hi, Hj.
  apply (refs_step s); [auto| |exact H]. refs_solve.
Qed.

Lemma insert_comment_refs i a t c :
  preserves Integrity.refs_ok (SQLiteStorage.insert_comment i a t c).
Proof.
  intros s H. unfold SQLiteStorage.insert_comment. db_unfold.
  destruct (Store.has_issue s i) eqn:Hi; cbn; [|exact H].
  apply has_issue_true in Hi.
  apply (refs_step s); [auto| |exact H]. refs_solve.
Qed.

Lemma record_event_refs now i t a o n c :
  preserves Integrity.refs_ok (SQLiteStorage._record_event now i t a o n c).
Proof.
  intros s H. unfold SQLiteStorage._record_event. db_unfold.
  destruct (Store.has_issue s i) eqn:Hi; cbn; [|exact H].
  apply has_issue_true in Hi.
  apply (refs_step s); [auto| |exact H]. refs_solve.
Qed.

Lemma mark_dirty_refs now i : preserves Integrity.refs_ok (SQLiteStorage.mark_dirty now i).
Proof.
  intros s H. unfold SQLiteStorage.mark_dirty. db_unfold.
  destruct (Store.has_issue s i) eqn:Hi; cbn; [|exact H].
  apply has_issue_true in Hi.
  apply (refs_step s); [auto| |exact H].
  intros k. rewrite !elem_of_referenced. cbn.
  rewrite <- !(elem_of_keys fst), upsert_dirty_keys. naive_solver.
Qed.

Lemma next_child_number_refs p :
  preserves Integrity.refs_ok (SQLiteStorage.next_child_number p).
Proof.
  intros s H. unfold SQLiteStorage.next_child_number. db_unfold.
  pose proof (bump_counter_keys p (Store.child_counters s)) as Hk.
  destruct (SQLiteStorage.bump_counter p (Store.child_counters s)) as [m rows]. simpl in Hk.
  destruct (Store.has_issue s p || bool_decide _) eqn:Hi; cbn; [|exact H].
  assert (p ∈ Store.issue_ids s) as Hp.
  { apply orb_true_iff in Hi as [Hi|Hi]; [apply has_issue_true, Hi|].
    apply bool_decide_eq_true in Hi. apply H, elem_of_referenced.
    apply elem_of_keys in Hi. tauto. }
  apply (refs_step s); [auto| |exact H].
  intros k. rewrite !elem_of_referenced. cbn.
  rewrite <- !(elem_of_keys fst), Hk. naive_solver.
Qed.

Lemma insert_issue_refs r : preserves Integrity.refs_ok (SQLiteStorage.insert_issue r).
Proof.
  intros s H. unfold SQLiteStorage.insert_issue. db_unfold.
  destruct (SQLiteStorage.check_row r) as [[]|e]; cbn; [|exact H].
  destruct (Store.has_issue s (IssueRow.id r)); cbn; [exact H|].
  apply (refs_step s); [| |exact H].
  - intros k. unfold Store.issue_ids. cbn. rewrite map_app, elem_of_app. tauto.
  - intros k Hk. left. exact Hk.
Qed.

Lemma update_where_id_refs issue_id f :
  (forall r, IssueRow.id (f r) = IssueRow.id r) ->
  preserves Integrity.refs_ok (SQLiteStorage.update_where_id issue_id f).
Proof.
  intros Hf s H. unfold SQLiteStorage.update_where_id. db_unfold.
  destruct (SQLiteStorage.update_rows issue_id f (Store.issues s)) as [rows|e] eqn:Hu;
    cbn; [|exact H].
  apply (refs_step s); [| |exact H].
  - intros k. unfold Store.issue_ids. cbn.
    rewrite (update_rows_ids _ _ _ _ Hf Hu). tauto.
  - intros k Hk. left. exact Hk.
Qed.

Lemma elem_of_drop_key' {A} (key : A -> string) issue_id (l : list A) x :
  x ∈ Store.drop_key key issue_id l <-> key x <> issue_id /\ x ∈ l.
Proof. exact (list_elem_of_filter (fun y => key y <> issue_id) l x). Qed.

Lemma delete_cascade_refs issue_id s :
  Integrity.refs_ok s -> Integrity.refs_ok (Store.delete_cascade issue_id s).
Proof.
  intros H k Hk.
  assert (k ∈ Integrity.referenced s /\ k <> issue_id) as [Hin Hne].
  { revert Hk. rewrite !elem_of_referenced. cbn.
    repeat setoid_rewrite elem_of_drop_key'. setoid_rewrite list_elem_of_filter.
    naive_solver. }
  apply H in Hin. unfold Store.issue_ids in *. cbn.
  apply elem_of_keys in Hin as (r & Hr & ->). apply elem_of_keys.
  exists r. split; [|reflexivity]. apply elem_of_drop_key'. auto.
Qed.

Lemma filter_dirty_refs (P : string * Datetime.t -> Prop) `{forall x, Decision (P x)} s :
  Integrity.refs_ok s ->
  Integrity.refs_ok (Store.set_dirty_issues (filter P (Store.dirty_issues s)) s).
Proof.
  apply refs_step; [auto|]. intros k. rewrite !elem_of_referenced. cbn.
  setoid_rewrite list_elem_of_filter. naive_solver.
Qed.

Lemma filter_labels_refs (P : string * string -> Prop) `{forall x, Decision (P x)} s :
  Integrity.refs_ok s ->
  Integrity.refs_ok (Store.set_labels (filter P (Store.labels s)) s).
Proof.
  apply refs_step; [auto|]. intros k. rewrite !elem_of_referenced. cbn.
  setoid_rewrite list_elem_of_filter. naive_solver.
Qed.

Lemma filter_dependencies_refs (P : Dependency.t -> Prop) `{forall x, Decision (P x)} s :
  Integrity.refs_ok s ->
  Integrity.refs_ok (Store.set_dependencies (filter P (Store.dependencies s)) s).
Proof.
  apply refs_step; [auto|]. intros k. rewrite !elem_of_referenced. cbn.
  setoid_rewrite list_elem_of_filter. naive_solver.
Qed.

Lemma set_columns_id u t h r : IssueRow.id (SQLiteStorage.set_columns u t h r) = IssueRow.id r.
Proof. reflexivity. Qed.

Ltac refs_auto :=
  repeat lazymatch goal with
    | |- preserves _ (mret _) => apply preserves_ret
    | |- preserves _ (db_raise _) => apply preserves_raise
    | |- preserves _ (db_lift _) => apply preserves_lift
    | |- preserves _ db_get => apply preserves_get
    | |- preserves _ (SQLiteStorage.insert_issue _) => apply insert_issue_refs
    | |- preserves _ (SQLiteStorage.update_where_id _ _) =>
        apply update_where_id_refs; intros ?; reflexivity
    | |- preserves _ (SQLiteStorage.insert_label _ _) => apply insert_label_refs
    | |- preserves _ (SQLiteStorage.insert_dependency _) => apply insert_dependency_refs
    | |- preserves _ (SQLiteStorage.insert_comment _ _ _ _) => apply insert_comment_refs
    | |- preserves _ (SQLiteStorage._record_event _ _ _ _ _ _ _) => apply record_event_refs
    | |- preserves _ (SQLiteStorage.mark_dirty _ _) => apply mark_dirty_refs
    | |- preserves _ (SQLiteStorage.next_child_number _) => apply next_child_number_refs
    | |- preserves _ (_ ≫= _) => apply preserves_bind; [|intros ?]
    | |- preserves _ (db_for _ _) => apply preserves_for; intros ?
    | |- preserves _ (db_except_integrity _) => apply preserves_except
    | |- preserves _ (if ?c then _ else _) => destruct c
    | |- preserves _ (match ?c with _ => _ end) => destruct c
    | |- preserves _ (db_modify _) =>
        apply preserves_modify; intros ? ?;
        first [ assumption | apply delete_cascade_refs; assumption
              | apply filter_dirty_refs; assumption
              | apply filter_labels_refs; assumption
              | apply filter_dependencies_refs; assumption ]
    end.

Lemma create_issue_refs now issue actor :
  preserves Integrity.refs_ok (SQLiteStorage.create_issue now issue actor).
Proof. unfold SQLiteStorage.create_issue. refs_auto. Qed.

Lemma update_issue_refs now issue_id u actor :
  preserves Integrity.refs_ok (SQLiteStorage.update_issue now issue_id u actor).
Proof. unfold SQLiteStorage.update_issue. refs_auto. Qed.

Lemma import_loop_refs now snap issues : forall l,
  preserves Integrity.refs_ok (importer.import_loop now snap l issues).
Proof.
  induction issues as [|i issues IH]; intros l; simpl.
  - apply preserves_ret.
  - apply preserves_bind; [|intros l'; apply IH].
    unfold importer.import_one. refs_auto;
      first [ apply create_issue_refs | apply update_issue_refs ].
Qed.

Lemma process_deletions_refs ids : forall r,
  preserves Integrity.refs_ok (importer.process_deletions ids r).
Proof.
  induction ids as [|i ids IH]; intros r; simpl.
  - apply preserves_ret.
  - unfold SQLiteStorage.delete_issue. refs_auto; apply IH.
Qed.

Lemma run_refs o : preserves Integrity.refs_ok (Reach.run o).
Proof.
  destruct o; simpl;
    unfold SQLiteStorage.close_issue, SQLiteStorage.reopen_issue,
      SQLiteStorage.add_dependency, SQLiteStorage.remove_dependency,
      SQLiteStorage.add_label, SQLiteStorage.remove_label,
      SQLiteStorage.add_comment, SQLiteStorage.clear_dirty,
      SQLiteStorage.delete_issue,
      importer.import_jsonl, Reach.discard;
    first [ apply create_issue_refs | apply update_issue_refs | idtac ];
    refs_auto;
    first [ apply import_loop_refs | apply process_deletions_refs | idtac ].
Qed.

Lemma reachable_refs s : Reach.reachable s -> Integrity.refs_ok s.
Proof.
  induction 1 as [|s o _ IH].
  - intros k Hk. vm_compute in Hk. inversion Hk.
  - apply run_refs, IH.
Qed.

(** X1. Whatever calls led to it, the database has no orphan row: every
    issue id named by a dependency (either end), a label, a comment, an
    event, a dirty mark, an export hash or a child counter is the id of a
    row of [issues]. *)
Theorem no_orphan_rows s :
  Reach.reachable s ->
  (forall d, d ∈ Store.dependencies s ->
     Dependency.issue_id d ∈ Store.issue_ids s
     /\ Dependency.depends_on_id d ∈ Store.issue_ids s)
  /\ (forall i l, (i, l) ∈ Store.labels s -> i ∈ Store.issue_ids s)
  /\ (forall c, c ∈ Store.comments s -> Comment.issue_id c ∈ Store.issue_ids s)
  /\ (forall e, e ∈ Store.events s -> Event.issue_id e ∈ Store.issue_ids s)
  /\ (forall i t, (i, t) ∈ Store.dirty_issues s -> i ∈ Store.issue_ids s)
  /\ (forall i h, (i, h) ∈ Store.export_hashes s -> i ∈ Store.issue_ids s)
  /\ (forall i n, (i, n) ∈ Store.child_counters s -> i ∈ Store.issue_ids s).
Proof.
  intros Hs. apply reachable_refs in Hs.
  assert (H : forall k, (exists d, d ∈ Store.dependencies s
             /\ (k = Dependency.issue_id d \/ k = Dependency.depends_on_id d))
    \/ (exists r, r ∈ Store.labels s /\ k = r.1)
    \/ (exists c, c ∈ Store.comments s /\ k = Comment.issue_id c)
    \/ (exists e, e ∈ Store.events s /\ k = Event.issue_id e)
    \/ (exists r, r ∈ Store.dirty_issues s /\ k = r.1)
    \/ (exists r, r ∈ Store.export_hashes s /\ k = r.1)
    \/ (exists r, r ∈ Store.child_counters s /\ k = r.1) -> k ∈ Store.issue_ids s).
  { intros k Hk. apply Hs, elem_of_referenced, Hk. }
  split; [intros d Hd; split; apply H; left; exists d; auto|].
  split; [intros i l Hl; apply H; right; left; exists (i, l); auto|].
  split; [intros c Hc; apply H; do 2 right; left; exists c; auto|].
  split; [intros e He; apply H; do 3 right; left; exists e; auto|].
  split; [intros i t Ht; apply H; do 4 right; left; exists (i, t); auto|].
  split; [intros i h Hh; apply H; do 5 right; left; exists (i, h); auto|].
  intros i n Hn; apply H; do 6 right; exists (i, n); auto.
Qed.

(** The integrity of the store with a dependency. *)
Lemma no_orphan_rows_witness :
  Reach.reachable Scenario.blocked
  /\ forall d, d ∈ Store.dependencies Scenario.blocked ->
       Dependency.issue_id d ∈ Store.issue_ids Scenario.blocked
       /\ Dependency.depends_on_id d ∈ Store.issue_ids Scenario.blocked.
Proof.
  split; [exact reachable_blocked|].
  exact (proj1 (no_orphan_rows _ reachable_blocked)).
Defined.


(* ------------------------------------------------------------------ *)
(** ** Primary keys *)
(* ------------------------------------------------------------------ *)

Lemma has_edge_spec s a b :
  SQLiteStorage.has_edge s a b = true
  <-> (a, b) ∈ map Integrity.dep_key (Store.dependencies s).
Proof.
  unfold SQLiteStorage.has_edge. rewrite existsb_exists, list_elem_of_fmap.
  split.
  - intros (d & Hd & H). apply andb_true_iff in H as [H1 H2].
    apply String.eqb_eq in H1, H2. exists d. split.
    + unfold Integrity.dep_key. congruence.
    + apply list_elem_of_In, Hd.
  - intros (d & Hk & Hd). inversion Hk; subst. exists d.
    split; [apply list_elem_of_In, Hd|]. rewrite !String.eqb_refl. reflexivity.
Qed.

Lemma upsert_dirty_NoDup i t rows :
  NoDup (map fst rows) -> NoDup (map fst (SQLiteStorage.upsert_dirty i t rows)).
Proof.
  induction rows as [|[k t'] rows IH]; simpl; intros H.
  - apply NoDup_singleton.
  - apply NoDup_cons in H as [Hk H].
    destruct (String.eqb_spec k i) as [->|Hne]; simpl.
    + apply NoDup_cons. auto.
    + apply NoDup_cons. split; [|auto].
      change (k ∉ (SQLiteStorage.upsert_dirty i t rows).*1).
      rewrite elem_of_upsert_dirty. intros [->|Hin]; [congruence|auto].
Qed.

Lemma bump_counter_elem p rows k :
  k ∈ map fst (SQLiteStorage.bump_counter p rows).2 <-> k ∈ map fst rows \/ k = p.
Proof.
  induction rows as [|[k' n] rows IH]; simpl.
  - rewrite list_elem_of_singleton, elem_of_nil. tauto.
  - destruct (String.eqb_spec k' p) as [->|Hne]; simpl.
    + rewrite !elem_of_cons. tauto.
    + destruct (SQLiteStorage.bump_counter p rows) as [m rows'] eqn:Hb; simpl in *.
      rewrite !elem_of_cons, IH. tauto.
Qed.

Lemma bump_counter_NoDup p rows :
  NoDup (map fst rows) -> NoDup (map fst (SQLiteStorage.bump_counter p rows).2).
Proof.
  induction rows as [|[k n] rows IH]; simpl; intros H.
  - apply NoDup_singleton.
  - apply NoDup_cons in H as [Hk H].
    destruct (String.eqb_spec k p) as [->|Hne]; simpl.
    + apply NoDup_cons. auto.
    + pose proof (bump_counter_elem p rows k) as He. specialize (IH H).
      destruct (SQLiteStorage.bump_counter p rows) as [m rows'] eqn:Hb; simpl in *.
      apply NoDup_cons. split; [|auto].
      rewrite He. intros [Hin| ->]; [auto|congruence].
Qed.

Lemma NoDup_snoc {A} (l : list A) x : NoDup l -> x ∉ l -> NoDup (l ++ [x]).
Proof.
  intros Hl Hx. apply NoDup_app. split; [exact Hl|]. split; [|apply NoDup_singleton].
  intros y Hy Hy'. apply list_elem_of_singleton in Hy'. subst. auto.
Qed.

Lemma seq_ok_next seq ids : Integrity.seq_ok seq ids -> Integrity.seq_ok (seq + 1) (ids ++ [seq + 1]).
Proof.
  intros [Hn Hle]. split.
  - apply NoDup_snoc; [exact Hn|]. intros Hin.
    rewrite Forall_forall in Hle. apply Hle in Hin. lia.
  - apply Forall_app. split; [|repeat constructor; lia].
    eapply Forall_impl; [exact Hle|]. simpl. intros; lia.
Qed.

Lemma seq_ok_filter seq {A} (key : A -> Z) (P : A -> Prop) `{forall x, Decision (P x)} l :
  Integrity.seq_ok seq (map key l) -> Integrity.seq_ok seq (map key (filter P l)).
Proof.
  intros [Hn Hle]. split; [apply NoDup_map_filter, Hn|].
  rewrite Forall_forall in *. intros k Hk. apply Hle.
  apply list_elem_of_fmap in Hk as (x & -> & Hx). apply list_elem_of_filter in Hx as [_ Hx].
  apply list_elem_of_fmap. eauto.
Qed.

Ltac keys_split H :=
  destruct H as (Hk1 & Hk2 & Hk3 & Hk4 & Hk5 & Hk6 & Hk7 & Hk8);
  unfold Integrity.keys_ok; cbn;
  split; [|split; [|split; [|split; [|split; [|split; [|split]]]]]];
  try assumption.

Lemma insert_label_keys i l : preserves Integrity.keys_ok (SQLiteStorage.insert_label i l).
Proof.
  intros s H. unfold SQLiteStorage.insert_label. db_unfold.
  destruct (Store.has_issue s i); cbn; [|exact H].
  destruct (bool_decide _) eqn:Hin; cbn; [exact H|].
  apply bool_decide_eq_false in Hin. keys_split H. apply NoDup_snoc; assumption.
Qed.

Lemma insert_dependency_keys d :
  preserves Integrity.keys_ok (SQLiteStorage.insert_dependency d).
Proof.
  intros s H. unfold SQLiteStorage.insert_dependency. db_unfold.
  destruct (negb _); cbn; [exact H|].
  destruct (SQLiteStorage.has_edge _ _ _) eqn:He; cbn; [exact H|].
  keys_split H. rewrite map_app. apply NoDup_snoc; [assumption|].
  intros Hin. apply has_edge_spec in Hin. congruence.
Qed.

Lemma insert_comment_keys i a t c :
  preserves Integrity.keys_ok (SQLiteStorage.insert_comment i a t c).
Proof.
  intros s H. unfold SQLiteStorage.insert_comment. db_unfold.
  destruct (Store.has_issue s i); cbn; [|exact H].
  keys_split H. rewrite map_app. apply seq_ok_next, Hk4.
Qed.

Lemma record_event_keys now i t a o n c :
  preserves Integrity.keys_ok (SQLiteStorage._record_event now i t a o n c).
Proof.
  intros s H. unfold SQLiteStorage._record_event. db_unfold.
  destruct (Store.has_issue s i); cbn; [|exact H].
  keys_split H. rewrite map_app. apply seq_ok_next, Hk5.
Qed.

Lemma mark_dirty_keys now i : preserves Integrity.keys_ok (SQLiteStorage.mark_dirty now i).
Proof.
  intros s H. unfold SQLiteStorage.mark_dirty. db_unfold.
  destruct (Store.has_issue s i); cbn; [|exact H].
  keys_split H. apply upsert_dirty_NoDup, Hk6.
Qed.

Lemma next_child_number_keys p :
  preserves Integrity.keys_ok (SQLiteStorage.next_child_number p).
Proof.
  intros s H. unfold SQLiteStorage.next_child_number. db_unfold.
  pose proof (bump_counter_NoDup p (Store.child_counters s)) as Hb.
  destruct (SQLiteStorage.bump_counter p (Store.child_counters s)) as [m rows].
  destruct (_ || _); cbn; [|exact H].
  keys_split H. apply Hb, Hk8.
Qed.

Lemma insert_issue_keys r : preserves Integrity.keys_ok (SQLiteStorage.insert_issue r).
Proof.
  intros s H. pose proof (insert_issue_unique r s) as Hu.
  unfold SQLiteStorage.insert_issue in *. db_unfold.
  destruct (SQLiteStorage.check_row r) as [[]|e]; cbn in *; [|exact H].
  destruct (Store.has_issue s (IssueRow.id r)); cbn in *; [exact H|].
  keys_split H. apply Hu, Hk1.
Qed.

Lemma update_where_id_keys issue_id f :
  (forall r, IssueRow.id (f r) = IssueRow.id r) ->
  preserves Integrity.keys_ok (SQLiteStorage.update_where_id issue_id f).
Proof.
  intros Hf s H. pose proof (update_where_id_unique issue_id f Hf s) as Hu.
  unfold SQLiteStorage.update_where_id in *. db_unfold.
  destruct (SQLiteStorage.update_rows issue_id f (Store.issues s)) as [rows|e] eqn:Hr;
    cbn in *; [|exact H].
  keys_split H. apply Hu, Hk1.
Qed.

Lemma delete_cascade_keys issue_id s :
  Integrity.keys_ok s -> Integrity.keys_ok (Store.delete_cascade issue_id s).
Proof.
  intros H. keys_split H; unfold Store.drop_key.
  - apply NoDup_map_filter, Hk1.
  - apply NoDup_map_filter, Hk2.
  - apply NoDup_filter, Hk3.
  - apply seq_ok_filter, Hk4.
  - apply seq_ok_filter, Hk5.
  - apply NoDup_map_filter, Hk6.
  - apply NoDup_map_filter, Hk7.
  - apply NoDup_map_filter, Hk8.
Qed.

Lemma filter_dirty_keys (P : string * Datetime.t -> Prop) `{forall x, Decision (P x)} s :
  Integrity.keys_ok s ->
  Integrity.keys_ok (Store.set_dirty_issues (filter P (Store.dirty_issues s)) s).
Proof. intros Hs. keys_split Hs. apply NoDup_map_filter, Hk6. Qed.

Lemma filter_labels_keys (P : string * string -> Prop) `{forall x, Decision (P x)} s :
  Integrity.keys_ok s ->
  Integrity.keys_ok (Store.set_labels (filter P (Store.labels s)) s).
Proof. intros Hs. keys_split Hs. apply NoDup_filter, Hk3. Qed.

Lemma filter_dependencies_keys (P : Dependency.t -> Prop) `{forall x, Decision (P x)} s :
  Integrity.keys_ok s ->
  Integrity.keys_ok (Store.set_dependencies (filter P (Store.dependencies s)) s).
Proof. intros Hs. keys_split Hs. apply NoDup_map_filter, Hk2. Qed.

Ltac keys_auto :=
  repeat lazymatch goal with
    | |- preserves _ (mret _) => apply preserves_ret
    | |- preserves _ (db_raise _) => apply preserves_raise
    | |- preserves _ (db_lift _) => apply preserves_lift
    | |- preserves _ db_get => apply preserves_get
    | |- preserves _ (SQLiteStorage.insert_issue _) => apply insert_issue_keys
    | |- preserves _ (SQLiteStorage.update_where_id _ _) =>
        apply update_where_id_keys; intros ?; reflexivity
    | |- preserves _ (SQLiteStorage.insert_label _ _) => apply insert_label_keys
    | |- preserves _ (SQLiteStorage.insert_dependency _) => apply insert_dependency_keys
    | |- preserves _ (SQLiteStorage.insert_comment _ _ _ _) => apply insert_comment_keys
    | |- preserves _ (SQLiteStorage._record_event _ _ _ _ _ _ _) => apply record_event_keys
    | |- preserves _ (SQLiteStorage.mark_dirty _ _) => apply mark_dirty_keys
    | |- preserves _ (SQLiteStorage.next_child_number _) => apply next_child_number_keys
    | |- preserves _ (_ ≫= _) => apply preserves_bind; [|intros ?]
    | |- preserves _ (db_for _ _) => apply preserves_for; intros ?
    | |- preserves _ (db_except_integrity _) => apply preserves_except
    | |- preserves _ (if ?c then _ else _) => destruct c
    | |- preserves _ (match ?c with _ => _ end) => destruct c
    | |- preserves _ (db_modify _) =>
        apply preserves_modify; intros ? ?;
        first [ assumption | apply delete_cascade_keys; assumption
              | apply filter_dirty_keys; assumption
              | apply filter_labels_keys; assumption
              | apply filter_dependencies_keys; assumption ]
    end.

Lemma create_issue_keys now issue actor :
  preserves Integrity.keys_ok (SQLiteStorage.create_issue now issue actor).
Proof. unfold SQLiteStorage.create_issue. keys_auto. Qed.

Lemma update_issue_keys now issue_id u actor :
  preserves Integrity.keys_ok (SQLiteStorage.update_issue now issue_id u actor).
Proof. unfold SQLiteStorage.update_issue. keys_auto. Qed.

Lemma import_loop_keys now snap issues : forall l,
  preserves Integrity.keys_ok (importer.import_loop now snap l issues).
Proof.
  induction issues as [|i issues IH]; intros l; simpl.
  - apply preserves_ret.
  - apply preserves_bind; [|intros l'; apply IH].
    unfold importer.import_one. keys_auto;
      first [ apply create_issue_keys | apply update_issue_keys ].
Qed.

Lemma process_deletions_keys ids : forall r,
  preserves Integrity.keys_ok (importer.process_deletions ids r).
Proof.
  induction ids as [|i ids IH]; intros r; simpl.
  - apply preserves_ret.
  - unfold SQLiteStorage.delete_issue. keys_auto; apply IH.
Qed.

Lemma run_keys o : preserves Integrity.keys_ok (Reach.run o).
Proof.
  destruct o; simpl;
    unfold SQLiteStorage.close_issue, SQLiteStorage.reopen_issue,
      SQLiteStorage.add_dependency, SQLiteStorage.remove_dependency,
      SQLiteStorage.add_label, SQLiteStorage.remove_label,
      SQLiteStorage.add_comment, SQLiteStorage.clear_dirty,
      SQLiteStorage.delete_issue,
      importer.import_jsonl, Reach.discard;
    first [ apply create_issue_keys | apply update_issue_keys | idtac ];
    keys_auto;
    first [ apply import_loop_keys | apply process_deletions_keys | idtac ].
Qed.

Lemma reachable_keys s : Reach.reachable s -> Integrity.keys_ok s.
Proof.
  induction 1 as [|s o _ IH].
  - unfold Integrity.keys_ok, Integrity.seq_ok. cbn.
    repeat split; constructor.
  - apply run_keys, IH.
Qed.


(* ------------------------------------------------------------------ *)
(** ** The end of a mutator: the event and the dirty mark *)
(* ------------------------------------------------------------------ *)

Lemma trail_run now t i actor o n c s :
  Store.has_issue s i = true ->
  (SQLiteStorage._record_event now i t actor o n c ≫= fun _ =>
   SQLiteStorage.mark_dirty now i) s = (Ok tt, Trail.logged now t i actor o n c s).
Proof.
  intros Hi. unfold SQLiteStorage._record_event, SQLiteStorage.mark_dirty.
  db_unfold. rewrite Hi. cbn.
  unfold Store.has_issue, Store.issue_ids in *. cbn. rewrite Hi. reflexivity.
Qed.

Lemma trail_raise now t i actor o n c s :
  Store.has_issue s i = false ->
  (SQLiteStorage._record_event now i t actor o n c ≫= fun _ =>
   SQLiteStorage.mark_dirty now i) s = (Raise SQLiteStorage.FK_FAILED, s).
Proof.
  intros Hi. unfold SQLiteStorage._record_event. db_unfold. rewrite Hi. reflexivity.
Qed.

Lemma trail_ok now t i actor o n c s s' :
  (SQLiteStorage._record_event now i t actor o n c ≫= fun _ =>
   SQLiteStorage.mark_dirty now i) s = (Ok tt, s') ->
  Store.has_issue s i = true /\ s' = Trail.logged now t i actor o n c s.
Proof.
  destruct (Store.has_issue s i) eqn:Hi.
  - rewrite (trail_run _ _ _ _ _ _ _ _ Hi). intros H. inversion H. auto.
  - rewrite (trail_raise _ _ _ _ _ _ _ _ Hi). discriminate.
Qed.

(* ------------------------------------------------------------------ *)
(** ** Labels *)
(* ------------------------------------------------------------------ *)

Lemma elem_of_get_labels s i l :
  l ∈ SQLiteStorage.get_labels s i <-> (i, l) ∈ Store.labels s.
Proof.
  unfold SQLiteStorage.get_labels. rewrite elem_of_sort, list_elem_of_fmap.
  split.
  - intros ([j l'] & -> & H). apply list_elem_of_filter in H as [E H].
    simpl in *. subst. exact H.
  - intros H. exists (i, l). split; [reflexivity|].
    apply list_elem_of_filter. split; [reflexivity | exact H].
Qed.

Lemma insert_label_ok i l s s' :
  SQLiteStorage.insert_label i l s = (Ok tt, s') ->
  Store.has_issue s i = true
  /\ (forall x, x ∈ Store.labels s' <-> x ∈ Store.labels s \/ x = (i, l))
  /\ Store.has_issue s' i = true.
Proof.
  unfold SQLiteStorage.insert_label. db_unfold.
  destruct (Store.has_issue s i) eqn:Hi; cbn; [|discriminate].
  destruct (bool_decide _) eqn:Hin; cbn; intros H; inversion H; subst; clear H.
  - apply bool_decide_eq_true in Hin. split; [reflexivity|]. split; [|exact Hi].
    intros x. split; [auto|]. intros [Hx| ->]; assumption.
  - split; [reflexivity|]. split; [|exact Hi].
    intros x. cbn. rewrite elem_of_app, list_elem_of_singleton. tauto.
Qed.

(** X3. The labels of an issue behave as a set: after [add_label] the
    issue has the label and every label it had, after [remove_label] it
    has every label it had but this one, and in both cases the labels of
    the other issues are as before. *)
Theorem labels_are_a_set now i l actor s s' :
  (SQLiteStorage.add_label now i l actor s = (Ok tt, s') ->
   forall j l', l' ∈ SQLiteStorage.get_labels s' j
                <-> l' ∈ SQLiteStorage.get_labels s j \/ (j = i /\ l' = l))
  /\ (SQLiteStorage.remove_label now i l actor s = (Ok tt, s') ->
      forall j l', l' ∈ SQLiteStorage.get_labels s' j
                   <-> l' ∈ SQLiteStorage.get_labels s j /\ ~ (j = i /\ l' = l)).
Proof.
  split.
  - unfold SQLiteStorage.add_label. intros H. db_inv H. destruct a.
    apply insert_label_ok in Hstep as (_ & Hl & _).
    apply trail_ok in H as [_ ->]. intros j l'.
    rewrite !elem_of_get_labels. cbn. rewrite Hl.
    split; intros [H|H];
      [ left; exact H | right; inversion H; auto
      | left; exact H | right; destruct H; subst; reflexivity ].
  - unfold SQLiteStorage.remove_label. intros H. db_inv H. destruct a.
    apply db_modify_ok in Hstep. subst s0.
    apply trail_ok in H as [_ ->]. intros j l'.
    rewrite !elem_of_get_labels. cbn. rewrite list_elem_of_filter.
    split; intros [H1 H2]; split; try assumption.
    + intros [-> ->]. apply H1. reflexivity.
    + intros E. apply H2. inversion E; auto.
Qed.

(** The two calls on an issue of the sample. *)
Lemma labels_are_a_set_witness :
  SQLiteStorage.add_label Sample.T1 "A" "bug" "alice" Scenario.one
  = (Ok tt, (SQLiteStorage.add_label Sample.T1 "A" "bug" "alice" Scenario.one).2)
  /\ "bug" ∈ SQLiteStorage.get_labels
               (SQLiteStorage.add_label Sample.T1 "A" "bug" "alice" Scenario.one).2 "A".
Proof.
  assert (H : SQLiteStorage.add_label Sample.T1 "A" "bug" "alice" Scenario.one
    = (Ok tt, (SQLiteStorage.add_label Sample.T1 "A" "bug" "alice" Scenario.one).2))
    by (vm_compute; reflexivity).
  split; [exact H|].
  apply (proj1 (labels_are_a_set Sample.T1 "A" "bug" "alice" Scenario.one _) H).
  right. split; reflexivity.
Defined.

(** X4. [get_labels] lists the labels of the issue, each once, in
    ascending order of their bytes. *)
Theorem get_labels_sorted s i :
  Reach.reachable s ->
  ordered String.leb (SQLiteStorage.get_labels s i)
  /\ NoDup (SQLiteStorage.get_labels s i)
  /\ forall l, l ∈ SQLiteStorage.get_labels s i <-> (i, l) ∈ Store.labels s.
Proof.
  intros Hs. apply reachable_keys in Hs as (_ & _ & Hl & _).
  split; [|split].
  - apply sort_ordered.
    + intros x y. destruct (String.leb_total x y); auto.
    + apply string_leb_trans.
  - unfold SQLiteStorage.get_labels. apply NoDup_sort.
    apply NoDup_fmap_2_strong; [|apply NoDup_filter, Hl].
    intros [a x] [b y] Hx Hy E.
    apply list_elem_of_filter in Hx as [Ex _]. apply list_elem_of_filter in Hy as [Ey _].
    simpl in *. congruence.
  - intros l. apply elem_of_get_labels.
Qed.

(** The labels of an issue that was given two. *)
Lemma get_labels_sorted_witness :
  Reach.reachable Scenario.labelled
  /\ SQLiteStorage.get_labels Scenario.labelled "A" = ["api"; "bug"]
  /\ NoDup (SQLiteStorage.get_labels Scenario.labelled "A").
Proof.
  split; [exact reachable_labelled|]. split; [vm_compute; reflexivity|].
  exact (proj1 (proj2 (get_labels_sorted _ "A" reachable_labelled))).
Defined.

Lemma NoDup_map_sort {A B} (f : A -> B) (le : A -> A -> bool) (l : list A) :
  NoDup (map f (OrderBy.sort le l)) <-> NoDup (map f l).
Proof.
  pose proof (Permutation_map f (sort_perm le l)) as HP. rewrite HP. reflexivity.
Qed.




(* ------------------------------------------------------------------ *)
(** ** The rows of [issues] *)
(* ------------------------------------------------------------------ *)

Lemma update_rows_updated issue_id f rows rows' :
  SQLiteStorage.update_rows issue_id f rows = Ok rows' ->
  rows' = Integrity.updated issue_id f rows.
Proof.
  unfold Integrity.updated.
  revert rows'. induction rows as [|r rows IH]; intros rows' H; cbn in H.
  - inversion H. reflexivity.
  - cbn. destruct (String.eqb (IssueRow.id r) issue_id).
    + destruct (SQLiteStorage.check_row (f r)) as [[]|e]; cbn in H; [|discriminate].
      destruct (SQLiteStorage.update_rows issue_id f rows) as [rows''|e];
        cbn in H; [|discriminate].
      inversion H. f_equal. apply IH. reflexivity.
    + cbn in H.
      destruct (SQLiteStorage.update_rows issue_id f rows) as [rows''|e];
        cbn in H; [|discriminate].
      inversion H. f_equal. apply IH. reflexivity.
Qed.

Lemma update_rows_succeeds issue_id f rows :
  (forall r, r ∈ rows -> IssueRow.id r = issue_id -> SQLiteStorage.check_row (f r) = Ok tt) ->
  SQLiteStorage.update_rows issue_id f rows = Ok (Integrity.updated issue_id f rows).
Proof.
  unfold Integrity.updated.
  induction rows as [|r rows IH]; intros H; cbn; [reflexivity|].
  rewrite IH by (intros x Hx; apply H; right; exact Hx).
  destruct (String.eqb_spec (IssueRow.id r) issue_id) as [E|E]; [|reflexivity].
  rewrite (H r (list_elem_of_here _ _) E). reflexivity.
Qed.

Lemma updated_absent issue_id f rows :
  issue_id ∉ map IssueRow.id rows -> Integrity.updated issue_id f rows = rows.
Proof.
  unfold Integrity.updated.
  induction rows as [|r rows IH]; intros H; cbn; [reflexivity|].
  cbn in H. apply not_elem_of_cons in H as [H1 H2].
  rewrite IH by exact H2.
  destruct (String.eqb_spec (IssueRow.id r) issue_id) as [E|E]; [congruence|reflexivity].
Qed.

Lemma updated_ids issue_id f rows :
  (forall r, IssueRow.id (f r) = IssueRow.id r) ->
  map IssueRow.id (Integrity.updated issue_id f rows) = map IssueRow.id rows.
Proof.
  intros Hf. unfold Integrity.updated. rewrite map_map. apply map_ext.
  intros r. destruct (String.eqb _ _); [apply Hf | reflexivity].
Qed.

Lemma find_updated issue_id f rows j :
  (forall r, IssueRow.id (f r) = IssueRow.id r) ->
  find (fun x => String.eqb (IssueRow.id x) j) (Integrity.updated issue_id f rows)
  = (fun r => if String.eqb (IssueRow.id r) issue_id then f r else r)
    <$> find (fun x => String.eqb (IssueRow.id x) j) rows.
Proof.
  intros Hf. unfold Integrity.updated.
  induction rows as [|r rows IH]; cbn; [reflexivity|].
  destruct (String.eqb (IssueRow.id r) issue_id) eqn:E.
  - rewrite Hf. destruct (String.eqb (IssueRow.id r) j); [cbn; rewrite E; reflexivity|apply IH].
  - destruct (String.eqb (IssueRow.id r) j); [cbn; rewrite E; reflexivity|apply IH].
Qed.

Lemma set_issues_same s : Store.set_issues (Store.issues s) s = s.
Proof. destruct s. reflexivity. Qed.

Lemma update_rows_rows_ok issue_id f rows rows' :
  SQLiteStorage.update_rows issue_id f rows = Ok rows' ->
  Forall (fun r => SQLiteStorage.check_row r = Ok tt) rows ->
  Forall (fun r => SQLiteStorage.check_row r = Ok tt) rows'.
Proof.
  revert rows'. induction rows as [|r rows IH]; intros rows' H Hall; cbn in H.
  - inversion H. constructor.
  - inversion Hall as [|? ? Hr Hrows]; subst.
    destruct (String.eqb (IssueRow.id r) issue_id).
    + destruct (SQLiteStorage.check_row (f r)) as [[]|e] eqn:Hc; cbn in H; [|discriminate].
      destruct (SQLiteStorage.update_rows issue_id f rows) as [rows''|e] eqn:Hu;
        cbn in H; [|discriminate].
      inversion H; subst. constructor; [exact Hc | apply IH; auto].
    + cbn in H.
      destruct (SQLiteStorage.update_rows issue_id f rows) as [rows''|e] eqn:Hu;
        cbn in H; [|discriminate].
      inversion H; subst. constructor; [exact Hr | apply IH; auto].
Qed.

Lemma insert_issue_rows_ok r : preserves Integrity.rows_ok (SQLiteStorage.insert_issue r).
Proof.
  intros s H. unfold SQLiteStorage.insert_issue. db_unfold.
  destruct (SQLiteStorage.check_row r) as [[]|e] eqn:Hc; cbn; [|exact H].
  destruct (Store.has_issue s (IssueRow.id r)); cbn; [exact H|].
  unfold Integrity.rows_ok. cbn. apply Forall_app. split; [exact H|].
  constructor; [exact Hc | constructor].
Qed.

Lemma update_where_id_rows_ok issue_id f :
  preserves Integrity.rows_ok (SQLiteStorage.update_where_id issue_id f).
Proof.
  intros s H. unfold SQLiteStorage.update_where_id. db_unfold.
  destruct (SQLiteStorage.update_rows issue_id f (Store.issues s)) as [rows|e] eqn:Hu;
    cbn; [|exact H].
  unfold Integrity.rows_ok. cbn. eapply update_rows_rows_ok; eauto.
Qed.

Lemma delete_cascade_rows_ok issue_id s :
  Integrity.rows_ok s -> Integrity.rows_ok (Store.delete_cascade issue_id s).
Proof.
  unfold Integrity.rows_ok. cbn. unfold Store.drop_key. rewrite !Forall_forall.
  intros H r Hr. apply list_elem_of_filter in Hr as [_ Hr]. apply H, Hr.
Qed.

Lemma keeps_rows_ok {A} (m : DB A) : keeps Store.issues m -> preserves Integrity.rows_ok m.
Proof. intros H s Hs. unfold Integrity.rows_ok. rewrite H. exact Hs. Qed.

Ltac rows_auto :=
  repeat lazymatch goal with
    | |- preserves _ (mret _) => apply preserves_ret
    | |- preserves _ (db_raise _) => apply preserves_raise
    | |- preserves _ (db_lift _) => apply preserves_lift
    | |- preserves _ db_get => apply preserves_get
    | |- preserves _ (SQLiteStorage.insert_issue _) => apply insert_issue_rows_ok
    | |- preserves _ (SQLiteStorage.update_where_id _ _) => apply update_where_id_rows_ok
    | |- preserves _ (SQLiteStorage.insert_label _ _) =>
        apply keeps_rows_ok, insert_label_issues
    | |- preserves _ (SQLiteStorage.insert_dependency _) =>
        apply keeps_rows_ok, insert_dependency_issues
    | |- preserves _ (SQLiteStorage.insert_comment _ _ _ _) =>
        apply keeps_rows_ok, insert_comment_issues
    | |- preserves _ (SQLiteStorage._record_event _ _ _ _ _ _ _) =>
        apply keeps_rows_ok, record_event_issues
    | |- preserves _ (SQLiteStorage.mark_dirty _ _) =>
        apply keeps_rows_ok, mark_dirty_issues
    | |- preserves _ (_ ≫= _) => apply preserves_bind; [|intros ?]
    | |- preserves _ (db_for _ _) => apply preserves_for; intros ?
    | |- preserves _ (db_except_integrity _) => apply preserves_except
    | |- preserves _ (if ?c then _ else _) => destruct c
    | |- preserves _ (match ?c with _ => _ end) => destruct c
    | |- preserves _ (db_modify _) =>
        apply preserves_modify; intros ? ?;
        first [ assumption | apply delete_cascade_rows_ok; assumption ]
    end.

Lemma create_issue_rows_ok now issue actor :
  preserves Integrity.rows_ok (SQLiteStorage.create_issue now issue actor).
Proof. unfold SQLiteStorage.create_issue. rows_auto. Qed.

Lemma update_issue_rows_ok now issue_id u actor :
  preserves Integrity.rows_ok (SQLiteStorage.update_issue now issue_id u actor).
Proof. unfold SQLiteStorage.update_issue. rows_auto. Qed.

Lemma import_loop_rows_ok now snap issues : forall l,
  preserves Integrity.rows_ok (importer.import_loop now snap l issues).
Proof.
  induction issues as [|i issues IH]; intros l; simpl.
  - apply preserves_ret.
  - apply preserves_bind; [|intros l'; apply IH].
    unfold importer.import_one. rows_auto;
      first [ apply create_issue_rows_ok | apply update_issue_rows_ok ].
Qed.

Lemma process_deletions_rows_ok ids : forall r,
  preserves Integrity.rows_ok (importer.process_deletions ids r).
Proof.
  induction ids as [|i ids IH]; intros r; simpl.
  - apply preserves_ret.
  - unfold SQLiteStorage.delete_issue. rows_auto; apply IH.
Qed.

Lemma run_rows_ok o : preserves Integrity.rows_ok (Reach.run o).
Proof.
  destruct o; simpl;
    unfold SQLiteStorage.close_issue, SQLiteStorage.reopen_issue,
      SQLiteStorage.add_dependency, SQLiteStorage.remove_dependency,
      SQLiteStorage.add_label, SQLiteStorage.remove_label,
      SQLiteStorage.add_comment, SQLiteStorage.clear_dirty,
      SQLiteStorage.delete_issue, SQLiteStorage.next_child_number,
      importer.import_jsonl, Reach.discard;
    first [ apply create_issue_rows_ok | apply update_issue_rows_ok | idtac ];
    rows_auto;
    first [ apply import_loop_rows_ok | apply process_deletions_rows_ok | idtac ].
Qed.

Lemma reachable_rows_ok s : Reach.reachable s -> Integrity.rows_ok s.
Proof.
  induction 1 as [|s o _ IH].
  - constructor.
  - apply run_rows_ok, IH.
Qed.


(* ------------------------------------------------------------------ *)
(** ** Closing, reopening and deleting *)
(* ------------------------------------------------------------------ *)

Lemma check_row_close now reason r :
  SQLiteStorage.check_row r = Ok tt ->
  SQLiteStorage.check_row
    (SQLiteStorage.set_columns (SQLiteStorage.close_columns now reason) now None r) = Ok tt.
Proof.
  unfold SQLiteStorage.check_row, SQLiteStorage.row_ints, Schema.check_issue_row.
  cbn [SQLiteStorage.set_columns SQLiteStorage.close_columns Updates.pick
       IssueRow.priority IssueRow.estimated_minutes IssueRow.compaction_level
       IssueRow.original_size IssueRow.timeout IssueRow.title IssueRow.status
       IssueRow.closed_at Updates.priority Updates.title Updates.status
       Updates.closed_at id].
  destruct (forallb _ _); cbn [negb]; [|discriminate].
  destruct (Str.sql_length (IssueRow.title r) <=? 500); cbn [andb negb]; [|discriminate].
  destruct ((0 <=? IssueRow.priority r) && (IssueRow.priority r <=? 4));
    cbn [andb negb]; [|discriminate].
  intros _. reflexivity.
Qed.

Lemma check_row_reopen now r :
  SQLiteStorage.check_row r = Ok tt ->
  SQLiteStorage.check_row
    (SQLiteStorage.set_columns SQLiteStorage.reopen_columns now None r) = Ok tt.
Proof.
  unfold SQLiteStorage.check_row, SQLiteStorage.row_ints, Schema.check_issue_row.
  cbn [SQLiteStorage.set_columns SQLiteStorage.reopen_columns Updates.pick
       IssueRow.priority IssueRow.estimated_minutes IssueRow.compaction_level
       IssueRow.original_size IssueRow.timeout IssueRow.title IssueRow.status
       IssueRow.closed_at Updates.priority Updates.title Updates.status
       Updates.closed_at id].
  destruct (forallb _ _); cbn [negb]; [|discriminate].
  destruct (Str.sql_length (IssueRow.title r) <=? 500); cbn [andb negb]; [|discriminate].
  destruct ((0 <=? IssueRow.priority r) && (IssueRow.priority r <=? 4));
    cbn [andb negb]; [|discriminate].
  intros _. reflexivity.
Qed.

Lemma has_issue_updated s i j f :
  (forall r, IssueRow.id (f r) = IssueRow.id r) ->
  Store.has_issue (Store.set_issues (Integrity.updated i f (Store.issues s)) s) j
  = Store.has_issue s j.
Proof.
  intros Hf. unfold Store.has_issue, Store.issue_ids. cbn.
  rewrite updated_ids by exact Hf. reflexivity.
Qed.

(** [UPDATE ... WHERE id = ?], the event and the dirty mark, for a SET
    clause that every stored row passes the constraints with. *)
Lemma update_then_trail now t i actor o n c f s :
  (forall r, IssueRow.id (f r) = IssueRow.id r) ->
  (forall r, r ∈ Store.issues s -> SQLiteStorage.check_row (f r) = Ok tt) ->
  (SQLiteStorage.update_where_id i f ≫= fun _ =>
   SQLiteStorage._record_event now i t actor o n c ≫= fun _ =>
   SQLiteStorage.mark_dirty now i) s
  = if Store.has_issue s i
    then (Ok tt, Trail.logged now t i actor o n c
                   (Store.set_issues (Integrity.updated i f (Store.issues s)) s))
    else (Raise SQLiteStorage.FK_FAILED, s).
Proof.
  intros Hid Hf.
  rewrite (db_bind_run _ _ s tt _
             (update_where_id_run _ _ _ _
                (update_rows_succeeds i f (Store.issues s) (fun r Hr _ => Hf r Hr)))).
  destruct (Store.has_issue s i) eqn:Hi.
  - apply trail_run. rewrite has_issue_updated by exact Hid. exact Hi.
  - rewrite trail_raise by (rewrite has_issue_updated by exact Hid; exact Hi).
    rewrite updated_absent, set_issues_same; [reflexivity|].
    unfold Store.has_issue in Hi. apply bool_decide_eq_false in Hi. exact Hi.
Qed.

Lemma get_issue_updated now t i actor o n c f s old :
  (forall r, IssueRow.id (f r) = IssueRow.id r) ->
  SQLiteStorage.get_issue s i = Some old ->
  exists r, r ∈ Store.issues s /\ IssueRow.id r = i
    /\ old = Exported.full s r
    /\ SQLiteStorage.get_issue
         (Trail.logged now t i actor o n c
            (Store.set_issues (Integrity.updated i f (Store.issues s)) s)) i
       = Some (SQLiteStorage.with_relations
                 (SQLiteStorage.get_labels s i)
                 (SQLiteStorage.get_dependency_records s i)
                 (SQLiteStorage.get_comments s i)
                 (SQLiteStorage._row_to_issue (f r))).
Proof.
  intros Hid. unfold SQLiteStorage.get_issue, Store.find_issue.
  destruct (find _ (Store.issues s)) as [r|] eqn:Hf; [|discriminate].
  intros H. inversion H; subst old; clear H.
  pose proof (find_some _ _ Hf) as [Hin Heq]. apply String.eqb_eq in Heq.
  exists r. split; [apply list_elem_of_In, Hin|]. split; [exact Heq|].
  split; [unfold Exported.full; rewrite Heq; reflexivity|].
  cbn [Trail.logged Store.issues Store.set_issues].
  rewrite find_updated by exact Hid. rewrite Hf. cbn.
  apply String.eqb_eq in Heq. rewrite Heq. reflexivity.
Qed.

Lemma get_issue_other now t i actor o n c f s j :
  (forall r, IssueRow.id (f r) = IssueRow.id r) ->
  j <> i ->
  SQLiteStorage.get_issue
    (Trail.logged now t i actor o n c
       (Store.set_issues (Integrity.updated i f (Store.issues s)) s)) j
  = SQLiteStorage.get_issue s j.
Proof.
  intros Hid Hj. unfold SQLiteStorage.get_issue, Store.find_issue.
  cbn [Trail.logged Store.issues Store.set_issues].
  rewrite find_updated by exact Hid.
  destruct (find _ (Store.issues s)) as [r|] eqn:Hf; [|reflexivity].
  apply find_some in Hf as [_ Heq]. apply String.eqb_eq in Heq. cbn.
  destruct (String.eqb_spec (IssueRow.id r) i) as [E|E]; [congruence|reflexivity].
Qed.



(** X6. [reopen_issue] on an issue of the database never fails, whatever
    its status: a closed issue, and a tombstone as well, comes back open,
    with no [closed_at] and an empty close reason. The stored content
    hash is not recomputed and no other issue changes. *)
Theorem reopen_issue_spec now i actor s old :
  Reach.reachable s ->
  SQLiteStorage.get_issue s i = Some old ->
  exists s' new,
    SQLiteStorage.reopen_issue now i actor s = (Ok tt, s')
    /\ SQLiteStorage.get_issue s' i = Some new
    /\ Issue.status new = "open"
    /\ Issue.closed_at new = None
    /\ Issue.close_reason new = ""
    /\ Issue.updated_at new = stored_datetime now
    /\ Issue.content_hash new = Issue.content_hash old
    /\ (Issue.title new, Issue.description new, Issue.priority new,
        Issue.issue_type new, Issue.assignee new, Issue.created_at new)
       = (Issue.title old, Issue.description old, Issue.priority old,
          Issue.issue_type old, Issue.assignee old, Issue.created_at old)
    /\ (Issue.labels new, Issue.dependencies new, Issue.comments new)
       = (Issue.labels old, Issue.dependencies old, Issue.comments old)
    /\ forall j, j <> i -> SQLiteStorage.get_issue s' j = SQLiteStorage.get_issue s j.
Proof.
  intros Hs Hold. apply reachable_rows_ok in Hs. unfold Integrity.rows_ok in Hs.
  rewrite Forall_forall in Hs.
  set (f := SQLiteStorage.set_columns SQLiteStorage.reopen_columns now None).
  assert (Hid : forall r, IssueRow.id (f r) = IssueRow.id r) by reflexivity.
  destruct (get_issue_updated now EventType.REOPENED i actor None None None
              f s old Hid Hold) as (r & Hr & Hri & -> & Hnew).
  eexists _, _. split.
  { unfold SQLiteStorage.reopen_issue. fold f.
    rewrite update_then_trail;
      [|exact Hid|intros x Hx; apply check_row_reopen, Hs, Hx].
    rewrite (proj2 (has_issue_true s i));
      [reflexivity | rewrite <- Hri; apply list_elem_of_fmap; eauto]. }
  split; [exact Hnew|].
  split; [reflexivity|]. split; [reflexivity|]. split; [reflexivity|].
  split; [reflexivity|]. split; [reflexivity|].
  split; [reflexivity|]. split; [subst i; reflexivity|].
  intros j Hj. apply get_issue_other; assumption.
Qed.

(** The closed issue [A] reopened. *)
Lemma reopen_issue_spec_witness :
  Reach.reachable Scenario.closed
  /\ (Issue.status <$> SQLiteStorage.get_issue Scenario.closed "A") = Some "closed"
  /\ exists s' new,
       SQLiteStorage.reopen_issue Sample.T2 "A" "alice" Scenario.closed = (Ok tt, s')
       /\ SQLiteStorage.get_issue s' "A" = Some new
       /\ Issue.status new = "open" /\ Issue.closed_at new = None.
Proof.
  assert (Hold : exists old, SQLiteStorage.get_issue Scenario.closed "A" = Some old)
    by (eexists; vm_compute; reflexivity).
  destruct Hold as [old Hold].
  split; [exact reachable_closed|]. split; [vm_compute; reflexivity|].
  destruct (reopen_issue_spec Sample.T2 "A" "alice" Scenario.closed old
              reachable_closed Hold) as (s' & new & H1 & H2 & H3 & H4 & _).
  exists s', new. split; [exact H1|]. split; [exact H2|]. split; [exact H3 | exact H4].
Defined.

(** X7. [delete_issue] removes the issue and every row that names it:
    afterwards [get_issue] finds nothing and no table mentions the id.
    Another issue keeps its row, labels and comments, and of its
    dependencies the ones that did not point at the deleted issue. *)
Theorem delete_issue_spec i s :
  let s' := (SQLiteStorage.delete_issue i s).2 in
  (SQLiteStorage.delete_issue i s).1 = Ok tt
  /\ SQLiteStorage.get_issue s' i = None
  /\ (i ∉ Integrity.referenced s')
  /\ forall j, j <> i ->
       Store.find_issue s' j = Store.find_issue s j
       /\ SQLiteStorage.get_labels s' j = SQLiteStorage.get_labels s j
       /\ SQLiteStorage.get_comments s' j = SQLiteStorage.get_comments s j
       /\ SQLiteStorage.get_dependency_records s' j
          = filter (fun d => Dependency.depends_on_id d <> i)
              (SQLiteStorage.get_dependency_records s j).
Proof.
  cbn zeta. unfold SQLiteStorage.delete_issue. cbn [fst snd db_modify].
  split; [reflexivity|]. split; [|split].
  - apply get_issue_None. unfold Store.issue_ids. cbn.
    rewrite list_elem_of_fmap. intros (r & Hi & Hr).
    apply elem_of_drop_key' in Hr as [Hne _]. congruence.
  - rewrite elem_of_referenced. cbn.
    repeat setoid_rewrite elem_of_drop_key'. setoid_rewrite list_elem_of_filter.
    naive_solver.
  - intros j Hj. split; [|split; [|split]].
    + unfold Store.find_issue. cbn. unfold Store.drop_key.
      induction (Store.issues s) as [|r rows IH]; [reflexivity|].
      rewrite filter_cons. cbn [find].
      destruct (decide (IssueRow.id r <> i)) as [E|E].
      * cbn [find]. rewrite IH. reflexivity.
      * destruct (String.eqb_spec (IssueRow.id r) j) as [E'|E']; [|exact IH].
        exfalso. apply E. congruence.
    + unfold SQLiteStorage.get_labels. cbn. unfold Store.drop_key. do 2 f_equal.
      rewrite list_filter_filter. apply list_filter_iff. intros [a b]. cbn.
      split; [tauto|]. intros ->. auto.
    + unfold SQLiteStorage.get_comments. cbn. unfold Store.drop_key. f_equal.
      rewrite list_filter_filter. apply list_filter_iff. intros c.
      split; [tauto|]. intros ->. auto.
    + unfold SQLiteStorage.get_dependency_records. cbn.
      rewrite !list_filter_filter. apply list_filter_iff. intros d.
      split; [tauto|]. intros [E ->]. auto.
Qed.


(* ------------------------------------------------------------------ *)
(** ** Calls on an id that is not in the database *)
(* ------------------------------------------------------------------ *)

Lemma delete_cascade_absent i s :
  Integrity.refs_ok s -> i ∉ Store.issue_ids s -> Store.delete_cascade i s = s.
Proof.
  intros Hr Hi.
  assert (Hk : forall k, k ∈ Integrity.referenced s -> k <> i).
  { intros k Hk ->. apply Hi, Hr, Hk. }
  setoid_rewrite elem_of_referenced in Hk.
  destruct s as [iss deps labs coms evs dirty hashes ctrs cfg meta cseq eseq].
  unfold Store.delete_cascade, Store.drop_key, Store.issue_ids in *. cbn in *.
  f_equal; apply filter_all; intros x Hx.
  - intros E. apply Hi. rewrite <- E. apply list_elem_of_fmap. eauto.
  - split; apply Hk; left; exists x; auto.
  - apply Hk. right; left. eauto.
  - apply Hk. do 2 right; left. eauto.
  - apply Hk. do 3 right; left. eauto.
  - apply Hk. do 4 right; left. eauto.
  - apply Hk. do 5 right; left. eauto.
  - apply Hk. do 6 right. eauto.
Qed.

Lemma has_issue_false s k : Store.has_issue s k = false <-> k ∉ Store.issue_ids s.
Proof. unfold Store.has_issue. apply bool_decide_eq_false. Qed.

Lemma set_labels_same s : Store.set_labels (Store.labels s) s = s.
Proof. destruct s. reflexivity. Qed.

Lemma set_dependencies_same s : Store.set_dependencies (Store.dependencies s) s = s.
Proof. destruct s. reflexivity. Qed.

(** X8. A call that names an issue the database does not hold changes
    nothing: [update_issue] raises ValueError; [close_issue],
    [reopen_issue], [add_label], [remove_label], [add_comment],
    [mark_dirty], [remove_dependency], [next_child_number] and
    [add_dependency] from that issue raise as well (a foreign key fails, or
    the edge is refused), and [delete_issue] returns. The database is
    the same after each of them. *)
Theorem unknown_id_changes_nothing now i s :
  Reach.reachable s ->
  i ∉ Store.issue_ids s ->
  (forall u actor,
     SQLiteStorage.update_issue now i u actor s
     = (Raise (ValueError ("Issue not found: " +:+ i)), s))
  /\ (forall reason actor,
        SQLiteStorage.close_issue now i reason actor s = (Raise SQLiteStorage.FK_FAILED, s))
  /\ (forall actor,
        SQLiteStorage.reopen_issue now i actor s = (Raise SQLiteStorage.FK_FAILED, s))
  /\ (forall l actor,
        SQLiteStorage.add_label now i l actor s = (Raise SQLiteStorage.FK_FAILED, s))
  /\ (forall l actor,
        SQLiteStorage.remove_label now i l actor s = (Raise SQLiteStorage.FK_FAILED, s))
  /\ (forall author text,
        SQLiteStorage.add_comment now i author text s = (Raise SQLiteStorage.FK_FAILED, s))
  /\ SQLiteStorage.mark_dirty now i s = (Raise SQLiteStorage.FK_FAILED, s)
  /\ (forall j actor,
        SQLiteStorage.remove_dependency now i j actor s
        = (Raise SQLiteStorage.FK_FAILED, s))
  /\ SQLiteStorage.next_child_number i s = (Raise SQLiteStorage.FK_FAILED, s)
  /\ (forall dep actor, Dependency.issue_id dep = i ->
        exists e, SQLiteStorage.add_dependency now dep actor s = (Raise e, s))
  /\ SQLiteStorage.delete_issue i s = (Ok tt, s).
Proof.
  intros Hs Hi.
  pose proof (reachable_refs s Hs) as Hrefs.
  pose proof (reachable_rows_ok s Hs) as Hrows.
  unfold Integrity.rows_ok in Hrows. rewrite Forall_forall in Hrows.
  pose proof (proj2 (has_issue_false s i) Hi) as Hno.
  assert (Hk : forall k, k ∈ Integrity.referenced s -> k <> i).
  { intros k Hk ->. apply Hi, Hrefs, Hk. }
  setoid_rewrite elem_of_referenced in Hk.
  split.
  { intros u actor. unfold SQLiteStorage.update_issue. db_unfold.
    rewrite (proj2 (get_issue_None s i) Hi). reflexivity. }
  split.
  { intros reason actor. unfold SQLiteStorage.close_issue.
    rewrite update_then_trail;
      [rewrite Hno; reflexivity|reflexivity|intros x Hx; apply check_row_close, Hrows, Hx]. }
  split.
  { intros actor. unfold SQLiteStorage.reopen_issue.
    rewrite update_then_trail;
      [rewrite Hno; reflexivity|reflexivity|intros x Hx; apply check_row_reopen, Hrows, Hx]. }
  split.
  { intros l actor. unfold SQLiteStorage.add_label, SQLiteStorage.insert_label.
    db_unfold. rewrite Hno. reflexivity. }
  split.
  { intros l actor. unfold SQLiteStorage.remove_label.
    rewrite (db_bind_run _ _ s tt s).
    - apply trail_raise, Hno.
    - unfold db_modify. rewrite filter_all, set_labels_same; [reflexivity|].
      intros [a b] Hx E. inversion E; subst.
      apply (Hk i); [|reflexivity]. right; left. exists (i, l). auto. }
  split.
  { intros author text. unfold SQLiteStorage.add_comment, SQLiteStorage.insert_comment.
    db_unfold. rewrite Hno. reflexivity. }
  split.
  { unfold SQLiteStorage.mark_dirty. db_unfold. rewrite Hno. reflexivity. }
  split.
  { intros j actor. unfold SQLiteStorage.remove_dependency.
    rewrite (db_bind_run _ _ s tt s).
    - unfold SQLiteStorage._record_event. db_unfold. rewrite Hno. reflexivity.
    - unfold db_modify. rewrite filter_all, set_dependencies_same; [reflexivity|].
      intros d Hd [E _]. apply (Hk i); [|reflexivity]. left. exists d. auto. }
  split.
  { unfold SQLiteStorage.next_child_number. db_unfold.
    destruct (SQLiteStorage.bump_counter i (Store.child_counters s)) as [m rows].
    rewrite Hno. cbn [orb].
    rewrite bool_decide_eq_false_2; [reflexivity|].
    intros Hin. apply list_elem_of_fmap in Hin as (x & E & Hx).
    apply (Hk i); [|reflexivity]. do 6 right. eauto. }
  split.
  { intros dep actor E. unfold SQLiteStorage.add_dependency, SQLiteStorage.insert_dependency.
    db_unfold. destruct (SQLiteStorage.has_cycle _ _ _); [eexists; reflexivity|].
    cbn [Dependency.issue_id Dependency.depends_on_id].
    rewrite E, Hno. cbn. eexists; reflexivity. }
  unfold SQLiteStorage.delete_issue, db_modify.
  rewrite delete_cascade_absent; auto.
Qed.

(** The calls on the id [B] of a database that holds [A] only. *)
Lemma unknown_id_changes_nothing_witness :
  Reach.reachable Scenario.one
  /\ ("B" ∉ Store.issue_ids Scenario.one)
  /\ SQLiteStorage.close_issue Sample.T1 "B" "done" "alice" Scenario.one
     = (Raise SQLiteStorage.FK_FAILED, Scenario.one).
Proof.
  assert (Hi : "B" ∉ Store.issue_ids Scenario.one).
  { apply (bool_decide_unpack _). vm_compute. exact I. }
  split; [exact reachable_one|]. split; [exact Hi|].
  exact (proj1 (proj2 (unknown_id_changes_nothing Sample.T1 "B" Scenario.one
                         reachable_one Hi)) "done" "alice").
Defined.


(* ------------------------------------------------------------------ *)
(** ** Dependencies *)
(* ------------------------------------------------------------------ *)

Lemma filter_unique_id rows k :
  NoDup (map IssueRow.id rows) -> k ∈ map IssueRow.id rows ->
  exists r, filter (fun i => IssueRow.id i = k) rows = [r] /\ IssueRow.id r = k.
Proof.
  induction rows as [|x rows IH]; intros Hu Hk; [apply elem_of_nil in Hk; contradiction|].
  cbn [map] in Hu, Hk. apply NoDup_cons in Hu as [Hx Hu].
  rewrite filter_cons. destruct (decide (IssueRow.id x = k)) as [E|E].
  - exists x. split; [|exact E]. f_equal. apply filter_none.
    intros y Hy Ey. apply Hx. rewrite E, <- Ey. apply list_elem_of_fmap. eauto.
  - apply elem_of_cons in Hk as [Hk|Hk]; [congruence|]. apply IH; assumption.
Qed.

Lemma join_ids {D} (key : D -> string) rows (ds : list D) :
  NoDup (map IssueRow.id rows) ->
  (forall d, d ∈ ds -> key d ∈ map IssueRow.id rows) ->
  map IssueRow.id (flat_map (fun d => filter (fun i => IssueRow.id i = key d) rows) ds)
  = map key ds.
Proof.
  intros Hu. induction ds as [|d ds IH]; intros Hk; [reflexivity|].
  cbn [flat_map map]. rewrite map_app, IH by (intros x Hx; apply Hk; right; exact Hx).
  destruct (filter_unique_id rows (key d) Hu (Hk d (list_elem_of_here _ _)))
    as (r & -> & Hr).
  cbn. rewrite Hr. reflexivity.
Qed.

Lemma row_to_issue_ids rows :
  map Issue.id (map SQLiteStorage._row_to_issue rows) = map IssueRow.id rows.
Proof. rewrite map_map. reflexivity. Qed.

(** X9. [get_dependencies] returns one issue per dependency record of
    the issue, the one the record points at, and [get_dependents] one
    per record that points at the issue; so [b] is a dependent of [a]
    exactly when [a] is a dependency of [b]. *)
Theorem dependencies_and_dependents s a b :
  Reach.reachable s ->
  map Issue.id (SQLiteStorage.get_dependencies s a)
    ≡ₚ map Dependency.depends_on_id (SQLiteStorage.get_dependency_records s a)
  /\ map Issue.id (SQLiteStorage.get_dependents s a)
       ≡ₚ map Dependency.issue_id
            (filter (fun d => Dependency.depends_on_id d = a) (Store.dependencies s))
  /\ (b ∈ map Issue.id (SQLiteStorage.get_dependents s a)
      <-> a ∈ map Issue.id (SQLiteStorage.get_dependencies s b)).
Proof.
  intros Hs.
  pose proof (reachable_unique s Hs) as Hu.
  pose proof (reachable_refs s Hs) as Hr.
  assert (Hd : forall d, d ∈ Store.dependencies s ->
            Dependency.issue_id d ∈ map IssueRow.id (Store.issues s)
            /\ Dependency.depends_on_id d ∈ map IssueRow.id (Store.issues s)).
  { intros d Hd. split; apply Hr, elem_of_referenced; left; exists d; auto. }
  assert (H1 : forall x, map Issue.id (SQLiteStorage.get_dependencies s x)
    = map Dependency.depends_on_id (SQLiteStorage.get_dependency_records s x)).
  { intros x. unfold SQLiteStorage.get_dependencies. rewrite row_to_issue_ids.
    apply join_ids; [exact Hu|].
    intros d Hin. apply list_elem_of_filter in Hin as [_ Hin]. apply Hd, Hin. }
  assert (H2 : forall x, map Issue.id (SQLiteStorage.get_dependents s x)
    = map Dependency.issue_id
        (filter (fun d => Dependency.depends_on_id d = x) (Store.dependencies s))).
  { intros x. unfold SQLiteStorage.get_dependents. rewrite row_to_issue_ids.
    apply join_ids; [exact Hu|].
    intros d Hin. apply list_elem_of_filter in Hin as [_ Hin]. apply Hd, Hin. }
  split; [rewrite H1; reflexivity|]. split; [rewrite H2; reflexivity|].
  rewrite H1, H2. unfold SQLiteStorage.get_dependency_records.
  rewrite !list_elem_of_fmap. setoid_rewrite list_elem_of_filter.
  split; intros (d & -> & <- & Hin); exists d; auto.
Qed.

(** The two queries on the database where [B] waits for [A]. *)
Lemma dependencies_and_dependents_witness :
  Reach.reachable Scenario.blocked
  /\ map Issue.id (SQLiteStorage.get_dependencies Scenario.blocked "B") = ["A"]
  /\ ("B" ∈ map Issue.id (SQLiteStorage.get_dependents Scenario.blocked "A")
      <-> "A" ∈ map Issue.id (SQLiteStorage.get_dependencies Scenario.blocked "B")).
Proof.
  split; [exact reachable_blocked|]. split; [vm_compute; reflexivity|].
  exact (proj2 (proj2 (dependencies_and_dependents Scenario.blocked "A" "B"
                         reachable_blocked))).
Defined.

Lemma insert_dependency_ok row s s' :
  SQLiteStorage.insert_dependency row s = (Ok tt, s') ->
  Store.has_issue s (Dependency.issue_id row) = true
  /\ Store.has_issue s (Dependency.depends_on_id row) = true
  /\ s' = (if SQLiteStorage.has_edge s (Dependency.issue_id row) (Dependency.depends_on_id row)
           then s else Store.set_dependencies (Store.dependencies s ++ [row]) s).
Proof.
  unfold SQLiteStorage.insert_dependency. db_unfold.
  destruct (Store.has_issue s (Dependency.issue_id row)); cbn; [|discriminate].
  destruct (Store.has_issue s (Dependency.depends_on_id row)); cbn; [|discriminate].
  destruct (SQLiteStorage.has_edge _ _ _); cbn; intros H; inversion H; auto.
Qed.

Lemma mark_dirty_run now i s u s' :
  SQLiteStorage.mark_dirty now i s = (Ok u, s') ->
  s' = Store.set_dirty_issues
         (SQLiteStorage.upsert_dirty i (stored_datetime now) (Store.dirty_issues s)) s.
Proof.
  unfold SQLiteStorage.mark_dirty. db_unfold.
  destruct (Store.has_issue s i); [|discriminate]. intros H. inversion H. reflexivity.
Qed.

(** X10. A successful [add_dependency] joins two different issues of
    the database. When the pair had no edge, the edge is added with the
    type given; when it had one, the stored edge stays as it was (its
    type as well). Afterwards the issue has a dependency record that
    points at the other. A successful [remove_dependency] leaves the
    issue the records it had but the one to that target, and the records
    of the other issues as they were. *)
Theorem dependency_edges now dep a b actor s s' :
  (SQLiteStorage.add_dependency now dep actor s = (Ok tt, s') ->
   Dependency.issue_id dep <> Dependency.depends_on_id dep
   /\ Dependency.issue_id dep ∈ Store.issue_ids s
   /\ Dependency.depends_on_id dep ∈ Store.issue_ids s
   /\ (exists d, d ∈ SQLiteStorage.get_dependency_records s' (Dependency.issue_id dep)
                 /\ Dependency.depends_on_id d = Dependency.depends_on_id dep)
   /\ (forall d, d ∈ Store.dependencies s -> d ∈ Store.dependencies s')
   /\ (SQLiteStorage.has_edge s (Dependency.issue_id dep) (Dependency.depends_on_id dep) = true ->
       Store.dependencies s' = Store.dependencies s)
   /\ (SQLiteStorage.has_edge s (Dependency.issue_id dep) (Dependency.depends_on_id dep) = false ->
       exists d, Store.dependencies s' = (Store.dependencies s ++ [d])%list
                 /\ Dependency.type d = Dependency.type dep))
  /\ (SQLiteStorage.remove_dependency now a b actor s = (Ok tt, s') ->
      forall j, SQLiteStorage.get_dependency_records s' j
                = filter (fun d => ~ (j = a /\ Dependency.depends_on_id d = b))
                    (SQLiteStorage.get_dependency_records s j)).
Proof.
  split.
  - unfold SQLiteStorage.add_dependency. intros H.
    db_inv H. apply db_get_ok in Hstep as [-> ->].
    destruct (SQLiteStorage.has_cycle s _ _) eqn:Hc; [discriminate|].
    db_inv H. destruct a0. apply insert_dependency_ok in Hstep as (Ha & Hb & Hs0).
    cbn [Dependency.issue_id Dependency.depends_on_id] in Ha, Hb, Hs0.
    db_inv H. destruct a0.
    assert (Hdeps : Store.dependencies s' = Store.dependencies s0).
    { transitivity (Store.dependencies s1).
      - db_inv H. apply mark_dirty_run in Hstep0, H. subst. reflexivity.
      - unfold SQLiteStorage._record_event in Hstep. db_unfold.
        destruct (Store.has_issue s0 _); [|discriminate]. inversion Hstep. reflexivity. }
    split.
    { intros E. unfold SQLiteStorage.has_cycle in Hc. rewrite E, String.eqb_refl in Hc.
      discriminate. }
    split; [apply has_issue_true, Ha|]. split; [apply has_issue_true, Hb|].
    rewrite Hdeps. unfold SQLiteStorage.get_dependency_records. rewrite Hdeps.
    destruct (SQLiteStorage.has_edge s _ _) eqn:He; subst s0.
    + split.
      { unfold SQLiteStorage.has_edge in He. apply existsb_exists in He as (d & Hd & E).
        apply andb_true_iff in E as [E1 E2]. apply String.eqb_eq in E1, E2.
        exists d. split; [|exact E2]. apply list_elem_of_filter.
        split; [exact E1 | apply list_elem_of_In, Hd]. }
      split; [auto|]. split; [reflexivity | discriminate].
    + split.
      { eexists. split.
        - apply list_elem_of_filter. split; cycle 1.
          + cbn. apply elem_of_app. right. apply list_elem_of_singleton. reflexivity.
          + reflexivity.
        - reflexivity. }
      split; [intros d Hd; cbn; apply elem_of_app; auto|].
      split; [discriminate|]. intros _. eexists. split; reflexivity.
  - unfold SQLiteStorage.remove_dependency. intros H.
    db_inv H. destruct a0. apply db_modify_ok in Hstep. subst s0.
    db_inv H. destruct a0.
    assert (Hdeps : Store.dependencies s' = Store.dependencies s0).
    { db_inv H. apply mark_dirty_run in Hstep0, H. subst. reflexivity. }
    assert (Hdeps0 : Store.dependencies s0
      = filter (fun d => ~ (Dependency.issue_id d = a /\ Dependency.depends_on_id d = b))
          (Store.dependencies s)).
    { unfold SQLiteStorage._record_event in Hstep. db_unfold.
      destruct (Store.has_issue _ _); [|discriminate]. inversion Hstep. reflexivity. }
    intros j. unfold SQLiteStorage.get_dependency_records.
    rewrite Hdeps, Hdeps0, !list_filter_filter. apply list_filter_iff.
    intros d. split.
    + intros [E Hn]. split; [|exact E]. intros [-> Hb]. auto.
    + intros [Hn E]. split; [exact E|]. intros [Ha Hb]. apply Hn. split; congruence.
Qed.

Lemma dependency_edges_witness :
  SQLiteStorage.add_dependency Sample.T1 (Sample.edge "B" "A" "blocks") "alice" Scenario.two
  = (Ok tt, Scenario.blocked)
  /\ exists d, d ∈ SQLiteStorage.get_dependency_records Scenario.blocked "B"
               /\ Dependency.depends_on_id d = "A".
Proof.
  assert (H : SQLiteStorage.add_dependency Sample.T1 (Sample.edge "B" "A" "blocks") "alice"
                Scenario.two = (Ok tt, Scenario.blocked)) by (vm_compute; reflexivity).
  split; [exact H|].
  destruct (dependency_edges Sample.T1 (Sample.edge "B" "A" "blocks") "" "" "alice"
              Scenario.two Scenario.blocked) as [Hadd _].
  destruct (Hadd H) as (_ & _ & _ & Hd & _). exact Hd.
Defined.


(* ------------------------------------------------------------------ *)
(** ** Ready and blocked work *)
(* ------------------------------------------------------------------ *)

Lemma elem_of_sql_limit {A} (n : Z) (l : list A) x : x ∈ SQLiteStorage.sql_limit n l -> x ∈ l.
Proof.
  unfold SQLiteStorage.sql_limit. destruct (n <? 0); [auto|].
  intros H. eapply subseteq_take, H.
Qed.

Lemma elem_of_ready_rows s now f r :
  r ∈ SQLiteStorage.ready_rows s now (Some f) ->
  r ∈ SQLiteStorage.ready_rows s now None /\ SQLiteStorage.filter_where s (Some f) r = true.
Proof.
  unfold SQLiteStorage.ready_rows. intros H.
  assert (H' : r ∈ OrderBy.sort SQLiteStorage.ready_order
                     (List.filter (fun i => SQLiteStorage.ready_where s now i
                                            && SQLiteStorage.filter_where s (Some f) i)
                        (Store.issues s))).
  { destruct (ReadyFilter.limit f =? 0); [exact H | eapply elem_of_sql_limit, H]. }
  apply elem_of_sort, list_elem_of_In, filter_In in H' as [Hin Hw].
  apply andb_true_iff in Hw as [Hw Hf]. split; [|exact Hf].
  apply elem_of_sort, list_elem_of_In, filter_In. split; [exact Hin|].
  rewrite Hw. reflexivity.
Qed.

(** X11. A filter only narrows [get_ready_work]: every issue returned
    with a filter is returned without one, and it has the priority, the
    assignee, the type and the labels the filter names. A positive
    [limit] bounds the number of issues returned. *)
Theorem get_ready_work_filtered s now f :
  (forall x, x ∈ SQLiteStorage.get_ready_work s now (Some f) ->
             x ∈ SQLiteStorage.get_ready_work s now None)
  /\ (forall r, r ∈ SQLiteStorage.ready_rows s (format_datetime now) (Some f) ->
        (forall p, ReadyFilter.priority f = Some p -> IssueRow.priority r = p)
        /\ (forall a, ReadyFilter.assignee f = Some a -> IssueRow.assignee r = Some a)
        /\ (forall t, ReadyFilter.type f = Some t -> t <> "" -> IssueRow.issue_type r = t)
        /\ (ReadyFilter.unassigned f = true ->
            IssueRow.assignee r = None \/ IssueRow.assignee r = Some "")
        /\ (forall l, l ∈ ReadyFilter.labels f ->
                      l ∈ SQLiteStorage.get_labels s (IssueRow.id r)))
  /\ (0 < ReadyFilter.limit f ->
      Z.of_nat (length (SQLiteStorage.get_ready_work s now (Some f))) <= ReadyFilter.limit f).
Proof.
  split; [|split].
  - unfold SQLiteStorage.get_ready_work. intros x Hx.
    apply list_elem_of_fmap in Hx as (r & -> & Hr).
    apply elem_of_ready_rows in Hr as [Hr _].
    apply list_elem_of_fmap. eauto.
  - intros r Hr. apply elem_of_ready_rows in Hr as [_ Hf].
    unfold SQLiteStorage.filter_where in Hf.
    rewrite !andb_true_iff in Hf. destruct Hf as ((((Ht & Hp) & Ha) & Hu) & Hl).
    split; [|split; [|split; [|split]]].
    + intros p E. rewrite E in Hp. apply Z.eqb_eq, Hp.
    + intros a E. rewrite E in Ha. apply bool_decide_eq_true in Ha. exact Ha.
    + intros t E Hne. rewrite E in Ht. destruct t as [|c t]; [congruence|].
      cbn [Str.nonempty] in Ht. apply String.eqb_eq, Ht.
    + intros E. rewrite E in Hu. apply bool_decide_eq_true in Hu. exact Hu.
    + intros l Hin. apply elem_of_get_labels.
      rewrite forallb_forall in Hl. apply list_elem_of_In in Hin.
      apply Hl in Hin. apply bool_decide_eq_true in Hin. exact Hin.
  - intros Hpos. unfold SQLiteStorage.get_ready_work, SQLiteStorage.ready_rows.
    rewrite length_map.
    destruct (ReadyFilter.limit f =? 0) eqn:E0; [apply Z.eqb_eq in E0; lia|].
    unfold SQLiteStorage.sql_limit.
    destruct (ReadyFilter.limit f <? 0) eqn:En; [apply Z.ltb_lt in En; lia|].
    pose proof (firstn_le_length (Z.to_nat (ReadyFilter.limit f))
      (OrderBy.sort SQLiteStorage.ready_order
         (List.filter (fun i => SQLiteStorage.ready_where s (format_datetime now) i
                                && SQLiteStorage.filter_where s (Some f) i)
            (Store.issues s)))) as Hle.
    lia.
Qed.




Lemma split_nocomma c x : Str.count_char c x = 0 -> Str.split c x = [x].
Proof.
  induction x as [|a x IH]; intros H; [reflexivity|].
  cbn [Str.count_char] in H. pose proof (count_char_nonneg c x).
  destruct (Ascii.eqb a c) eqn:E; [lia|].
  cbn [Str.split]. rewrite E, IH by lia. reflexivity.
Qed.





(* ------------------------------------------------------------------ *)
(** ** Child numbers and child ids *)
(* ------------------------------------------------------------------ *)






Lemma of_Z_inj n m : Str.of_Z n = Str.of_Z m -> n = m.
Proof.
  unfold Str.of_Z. intros H.
  assert (Hi : forall z, NilZero.int_of_string (NilZero.string_of_int (Z.to_int z))
                         = Some (Z.to_int z)).
  { intros z. apply NilZero.isi; destruct z; cbn; try discriminate;
      intros E; inversion E as [E']; exact (DecimalPos.Unsigned.to_uint_nonnil _ E'). }
  pose proof (Hi n) as Hn. rewrite H, Hi in Hn. inversion Hn as [E].
  rewrite <- (DecimalZ.of_to n), <- (DecimalZ.of_to m), E. reflexivity.
Qed.

Lemma split_nonempty c s : Str.split c s <> [].
Proof.
  destruct s as [|a s]; [discriminate|]. cbn [Str.split].
  destruct (Ascii.eqb a c); [discriminate|]. destruct (Str.split c s); discriminate.
Qed.

Lemma split_app c p x :
  Str.split c (p +:+ String c x) = (Str.split c p ++ Str.split c x)%list.
Proof.
  induction p as [|a p IH].
  - change (EmptyString +:+ String c x) with (String c x).
    cbn [Str.split]. rewrite Ascii.eqb_refl. reflexivity.
  - change (String a p +:+ String c x) with (String a (p +:+ String c x)).
    cbn [Str.split]. rewrite IH. destruct (Ascii.eqb a c); [reflexivity|].
    pose proof (split_nonempty c p) as Hne.
    destruct (Str.split c p) as [|q qs]; [congruence | reflexivity].
Qed.

Lemma count_char_app c p x :
  Str.count_char c (p +:+ x) = Str.count_char c p + Str.count_char c x.
Proof.
  induction p as [|a p IH]; [reflexivity|].
  change (String a p +:+ x) with (String a (p +:+ x)).
  cbn [Str.count_char]. rewrite IH. lia.
Qed.

Lemma before_last_app c p x :
  Str.count_char c x = 0 -> id_gen.before_last c (p +:+ String c x) = p.
Proof.
  intros Hx. induction p as [|a p IH].
  - change (EmptyString +:+ String c x) with (String c x).
    cbn [id_gen.before_last]. rewrite Hx. reflexivity.
  - change (String a p +:+ String c x) with (String a (p +:+ String c x)).
    cbn [id_gen.before_last]. rewrite count_char_app. cbn [Str.count_char].
    rewrite Ascii.eqb_refl, Hx. pose proof (count_char_nonneg c p).
    destruct (0 <? Str.count_char c p + (1 + 0)) eqn:E; [|apply Z.ltb_ge in E; lia].
    rewrite IH. reflexivity.
Qed.




Lemma bump_counter_spec p rows :
  let '(n, rows') := SQLiteStorage.bump_counter p rows in
  n = default 0 (snd <$> find (fun kv => String.eqb kv.1 p) rows) + 1
  /\ (snd <$> find (fun kv => String.eqb kv.1 p) rows') = Some n
  /\ forall q, q <> p ->
       find (fun kv => String.eqb kv.1 q) rows' = find (fun kv => String.eqb kv.1 q) rows.
Proof.
  induction rows as [|[k m] rows IH]; cbn [SQLiteStorage.bump_counter find fst snd].
  - rewrite String.eqb_refl. split; [reflexivity|]. split; [reflexivity|].
    intros q Hq. cbn. destruct (String.eqb_spec p q); [congruence|reflexivity].
  - destruct (String.eqb_spec k p) as [->|Hk].
    + cbn [find fst snd]. rewrite String.eqb_refl. cbn.
      split; [reflexivity|]. split; [reflexivity|].
      intros q Hq. destruct (String.eqb_spec p q); [congruence|reflexivity].
    + destruct (SQLiteStorage.bump_counter p rows) as [n rows'].
      destruct IH as (H1 & H2 & H3). cbn [find fst snd].
      destruct (String.eqb_spec k p) as [|_]; [congruence|].
      split; [exact H1|]. split; [exact H2|].
      intros q Hq. destruct (String.eqb k q); [reflexivity | apply H3, Hq].
Qed.

Lemma append_cancel_l p a b : p +:+ a = p +:+ b -> a = b.
Proof.
  induction p as [|c p IH]; [auto|].
  change (String c (p +:+ a) = String c (p +:+ b) -> a = b).
  intros E. inversion E. auto.
Qed.

(** X13. [next_child_number] counts per parent: the first call for a
    parent returns 1, the next call one more than the last (below the
    largest INTEGER of SQLite), and the counters of the other parents
    stay; so two children of a parent made one after the other never
    get the same id. *)
Theorem next_child_number_counts p s n s1 :
  SQLiteStorage.next_child_number p s = (Ok n, s1) ->
  n < 9223372036854775807 ->
  (p ∉ map fst (Store.child_counters s) -> n = 1)
  /\ (exists s2, SQLiteStorage.next_child_number p s1 = (Ok (n + 1), s2))
  /\ (forall q, q <> p ->
        find (fun kv => String.eqb kv.1 q) (Store.child_counters s1)
        = find (fun kv => String.eqb kv.1 q) (Store.child_counters s))
  /\ id_gen.generate_child_id p n <> id_gen.generate_child_id p (n + 1).
Proof.
  unfold SQLiteStorage.next_child_number. db_unfold.
  pose proof (bump_counter_spec p (Store.child_counters s)) as Hb.
  pose proof (bump_counter_elem p (Store.child_counters s) p) as He.
  destruct (SQLiteStorage.bump_counter p (Store.child_counters s)) as [m rows].
  destruct Hb as (H1 & H2 & H3). cbn [snd] in He.
  destruct (Store.has_issue s p || bool_decide _) eqn:Hi; [|discriminate].
  intros H _. inversion H; subst n s1; clear H.
  split; [|split; [|split]].
  - intros Hno. rewrite H1.
    destruct (find _ (Store.child_counters s)) as [[k v]|] eqn:Hf; [|reflexivity].
    exfalso. apply Hno. apply find_some in Hf as [Hin Hk]. apply String.eqb_eq in Hk.
    cbn in Hk. subst k. apply list_elem_of_fmap. exists (p, v).
    split; [reflexivity | apply list_elem_of_In, Hin].
  - cbn [Store.child_counters Store.set_child_counters].
    pose proof (bump_counter_spec p rows) as Hb2.
    destruct (SQLiteStorage.bump_counter p rows) as [m2 rows2].
    destruct Hb2 as (H1' & _). rewrite H2 in H1'. cbn in H1'. subst m2.
    assert (Hin : bool_decide (p ∈ map fst rows) = true).
    { apply bool_decide_eq_true, He. right. reflexivity. }
    rewrite Hin, orb_true_r. eexists. reflexivity.
  - intros q Hq. cbn. apply H3, Hq.
  - unfold id_gen.generate_child_id. intros E.
    apply append_cancel_l in E.
    change ("." +:+ Str.of_Z m) with (String "." (Str.of_Z m)) in E.
    change ("." +:+ Str.of_Z (m + 1)) with (String "." (Str.of_Z (m + 1))) in E.
    inversion E as [E']. apply of_Z_inj in E'. lia.
Qed.

(** The first two child numbers of [A]. *)
Lemma next_child_number_counts_witness :
  SQLiteStorage.next_child_number "A" Scenario.one
  = (Ok 1, (SQLiteStorage.next_child_number "A" Scenario.one).2)
  /\ 1 < 9223372036854775807
  /\ exists s2,
       SQLiteStorage.next_child_number "A"
         (SQLiteStorage.next_child_number "A" Scenario.one).2 = (Ok 2, s2).
Proof.
  assert (H : SQLiteStorage.next_child_number "A" Scenario.one
              = (Ok 1, (SQLiteStorage.next_child_number "A" Scenario.one).2))
    by (vm_compute; reflexivity).
  split; [exact H|]. split; [lia|].
  exact (proj1 (proj2 (next_child_number_counts "A" Scenario.one 1 _ H ltac:(lia)))).
Defined.


(* ------------------------------------------------------------------ *)
(** ** Config and metadata *)
(* ------------------------------------------------------------------ *)

Lemma find_upsert key value rows k :
  (snd <$> find (fun kv => String.eqb kv.1 k) (SQLiteStorage.upsert key value rows))
  = if String.eqb key k then Some value
    else snd <$> find (fun kv => String.eqb kv.1 k) rows.
Proof.
  induction rows as [|[a b] rows IH]; cbn [SQLiteStorage.upsert find fst snd].
  - destruct (String.eqb key k); reflexivity.
  - destruct (String.eqb_spec a key) as [->|Ha]; cbn [find fst snd].
    + destruct (String.eqb key k); reflexivity.
    + destruct (String.eqb_spec a k) as [->|Hk].
      * destruct (String.eqb_spec key k); [congruence|reflexivity].
      * exact IH.
Qed.

Lemma upsert_keys key value rows k :
  k ∈ map fst (SQLiteStorage.upsert key value rows) <-> k ∈ map fst rows \/ k = key.
Proof.
  induction rows as [|[a b] rows IH]; cbn [SQLiteStorage.upsert map fst].
  - rewrite list_elem_of_singleton, elem_of_nil. tauto.
  - destruct (String.eqb_spec a key) as [->|Ha]; cbn [map fst].
    + rewrite !elem_of_cons. tauto.
    + rewrite !elem_of_cons, IH. tauto.
Qed.

Lemma upsert_NoDup key value rows :
  NoDup (map fst rows) -> NoDup (map fst (SQLiteStorage.upsert key value rows)).
Proof.
  induction rows as [|[a b] rows IH]; cbn [SQLiteStorage.upsert map fst]; intros H.
  - apply NoDup_singleton.
  - apply NoDup_cons in H as [Ha H].
    destruct (String.eqb_spec a key) as [->|Hk]; cbn [map fst].
    + apply NoDup_cons. auto.
    + apply NoDup_cons. split; [|auto].
      rewrite upsert_keys. intros [Hin| ->]; [auto|congruence].
Qed.

Lemma find_key_spec (l : list (string * string)) k v :
  NoDup (map fst l) ->
  (snd <$> find (fun kv => String.eqb kv.1 k) l) = Some v <-> (k, v) ∈ l.
Proof.
  induction l as [|[a b] l IH]; cbn [find map fst snd]; intros H.
  - rewrite elem_of_nil. split; [discriminate | tauto].
  - apply NoDup_cons in H as [Ha H]. rewrite elem_of_cons.
    destruct (String.eqb_spec a k) as [->|Hk]; cbn.
    + split; [intros E; inversion E; auto|].
      intros [E|Hin]; [inversion E; reflexivity|].
      exfalso. apply Ha. apply list_elem_of_fmap. exists (k, v). auto.
    + rewrite IH by exact H. split; [auto|].
      intros [E|Hin]; [inversion E; congruence | exact Hin].
Qed.

Lemma fold_insert_lookup (l : list (string * string)) : forall (m : gmap string string) k,
  NoDup (map fst l) ->
  fold_left (fun d row => <[row.1 := row.2]> d) l m !! k
  = match snd <$> find (fun kv => String.eqb kv.1 k) l with
    | Some v => Some v
    | None => m !! k
    end.
Proof.
  induction l as [|[a b] l IH]; intros m k H; [reflexivity|].
  cbn [map fst] in H. apply NoDup_cons in H as [Ha H].
  cbn [fold_left find fst snd]. rewrite IH by exact H.
  destruct (String.eqb_spec a k) as [->|Hk].
  - destruct (snd <$> find _ l) as [v|] eqn:Hf.
    + exfalso. apply Ha. apply (find_key_spec l k v H) in Hf.
      apply list_elem_of_fmap. exists (k, v). auto.
    + cbn. apply lookup_insert_eq.
  - destruct (snd <$> find _ l); [reflexivity|]. apply lookup_insert_ne, Hk.
Qed.

(** X15. [set_config] and [get_config] round-trip: after
    [set_config(key, value)], [get_config(key)] is [value] and every
    other key reads as before; the keys stay unique, and [list_config]
    then holds, for every key, what [get_config] returns. The same
    holds of [set_metadata] and [get_metadata]. *)
Theorem config_round_trip key value s :
  let s' := (SQLiteStorage.set_config key value s).2 in
  let s'' := (SQLiteStorage.set_metadata key value s).2 in
  SQLiteStorage.get_config s' key = Some value
  /\ (forall k, k <> key -> SQLiteStorage.get_config s' k = SQLiteStorage.get_config s k)
  /\ (NoDup (map fst (Store.config s)) ->
      NoDup (map fst (Store.config s'))
      /\ forall k, SQLiteStorage.list_config s' !! k = SQLiteStorage.get_config s' k)
  /\ SQLiteStorage.get_metadata s'' key = Some value
  /\ (forall k, k <> key -> SQLiteStorage.get_metadata s'' k = SQLiteStorage.get_metadata s k)
  /\ (forall k, SQLiteStorage.get_metadata s' k = SQLiteStorage.get_metadata s k)
  /\ (forall k, SQLiteStorage.get_config s'' k = SQLiteStorage.get_config s k).
Proof.
  cbn zeta. unfold SQLiteStorage.set_config, SQLiteStorage.set_metadata,
    SQLiteStorage.get_config, SQLiteStorage.get_metadata, db_modify.
  cbn [snd Store.config Store.metadata].
  split; [rewrite find_upsert, String.eqb_refl; reflexivity|].
  split.
  { intros k Hk. rewrite find_upsert.
    destruct (String.eqb_spec key k); [congruence|reflexivity]. }
  split.
  { intros Hu. pose proof (upsert_NoDup key value _ Hu) as Hu'.
    split; [exact Hu'|]. intros k. unfold SQLiteStorage.list_config.
    cbn [Store.config].
    set (rows := SQLiteStorage.upsert key value (Store.config s)) in *.
    set (sorted := OrderBy.sort _ rows).
    assert (Hs : NoDup (map fst sorted)) by (apply NoDup_map_sort, Hu').
    rewrite fold_insert_lookup by exact Hs. rewrite lookup_empty.
    destruct (snd <$> find _ sorted) as [v|] eqn:Hf.
    - apply (find_key_spec sorted k v Hs) in Hf. apply elem_of_sort in Hf.
      symmetry. apply (find_key_spec rows k v Hu'), Hf.
    - destruct (snd <$> find _ rows) as [v|] eqn:Hf'; [|reflexivity].
      apply (find_key_spec rows k v Hu') in Hf'.
      assert (Hin : (k, v) ∈ sorted) by (apply elem_of_sort, Hf').
      apply (find_key_spec sorted k v Hs) in Hin. congruence. }
  split; [rewrite find_upsert, String.eqb_refl; reflexivity|].
  split.
  { intros k Hk. rewrite find_upsert.
    destruct (String.eqb_spec key k); [congruence|reflexivity]. }
  split; reflexivity.
Qed.


(* ------------------------------------------------------------------ *)
(** ** The hash id of a new issue *)
(* ------------------------------------------------------------------ *)

Lemma lower_hex_not_continuation a :
  SHA256.is_lower_hex a = true -> Str.is_continuation a = false.
Proof.
  destruct a as [[] [] [] [] [] [] [] []]; vm_compute; congruence.
Qed.

Lemma take_points_hex n h :
  Str.all_chars SHA256.is_lower_hex h = true ->
  String.length (PyStr.take_points n h) = Nat.min n (String.length h).
Proof.
  revert n. induction h as [|a h IH]; intros n H; [destruct n; reflexivity|].
  cbn [Str.all_chars] in H. apply andb_true_iff in H as [Ha Hh].
  cbn [PyStr.take_points]. rewrite (lower_hex_not_continuation a Ha).
  destruct n as [|n]; [reflexivity|]. cbn [String.length]. rewrite IH by exact Hh.
  reflexivity.
Qed.

Lemma pick_id_upto s prefix h k : forall a,
  exists n,
    a <= n <= a + Z.of_nat k
    /\ create_cmd.pick_id s prefix h (range_from a k) (id_gen.make_issue_id prefix h a)
       = id_gen.make_issue_id prefix h n
    /\ (forall m, a <= m < n -> id_gen.make_issue_id prefix h m ∈ Store.issue_ids s)
    /\ (n < a + Z.of_nat k -> id_gen.make_issue_id prefix h n ∉ Store.issue_ids s).
Proof.
  induction k as [|k IH]; intros a.
  - exists a. split; [lia|]. split; [reflexivity|]. split; intros; lia.
  - cbn [range_from create_cmd.pick_id].
    destruct (SQLiteStorage.get_issue s (id_gen.make_issue_id prefix h a)) as [i|] eqn:Hg.
    + destruct (IH (a + 1)) as (n & Hn & Hp & Hm & Hf).
      exists n. split; [lia|]. split; [exact Hp|]. split.
      * intros m Hm'. destruct (decide (m = a)) as [->|Hne]; [|apply Hm; lia].
        destruct (decide (id_gen.make_issue_id prefix h a ∈ Store.issue_ids s))
          as [Hin|Hout]; [exact Hin|].
        apply get_issue_None in Hout. congruence.
      * intros Hlt. apply Hf. lia.
    + exists a. split; [lia|]. split; [reflexivity|]. split; [intros; lia|].
      intros _. apply get_issue_None, Hg.
Qed.

(** X16. The id [create] gives an issue with no custom id and no parent
    is the prefix, a hyphen and the first [n] characters of the SHA-256
    of title, description, time and prefix, for the least [n] from 6 on
    whose id is free: every shorter candidate is the id of an issue.
    The search stops at 13 characters, and that last candidate is
    taken without a look at the database. *)
Theorem hash_id_spec s prefix title description now :
  let full_hash := id_gen.generate_hash_id prefix title description now prefix in
  exists n,
    6 <= n <= 13
    /\ create_cmd.hash_id s prefix title description now
       = id_gen.make_issue_id prefix full_hash n
    /\ (forall m, 6 <= m < n ->
          id_gen.make_issue_id prefix full_hash m ∈ Store.issue_ids s)
    /\ (n < 13 ->
        create_cmd.hash_id s prefix title description now ∉ Store.issue_ids s)
    /\ String.length (create_cmd.hash_id s prefix title description now)
       = (String.length prefix + 1 + Z.to_nat n)%nat.
Proof.
  cbn zeta. unfold create_cmd.hash_id.
  set (h := id_gen.generate_hash_id prefix title description now prefix).
  destruct (pick_id_upto s prefix h 7 6) as (n & Hn & Hp & Hm & Hf).
  change (range_from 6 7) with (py_range 6 13) in Hp.
  exists n. split; [lia|]. split; [exact Hp|]. split; [exact Hm|].
  split; [rewrite Hp; intros; apply Hf; lia|].
  rewrite Hp. unfold id_gen.make_issue_id, PyStr.slice_to.
  destruct (n <? 0) eqn:E; [apply Z.ltb_lt in E; lia|].
  rewrite !append_length.
  destruct (hexdigest_is_hex64
              (title +:+ description
               +:+ (if Str2.endswith (Datetime.isoformat now) "+00:00"
                    then Str2.drop_last 6 (Datetime.isoformat now) +:+ "Z"
                    else Datetime.isoformat now) +:+ prefix)) as [Hl Hx].
  change (SHA256.hexdigest _) with h in Hl, Hx.
  rewrite take_points_hex by exact Hx. rewrite Hl. cbn [String.length]. lia.
Qed.


(* ------------------------------------------------------------------ *)
(** ** Base 36 *)
(* ------------------------------------------------------------------ *)

Lemma fold_value l : forall acc,
  fold_left (fun n a => n * 36 + Base36.digit_value a) l acc
  = acc * 36 ^ Z.of_nat (length l) + valueL l.
Proof.
  unfold valueL. induction l as [|a l IH]; intros acc.
  - cbn. lia.
  - cbn [fold_left length]. rewrite IH, (IH (0 * 36 + Base36.digit_value a)).
    rewrite Nat2Z.inj_succ, Z.pow_succ_r by lia. lia.
Qed.

Lemma valueL_app a b :
  valueL (a ++ b) = valueL a * 36 ^ Z.of_nat (length b) + valueL b.
Proof. unfold valueL at 1. rewrite fold_left_app. apply fold_value. Qed.

Lemma valueL_cons c l :
  valueL (c :: l) = Base36.digit_value c * 36 ^ Z.of_nat (length l) + valueL l.
Proof. change (c :: l) with ([c] ++ l)%list. rewrite valueL_app. cbn. lia. Qed.

Lemma digit_value_bounds a :
  Base36.is_digit a = true -> 0 <= Base36.digit_value a < 36.
Proof.
  unfold Base36.is_digit, Base36.digit_value.
  destruct (Str.byte_of a <=? 57) eqn:E; lia.
Qed.

Lemma valueL_bounds l : all_base36 l -> 0 <= valueL l < 36 ^ Z.of_nat (length l).
Proof.
  induction 1 as [|a l Ha Hl IH].
  - cbn. lia.
  - rewrite valueL_cons. cbn [length]. rewrite Nat2Z.inj_succ, Z.pow_succ_r by lia.
    pose proof (digit_value_bounds a Ha). nia.
Qed.

Lemma base36_char_spec r :
  0 <= r < 36 ->
  Base36.is_digit (id_gen.base36_char r) = true
  /\ Base36.digit_value (id_gen.base36_char r) = r.
Proof.
  intros Hr.
  assert (H : forallb (fun n => Base36.is_digit (id_gen.base36_char (Z.of_nat n))
                       && (Base36.digit_value (id_gen.base36_char (Z.of_nat n))
                           =? Z.of_nat n)) (seq 0 36) = true)
    by (vm_compute; reflexivity).
  rewrite forallb_forall in H. specialize (H (Z.to_nat r)).
  rewrite Z2Nat.id in H by lia.
  assert (Hin : In (Z.to_nat r) (seq 0 36)) by (apply in_seq; lia).
  apply H in Hin. apply andb_true_iff in Hin as [H1 H2].
  apply Z.eqb_eq in H2. auto.
Qed.

(** The loop of [encode_base36]: the digits it has appended and the
    number it is left with make up the number it began with. *)
Lemma base36_loop_spec fuel : forall num chars,
  0 <= num -> all_base36 chars ->
  let r := id_gen.base36_loop fuel num chars in
  0 <= r.1
  /\ all_base36 r.2
  /\ r.1 * 36 ^ Z.of_nat (length r.2) + valueL (rev r.2)
     = num * 36 ^ Z.of_nat (length chars) + valueL (rev chars)
  /\ (num < 36 ^ Z.of_nat fuel -> r.1 = 0).
Proof.
  induction fuel as [|fuel IH]; intros num chars Hn Hc; cbn zeta.
  - cbn [id_gen.base36_loop fst snd]. split; [exact Hn|]. split; [exact Hc|].
    split; [reflexivity|]. cbn. lia.
  - cbn [id_gen.base36_loop].
    destruct (0 <? num) eqn:E.
    + apply Z.ltb_lt in E.
      assert (Hr : 0 <= num mod 36 < 36) by (apply Z.mod_pos_bound; lia).
      destruct (base36_char_spec _ Hr) as [Hd Hv].
      assert (Hc' : all_base36 (chars ++ [id_gen.base36_char (num mod 36)])).
      { apply Forall_app. split; [exact Hc|]. constructor; [exact Hd|constructor]. }
      destruct (IH (num / 36) _ ltac:(apply Z.div_pos; lia) Hc') as (H1 & H2 & H3 & H4).
      split; [exact H1|]. split; [exact H2|]. split.
      * rewrite H3. rewrite length_app, rev_app_distr. cbn [length rev app].
        rewrite valueL_cons, Hv, length_rev.
        replace (Z.of_nat (length chars + 1)) with (Z.succ (Z.of_nat (length chars))) by lia.
        rewrite Z.pow_succ_r by lia.
        pose proof (Z.div_mod num 36 ltac:(lia)). nia.
      * intros Hlt. apply H4.
        rewrite Nat2Z.inj_succ, Z.pow_succ_r in Hlt by lia.
        apply Z.div_lt_upper_bound; lia.
    + apply Z.ltb_ge in E. cbn [fst snd].
      split; [exact Hn|]. split; [exact Hc|]. split; [reflexivity|]. intros _. lia.
Qed.

Lemma from_bytes_bounds data :
  Forall (fun b => 0 <= b < 256) data ->
  0 <= id_gen.from_bytes data < 256 ^ Z.of_nat (length data).
Proof.
  unfold id_gen.from_bytes. intros H.
  assert (G : forall acc k, 0 <= acc < 256 ^ k -> 0 <= k ->
            0 <= fold_left (fun n b => n * 256 + b) data acc
            < 256 ^ (k + Z.of_nat (length data))).
  { induction H as [|b data Hb Hd IH]; intros acc k Ha Hk.
    - cbn. rewrite Z.add_0_r. exact Ha.
    - cbn [fold_left length].
      replace (k + Z.of_nat (S (length data))) with ((k + 1) + Z.of_nat (length data)) by lia.
      apply IH; [|lia]. rewrite Z.pow_add_r by lia. change (256 ^ 1) with 256. nia. }
  specialize (G 0 0 ltac:(cbn; lia) ltac:(lia)). exact G.
Qed.

Lemma length_string_of_list l : String.length (string_of_list_ascii l) = length l.
Proof. induction l as [|a l IH]; [reflexivity|]. cbn. rewrite IH. reflexivity. Qed.

Lemma list_of_append a b :
  list_ascii_of_string (a +:+ b) = (list_ascii_of_string a ++ list_ascii_of_string b)%list.
Proof.
  induction a as [|c a IH]; [reflexivity|].
  change (String c a +:+ b) with (String c (a +:+ b)). cbn. rewrite IH. reflexivity.
Qed.

Lemma all_chars_Forall p s :
  Str.all_chars p s = true <-> Forall (fun a => p a = true) (list_ascii_of_string s).
Proof.
  induction s as [|a s IH]; cbn [Str.all_chars list_ascii_of_string].
  - split; [constructor | reflexivity].
  - rewrite andb_true_iff, IH. split.
    + intros [H1 H2]. constructor; assumption.
    + intros H. inversion H. auto.
Qed.

Lemma valueL_zeros k l : valueL (repeat "0"%char k ++ l) = valueL l.
Proof.
  induction k as [|k IH]; [reflexivity|].
  cbn [repeat app]. rewrite valueL_cons, IH.
  replace (Base36.digit_value "0"%char) with 0 by reflexivity. lia.
Qed.

(** X17. [encode_base36] always returns a text of exactly [length]
    characters of the alphabet [0-9a-z] (the empty text for a [length]
    below 1): the number the bytes denote, big end first, written in
    base 36, padded with zeros on the left or cut down to its [length]
    least significant digits. The loop that produces the digits ends
    within twice as many turns as there are bytes. *)
Theorem encode_base36_spec data width :
  Forall (fun b => 0 <= b < 256) data ->
  (id_gen.base36_loop (2 * List.length data) (id_gen.from_bytes data) []).1 = 0
  /\ String.length (id_gen.encode_base36 data width) = Z.to_nat width
  /\ Str.all_chars Base36.is_digit (id_gen.encode_base36 data width) = true
  /\ (0 <= width ->
      Base36.value (id_gen.encode_base36 data width)
      = id_gen.from_bytes data mod 36 ^ width).
Proof.
  intros Hdata. pose proof (from_bytes_bounds data Hdata) as Hb.
  set (num := id_gen.from_bytes data) in *.
  destruct (base36_loop_spec (2 * List.length data) num [] ltac:(lia) ltac:(constructor))
    as (H1 & H2 & H3 & H4).
  assert (Hend : (id_gen.base36_loop (2 * List.length data) num []).1 = 0).
  { apply H4. eapply Z.lt_le_trans; [apply Hb|].
    replace (Z.of_nat (2 * List.length data)) with (2 * Z.of_nat (List.length data)) by lia.
    rewrite Z.pow_mul_r by lia. apply Z.pow_le_mono_l. cbn. lia. }
  split; [exact Hend|].
  unfold id_gen.encode_base36. fold num.
  destruct (num =? 0) eqn:E0.
  { apply Z.eqb_eq in E0. unfold PyStr.times.
    split; [rewrite length_string_of_list, repeat_length; reflexivity|].
    split.
    - apply all_chars_Forall. rewrite list_ascii_of_string_of_list_ascii.
      apply Forall_forall. intros a Ha. apply list_elem_of_In, repeat_spec in Ha.
      subst. reflexivity.
    - intros Hl. unfold Base36.value. rewrite list_ascii_of_string_of_list_ascii.
      fold (valueL (repeat "0"%char (Z.to_nat width))).
      rewrite <- (app_nil_r (repeat _ _)), valueL_zeros, E0. cbn.
      rewrite Z.mod_0_l; [reflexivity|]. apply Z.pow_nonzero; lia. }
  cbn zeta.
  set (chars := (id_gen.base36_loop (2 * List.length data) num []).2) in *.
  assert (Hval : valueL (rev chars) = num).
  { rewrite Hend in H3. cbn in H3. lia. }
  assert (Hrev : all_base36 (rev chars)).
  { apply Forall_forall. intros a Ha. apply list_elem_of_In, in_rev, list_elem_of_In in Ha.
    unfold all_base36 in H2. rewrite Forall_forall in H2. apply H2, Ha. }
  set (padded := if Z.of_nat (String.length (string_of_list_ascii (rev chars))) <? width
                 then PyStr.times "0" (width - Z.of_nat (String.length
                        (string_of_list_ascii (rev chars)))) +:+ string_of_list_ascii (rev chars)
                 else string_of_list_ascii (rev chars)).
  assert (Hp : exists k, list_ascii_of_string padded = (repeat "0"%char k ++ rev chars)%list
            /\ (Z.of_nat (List.length (rev chars)) < width ->
                Z.of_nat (k + List.length (rev chars)) = width)
            /\ (width <= Z.of_nat (List.length (rev chars)) -> k = O)).
  { subst padded. rewrite length_string_of_list.
    destruct (Z.of_nat (List.length (rev chars)) <? width) eqn:E.
    - apply Z.ltb_lt in E. exists (Z.to_nat (width - Z.of_nat (List.length (rev chars)))).
      rewrite list_of_append. unfold PyStr.times.
      rewrite !list_ascii_of_string_of_list_ascii.
      split; [reflexivity|]. split; intros; lia.
    - apply Z.ltb_ge in E. exists O. rewrite list_ascii_of_string_of_list_ascii.
      split; [reflexivity|]. split; intros; lia. }
  destruct Hp as (k & Hpad & Hk1 & Hk2).
  assert (Hplen : String.length padded = (k + List.length (rev chars))%nat).
  { rewrite <- (string_of_list_ascii_of_string padded), Hpad, length_string_of_list,
      length_app, repeat_length. reflexivity. }
  assert (Hpall : all_base36 (repeat "0"%char k ++ rev chars)).
  { apply Forall_app. split; [|exact Hrev].
    apply Forall_forall. intros a Ha. apply list_elem_of_In, repeat_spec in Ha.
    subst. reflexivity. }
  assert (Hpval : valueL (repeat "0"%char k ++ rev chars) = num)
    by (rewrite valueL_zeros; exact Hval).
  rewrite Hplen.
  destruct (width <? Z.of_nat (k + List.length (rev chars))) eqn:E.
  - apply Z.ltb_lt in E. rewrite Hpad.
    set (l := (repeat "0"%char k ++ rev chars)%list) in *.
    set (d := Z.to_nat (Z.of_nat (k + List.length (rev chars)) - width)).
    assert (Hll : List.length l = (k + List.length (rev chars))%nat)
      by (subst l; rewrite length_app, repeat_length; reflexivity).
    split; [rewrite length_string_of_list, length_skipn; lia|].
    split.
    + apply all_chars_Forall. rewrite list_ascii_of_string_of_list_ascii.
      apply Forall_forall. intros a Ha. unfold all_base36 in Hpall.
      rewrite Forall_forall in Hpall. apply Hpall.
      rewrite <- (firstn_skipn d l). apply elem_of_app. right. exact Ha.
    + intros Hl. unfold Base36.value. rewrite list_ascii_of_string_of_list_ascii.
      fold (valueL (skipn d l)).
      assert (Hs : all_base36 (skipn d l)).
      { apply Forall_forall. intros a Ha. unfold all_base36 in Hpall.
        rewrite Forall_forall in Hpall. apply Hpall.
        rewrite <- (firstn_skipn d l). apply elem_of_app. right. exact Ha. }
      pose proof (valueL_bounds _ Hs) as Hbs.
      assert (Hsl : Z.of_nat (List.length (skipn d l)) = width)
        by (rewrite length_skipn; lia).
      rewrite Hsl in Hbs.
      rewrite <- Hpval, <- (firstn_skipn d l), valueL_app, Hsl.
      rewrite firstn_skipn.
      rewrite Z.add_comm, Z.mod_add by (apply Z.pow_nonzero; lia).
      symmetry. apply Z.mod_small. exact Hbs.
  - apply Z.ltb_ge in E.
    assert (Hlen : Z.of_nat (k + List.length (rev chars)) = width).
    { destruct (Z.lt_ge_cases (Z.of_nat (List.length (rev chars))) width) as [Hlt|Hge];
        [apply Hk1, Hlt|]. specialize (Hk2 Hge). subst k. lia. }
    split; [lia|]. split.
    + apply all_chars_Forall. rewrite Hpad. exact Hpall.
    + intros Hl. unfold Base36.value. rewrite Hpad.
      fold (valueL (repeat "0"%char k ++ rev chars)). rewrite Hpval.
      symmetry. apply Z.mod_small.
      pose proof (valueL_bounds _ Hpall) as Hbv. rewrite Hpval in Hbv.
      rewrite length_app, repeat_length in Hbv. rewrite <- Hlen. exact Hbv.
Qed.

(** Four bytes written on six digits. *)
Lemma encode_base36_spec_witness :
  Forall (fun b => 0 <= b < 256) [222; 173; 190; 239]
  /\ id_gen.encode_base36 [222; 173; 190; 239] 6 = "ps9wxb"
  /\ String.length (id_gen.encode_base36 [222; 173; 190; 239] 6) = 6%nat.
Proof.
  assert (H : Forall (fun b => 0 <= b < 256) [222; 173; 190; 239])
    by (repeat constructor; lia).
  split; [exact H|]. split; [vm_compute; reflexivity|].
  exact (proj1 (proj2 (encode_base36_spec [222; 173; 190; 239] 6 H))).
Defined.


(* ------------------------------------------------------------------ *)
(** ** utils.py *)
(* ------------------------------------------------------------------ *)

Lemma all_chars_count (p : ascii -> bool) c s :
  p c = false -> Str.all_chars p s = true -> Str.count_char c s = 0.
Proof.
  intros Hc. induction s as [|a s IH]; [reflexivity|].
  cbn [Str.all_chars Str.count_char]. intros H. apply andb_true_iff in H as [Ha Hs].
  destruct (Ascii.eqb_spec a c) as [->|_]; [congruence|]. rewrite IH by exact Hs. reflexivity.
Qed.

Lemma all_chars_take_points p n s :
  Str.all_chars p s = true -> Str.all_chars p (PyStr.take_points n s) = true.
Proof.
  revert n. induction s as [|a s IH]; intros n H; [reflexivity|].
  cbn [Str.all_chars] in H. apply andb_true_iff in H as [Ha Hs].
  cbn [PyStr.take_points]. destruct (Str.is_continuation a).
  - cbn [Str.all_chars]. rewrite Ha, IH by exact Hs. reflexivity.
  - destruct n as [|n]; [reflexivity|].
    cbn [Str.all_chars]. rewrite Ha, IH by exact Hs. reflexivity.
Qed.

(** X18. [extract_issue_prefix] gives back the prefix an id was made
    with: for a prefix without a dot (it may hold hyphens) and a hex
    hash, the prefix of [make_issue_id(prefix, hash, n)] is [prefix];
    and a child id has the prefix of its parent. *)
Theorem extract_issue_prefix_spec prefix full_hash n parent_id child_number :
  (Str.count_char "." prefix = 0 ->
   Str.all_chars SHA256.is_lower_hex full_hash = true ->
   utils.extract_issue_prefix (id_gen.make_issue_id prefix full_hash n) = prefix)
  /\ utils.extract_issue_prefix (id_gen.generate_child_id parent_id child_number)
     = utils.extract_issue_prefix parent_id.
Proof.
  split.
  - intros Hp Hh. unfold id_gen.make_issue_id, utils.extract_issue_prefix.
    set (hx := PyStr.slice_to n full_hash).
    assert (Hx : Str.all_chars SHA256.is_lower_hex hx = true).
    { subst hx. unfold PyStr.slice_to. destruct (n <? 0); apply all_chars_take_points, Hh. }
    pose proof (all_chars_count SHA256.is_lower_hex "." hx eq_refl Hx) as Hdot.
    pose proof (all_chars_count SHA256.is_lower_hex "-" hx eq_refl Hx) as Hhyp.
    change (prefix +:+ "-" +:+ hx) with (prefix +:+ String "-" hx).
    rewrite split_nocomma
      by (rewrite count_char_app; cbn [Str.count_char]; rewrite Hp, Hdot; reflexivity).
    cbn [hd]. rewrite count_char_app. cbn [Str.count_char]. rewrite Ascii.eqb_refl, Hhyp.
    pose proof (count_char_nonneg "-" prefix).
    destruct (Str.count_char "-" prefix + (1 + 0) =? 0) eqn:E; [apply Z.eqb_eq in E; lia|].
    apply before_last_app, Hhyp.
  - unfold id_gen.generate_child_id, utils.extract_issue_prefix.
    change (parent_id +:+ "." +:+ Str.of_Z child_number)
      with (parent_id +:+ String "." (Str.of_Z child_number)).
    rewrite split_app. pose proof (split_nonempty "." parent_id) as Hne.
    destruct (Str.split "." parent_id) as [|q qs]; [congruence|]. reflexivity.
Qed.

(** The prefix of an id made for the prefix ["my-proj"]. *)
Lemma extract_issue_prefix_spec_witness :
  Str.count_char "." "my-proj" = 0
  /\ Str.all_chars SHA256.is_lower_hex "a3f2dd0c" = true
  /\ utils.extract_issue_prefix (id_gen.make_issue_id "my-proj" "a3f2dd0c" 6) = "my-proj".
Proof.
  split; [reflexivity|]. split; [reflexivity|].
  exact (proj1 (extract_issue_prefix_spec "my-proj" "a3f2dd0c" 6 "" 0) eq_refl eq_refl).
Defined.

Lemma prefix_refl s : String.prefix s s = true.
Proof. induction s as [|a s IH]; [reflexivity|]. cbn. rewrite IH. destruct (ascii_dec a a); congruence. Qed.

(** X19. [resolve_partial_id] returns an id of the list that starts
    with the partial id, or nothing. An id of the list always resolves
    to itself, also when other ids start with it; a partial id that is
    no id of the list resolves when exactly one id starts with it, and
    to nothing when none or several do. *)
Theorem resolve_partial_id_spec partial all_ids :
  (forall x, utils.resolve_partial_id partial all_ids = Some x ->
     x ∈ all_ids /\ String.prefix partial x = true)
  /\ (partial ∈ all_ids -> utils.resolve_partial_id partial all_ids = Some partial)
  /\ ((partial ∉ all_ids) ->
      forall x, utils.resolve_partial_id partial all_ids = Some x <->
                List.filter (fun id => String.prefix partial id) all_ids = [x]).
Proof.
  unfold utils.resolve_partial_id.
  set (matches := List.filter (fun id => String.prefix partial id) all_ids).
  assert (Hm : forall x, x ∈ matches <-> x ∈ all_ids /\ String.prefix partial x = true).
  { intros x. subst matches. rewrite !list_elem_of_In, filter_In. reflexivity. }
  split; [|split].
  - intros x. destruct matches as [|m [|m' ms]] eqn:E.
    + destruct (bool_decide _) eqn:Hd; [|discriminate].
      intros H. inversion H; subst. apply bool_decide_eq_true in Hd.
      split; [exact Hd | apply prefix_refl].
    + intros H. inversion H; subst. apply Hm. left.
    + destruct (bool_decide _) eqn:Hd; [|discriminate].
      intros H. inversion H; subst. apply bool_decide_eq_true in Hd.
      split; [exact Hd | apply prefix_refl].
  - intros Hin.
    assert (Hp : partial ∈ matches) by (apply Hm; split; [exact Hin | apply prefix_refl]).
    rewrite (bool_decide_eq_true_2 _ Hin).
    destruct matches as [|m [|m' ms]]; [reflexivity| |reflexivity].
    apply list_elem_of_singleton in Hp. subst. reflexivity.
  - intros Hout x. rewrite (bool_decide_eq_false_2 _ Hout).
    destruct matches as [|m [|m' ms]]; split; intros H; inversion H; reflexivity.
Qed.

(** A partial id that one id of the list starts with. *)
Lemma resolve_partial_id_spec_witness :
  "bd-a3" ∈ ["bd-a3"; "bd-a3f2"; "bd-b7"]
  /\ utils.resolve_partial_id "bd-a3" ["bd-a3"; "bd-a3f2"; "bd-b7"] = Some "bd-a3".
Proof.
  assert (H : "bd-a3" ∈ ["bd-a3"; "bd-a3f2"; "bd-b7"]).
  { apply (bool_decide_unpack _). vm_compute. exact I. }
  split; [exact H|].
  exact (proj1 (proj2 (resolve_partial_id_spec "bd-a3" ["bd-a3"; "bd-a3f2"; "bd-b7"])) H).
Defined.

Lemma py_len_nonneg s : 0 <= Str.py_len s.
Proof. induction s as [|a s IH]; cbn [Str.py_len]; [lia|]. destruct (Str.is_continuation a); lia. Qed.

Lemma py_len_app a b : Str.py_len (a +:+ b) = Str.py_len a + Str.py_len b.
Proof.
  induction a as [|c a IH]; [reflexivity|].
  change (String c a +:+ b) with (String c (a +:+ b)). cbn [Str.py_len]. rewrite IH. lia.
Qed.

Lemma py_len_take_points n s :
  Str.py_len (PyStr.take_points n s) = Z.min (Z.of_nat n) (Str.py_len s).
Proof.
  revert n. induction s as [|a s IH]; intros n; [cbn; lia|].
  pose proof (py_len_nonneg s).
  cbn [PyStr.take_points]. destruct (Str.is_continuation a) eqn:E.
  - cbn [Str.py_len]. rewrite E, IH. lia.
  - destruct n as [|n]; cbn [Str.py_len]; rewrite ?E, ?IH; lia.
Qed.

Lemma prefix_take_points n s : String.prefix (PyStr.take_points n s) s = true.
Proof.
  revert n. induction s as [|a s IH]; intros n; [reflexivity|].
  cbn [PyStr.take_points]. destruct (Str.is_continuation a).
  - cbn [String.prefix]. destruct (ascii_dec a a); [apply IH | congruence].
  - destruct n as [|n]; [reflexivity|].
    cbn [String.prefix]. destruct (ascii_dec a a); [apply IH | congruence].
Qed.

(** X20. [truncate] keeps a text within [max_len] characters, for a
    [max_len] of 3 or more: a text that fits comes back as it is, and a
    longer one becomes its first [max_len - 3] characters and three
    dots, which is [max_len] characters. *)
Theorem truncate_spec s max_len :
  3 <= max_len ->
  Str.py_len (utils.truncate s max_len) <= max_len
  /\ (Str.py_len s <= max_len -> utils.truncate s max_len = s)
  /\ (max_len < Str.py_len s ->
      Str.py_len (utils.truncate s max_len) = max_len
      /\ exists head, utils.truncate s max_len = head +:+ "..."
                      /\ String.prefix head s = true
                      /\ Str.py_len head = max_len - 3).
Proof.
  intros Hm. unfold utils.truncate.
  destruct (Str.py_len s <=? max_len) eqn:E.
  - apply Z.leb_le in E. split; [exact E|]. split; [reflexivity|]. lia.
  - apply Z.leb_gt in E.
    assert (Hl : Str.py_len (PyStr.slice_to (max_len - 3) s) = max_len - 3).
    { unfold PyStr.slice_to. destruct (max_len - 3 <? 0) eqn:En; [apply Z.ltb_lt in En; lia|].
      rewrite py_len_take_points. lia. }
    rewrite py_len_app, Hl. change (Str.py_len "...") with 3.
    split; [lia|]. split; [lia|]. intros _. split; [lia|].
    eexists. split; [reflexivity|]. split; [|exact Hl].
    unfold PyStr.slice_to. destruct (max_len - 3 <? 0); apply prefix_take_points.
Qed.

(** A title cut to ten characters. *)
Lemma truncate_spec_witness :
  3 <= 10
  /\ utils.truncate "formal verification" 10 = "formal ..."
  /\ Str.py_len (utils.truncate "formal verification" 10) <= 10.
Proof.
  split; [lia|]. split; [vm_compute; reflexivity|].
  exact (proj1 (truncate_spec "formal verification" 10 ltac:(lia))).
Defined.


(* ------------------------------------------------------------------ *)
(** ** Statistics *)
(* ------------------------------------------------------------------ *)

Section GroupCount.

Context {K : Type} `{EqDecision K}.

Lemma occurrences_nonneg (k : K) keys : 0 <= occurrences k keys.
Proof. unfold occurrences. lia. Qed.

Lemma occurrences_cons (k : K) x keys :
  occurrences k (x :: keys) = (if decide (x = k) then 1 else 0) + occurrences k keys.
Proof.
  unfold occurrences. rewrite filter_cons.
  destruct (decide (x = k)); cbn [length]; lia.
Qed.

Lemma count_in_keys k (groups : list (K * Z)) q :
  q ∈ map fst (SQLiteStorage.count_in k groups) <-> q ∈ map fst groups \/ q = k.
Proof.
  induction groups as [|[a n] groups IH]; cbn [SQLiteStorage.count_in map fst].
  - rewrite list_elem_of_singleton, elem_of_nil. tauto.
  - destruct (decide (a = k)) as [->|Ha]; cbn [map fst].
    + rewrite !elem_of_cons. tauto.
    + rewrite !elem_of_cons, IH. tauto.
Qed.

Lemma count_in_NoDup k (groups : list (K * Z)) :
  NoDup (map fst groups) -> NoDup (map fst (SQLiteStorage.count_in k groups)).
Proof.
  induction groups as [|[a n] groups IH]; cbn [SQLiteStorage.count_in map fst]; intros H.
  - apply NoDup_singleton.
  - apply NoDup_cons in H as [Ha H].
    destruct (decide (a = k)) as [->|Hk]; cbn [map fst].
    + apply NoDup_cons. auto.
    + apply NoDup_cons. split; [|auto].
      rewrite count_in_keys. intros [Hin| ->]; [auto|congruence].
Qed.

Lemma count_in_sum k (groups : list (K * Z)) :
  group_sum (SQLiteStorage.count_in k groups) = group_sum groups + 1.
Proof.
  unfold group_sum.
  induction groups as [|[a n] groups IH]; cbn [SQLiteStorage.count_in].
  - cbn. lia.
  - destruct (decide (a = k)); cbn [fold_right snd]; lia.
Qed.

Lemma count_in_count_of k (groups : list (K * Z)) q :
  count_of q (SQLiteStorage.count_in k groups)
  = (if decide (k = q) then 1 else 0) + count_of q groups.
Proof.
  unfold count_of.
  induction groups as [|[a n] groups IH]; cbn [SQLiteStorage.count_in find fst snd].
  - destruct (decide (k = q)) as [->|Hq].
    + rewrite bool_decide_eq_true_2 by reflexivity. reflexivity.
    + rewrite bool_decide_eq_false_2 by exact Hq. reflexivity.
  - destruct (decide (a = k)) as [->|Ha]; cbn [find fst snd].
    + destruct (decide (k = q)) as [->|Hq].
      * rewrite bool_decide_eq_true_2 by reflexivity. cbn. lia.
      * rewrite bool_decide_eq_false_2 by exact Hq. reflexivity.
    + destruct (decide (a = q)) as [->|Hq].
      * rewrite bool_decide_eq_true_2 by reflexivity.
        destruct (decide (k = q)); [congruence|]. reflexivity.
      * rewrite bool_decide_eq_false_2 by exact Hq. exact IH.
Qed.

Lemma count_in_positive k (groups : list (K * Z)) :
  Forall (fun kv => 0 < kv.2) groups ->
  Forall (fun kv => 0 < kv.2) (SQLiteStorage.count_in k groups).
Proof.
  induction 1 as [|[a n] groups Ha Hg IH]; cbn [SQLiteStorage.count_in].
  - repeat constructor.
  - destruct (decide (a = k)); constructor; cbn in *; auto; lia.
Qed.

(** GROUP BY: a row per key that occurs, with the number of its rows. *)
Lemma group_count_spec (keys : list K) :
  NoDup (map fst (SQLiteStorage.group_count keys))
  /\ Forall (fun kv => 0 < kv.2) (SQLiteStorage.group_count keys)
  /\ group_sum (SQLiteStorage.group_count keys) = Z.of_nat (length keys)
  /\ forall q, count_of q (SQLiteStorage.group_count keys) = occurrences q keys.
Proof.
  unfold SQLiteStorage.group_count.
  induction keys as [|k keys (H1 & H2 & H3 & H4)]; cbn [fold_right].
  - split; [constructor|]. split; [constructor|]. split; reflexivity.
  - split; [apply count_in_NoDup, H1|]. split; [apply count_in_positive, H2|].
    split; [rewrite count_in_sum, H3; cbn [length]; lia|].
    intros q. rewrite count_in_count_of, H4, occurrences_cons. reflexivity.
Qed.

Lemma find_positive (groups : list (K * Z)) q :
  Forall (fun kv => 0 < kv.2) groups ->
  (snd <$> find (fun kv => bool_decide (kv.1 = q)) groups)
  = if count_of q groups =? 0 then None else Some (count_of q groups).
Proof.
  unfold count_of. intros H.
  destruct (find _ groups) as [[a n]|] eqn:Hf; cbn; [|reflexivity].
  apply find_some in Hf as [Hin _]. rewrite Forall_forall in H.
  apply list_elem_of_In, H in Hin. cbn in Hin.
  destruct (n =? 0) eqn:E; [apply Z.eqb_eq in E; lia | reflexivity].
Qed.

End GroupCount.

Lemma fold_insert_groups {K} `{Countable K} (l : list (K * Z)) :
  forall (m : gmap K Z) k,
  NoDup (map fst l) ->
  fold_left (fun d row => <[row.1 := row.2]> d) l m !! k
  = match snd <$> find (fun kv => bool_decide (kv.1 = k)) l with
    | Some v => Some v
    | None => m !! k
    end.
Proof.
  induction l as [|[a b] l IH]; intros m k Hu; [reflexivity|].
  cbn [map fst] in Hu. apply NoDup_cons in Hu as [Ha Hu].
  cbn [fold_left find fst snd]. rewrite IH by exact Hu.
  destruct (decide (a = k)) as [->|Hk].
  - rewrite bool_decide_eq_true_2 by reflexivity.
    destruct (find _ l) as [[a' v]|] eqn:Hf; cbn.
    + exfalso. apply Ha. apply find_some in Hf as [Hin Hk].
      apply bool_decide_eq_true in Hk. cbn in Hk. subst a'.
      apply list_elem_of_fmap. exists (k, v). split; [reflexivity|].
      apply list_elem_of_In, Hin.
    + apply lookup_insert_eq.
  - rewrite bool_decide_eq_false_2 by exact Hk.
    destruct (snd <$> find _ l); [reflexivity|]. apply lookup_insert_ne, Hk.
Qed.

(** The loop over the groups by status: [total_issues] grows by every
    count, and a field takes the count of its status. *)
Lemma fold_count_status groups : forall st,
  NoDup (map fst groups) ->
  let st' := fold_left SQLiteStorage.count_status groups st in
  let pick q old :=
    match snd <$> find (fun kv => bool_decide (kv.1 = q)) groups with
    | Some c => c
    | None => old
    end in
  Statistics.total_issues st' = Statistics.total_issues st + group_sum groups
  /\ Statistics.open_issues st' = pick "open" (Statistics.open_issues st)
  /\ Statistics.in_progress_issues st' = pick "in_progress" (Statistics.in_progress_issues st)
  /\ Statistics.closed_issues st' = pick "closed" (Statistics.closed_issues st)
  /\ Statistics.blocked_issues st' = pick "blocked" (Statistics.blocked_issues st)
  /\ Statistics.deferred_issues st' = pick "deferred" (Statistics.deferred_issues st)
  /\ Statistics.pinned_issues st' = pick "pinned" (Statistics.pinned_issues st).
Proof.
  induction groups as [|[status cnt] groups IH]; intros st Hu; cbn zeta.
  - cbn. repeat split; lia.
  - cbn [map fst] in Hu. apply NoDup_cons in Hu as [Ha Hu].
    cbn [fold_left]. specialize (IH (SQLiteStorage.count_status st (status, cnt)) Hu).
    cbn zeta in IH. destruct IH as (H0 & H1 & H2 & H3 & H4 & H5 & H6).
    assert (Hnone : forall q, q = status ->
              (snd <$> find (fun kv : string * Z => bool_decide (kv.1 = q)) groups) = None).
    { intros q ->.
      destruct (find (fun kv : string * Z => bool_decide (kv.1 = status)) groups)
        as [[a v]|] eqn:Hf; [|reflexivity].
      exfalso. apply Ha. apply find_some in Hf as [Hin Hk].
      apply bool_decide_eq_true in Hk. cbn in Hk. subst a.
      apply list_elem_of_fmap. exists (status, v). split; [reflexivity|].
      apply list_elem_of_In, Hin. }
    rewrite H0, H1, H2, H3, H4, H5, H6. clear H0 H1 H2 H3 H4 H5 H6.
    cbn [find fst snd group_sum fold_right].
    unfold SQLiteStorage.count_status, Status.OPEN, Status.IN_PROGRESS, Status.CLOSED,
      Status.BLOCKED, Status.DEFERRED, Status.PINNED.
    repeat split;
      repeat match goal with
      | |- context [bool_decide (status = ?q)] =>
          destruct (decide (status = q)) as [->|?];
          [ rewrite (bool_decide_eq_true_2 (q = q)) by reflexivity;
            try rewrite (Hnone q eq_refl)
          | rewrite (bool_decide_eq_false_2 (status = q)) by assumption ]
      end;
      repeat match goal with
      | |- context [String.eqb status ?q] =>
          destruct (String.eqb_spec status q) as [->|?]
      end;
      cbn; try reflexivity; try congruence; try lia;
      repeat match goal with
      | |- context [match ?x with Some _ => _ | None => _ end] => destruct x
      end; cbn; try reflexivity; try lia.
  all: unfold group_sum; cbn [foldr fold_right]; lia.
Qed.

Lemma occurrences_map {A} (f : A -> string) k (l : list A) :
  occurrences k (map f l) = Z.of_nat (length (filter (fun i => f i = k) l)).
Proof.
  unfold occurrences. f_equal.
  induction l as [|x l IH]; [reflexivity|].
  cbn [map]. rewrite !filter_cons. destruct (decide (f x = k)); cbn [length]; lia.
Qed.

Lemma occurrences_map_Z {A} (f : A -> Z) k (l : list A) :
  occurrences k (map f l) = Z.of_nat (length (filter (fun i => f i = k) l)).
Proof.
  unfold occurrences. f_equal.
  induction l as [|x l IH]; [reflexivity|].
  cbn [map]. rewrite !filter_cons. destruct (decide (f x = k)); cbn [length]; lia.
Qed.

Lemma length_filter_split {A} (P : A -> Prop) `{forall x, Decision (P x)} (l : list A) :
  (length (filter (fun x => ~ P x) l) + length (filter P l) = length l)%nat.
Proof.
  induction l as [|x l IH]; [reflexivity|].
  rewrite !filter_cons. destruct (decide (P x)); destruct (decide (~ P x));
    cbn [length]; try lia; tauto.
Qed.

Lemma filter_live (l : list IssueRow.t) k :
  k <> "tombstone" ->
  filter (fun i => IssueRow.status i = k)
    (filter (fun i => IssueRow.status i <> "tombstone") l)
  = filter (fun i => IssueRow.status i = k) l.
Proof.
  intros Hk. rewrite list_filter_filter. apply list_filter_iff.
  intros i. split; [tauto|]. intros E. split; [exact E | congruence].
Qed.

Lemma six_statuses (keys : list string) :
  occurrences "open" keys + occurrences "in_progress" keys + occurrences "closed" keys
  + occurrences "blocked" keys + occurrences "deferred" keys + occurrences "pinned" keys
  <= Z.of_nat (length keys).
Proof.
  induction keys as [|k keys IH]; [unfold occurrences; rewrite !filter_nil; cbn; lia|].
  rewrite !occurrences_cons. cbn [length].
  repeat case_decide; subst; try discriminate; lia.
Qed.

Lemma length_filter_le {A} (p : A -> bool) (P : A -> Prop) `{forall x, Decision (P x)}
    (l : list A) :
  (forall x, p x = true -> P x) ->
  (length (List.filter p l) <= length (filter P l))%nat.
Proof.
  intros Hp. induction l as [|x l IH]; [reflexivity|].
  cbn [List.filter]. rewrite filter_cons. destruct (p x) eqn:E.
  - rewrite decide_True by (apply Hp, E). cbn [length]. lia.
  - destruct (decide (P x)); cbn [length]; lia.
Qed.

(** X21. [get_statistics] counts every row once. [total_issues] is the
    number of issues that are no tombstone and [tombstone_issues] the
    number of tombstones, so the two add up to the rows of the table.
    Each status field is the number of issues with that status, the six
    of them are at most the total (issues of another status, such as
    [hooked], count in the total only), and the ready issues are at most
    the open ones. [by_type] and [by_priority] give each type and
    priority that occurs among the live issues its number of issues. *)
Theorem get_statistics_spec s now :
  let st := SQLiteStorage.get_statistics s now in
  let live := filter (fun i => IssueRow.status i <> "tombstone") (Store.issues s) in
  let having status :=
    Z.of_nat (length (filter (fun i => IssueRow.status i = status) (Store.issues s))) in
  Statistics.total_issues st = Z.of_nat (length live)
  /\ Statistics.tombstone_issues st = having "tombstone"
  /\ Statistics.total_issues st + Statistics.tombstone_issues st
     = Z.of_nat (length (Store.issues s))
  /\ (Statistics.open_issues st, Statistics.in_progress_issues st,
      Statistics.closed_issues st, Statistics.blocked_issues st,
      Statistics.deferred_issues st, Statistics.pinned_issues st)
     = (having "open", having "in_progress", having "closed", having "blocked",
        having "deferred", having "pinned")
  /\ Statistics.open_issues st + Statistics.in_progress_issues st
     + Statistics.closed_issues st + Statistics.blocked_issues st
     + Statistics.deferred_issues st + Statistics.pinned_issues st
     <= Statistics.total_issues st
  /\ 0 <= Statistics.ready_issues st <= Statistics.open_issues st
  /\ (forall t, Statistics.by_type st !! t
        = let n := Z.of_nat (length (filter (fun i => IssueRow.issue_type i = t) live)) in
          if n =? 0 then None else Some n)
  /\ (forall p, Statistics.by_priority st !! p
        = let n := Z.of_nat (length (filter (fun i => IssueRow.priority i = p) live)) in
          if n =? 0 then None else Some n).
Proof.
  cbn zeta. unfold SQLiteStorage.get_statistics.
  set (live := filter (fun i => IssueRow.status i <> "tombstone") (Store.issues s)).
  cbn [Statistics.set_by_priority Statistics.set_by_type Statistics.set_ready_issues
       Statistics.set_tombstone_issues Statistics.total_issues Statistics.open_issues
       Statistics.in_progress_issues Statistics.closed_issues Statistics.blocked_issues
       Statistics.deferred_issues Statistics.pinned_issues Statistics.ready_issues
       Statistics.tombstone_issues Statistics.by_type Statistics.by_priority].
  destruct (group_count_spec (map IssueRow.status live)) as (Gu & Gp & Gs & Gc).
  destruct (fold_count_status _ Statistics.empty Gu) as (F0 & F1 & F2 & F3 & F4 & F5 & F6).
  cbn zeta in F0, F1, F2, F3, F4, F5, F6.
  assert (Hpick : forall q, q <> "tombstone" ->
            match snd <$> find (fun kv : string * Z => bool_decide (kv.1 = q))
                            (SQLiteStorage.group_count (map IssueRow.status live)) with
            | Some c => c
            | None => 0
            end
            = Z.of_nat (length (filter (fun i => IssueRow.status i = q) (Store.issues s)))).
  { intros q Hq. rewrite (find_positive _ q Gp), Gc, occurrences_map.
    subst live. rewrite filter_live by exact Hq.
    destruct (Z.of_nat _ =? 0) eqn:E; [apply Z.eqb_eq in E; lia | reflexivity]. }
  assert (Htotal : Statistics.total_issues
            (fold_left SQLiteStorage.count_status
               (SQLiteStorage.group_count (map IssueRow.status live)) Statistics.empty)
            = Z.of_nat (length live)).
  { rewrite F0, Gs, length_map. reflexivity. }
  rewrite F1, F2, F3, F4, F5, F6. cbn [Statistics.empty Statistics.open_issues
    Statistics.in_progress_issues Statistics.closed_issues Statistics.blocked_issues
    Statistics.deferred_issues Statistics.pinned_issues].
  rewrite !Hpick by discriminate. rewrite Htotal.
  split; [reflexivity|]. split; [reflexivity|].
  split.
  { pose proof (length_filter_split (fun i => IssueRow.status i = "tombstone")
                  (Store.issues s)) as Hsplit.
    subst live. lia. }
  split; [reflexivity|].
  split.
  { pose proof (six_statuses (map IssueRow.status live)) as H6.
    rewrite !occurrences_map, length_map in H6.
    subst live. rewrite !filter_live in H6 by discriminate. exact H6. }
  split.
  { split; [lia|]. apply inj_le.
    unfold SQLiteStorage.get_ready_work, SQLiteStorage.ready_rows.
    rewrite length_map, length_sort. apply length_filter_le.
    intros x Hx. apply andb_true_iff in Hx as [Hx _].
    apply ready_where_spec in Hx. apply Hx. }
  split.
  - intros t. destruct (group_count_spec (map IssueRow.issue_type live)) as (Tu & Tp & _ & Tc).
    rewrite fold_insert_groups by exact Tu. rewrite lookup_empty.
    rewrite (find_positive _ t Tp), Tc, occurrences_map.
    destruct (Z.of_nat _ =? 0); reflexivity.
  - intros p. destruct (group_count_spec (map IssueRow.priority live)) as (Pu & Pp & _ & Pc).
    rewrite fold_insert_groups by exact Pu. rewrite lookup_empty.
    rewrite (find_positive _ p Pp), Pc, occurrences_map_Z.
    destruct (Z.of_nat _ =? 0); reflexivity.
Qed.


(* ------------------------------------------------------------------ *)
(** ** The tally of an import *)
(* ------------------------------------------------------------------ *)

Lemma length_drop_id rows d :
  NoDup (map IssueRow.id rows) -> d ∈ map IssueRow.id rows ->
  S (length (Store.drop_key IssueRow.id d rows)) = length rows.
Proof.
  unfold Store.drop_key.
  induction rows as [|x rows IH]; intros Hu Hd; [apply elem_of_nil in Hd; contradiction|].
  cbn [map] in Hu, Hd. apply NoDup_cons in Hu as [Hx Hu].
  rewrite filter_cons. destruct (decide (IssueRow.id x <> d)) as [E|E].
  - apply elem_of_cons in Hd as [Hd|Hd]; [congruence|].
    cbn [length]. rewrite IH by assumption. reflexivity.
  - assert (IssueRow.id x = d) as <- by (destruct (decide (IssueRow.id x = d)); tauto).
    cbn [length]. f_equal. f_equal. apply filter_all.
    intros y Hy Ey. apply Hx. rewrite <- Ey. apply list_elem_of_fmap. eauto.
Qed.

Lemma process_deletions_tally ids : forall r s r' s',
  Exported.ids_unique s ->
  importer.process_deletions ids r s = (Ok r', s') ->
  Exported.ids_unique s'
  /\ tally r' = tally r
  /\ (importer.created r', importer.updated r', importer.unchanged r', importer.skipped r')
     = (importer.created r, importer.updated r, importer.unchanged r, importer.skipped r)
  /\ importer.deleted r <= importer.deleted r'
     <= importer.deleted r + Z.of_nat (length ids)
  /\ Z.of_nat (length (Store.issues s')) + importer.deleted r'
     = Z.of_nat (length (Store.issues s)) + importer.deleted r.
Proof.
  induction ids as [|d ids IH]; intros r s r' s' Hu H; cbn [importer.process_deletions] in H.
  - inversion H; subst. split; [exact Hu|]. split; [reflexivity|]. split; [reflexivity|].
    cbn [length]. lia.
  - db_inv H. apply db_get_ok in Hstep as [-> ->].
    destruct (SQLiteStorage.get_issue s d) as [i|] eqn:Hg.
    + db_inv H. destruct a. unfold SQLiteStorage.delete_issue in Hstep.
      apply db_modify_ok in Hstep. subst s0.
      assert (Hin : d ∈ map IssueRow.id (Store.issues s)).
      { destruct (decide (d ∈ Store.issue_ids s)) as [Hin|Hout]; [exact Hin|].
        apply get_issue_None in Hout. congruence. }
      pose proof (length_drop_id _ d Hu Hin) as Hlen.
      assert (Hu' : Exported.ids_unique (Store.delete_cascade d s)).
      { pose proof (delete_issue_unique d s Hu) as Hp. exact Hp. }
      destruct (IH _ _ _ _ Hu' H) as (H1 & H2 & H3 & H4 & H5).
      split; [exact H1|]. split; [rewrite H2; reflexivity|]. split; [rewrite H3; reflexivity|].
      cbn [importer.add_deleted importer.deleted Store.delete_cascade Store.issues length] in *.
      lia.
    + destruct (IH _ _ _ _ Hu H) as (H1 & H2 & H3 & H4 & H5).
      split; [exact H1|]. split; [exact H2|]. split; [exact H3|]. cbn [length]. lia.
Qed.

Lemma import_one_tally now snap l x s l' s' :
  importer.import_one now snap l x s = (Ok l', s') ->
  tally (importer.result l') = tally (importer.result l) + 1
  /\ importer.deleted (importer.result l') = importer.deleted (importer.result l)
  /\ importer.created (importer.result l) <= importer.created (importer.result l')
  /\ importer.updated (importer.result l) <= importer.updated (importer.result l')
  /\ importer.unchanged (importer.result l) <= importer.unchanged (importer.result l')
  /\ importer.skipped (importer.result l) <= importer.skipped (importer.result l')
  /\ Z.of_nat (length (Store.issues s')) - importer.created (importer.result l')
     = Z.of_nat (length (Store.issues s)) - importer.created (importer.result l).
Proof.
  unfold importer.import_one. intros H. db_inv H.
  assert (Hs0 : s0 = s).
  { destruct (Str.nonempty (Issue.content_hash x)).
    - inversion Hstep. reflexivity.
    - apply db_lift_ok in Hstep as [_ ->]. reflexivity. }
  subst s0. clear Hstep.
  repeat match type of H with
  | (if ?c then _ else _) _ = _ => destruct c
  | (match ?c with Some _ => _ | None => _ end) _ = _ => destruct c
  | (mret _) _ = _ => inversion H; subst; clear H
  end;
  try (unfold tally; cbn; repeat split; lia).
  - db_inv H. apply db_lift_ok in Hstep as [_ ->].
    destruct a0.
    + inversion H; subst. unfold tally. cbn. repeat split; lia.
    + db_inv H. destruct a0. apply update_issue_ok in Hstep as (c & h & _ & _ & Hrows).
      apply update_rows_updated in Hrows. inversion H; subst.
      rewrite Hrows. unfold Integrity.updated. rewrite length_map.
      unfold tally. cbn. repeat split; lia.
  - db_inv H. destruct a0. apply create_issue_ok in Hstep as (h & _ & _ & Hrows).
    inversion H; subst. rewrite Hrows, length_app. cbn [length].
    unfold tally. cbn. repeat split; lia.
Qed.

Lemma import_loop_tally now snap issues : forall l s l' s',
  importer.import_loop now snap l issues s = (Ok l', s') ->
  tally (importer.result l') = tally (importer.result l) + Z.of_nat (length issues)
  /\ importer.deleted (importer.result l') = importer.deleted (importer.result l)
  /\ importer.created (importer.result l) <= importer.created (importer.result l')
  /\ importer.updated (importer.result l) <= importer.updated (importer.result l')
  /\ importer.unchanged (importer.result l) <= importer.unchanged (importer.result l')
  /\ importer.skipped (importer.result l) <= importer.skipped (importer.result l')
  /\ Z.of_nat (length (Store.issues s')) - importer.created (importer.result l')
     = Z.of_nat (length (Store.issues s)) - importer.created (importer.result l).
Proof.
  induction issues as [|x issues IH]; intros l s l' s' H; cbn [importer.import_loop] in H.
  - inversion H; subst. cbn [length]. repeat split; lia.
  - db_inv H. apply import_one_tally in Hstep. apply IH in H.
    cbn [length]. rewrite Nat2Z.inj_succ. repeat split; lia.
Qed.

Lemma compute_hashes_length issues : forall hashed,
  importer.compute_hashes issues = Ok hashed -> length hashed = length issues.
Proof.
  induction issues as [|x issues IH]; intros hashed H; cbn in H.
  - inversion H. reflexivity.
  - destruct (Issue.compute_content_hash x); cbn in H; [|discriminate].
    destruct (importer.compute_hashes issues) as [rest|]; cbn in H; [|discriminate].
    inversion H. cbn [length]. f_equal. apply IH. reflexivity.
Qed.

(** X22. An import that returns has counted every record once: created,
    updated, unchanged and skipped add up to the number of issue
    records, and deleted is at most the number of deletion markers. The
    table of issues has as many rows more as were created, less the
    rows deleted. *)
Theorem import_counts_every_record now issues deletion_ids s r s' :
  Reach.reachable s ->
  importer.import_jsonl now issues deletion_ids s = (Ok r, s') ->
  importer.created r + importer.updated r + importer.unchanged r + importer.skipped r
  = Z.of_nat (length issues)
  /\ 0 <= importer.created r /\ 0 <= importer.updated r
  /\ 0 <= importer.unchanged r /\ 0 <= importer.skipped r
  /\ 0 <= importer.deleted r <= Z.of_nat (length deletion_ids)
  /\ Z.of_nat (length (Store.issues s'))
     = Z.of_nat (length (Store.issues s)) - importer.deleted r + importer.created r.
Proof.
  intros Hs H. apply reachable_unique in Hs. unfold importer.import_jsonl in H.
  db_inv H. apply (process_deletions_tally _ _ _ _ _ Hs) in Hstep as (_ & D2 & D3 & D4 & D5).
  db_inv H. apply db_lift_ok in Hstep as [Hh ->]. apply compute_hashes_length in Hh.
  db_inv H. apply db_get_ok in Hstep as [-> ->].
  db_inv H. apply import_loop_tally in Hstep. inversion H; subst; clear H.
  rewrite length_map, Hh in Hstep. cbn [importer.result] in Hstep.
  inversion D3. unfold tally in *. cbn in *. lia.
Qed.

(** An import of one record and two deletion markers, one of them for
    an issue of the database. *)
Lemma import_counts_every_record_witness :
  Reach.reachable Scenario.one
  /\ (importer.import_jsonl Sample.T2 [Sample.issue "B" "second" 2 Sample.T1] ["A"; "Z"]
        Scenario.one).1 = Ok (importer.mkResult 1 0 0 0 1)
  /\ Z.of_nat (length (Store.issues
       (importer.import_jsonl Sample.T2 [Sample.issue "B" "second" 2 Sample.T1] ["A"; "Z"]
          Scenario.one).2))
     = Z.of_nat (length (Store.issues Scenario.one)) - 1 + 1.
Proof.
  assert (H : importer.import_jsonl Sample.T2 [Sample.issue "B" "second" 2 Sample.T1]
                ["A"; "Z"] Scenario.one
              = (Ok (importer.mkResult 1 0 0 0 1),
                 (importer.import_jsonl Sample.T2 [Sample.issue "B" "second" 2 Sample.T1]
                    ["A"; "Z"] Scenario.one).2))
    by (vm_compute; reflexivity).
  split; [exact reachable_one|]. split; [rewrite H; reflexivity|].
  exact (proj2 (proj2 (proj2 (proj2 (proj2 (proj2
    (import_counts_every_record Sample.T2 [Sample.issue "B" "second" 2 Sample.T1]
       ["A"; "Z"] Scenario.one _ _ reachable_one H))))))).
Defined.


(* ------------------------------------------------------------------ *)
(** ** Exporting twice *)
(* ------------------------------------------------------------------ *)

Lemma set_dirty_issues_same s : Store.set_dirty_issues (Store.dirty_issues s) s = s.
Proof. destruct s. reflexivity. Qed.

Lemma clear_dirty_run ids : forall s,
  SQLiteStorage.clear_dirty ids s
  = (Ok tt, Store.set_dirty_issues
              (filter (fun r => fst r ∉ ids) (Store.dirty_issues s)) s).
Proof.
  unfold SQLiteStorage.clear_dirty.
  induction ids as [|i ids IH]; intros s; cbn [db_for].
  - rewrite filter_all by (intros r _; apply not_elem_of_nil).
    rewrite set_dirty_issues_same. reflexivity.
  - db_unfold. rewrite IH. cbn [Store.dirty_issues Store.set_dirty_issues].
    f_equal. destruct s. unfold Store.set_dirty_issues. cbn. f_equal.
    rewrite list_filter_filter. apply list_filter_iff.
    intros r. rewrite not_elem_of_cons. tauto.
Qed.

Lemma Forall2_functional {A B} (f : A -> PyResult B) (l : list A) :
  forall l1 l2,
  Forall2 (fun i line => f i = Ok line) l l1 ->
  Forall2 (fun i line => f i = Ok line) l l2 -> l1 = l2.
Proof.
  induction l as [|x l IH]; intros l1 l2 H1 H2; inversion H1; inversion H2; subst.
  - reflexivity.
  - f_equal; [congruence | apply IH; assumption].
Qed.

(** X23. After an export that returned, nothing is left to export:
    [flush_dirty_to_jsonl] returns 0 and touches neither the database
    nor a file, and a second [flush_to_jsonl] returns the same count and
    leaves the same database and the same files. *)
Theorem export_twice (json_line : Issue.t -> PyResult string)
    (faults : export.Faults) (jsonl_path : string) (s : Store.t) (fs : export.FS)
    (n : Z) (s' : Store.t) (fs' : export.FS) :
  export.flush_to_jsonl json_line faults jsonl_path s fs = (Ok n, s', fs') ->
  (forall faults',
     export.flush_dirty_to_jsonl json_line faults' jsonl_path s' fs' = (Ok 0, s', fs'))
  /\ export.flush_to_jsonl json_line export.no_faults jsonl_path s' fs' = (Ok n, s', fs').
Proof.
  unfold export.flush_to_jsonl. fold (Exported.tmp_path jsonl_path).
  pose proof (write_and_replace_spec json_line faults jsonl_path
                (export.enriched s) fs) as Hw.
  destruct (export.write_and_replace _ _ _ _ _ _) as [[k|e] fs1]; [|discriminate].
  destruct Hw as (lines & Hl & -> & ->).
  rewrite clear_dirty_run. intros H. inversion H; subst n s' fs'; clear H.
  set (sc := Store.set_dirty_issues _ s).
  assert (Hclean : SQLiteStorage.get_dirty_issues sc = []).
  { destruct (clear_all_dirty s) as (s2 & Hrun & Hnone & _).
    rewrite clear_dirty_run in Hrun. inversion Hrun; subst s2. exact Hnone. }
  split.
  { intros faults'. unfold export.flush_dirty_to_jsonl. rewrite Hclean. reflexivity. }
  change (export.enriched sc) with (export.enriched s).
  pose proof (write_and_replace_spec json_line export.no_faults jsonl_path
                (export.enriched s)
                (<[jsonl_path := lines]> (delete (Exported.tmp_path jsonl_path) fs))) as Hw2.
  assert (Hret : exists k2 fs2,
            export.write_and_replace json_line export.no_faults jsonl_path
              (Exported.tmp_path jsonl_path) (export.enriched s)
              (<[jsonl_path := lines]> (delete (Exported.tmp_path jsonl_path) fs))
            = (Ok k2, fs2)).
  { unfold export.write_and_replace. cbn [export.open_fails export.no_faults].
    destruct (write_lines_returns json_line (Exported.tmp_path jsonl_path)
                (export.enriched s) 0%nat
                (<[Exported.tmp_path jsonl_path := []]>
                   (<[jsonl_path := lines]> (delete (Exported.tmp_path jsonl_path) fs))))
      as (k2 & fs2 & ->).
    { apply Forall_forall. intros i Hi.
      apply list_elem_of_lookup in Hi as (j & Hj).
      destruct (Forall2_lookup_l _ _ _ _ _ Hl Hj) as (line & _ & Hline).
      rewrite Hline. reflexivity. }
    cbn [export.close_fails export.replace_fails]. eauto. }
  destruct Hret as (k2 & fs2 & Hret). rewrite Hret in Hw2 |- *.
  destruct Hw2 as (lines2 & Hl2 & -> & ->).
  rewrite (Forall2_functional json_line _ _ _ Hl2 Hl).
  rewrite clear_dirty_run, Hclean.
  rewrite filter_all by (intros r _; apply not_elem_of_nil).
  rewrite set_dirty_issues_same. f_equal.
  rewrite delete_insert_ne by apply tmp_path_differs.
  rewrite delete_delete_eq, insert_insert_eq. reflexivity.
Qed.

(** The export of the sample, and the two calls after it. *)
Lemma export_twice_witness :
  let first := export.flush_to_jsonl Sample.id_line export.no_faults "issues.jsonl"
                 Sample.mixed Sample.old_log in
  first = (Ok 2, first.1.2, first.2)
  /\ export.flush_dirty_to_jsonl Sample.id_line export.no_faults "issues.jsonl"
       first.1.2 first.2 = (Ok 0, first.1.2, first.2).
Proof.
  cbn zeta.
  assert (H : export.flush_to_jsonl Sample.id_line export.no_faults "issues.jsonl"
                Sample.mixed Sample.old_log
              = (Ok 2,
                 (export.flush_to_jsonl Sample.id_line export.no_faults "issues.jsonl"
                    Sample.mixed Sample.old_log).1.2,
                 (export.flush_to_jsonl Sample.id_line export.no_faults "issues.jsonl"
                    Sample.mixed Sample.old_log).2))
    by (vm_compute; reflexivity).
  split; [exact H|].
  exact (proj1 (export_twice Sample.id_line export.no_faults "issues.jsonl"
                  Sample.mixed Sample.old_log 2 _ _ H) export.no_faults).
Defined.


(* ------------------------------------------------------------------ *)
(** ** Creating an issue and reading it back *)
(* ------------------------------------------------------------------ *)



Lemma sql_length_le s : Str.sql_length s <= Str.py_len s.
Proof.
  induction s as [|a s IH]; cbn [Str.sql_length Str.py_len]; [lia|].
  pose proof (py_len_nonneg s).
  destruct (Ascii.eqb a zero); destruct (Str.is_continuation a); lia.
Qed.

(** What [validate] accepts passes the CHECKs of the table. *)
Lemma validate_check_issue_row json_loads_ok issue h :
  Issue.validate json_loads_ok issue = None ->
  Schema.check_issue_row (SQLiteStorage.issue_row issue h) = true.
Proof.
  intros H. unfold Issue.validate in H.
  repeat match type of H with
         | (if ?c then _ else _) = None => destruct c eqn:?; [discriminate|]
         end.
  unfold Schema.check_issue_row, Schema.check_closed.
  cbn [SQLiteStorage.issue_row IssueRow.title IssueRow.priority IssueRow.status
       IssueRow.closed_at].
  unfold Status.CLOSED, Status.TOMBSTONE in *.
  pose proof (sql_length_le (Issue.title issue)).
  repeat match goal with
         | E : (_ <? _) = false |- _ => apply Z.ltb_ge in E
         | E : (_ || _) = false |- _ => apply orb_false_iff in E as [? ?]
         end.
  rewrite !andb_true_iff. split; [split|].
  - apply Z.leb_le. lia.
  - split; apply Z.leb_le; lia.
  - assert (Hsome : bool_decide (is_Some (stored_datetime <$> Issue.closed_at issue))
                    = bool_decide (is_Some (Issue.closed_at issue))).
    { destruct (Issue.closed_at issue); reflexivity. }
    rewrite Hsome.
    destruct (String.eqb (Issue.status issue) "closed") eqn:Ec;
      destruct (String.eqb (Issue.status issue) "tombstone") eqn:Et;
      destruct (bool_decide (is_Some (Issue.closed_at issue))) eqn:Es;
      destruct (bool_decide (Issue.status issue ∈ ["closed"; "tombstone"])) eqn:Em;
      cbn in *; try reflexivity; try discriminate.
    all: exfalso;
      repeat match goal with
             | E : String.eqb _ _ = true |- _ => apply String.eqb_eq in E
             | E : String.eqb _ _ = false |- _ => apply String.eqb_neq in E
             | E : bool_decide _ = true |- _ => apply bool_decide_eq_true in E
             | E : bool_decide _ = false |- _ => apply bool_decide_eq_false in E
             end;
      rewrite !elem_of_cons, elem_of_nil in *; try tauto; try congruence.
Qed.

Lemma insert_issue_run r s :
  SQLiteStorage.check_row r = Ok tt ->
  Store.has_issue s (IssueRow.id r) = false ->
  SQLiteStorage.insert_issue r s
  = (Ok tt, Store.set_issues (Store.issues s ++ [r]) s).
Proof.
  intros Hc Hn. unfold SQLiteStorage.insert_issue. db_unfold. rewrite Hc. cbn.
  rewrite Hn. reflexivity.
Qed.

(** A loop of inserts that cannot fail: it returns, and the rows of
    [issues] are as before. *)
Lemma db_for_returns {A} (body : A -> DB unit) (P : Store.t -> Prop) (l : list A) :
  (forall x s, x ∈ l -> P s ->
     exists s', body x s = (Ok tt, s') /\ P s' /\ Store.issues s' = Store.issues s) ->
  forall s, P s ->
  exists s', db_for l body s = (Ok tt, s') /\ P s' /\ Store.issues s' = Store.issues s.
Proof.
  induction l as [|x l IH]; intros Hb s Hs; cbn [db_for].
  - exists s. auto.
  - destruct (Hb x s (list_elem_of_here _ _) Hs) as (s1 & H1 & P1 & I1).
    destruct (IH (fun y t Hy => Hb y t (list_elem_of_further _ _ _ Hy)) s1 P1)
      as (s2 & H2 & P2 & I2).
    exists s2. split; [|split; [exact P2 | congruence]].
    rewrite (db_bind_run _ _ _ _ _ H1). exact H2.
Qed.

(** X25. [create_issue] stores every issue that [validate] accepts:
    the title, priority and [closed_at] rules of [validate] imply the
    CHECKs of the table. It returns when, besides, the id is new, the
    assignee is a string, the integers fit SQLite's INTEGER, no
    validation carries a datetime, and every comment names the issue
    itself or an issue of the database. Labels and dependencies never
    make it fail. *)
Theorem valid_issue_is_created json_loads_ok now issue actor s :
  Issue.validate json_loads_ok issue = None ->
  Issue.id issue ∉ Store.issue_ids s ->
  is_Some (Issue.assignee issue) ->
  Forall (fun n => in_int64 n = true)
    (omap id [Issue.estimated_minutes issue; Some (Issue.compaction_level issue);
              Some (Issue.original_size issue); Some (Issue.timeout issue)]) ->
  Forall (fun v => exists t, Validation.timestamp v = TsStr t) (Issue.validations issue) ->
  Forall (fun c => str_or (Comment.issue_id c) (Issue.id issue)
                   ∈ Issue.id issue :: Store.issue_ids s) (Issue.comments issue) ->
  exists s',
    SQLiteStorage.create_issue now issue actor s = (Ok tt, s')
    /\ is_Some (SQLiteStorage.get_issue s' (Issue.id issue))
    /\ forall j, j ∈ Store.issue_ids s -> j ∈ Store.issue_ids s'.
Proof.
  intros Hv Hnew [a Ha] Hints Hvals Hcs.
  set (h := SHA256.hexdigest (ContentHash.stream a issue)).
  set (r := SQLiteStorage.issue_row issue h).
  assert (Hh : Issue.compute_content_hash issue = Ok h).
  { unfold Issue.compute_content_hash. rewrite (hash_fields_spec issue a Ha). reflexivity. }
  assert (Hj : SQLiteStorage.json_dumps_validations (Issue.validations issue) = Ok tt).
  { unfold SQLiteStorage.json_dumps_validations.
    assert (E : forallb (fun v => match Validation.timestamp v with
                                  | TsStr _ => true
                                  | TsDatetime _ => false
                                  end) (Issue.validations issue) = true).
    { apply forallb_forall. intros v Hin. rewrite Forall_forall in Hvals.
      apply list_elem_of_In, Hvals in Hin. destruct Hin as [t ->]. reflexivity. }
    rewrite E. reflexivity. }
  assert (Hc : SQLiteStorage.check_row r = Ok tt).
  { unfold SQLiteStorage.check_row, r.
    rewrite (validate_check_issue_row json_loads_ok issue h Hv).
    assert (E : forallb in_int64 (SQLiteStorage.row_ints (SQLiteStorage.issue_row issue h))
                = true).
    { unfold SQLiteStorage.row_ints. cbn [forallb].
      apply andb_true_iff. split.
      - pose proof (validate_check_issue_row json_loads_ok issue h Hv) as Hck.
        unfold Schema.check_issue_row in Hck. rewrite !andb_true_iff in Hck.
        destruct Hck as [[_ [H0 H4]] _]. apply Z.leb_le in H0, H4.
        unfold in_int64. apply andb_true_iff. split; apply Z.leb_le; lia.
      - apply forallb_forall. intros n Hn. rewrite Forall_forall in Hints.
        apply Hints, list_elem_of_In. exact Hn. }
    rewrite E. reflexivity. }
  set (s1 := Store.set_issues (Store.issues s ++ [r]) s).
  set (P := fun t : Store.t => forall j, j ∈ Issue.id issue :: Store.issue_ids s ->
                                         Store.has_issue t j = true).
  assert (P1 : P s1).
  { intros j Hj'. apply has_issue_true. unfold Store.issue_ids. subst s1. cbn.
    rewrite map_app, elem_of_app. cbn. rewrite list_elem_of_singleton.
    apply elem_of_cons in Hj' as [->|Hj']; auto. }
  assert (Hkeep : forall t t', Store.issues t' = Store.issues t -> P t -> P t').
  { intros t t' E Ht j Hj'. unfold Store.has_issue, Store.issue_ids. rewrite E. apply Ht, Hj'. }
  assert (L2 : exists s2,
            db_for (Issue.labels issue)
              (fun label => SQLiteStorage.insert_label (Issue.id issue) label) s1
            = (Ok tt, s2) /\ P s2 /\ Store.issues s2 = Store.issues s1).
  { apply (db_for_returns _ P); [|exact P1]. intros l t _ Ht. unfold SQLiteStorage.insert_label. db_unfold.
    rewrite (Ht (Issue.id issue) (list_elem_of_here _ _)). cbn.
    destruct (bool_decide _); eexists; (split; [reflexivity|]); split; auto.
    all: try (eapply Hkeep; [|exact Ht]; reflexivity). }
  destruct L2 as (s2 & R2 & P2 & I2).
  assert (L3 : exists s3,
            db_for (Issue.dependencies issue)
              (fun dep => db_except_integrity (SQLiteStorage.insert_dependency
                 (Dependency.mk (Dependency.issue_id dep) (Dependency.depends_on_id dep)
                    (Dependency.type dep) (stored_datetime (Dependency.created_at dep))
                    (Dependency.created_by dep) (Dependency.metadata dep)
                    (Dependency.thread_id dep)))) s2
            = (Ok tt, s3) /\ P s3 /\ Store.issues s3 = Store.issues s2).
  { apply (db_for_returns _ P); [|exact P2]. intros d t _ Ht. unfold db_except_integrity, SQLiteStorage.insert_dependency,
      SQLiteStorage.FK_FAILED. db_unfold.
    destruct (negb _); [eexists; split; [reflexivity|]; auto|].
    destruct (SQLiteStorage.has_edge _ _ _); eexists; (split; [reflexivity|]); split; auto.
    all: try (eapply Hkeep; [|exact Ht]; reflexivity). }
  destruct L3 as (s3 & R3 & P3 & I3).
  assert (L4 : exists s4,
            db_for (Issue.comments issue)
              (fun comment =>
                 SQLiteStorage.insert_comment
                   (str_or (Comment.issue_id comment) (Issue.id issue))
                   (Comment.author comment) (Comment.text comment)
                   (Comment.created_at comment) ≫= fun _ => mret tt) s3
            = (Ok tt, s4) /\ P s4 /\ Store.issues s4 = Store.issues s3).
  { apply (db_for_returns _ P); [|exact P3]. intros c t Hin Ht. rewrite Forall_forall in Hcs. specialize (Hcs c Hin).
    unfold SQLiteStorage.insert_comment. db_unfold. rewrite (Ht _ Hcs). cbn.
    eexists. split; [reflexivity|]. split; [|reflexivity].
    all: try (eapply Hkeep; [|exact Ht]; reflexivity). }
  destruct L4 as (s4 & R4 & P4 & I4).
  pose proof (trail_run now EventType.CREATED (Issue.id issue) actor None None None s4
                (P4 _ (list_elem_of_here _ _))) as R5.
  eexists. split.
  { unfold SQLiteStorage.create_issue.
    rewrite (db_bind_run _ _ s h s) by (unfold db_lift; rewrite Hh; reflexivity).
    rewrite (db_bind_run _ _ s tt s) by (unfold db_lift; rewrite Hj; reflexivity).
    rewrite (db_bind_run _ _ s tt s1).
    2: { apply insert_issue_run; [exact Hc|]. apply has_issue_false. exact Hnew. }
    rewrite (db_bind_run _ _ _ _ _ R2), (db_bind_run _ _ _ _ _ R3),
      (db_bind_run _ _ _ _ _ R4).
    exact R5. }
  assert (Hrows : Store.issues
            (Trail.logged now EventType.CREATED (Issue.id issue) actor None None None s4)
            = (Store.issues s ++ [r])%list).
  { cbn [Trail.logged Store.issues]. rewrite I4, I3, I2. reflexivity. }
  split.
  - destruct (SQLiteStorage.get_issue _ (Issue.id issue)) eqn:Hg; [eauto|].
    apply get_issue_None in Hg. exfalso. apply Hg.
    unfold Store.issue_ids. rewrite Hrows, map_app, elem_of_app. right.
    apply list_elem_of_singleton. reflexivity.
  - intros j Hj'. unfold Store.issue_ids. rewrite Hrows, map_app, elem_of_app. auto.
Qed.


(** A new issue that [validate] accepts, created in an empty database. *)
Lemma valid_issue_is_created_witness :
  Issue.validate (fun _ => true) (Sample.issue "A" "first" 2 Sample.T0) = None
  /\ exists s',
       SQLiteStorage.create_issue Sample.T0 (Sample.issue "A" "first" 2 Sample.T0) "alice"
         Store.empty = (Ok tt, s').
Proof.
  assert (Hv : Issue.validate (fun _ => true) (Sample.issue "A" "first" 2 Sample.T0) = None)
    by (vm_compute; reflexivity).
  split; [exact Hv|].
  destruct (valid_issue_is_created (fun _ => true) Sample.T0
              (Sample.issue "A" "first" 2 Sample.T0) "alice" Store.empty Hv)
    as (s' & H & _).
  - apply not_elem_of_nil.
  - eexists. reflexivity.
  - repeat constructor.
  - constructor.
  - constructor.
  - exists s'. exact H.
Defined.


(* ------------------------------------------------------------------ *)
(** ** The event of a status change, and comments *)
(* ------------------------------------------------------------------ *)

(** X26. When [update_issue] sets the status, the event it records
    does not keep the status the issue had: the old value is read from
    the object after the new values were assigned to it, so the event
    carries the new status twice. The hash stored with the row is the
    hash of the issue with the new values. *)
Theorem update_issue_status_event now i u actor s s' new_status :
  Reach.reachable s ->
  SQLiteStorage.update_issue now i u actor s = (Ok tt, s') ->
  Updates.status u = Some new_status ->
  (exists e,
     Store.events s' = (Store.events s ++ [e])%list
     /\ Event.issue_id e = i
     /\ Event.event_type e = "status_changed"
     /\ Event.actor e = actor
     /\ Event.old_value e = Some new_status
     /\ Event.new_value e = Some new_status)
  /\ exists current got,
       SQLiteStorage.get_issue s i = Some current
       /\ SQLiteStorage.get_issue s' i = Some got
       /\ Issue.compute_content_hash (SQLiteStorage.setattrs u current)
          = Ok (Issue.content_hash got)
       /\ Issue.status got = str_or new_status "open".
Proof.
  intros Hs H Hst. apply reachable_unique in Hs.
  split.
  - unfold SQLiteStorage.update_issue in H.
    db_inv H. apply db_get_ok in Hstep as [-> ->].
    destruct (SQLiteStorage.get_issue s i) as [current|]; [|discriminate].
    db_inv H. apply db_lift_ok in Hstep as [_ ->].
    db_inv H. destruct a0.
    assert (He : Store.events s0 = Store.events s).
    { eapply (keeps_ok Store.events); [|exact Hstep]. apply update_where_id_events. }
    rewrite Hst in H. apply trail_ok in H as [_ ->].
    eexists. split; [cbn [Trail.logged Store.events]; rewrite He; reflexivity|].
    cbn [Event.issue_id Event.event_type Event.actor Event.old_value Event.new_value
         SQLiteStorage.setattrs Issue.status]. rewrite Hst.
    repeat split; reflexivity.
  - destruct (update_issue_row now i u actor s s' Hs H) as (r & h & Hr & Hid & Hh & Hin & Hget).
    exists (Exported.full s r), (Exported.full s' (SQLiteStorage.set_columns u now (Some h) r)).
    split; [rewrite <- Hid; apply get_issue_of_row; assumption|].
    split; [exact Hget|]. split.
    + rewrite Hh. f_equal. symmetry.
      cbn [Exported.full SQLiteStorage.with_relations Issue.assign Issue.content_hash
           SQLiteStorage._row_to_issue SQLiteStorage.set_columns IssueRow.content_hash
           Updates.pick SQLiteStorage.text_or_empty]. apply str_or_empty.
    + cbn [Exported.full SQLiteStorage.with_relations Issue.assign Issue.status
           SQLiteStorage._row_to_issue SQLiteStorage.set_columns IssueRow.status].
      rewrite Hst. reflexivity.
Qed.

(** X27. [add_comment] gives the comment the next id, above the id of
    every comment there is; the comment is then among the comments of
    the issue, with the author, the text and the time of the call, the
    comments of the other issues are as before, and the next comment
    gets the next id. *)
Theorem add_comment_spec now i author text s cid s' :
  Reach.reachable s ->
  SQLiteStorage.add_comment now i author text s = (Ok cid, s') ->
  cid = Store.comment_seq s + 1
  /\ (forall c, c ∈ Store.comments s -> Comment.id c < cid)
  /\ Comment.mk cid i author text (stored_datetime now) ∈ SQLiteStorage.get_comments s' i
  /\ (forall c, c ∈ SQLiteStorage.get_comments s' i <->
        c ∈ SQLiteStorage.get_comments s i
        \/ c = Comment.mk cid i author text (stored_datetime now))
  /\ (forall j, j <> i -> SQLiteStorage.get_comments s' j = SQLiteStorage.get_comments s j)
  /\ Store.comment_seq s' = cid.
Proof.
  intros Hs H. apply reachable_keys in Hs as (_ & _ & _ & [_ Hseq] & _).
  unfold SQLiteStorage.add_comment in H. db_inv H.
  unfold SQLiteStorage.insert_comment in Hstep. db_unfold.
  destruct (Store.has_issue s i) eqn:Hi; [|discriminate].
  cbn in Hstep. inversion Hstep; subst a s0; clear Hstep.
  destruct (SQLiteStorage._record_event now i EventType.COMMENTED author None (Some text) None
              (Store.add_comment_row
                 (Comment.mk (Store.comment_seq s + 1) i author text (stored_datetime now)) s))
    as [[[]|e] s1] eqn:He; [|discriminate].
  destruct (SQLiteStorage.mark_dirty now i s1) as [[[]|e] s2] eqn:Hd; [|discriminate].
  inversion H; subst cid s'; clear H.
  assert (Hc : Store.comments s2
               = (Store.comments s ++
                  [Comment.mk (Store.comment_seq s + 1) i author text (stored_datetime now)])%list
               /\ Store.comment_seq s2 = Store.comment_seq s + 1).
  { apply mark_dirty_run in Hd. subst s2.
    unfold SQLiteStorage._record_event in He. db_unfold.
    destruct (Store.has_issue _ i); [|discriminate]. inversion He; subst s1.
    split; reflexivity. }
  destruct Hc as [Hc Hq].
  assert (Hmem : forall j c, c ∈ SQLiteStorage.get_comments s2 j <->
            c ∈ SQLiteStorage.get_comments s j
            \/ (c = Comment.mk (Store.comment_seq s + 1) i author text (stored_datetime now)
                /\ j = i)).
  { intros j c. unfold SQLiteStorage.get_comments.
    rewrite !elem_of_sort, !list_elem_of_filter, Hc, elem_of_app, list_elem_of_singleton.
    split.
    - intros [E [Hin| ->]]; [left; auto|]. right. split; [reflexivity|]. cbn in E. congruence.
    - intros [[E Hin]|[-> ->]]; [auto|]. split; [reflexivity | auto]. }
  split; [reflexivity|]. split.
  { intros c Hin. rewrite Forall_forall in Hseq.
    assert (Comment.id c <= Store.comment_seq s).
    { apply Hseq. apply list_elem_of_fmap. eauto. }
    lia. }
  split; [apply Hmem; right; auto|]. split.
  { intros c. rewrite Hmem. split; (intros [H|H]; [left; exact H | right]); tauto. }
  split; [|exact Hq].
  intros j Hj. unfold SQLiteStorage.get_comments. rewrite Hc, filter_app.
  rewrite (filter_none _ [_]); [rewrite app_nil_r; reflexivity|].
  intros c Hin E. apply list_elem_of_singleton in Hin. subst c. cbn in E. congruence.
Qed.

(** The first comment on [A]. *)
Lemma add_comment_spec_witness :
  Reach.reachable Scenario.one
  /\ SQLiteStorage.add_comment Sample.T1 "A" "bob" "looks good" Scenario.one
     = (Ok 1, (SQLiteStorage.add_comment Sample.T1 "A" "bob" "looks good" Scenario.one).2)
  /\ Comment.mk 1 "A" "bob" "looks good" (stored_datetime Sample.T1)
     ∈ SQLiteStorage.get_comments
         (SQLiteStorage.add_comment Sample.T1 "A" "bob" "looks good" Scenario.one).2 "A".
Proof.
  assert (H : SQLiteStorage.add_comment Sample.T1 "A" "bob" "looks good" Scenario.one
     = (Ok 1, (SQLiteStorage.add_comment Sample.T1 "A" "bob" "looks good" Scenario.one).2))
    by (vm_compute; reflexivity).
  split; [exact reachable_one|]. split; [exact H|].
  exact (proj1 (proj2 (proj2 (add_comment_spec Sample.T1 "A" "bob" "looks good"
                                Scenario.one 1 _ reachable_one H)))).
Defined.

(** The status of [A] set to [in_progress]. *)
Lemma update_issue_status_event_witness :
  Reach.reachable Scenario.one
  /\ SQLiteStorage.update_issue Sample.T1 "A"
       (Sample.updates None (Some "in_progress") None None) "alice" Scenario.one
     = (Ok tt, (SQLiteStorage.update_issue Sample.T1 "A"
                  (Sample.updates None (Some "in_progress") None None) "alice"
                  Scenario.one).2)
  /\ exists e,
       Store.events (SQLiteStorage.update_issue Sample.T1 "A"
                       (Sample.updates None (Some "in_progress") None None) "alice"
                       Scenario.one).2
       = (Store.events Scenario.one ++ [e])%list
       /\ Event.old_value e = Some "in_progress"
       /\ Event.new_value e = Some "in_progress".
Proof.
  assert (H : SQLiteStorage.update_issue Sample.T1 "A"
       (Sample.updates None (Some "in_progress") None None) "alice" Scenario.one
     = (Ok tt, (SQLiteStorage.update_issue Sample.T1 "A"
                  (Sample.updates None (Some "in_progress") None None) "alice"
                  Scenario.one).2))
    by (vm_compute; reflexivity).
  split; [exact reachable_one|]. split; [exact H|].
  destruct (proj1 (update_issue_status_event Sample.T1 "A"
                     (Sample.updates None (Some "in_progress") None None) "alice"
                     Scenario.one _ "in_progress" reachable_one H eq_refl))
    as (e & He & _ & _ & _ & Ho & Hn).
  exists e. split; [exact He|]. split; [exact Ho | exact Hn].
Defined.
